(* ===== verification/_CoqProject ===== *)
-Q . S2P
Prelude.v
Gf256.v
Linear.v
Types.v
Instances.v
Serde.v
External.v
Hommac.v
Merkle.v
F64.v
Encoder.v
Decoder.v
DecoderRank.v
Recoder.v
Engine.v
Hlc.v
Wire.v
Events.v
ObjCache.v
ObjStore.v
StoreConc.v
PageIndex.v
Vfs.v
VfsConc.v
Swim.v
Health.v
Repair.v
Sql.v
Keys.v
Dht.v
DhtConc.v
Pending.v
Pool.v
PoolConc.v
Endpoint.v
Network.v
Gossip.v
Cluster.v
Host.v
Handler.v
Rpc.v
Node.v
NodeInv.v
Pipeline.v
Boot.v
Providers.v
Cli.v
Scheduler.v
Runtime.v
Process.v
Demo.v
