(* ===== verification/Prelude.v ===== *)
(** * Craftec: a verification library

    Craftec (crates/ under the repository root) is a peer-to-peer storage and
    compute node.  Data is split and coded into redundant pieces by random linear
    network coding, kept in a content-addressed object store, versioned as database
    pages by a virtual file system under a SQL database, spread and repaired over a
    gossip membership protocol, and used by sandboxed WASM programs.  This library
    models those parts as executable definitions translated from the Rust source
    and proves what makes each of them correct.

    ** Layers and files

    Coding (crates/craftec-rlnc, crates/craftec-crypto):
    - [Gf256]: gf256.rs.  The field GF(2^8), its tables and the vector kernel.  The
      table product equals the bitwise product; the field laws.
    - [Linear]: vectors over the field, the accumulation loops as linear
      combinations, spans and subspaces.
    - [Hommac]: hommac.rs.  Tags are homomorphic; the second implementation of the
      check in piece.rs agrees with it.
    - [Merkle]: hash.rs.  The Merkle root binds leaf lists of one length.
    - [F64]: the floating-point operations the code uses, on [SpecFloat].
    - [Encoder], [Decoder], [Recoder], [Engine]: encoder.rs, decoder.rs, recoder.rs,
      engine.rs.  [DecoderRank] relates the decoder's answers to linear
      independence.  Decoding any mix of encoded, recoded and malformed pieces
      returns the data exactly when the well-formed coding vectors span.

    Types and protocol (crates/craftec-types):
    - [Types]: cid.rs, piece.rs, error.rs; [Serde]: the serde instances of cid.rs.
    - [Hlc]: hlc.rs.  Threads load, compute and compare-and-swap one 64-bit word;
      timestamps are strictly increasing along the modification order.
    - [Wire]: wire.rs.  Framing of messages and RPC: round trips, truncation, and
      no confusion between kinds of frames.

    Storage (crates/craftec-obj, craftec-vfs, craftec-sql):
    - [ObjStore]: store.rs, shard.rs, bloom.rs.  The store refines a map from CIDs to
      contents under every I/O outcome, those of the metadata calls and of the
      directory walks included; what it returns hashes to what was asked.
      [ContentStore]/[ContentStoreLaws] is the contract its clients use; there the
      metadata call of a [put] answers, since one that fails makes [put] write the
      object again, which with colliding digests would be another object.
    - [StoreConc]: the same operations split at every access to disk, cache and bloom
      filter, run by any number of tasks, with crashes and reopening.  Without two
      writers of one object the interleaved store still refines a map, reads are
      verified and a finished put is visible; two writers can tear an object.
    - [PageIndex]: page_index.rs.  The page map and its byte format.
    - [Vfs]: vfs.rs, page_cache.rs, snapshot.rs.  Proved against [ContentStoreLaws]:
      the VFS refines a map of committed pages with a map of pending ones;
      snapshots stay readable.
    - [VfsConc]: reads, writes, commits and snapshots interleaved access by access.
      Reads return written pages and the root names the index when no commit runs; a
      read or snapshot that overlaps a commit mixes versions.
    - [Sql]: database.rs, commit.rs, rpc_write.rs, schema.rs, identity.rs (verify).
      After a successful statement the root names pages that make up libsql's file;
      in every interleaving of signed-write handlers the database runs only
      statements its owner signed.

    Network and health (crates/craftec-net, craftec-health):
    - [Swim]: swim.rs.  Messages, probes and ticks as a step relation, a tick being
      split where it passes over the table or changes it ([tick_step]); a dead node
      stays dead until a higher incarnation; what an undisturbed tick does
      ([protocol_tick]), and when a node is told that it is suspected.
    - [Cluster]: any number of honest nodes running [Swim] against each other over a
      network that loses, repeats and reorders.  Nobody is held for a member that did
      not run, and only a node whose probes may fail is held for suspected or dead.
    - [Dht], [Pending], [Pool]: dht.rs, pending.rs, pool.rs.  The provider table
      refines a map of announcements; each waiter follows its own state machine;
      the pool is bounded and evicts a least recently used connection.
      [DhtConc]: the provider table used by several tasks, access by access; it still
      holds exactly the announcements not removed since, and a removal that has
      finished has removed everything it was called for.
      [PoolConc]: the pool used by several tasks; one insertion at a time keeps the
      bound, two at a time exceed any.
    - [Health], [Repair]: tracker.rs, scanner.rs, coordinator.rs, repair.rs, and
      piece_store.rs of craftec-node.  The scan reaches every eligible CID; nodes
      with the same view elect the same repairers; a repair sends a valid piece.

    - [Endpoint]: endpoint.rs, connection.rs.  Sending over cached or fresh
      connections, accepting, bootstrap, the readers of the four kinds of
      connections and the stream limit of RPC connections; messages arrive as they
      were sent, and no interleaving of streams revives a dead member.
    - [Network]: any number of endpoints that dial, accept, send, read and answer.
      What handlers are given was sent to them, at most once, by a node that dialled
      them; the first message between two nodes arrives; answers, and messages over
      an accepted connection, are lost.
    - [Gossip]: the loops of swim.rs and the announcements of dht.rs over the
      endpoint: who is told of a CID, what a probe concludes, and that neither joining
      nor pinging brings a dead member back.

    Compute (crates/craftec-com):
    - [Host]: host.rs.  The host functions at their integer widths, with panics.
    - [Scheduler]: scheduler.rs.  Starts, stops and task loops split at each access to
      the shared maps and interleaved; a task is aborted where it waits, and a panic
      of an agent's host call ends it while its program still counts as running.
    - [Runtime]: runtime.rs, agent.rs.  One invocation of an agent under a fuel
      limit, over Wasmtime as a parameter, which looks at the fuel at metering points
      only: it ends within bounds, also when a host call panics.

    Node (crates/craftec-node, and identity.rs, config.rs, event.rs, sign.rs):
    - [Keys]: key pairs, the key file, the configuration file and its overrides.  A
      file whose metadata cannot be read counts as absent, as in the code; the key
      file is then replaced.
    - [Events]: event.rs, event_bus.rs.  The bus over a broadcast channel.
    - [ObjCache]: cache.rs of craftec-obj, with the recency order.
    - [Handler]: handler.rs.  The inbound message handler over the component models:
      a piece request is answered with stored pieces, or with one that alone decodes
      to the object.  Whether the answer is handled by anyone is a matter of [Network].
    - [Rpc]: rpc.rs.  The RPC handler: the store's part refines a map, statements
      need the owner's signature.
    - [Node]: the run loops of node.rs on one state, [CraftecNode]: the dispatch
      loop, the encoding tasks, repairs, announcements and pruners.  The cascade of
      events and tasks that one write starts comes to rest.
    - [NodeInv]: the invariant of the running node under everything that can happen
      to it ([evolves]), the tasks of the endpoint and of the membership loop included
      ([net_act]); stored objects are never lost, indexed pieces are stored and decode
      to their content, encoding tasks complete, dead peers are purged.
    - [Pipeline]: the health scanner, its bounded channel and the repair executor as
      tasks of the running node.  Requests are executed once and in order, the tasks
      never hang, what leaves is a mix of local pieces with the coefficients drawn;
      no repair is ever recorded.
    - [Boot]: start-up with each of its failures, the start of the loops, shutdown;
      a restarted node is the same node with the same objects, provided the metadata
      calls of its start-up answer ([boot_seen]).
    - [Providers]: a network of whole nodes ([fleet_step]) that start, act, send
      announcements, stop and start again; announcements are lost, repeated and
      delayed.  Whoever a provider table lists for a CID has its content and answers a
      request for it with pieces.  Every announcement sent may be delivered there, also
      one that [Network] shows to be lost, so only safety is stated.
    - [Cli]: cli.rs.  The command-line client against the node's RPC streams, which
      take requests of up to 4 MiB.
    - [Process]: main.rs, shutdown.rs.  A process from its arguments to its exit on a
      machine that keeps its files; the next process runs the same node with every
      object, however the last one ended.
    - [Demo]: small instances of everything external and a node that is started,
      fed, restarted and queried; the theorems of the last three groups applied to
      it.

    [Prelude] holds results, machine integers, byte lists, slices, tactics and
    shared lemmas; [External] the laws of the [lru] and bloom filter crates with
    concrete instances; [Instances] a toy digest, a hexadecimal codec and the
    decision procedures with which the concrete runs are computed.

    ** Conventions

    A Rust [Result] is [result]; state is passed explicitly; an unsigned integer of
    [w] bits is a [Z] with [wrap w] at every operation that can overflow; bytes,
    CIDs, node ids and signatures are [list Z].  Hash maps are [gmap]s, and where
    the iteration order matters it is an argument that permutes the entries.
    Random draws, clock readings and I/O outcomes are arguments, so a theorem that
    quantifies over them covers every run.  Error payloads keep the source's
    structured fields; message strings keep their fixed part.  Logging is left out.

    Code outside the repository is a type class of operations with, where a theorem
    needs them, a class of laws that state documented behaviour: BLAKE3 ([Blake3],
    [Blake3Laws]: digest length and byte ranges; collision freedom is an explicit
    hypothesis on the finitely many blobs involved), [Hex], [Lru], [Bloom],
    [Postcard], [DashMap] (the shard of a key), [Ed25519], [Ed25519Signing],
    [Libsql], [KeyStore], [Iroh], [Broadcast] (tokio's broadcast channel),
    [Wasmtime], [JsonConfig], [SerdeJson]. Every law class has a concrete instance,
    and theorems with hypotheses are applied to concrete values in lemmas named
    after them with the suffix [_witness].

    Recursion that is not structural uses fuel with a lemma or a bound that it is
    enough: [chunks] and the white-space loop of [Sql] consume a byte per round;
    [merkle_loop] shrinks each layer; the field product shifts eight bits out; an
    agent pays for every host call and every way to a metering point, and makes at
    most [wm_stretch] calls between two of them, so [agent_steps] bounds the passes of
    [agent_loop] ([agent_invocation_bounded]); a start takes six accesses and a stop
    four ([start_program], [stop_program]).

    Asynchronous operations are single steps unless the source can be preempted in a
    way its contract depends on; interleavings are modelled for the clock
    ([hlc_step]), the engine's semaphore ([engine_step]), signed writes
    ([rpc_step]), the scheduler ([sched_step]), the membership protocol
    ([swim_step], [cluster_step]), streams of any connections ([net_run]), endpoints
    ([net_step]), the connection pool ([pool_step]), the provider table
    ([dht_step]), the object store and the VFS at each access to what their tasks
    share ([StoreConc], [VfsConc]), the repair pipeline ([pipe_step]), the node
    ([evolves]), where an encoding task is split at each of its store accesses, and
    networks of nodes ([fleet_step]). In [Node] and what is built on it the
    operations of the store and of the VFS are single steps.

    ** Not modelled

    The sockets, handshakes and timers of iroh and tokio (what they answer is an
    argument of the operations that use them), the time limits themselves, the
    client endpoint of the command line beyond whether it connects, tracing set-up,
    and accessors that only return a shared handle, a counter or a debug text.  Error
    texts after their fixed part.

    Left as single steps: in [Node] and above, a store or VFS operation and the
    announcement of what is stored at start-up and the operations of the provider
    table; everywhere, the operations of the pending fetches and of the piece
    tables, and a pass over the membership table in [Swim]. In [Providers] messages other than announcements reach a node from
    anywhere, so nothing is claimed there of the pieces that travel; [Pipeline] and
    [Handler] say what they are. *)
From Stdlib Require Import ZArith Lia.
From stdpp Require Import base list list_numbers gmap numbers.

Local Open Scope Z_scope.

(** ** Results

    Rust's [Result<T, E>] and the [?] operator. *)

Inductive result (A E : Type) : Type :=
| Ok (a : A)
| Err (e : E).
Arguments Ok {A E} a.
Arguments Err {A E} e.

Declare Scope craftec_scope.
Delimit Scope craftec_scope with craftec.

Notation "'let?' x ':=' c 'in' k" :=
  (match c with Ok x => k | Err e => Err e end)
  (at level 10, x pattern, c at level 100, k at level 200) : craftec_scope.

Definition is_ok {A E} (r : result A E) : bool :=
  match r with Ok _ => true | Err _ => false end.

(** A call that returns, or panics. *)
Inductive outcome (A : Type) : Type :=
| Returned (a : A)
| Panicked.
Arguments Returned {A} a.
Arguments Panicked {A}.

(** ** Machine integers

    A [w]-bit unsigned integer is a [Z] in [0, 2^w); [wrap w] is the value
    arithmetic modulo [2^w] leaves. *)

Definition wrap (w : Z) (z : Z) : Z := z `mod` 2 ^ w.
Definition fits (w : Z) (z : Z) : Prop := 0 <= z < 2 ^ w.
Definition is_byte (z : Z) : Prop := 0 <= z < 256.
Definition is_byteb (z : Z) : bool := (0 <=? z) && (z <? 256).
Definition bytes (l : list Z) : Prop := Forall is_byte l.

(** [&data[a..b]] *)
Definition slice {A} (l : list A) (a b : nat) : list A := take (b - a) (drop a l).

(** [T::to_le_bytes] / [T::from_le_bytes] and their big-endian versions, for a
    [T] of [n] bytes. *)
Fixpoint to_le_bytes (n : nat) (z : Z) : list Z :=
  match n with
  | O => []
  | S n => z `mod` 256 :: to_le_bytes n (z / 256)
  end.

Fixpoint from_le_bytes (l : list Z) : Z :=
  match l with
  | [] => 0
  | b :: l => b + 256 * from_le_bytes l
  end.

Definition to_be_bytes (n : nat) (z : Z) : list Z := rev (to_le_bytes n z).
Definition from_be_bytes (l : list Z) : Z := from_le_bytes (rev l).

(** ** Automation *)

Create HintDb craftec.

#[export] Instance is_byte_dec z : Decision (is_byte z).
Proof. unfold is_byte. apply _. Defined.

(** Case analysis on the scrutinee of a [match] or [if] of the goal or of a
    hypothesis. *)
Ltac split_match :=
  match goal with
  | |- context [match ?x with _ => _ end] => destruct x eqn:?
  | H : context [match ?x with _ => _ end] |- _ => destruct x eqn:?
  end.

(** Turn boolean tests into the propositions they decide. *)
Ltac bool_to_prop :=
  cbv beta in *;
  repeat match goal with
  | H : (_ && _) = true |- _ => apply andb_true_iff in H; destruct H
  | H : (_ || _) = false |- _ => apply orb_false_iff in H; destruct H
  | H : (_ =? _) = true |- _ => apply Z.eqb_eq in H
  | H : (_ =? _) = false |- _ => apply Z.eqb_neq in H
  | H : (_ <? _) = true |- _ => apply Z.ltb_lt in H
  | H : (_ <? _) = false |- _ => apply Z.ltb_ge in H
  | H : (_ <=? _) = true |- _ => apply Z.leb_le in H
  | H : (_ <=? _) = false |- _ => apply Z.leb_gt in H
  | H : (_ =? _)%nat = true |- _ => apply Nat.eqb_eq in H
  | H : (_ =? _)%nat = false |- _ => apply Nat.eqb_neq in H
  | H : (_ <? _)%nat = true |- _ => apply Nat.ltb_lt in H
  | H : (_ <? _)%nat = false |- _ => apply Nat.ltb_ge in H
  | H : (_ <=? _)%nat = true |- _ => apply Nat.leb_le in H
  | H : (_ <=? _)%nat = false |- _ => apply Nat.leb_gt in H
  | H : bool_decide _ = true |- _ => apply bool_decide_eq_true in H
  | H : bool_decide _ = false |- _ => apply bool_decide_eq_false in H
  end.

(** ** Bytes *)

Lemma is_byteb_spec z : is_byteb z = true <-> is_byte z.
Proof. unfold is_byteb, is_byte. rewrite andb_true_iff, Z.leb_le, Z.ltb_lt. lia. Qed.

(** A decidable statement about all bytes holds when it computes to [true] on
    the 256 of them. *)
Definition all_bytes : list Z := seqZ 0 256.

Lemma elem_of_all_bytes z : z ∈ all_bytes <-> is_byte z.
Proof. unfold all_bytes. rewrite elem_of_seqZ. unfold is_byte. lia. Qed.

Lemma forallb_elem_of {A} (f : A -> bool) l x : forallb f l = true -> x ∈ l -> f x = true.
Proof. rewrite forallb_forall. intros H Hx. by apply H, list_elem_of_In. Qed.

Lemma forall_bytes (f : Z -> bool) :
  forallb f all_bytes = true -> forall z, is_byte z -> f z = true.
Proof.
  intros H z Hz. apply (forallb_elem_of f all_bytes); [done|]. by apply elem_of_all_bytes.
Qed.

Lemma forall_bytes2 (f : Z -> Z -> bool) :
  forallb (fun a => forallb (f a) all_bytes) all_bytes = true ->
  forall a b, is_byte a -> is_byte b -> f a b = true.
Proof.
  intros H a b Ha Hb. revert b Hb. apply forall_bytes.
  apply (forall_bytes (fun a => forallb (f a) all_bytes)); done.
Qed.

Lemma lxor_bound w a b : 0 <= w -> fits w a -> fits w b -> fits w (Z.lxor a b).
Proof.
  unfold fits. intros Hw Ha Hb. split; [apply Z.lxor_nonneg; lia|].
  destruct (Z.eq_dec (Z.lxor a b) 0) as [->|Hn]; [lia|].
  assert (0 <= Z.lxor a b) by (apply Z.lxor_nonneg; lia).
  apply Z.log2_lt_pow2; [lia|].
  pose proof (Z.log2_lxor a b ltac:(lia) ltac:(lia)).
  assert (0 < a \/ 0 < b) as Hpos.
  { destruct (Z.eq_dec a 0), (Z.eq_dec b 0); subst; [done|lia|lia|lia]. }
  assert (forall x, fits w x -> 0 < x \/ x = 0 -> Z.log2 x < w \/ x = 0) as Hl.
  { unfold fits. intros x Hx [Hp| ->]; [left|by right]. apply Z.log2_lt_pow2; lia. }
  destruct (Hl a Ha ltac:(lia)), (Hl b Hb ltac:(lia)); subst;
    rewrite ?Z.lxor_0_l, ?Z.lxor_0_r in *; lia.
Qed.

Lemma lxor_byte a b : is_byte a -> is_byte b -> is_byte (Z.lxor a b).
Proof. intros. apply (lxor_bound 8); [lia|done|done]. Qed.

#[export] Hint Resolve lxor_byte : craftec.

Lemma wrap_fits w z : 0 <= w -> fits w (wrap w z).
Proof. intros. apply Z.mod_pos_bound. apply Z.pow_pos_nonneg; lia. Qed.

Lemma wrap_id w z : fits w z -> wrap w z = z.
Proof. apply Z.mod_small. Qed.

(** ** Fixed-width integers as bytes *)

Lemma length_to_le_bytes n z : length (to_le_bytes n z) = n.
Proof. revert z. induction n; intros; simpl; auto. Qed.

Lemma length_to_be_bytes n z : length (to_be_bytes n z) = n.
Proof. unfold to_be_bytes. by rewrite length_rev, length_to_le_bytes. Qed.

Lemma to_le_bytes_wf n z : bytes (to_le_bytes n z).
Proof.
  revert z. induction n; intros; simpl; constructor; [|apply IHn].
  apply Z.mod_pos_bound. lia.
Qed.

Lemma to_be_bytes_wf n z : bytes (to_be_bytes n z).
Proof. apply Forall_rev, to_le_bytes_wf. Qed.

Lemma from_to_le_bytes n z : from_le_bytes (to_le_bytes n z) = wrap (8 * Z.of_nat n) z.
Proof.
  unfold wrap. revert z. induction n as [|n IH]; intros z.
  - change (0 = z `mod` 1). by rewrite Z.mod_1_r.
  - cbn [to_le_bytes from_le_bytes]. rewrite IH.
    replace (8 * Z.of_nat (S n)) with (8 + 8 * Z.of_nat n) by lia.
    rewrite Z.pow_add_r by lia. change (2 ^ 8) with 256.
    rewrite (Z.rem_mul_r z 256) by (try apply Z.pow_pos_nonneg; lia). lia.
Qed.

Lemma from_to_be_bytes n z : from_be_bytes (to_be_bytes n z) = wrap (8 * Z.of_nat n) z.
Proof. unfold from_be_bytes, to_be_bytes. by rewrite rev_involutive, from_to_le_bytes. Qed.

Lemma to_from_le_bytes l : bytes l -> to_le_bytes (length l) (from_le_bytes l) = l.
Proof.
  unfold bytes, is_byte. induction 1 as [|b l Hb _ IH]; [done|]. cbn [from_le_bytes length to_le_bytes].
  f_equal.
  - rewrite (Z.mul_comm 256), Z.mod_add by lia. by apply Z.mod_small.
  - rewrite (Z.mul_comm 256), Z.div_add by lia.
    rewrite Z.div_small by lia. by rewrite Z.add_0_l.
Qed.

(** ** Slices *)

Lemma length_slice {A} (l : list A) a b :
  (b <= length l)%nat -> length (slice l a b) = (b - a)%nat.
Proof. intros. unfold slice. rewrite length_take, length_drop. lia. Qed.

Lemma slice_app {A} (l1 l2 l3 : list A) :
  slice (l1 ++ l2 ++ l3) (length l1) (length l1 + length l2) = l2.
Proof.
  unfold slice. rewrite drop_app_length.
  replace (length l1 + length l2 - length l1)%nat with (length l2) by lia.
  by rewrite take_app_length.
Qed.

Lemma slice_app_at {A} (l1 l2 l3 : list A) a b :
  a = length l1 -> b = (length l1 + length l2)%nat -> slice (l1 ++ l2 ++ l3) a b = l2.
Proof. intros -> ->. apply slice_app. Qed.

Lemma bytes_app l1 l2 : bytes (l1 ++ l2) <-> bytes l1 /\ bytes l2.
Proof. apply Forall_app. Qed.

Lemma bytes_take n l : bytes l -> bytes (take n l).
Proof. apply Forall_take. Qed.

Lemma bytes_drop n l : bytes l -> bytes (drop n l).
Proof. apply Forall_drop. Qed.

Lemma bytes_replicate n : bytes (replicate n 0).
Proof. apply Forall_replicate. unfold is_byte. lia. Qed.

#[export] Hint Resolve bytes_take bytes_drop bytes_replicate : craftec.

(** ** [slice::chunks] *)

Fixpoint chunks_aux {A} (fuel n : nat) (l : list A) : list (list A) :=
  match fuel, l with
  | S fuel, _ :: _ => take n l :: chunks_aux fuel n (drop n l)
  | _, _ => []
  end.

(** [l.chunks(n)] for [n > 0]; each round consumes at least one element, so
    [length l] rounds are enough. *)
Definition chunks {A} (n : nat) (l : list A) : list (list A) := chunks_aux (length l) n l.

Lemma chunks_aux_concat {A} fuel n (l : list A) :
  (0 < n)%nat -> (length l <= fuel)%nat -> concat (chunks_aux fuel n l) = l.
Proof.
  intros Hn. revert l. induction fuel as [|fuel IH]; intros [|x l] Hl; try done; [cbn in Hl; lia|].
  cbn [chunks_aux concat]. rewrite IH by (rewrite length_drop; cbn in *; lia). apply take_drop.
Qed.

Lemma chunks_concat {A} n (l : list A) : (0 < n)%nat -> concat (chunks n l) = l.
Proof. intros. by apply chunks_aux_concat. Qed.

Lemma Forall_mono {A} (P Q : A -> Prop) l :
  (forall x, P x -> Q x) -> Forall P l -> Forall Q l.
Proof. intros H. induction 1; constructor; auto. Qed.

Lemma chunks_bytes ps file : bytes file -> Forall bytes (chunks ps file).
Proof.
  unfold chunks. generalize (length file). intros fuel. revert file.
  induction fuel as [|fuel IH]; intros [|b file] Hf; cbn [chunks_aux]; try apply Forall_nil_2.
  constructor; [by apply bytes_take|]. by apply IH, bytes_drop.
Qed.
