(* ===== verification/Gf256.v ===== *)
(** * GF(2^8) arithmetic (crates/craftec-rlnc/src/gf256.rs)

    Table generation, the table-driven field operations and the
    multiply-accumulate loop over byte slices, with the proof that the tables
    compute the field GF(2)[x]/(x^8+x^4+x^3+x+1). *)
From Stdlib Require Import ZArith Lia.
From stdpp Require Import base list list_numbers numbers.
From S2P Require Import Prelude.

Local Open Scope Z_scope.

(** ** Table generation *)

(** [while b > 0] of [gf_mul_slow]; [b] is a byte, so at most eight rounds run
    ([gf_mul_slow_fuel] below). *)
Fixpoint gf_mul_slow_loop (fuel : nat) (a b result : Z) : Z :=
  match fuel with
  | O => result
  | S fuel =>
      if b >? 0 then
        let result := if negb (Z.land b 1 =? 0) then Z.lxor result a else result in
        let hi := Z.land a 128 in
        let a := wrap 8 (Z.shiftl a 1) in
        let a := if negb (hi =? 0) then Z.lxor a 27 else a in
        gf_mul_slow_loop fuel a (Z.shiftr b 1) result
      else result
  end.

Definition gf_mul_slow (a b : Z) : Z := gf_mul_slow_loop 8 a b 0.

(** [while i < 255] of [build_exp_table], from [i] for [n] rounds. *)
Fixpoint build_exp_loop (n i : nat) (x : Z) (table : list Z) : list Z :=
  match n with
  | O => table
  | S n =>
      let table := <[i := x]> table in
      let table := <[(i + 255)%nat := x]> table in
      build_exp_loop n (S i) (gf_mul_slow x 3) table
  end.

Definition build_exp_table : list Z :=
  let table := build_exp_loop 255 0 1 (replicate 512 0) in
  <[510%nat := 1]> (<[255%nat := 1]> table).

(** [table[i]]; every use below is proved in range. *)
Definition tbl (t : list Z) (i : Z) : Z := default 0 (t !! Z.to_nat i).

(** [while i < 255] of [build_log_table], from [i] for [n] rounds; [i as u8]. *)
Fixpoint build_log_loop (n i : nat) (exp table : list Z) : list Z :=
  match n with
  | O => table
  | S n =>
      build_log_loop n (S i) exp
        (<[Z.to_nat (tbl exp (Z.of_nat i)) := wrap 8 (Z.of_nat i)]> table)
  end.

Definition build_log_table (exp : list Z) : list Z :=
  build_log_loop 255 0 exp (replicate 256 0).

Definition EXP_TABLE : list Z := Eval vm_compute in build_exp_table.
Definition LOG_TABLE : list Z := Eval vm_compute in build_log_table build_exp_table.

(** ** Field operations *)

Definition gf_add (a b : Z) : Z := Z.lxor a b.

Definition gf_mul (a b : Z) : Z :=
  if (a =? 0) || (b =? 0) then 0
  else
    let log_a := tbl LOG_TABLE a in
    let log_b := tbl LOG_TABLE b in
    tbl EXP_TABLE (log_a + log_b).

(** Release-build bodies of [gf_div] and [gf_inv]. *)
Definition gf_div (a b : Z) : Z :=
  if a =? 0 then 0
  else
    let log_a := tbl LOG_TABLE a in
    let log_b := tbl LOG_TABLE b in
    tbl EXP_TABLE (log_a + 255 - log_b).

Definition gf_inv (a : Z) : Z :=
  let log_a := tbl LOG_TABLE a in
  tbl EXP_TABLE (255 - log_a).

(** Debug builds: the [debug_assert_ne!] panics ([None]) on a zero divisor. *)
Definition gf_div_debug (a b : Z) : option Z :=
  if b =? 0 then None else Some (gf_div a b).

Definition gf_inv_debug (a : Z) : option Z :=
  if a =? 0 then None else Some (gf_inv a).

(** ** Multiply-accumulate over slices *)

(** [for (d, &s) in dst.iter_mut().zip(src.iter()) { *d = f(d, s) }]: the part of
    [dst] beyond [src] is left alone. *)
Fixpoint zip_update (f : Z -> Z -> Z) (dst src : list Z) : list Z :=
  match dst, src with
  | d :: dst, s :: src => f d s :: zip_update f dst src
  | _, _ => dst
  end.

Definition gf_vec_mul_add (dst src : list Z) (coeff : Z) : list Z :=
  if coeff =? 0 then dst
  else if coeff =? 1 then zip_update (fun d s => Z.lxor d s) dst src
  else
    let log_c := tbl LOG_TABLE coeff in
    zip_update
      (fun d s =>
         if negb (s =? 0) then
           let log_s := tbl LOG_TABLE s in
           Z.lxor d (tbl EXP_TABLE (log_c + log_s))
         else d)
      dst src.

(** ** Tables *)

Lemma gf_mul_slow_loop_done fuel a r : gf_mul_slow_loop fuel a 0 r = r.
Proof. by destruct fuel. Qed.

Lemma gf_mul_slow_loop_fuel fuel extra a b r :
  0 <= b < 2 ^ Z.of_nat fuel ->
  gf_mul_slow_loop (fuel + extra) a b r = gf_mul_slow_loop fuel a b r.
Proof.
  revert a b r. induction fuel as [|fuel IH]; intros a b r Hb.
  - assert (b = 0) as -> by (change (2 ^ Z.of_nat 0) with 1 in Hb; lia).
    by rewrite !gf_mul_slow_loop_done.
  - cbn [Nat.add gf_mul_slow_loop]. split_match; [|done]. apply IH.
    rewrite Z.shiftr_div_pow2 by lia. change (2 ^ 1) with 2.
    rewrite Nat2Z.inj_succ, Z.pow_succ_r in Hb by lia.
    split; [apply Z.div_pos; lia|]. apply Z.div_lt_upper_bound; lia.
Qed.

Lemma exp_table_eq : EXP_TABLE = build_exp_table.
Proof. vm_compute. reflexivity. Qed.

Lemma log_table_eq : LOG_TABLE = build_log_table EXP_TABLE.
Proof. vm_compute. reflexivity. Qed.

Lemma length_exp_table : length EXP_TABLE = 512%nat.
Proof. reflexivity. Qed.

Lemma length_log_table : length LOG_TABLE = 256%nat.
Proof. reflexivity. Qed.

(** Facts settled by evaluating the operations on all bytes, or all pairs. *)

Lemma log_range a : is_byte a -> 0 <= tbl LOG_TABLE a <= 254.
Proof.
  intros Ha.
  apply (forall_bytes (fun a => (0 <=? tbl LOG_TABLE a) && (tbl LOG_TABLE a <=? 254))) in Ha;
    [|vm_compute; reflexivity].
  bool_to_prop. lia.
Qed.

Lemma exp_entry_byte i : is_byte (tbl EXP_TABLE i).
Proof.
  unfold tbl. destruct (EXP_TABLE !! Z.to_nat i) as [x|] eqn:E; [|cbn; unfold is_byte; lia].
  assert (Forall (fun x => is_byteb x = true) EXP_TABLE) as HF.
  { apply list.Forall_forall. intros y. apply forallb_elem_of. vm_compute. reflexivity. }
  cbn. apply is_byteb_spec. rewrite Forall_lookup in HF. eauto.
Qed.

Lemma exp_log a : is_byte a -> a <> 0 -> tbl EXP_TABLE (tbl LOG_TABLE a) = a.
Proof.
  intros Ha Hn.
  pose proof (forall_bytes (fun a => (a =? 0) || (tbl EXP_TABLE (tbl LOG_TABLE a) =? a))
    ltac:(vm_compute; reflexivity) a Ha) as H.
  apply orb_true_iff in H as [H|H]; bool_to_prop; congruence.
Qed.

Lemma exp_mod i : 0 <= i <= 508 -> tbl EXP_TABLE i = tbl EXP_TABLE (i `mod` 255).
Proof.
  intros Hi.
  pose proof (forallb_elem_of (fun i => tbl EXP_TABLE i =? tbl EXP_TABLE (i `mod` 255))
    (seqZ 0 509) i ltac:(vm_compute; reflexivity)) as H.
  apply Z.eqb_eq, H, elem_of_seqZ. lia.
Qed.

Lemma exp_nonzero i : 0 <= i <= 508 -> tbl EXP_TABLE i <> 0.
Proof.
  intros Hi.
  pose proof (forallb_elem_of (fun i => negb (tbl EXP_TABLE i =? 0))
    (seqZ 0 509) i ltac:(vm_compute; reflexivity)) as H.
  apply Z.eqb_neq, negb_true_iff, H, elem_of_seqZ. lia.
Qed.

Lemma log_exp i : 0 <= i < 255 -> tbl LOG_TABLE (tbl EXP_TABLE i) = i.
Proof.
  intros Hi.
  pose proof (forallb_elem_of (fun i => tbl LOG_TABLE (tbl EXP_TABLE i) =? i)
    (seqZ 0 255) i ltac:(vm_compute; reflexivity)) as H.
  apply Z.eqb_eq, H, elem_of_seqZ. lia.
Qed.

(** ** The reference multiplication

    [gf_mul_slow] is the sum, over the bits of [b], of the [i]-fold doublings of
    [a]; it is bilinear over XOR, so its laws follow from its values on the
    powers of two. *)

(** Multiplication by [x], as the loop body computes it. *)
Definition xtime (a : Z) : Z :=
  let hi := Z.land a 128 in
  let a := wrap 8 (Z.shiftl a 1) in
  if negb (hi =? 0) then Z.lxor a 27 else a.

Fixpoint mul_bits (n : nat) (a b : Z) : Z :=
  match n with
  | O => 0
  | S n => Z.lxor (if Z.odd b then a else 0) (mul_bits n (xtime a) (Z.shiftr b 1))
  end.

Lemma land_1_odd b : negb (Z.land b 1 =? 0) = Z.odd b.
Proof.
  change 1 with (Z.ones 1). rewrite Z.land_ones by lia. change (2 ^ 1) with 2.
  rewrite Zmod_odd. by destruct (Z.odd b).
Qed.

Lemma mul_bits_0 n a : mul_bits n a 0 = 0.
Proof. revert a. induction n; intros; [done|]. cbn [mul_bits]. by rewrite IHn. Qed.

Lemma gf_mul_slow_loop_bits n a b r :
  0 <= b -> gf_mul_slow_loop n a b r = Z.lxor r (mul_bits n a b).
Proof.
  revert a b r. induction n as [|n IH]; intros a b r Hb; [cbn; by rewrite Z.lxor_0_r|].
  cbn [gf_mul_slow_loop]. destruct (b >? 0) eqn:E.
  - cbn [mul_bits]. rewrite IH by (by apply Z.shiftr_nonneg). rewrite land_1_odd.
    fold (xtime a). destruct (Z.odd b); by rewrite ?Z.lxor_0_l, ?Z.lxor_assoc.
  - assert (b = 0) as -> by lia. by rewrite mul_bits_0, Z.lxor_0_r.
Qed.

Lemma gf_mul_slow_bits a b : 0 <= b -> gf_mul_slow a b = mul_bits 8 a b.
Proof. intros. unfold gf_mul_slow. rewrite gf_mul_slow_loop_bits by done. apply Z.lxor_0_l. Qed.

Lemma lxor_exchange a b c d :
  Z.lxor (Z.lxor a b) (Z.lxor c d) = Z.lxor (Z.lxor a c) (Z.lxor b d).
Proof.
  rewrite !Z.lxor_assoc. f_equal. rewrite <- !Z.lxor_assoc. f_equal. apply Z.lxor_comm.
Qed.

Lemma odd_lxor a b : Z.odd (Z.lxor a b) = xorb (Z.odd a) (Z.odd b).
Proof. by rewrite <- !Z.bit0_odd, Z.lxor_spec. Qed.

Lemma mul_bits_add_r n a b c : mul_bits n a (Z.lxor b c) = Z.lxor (mul_bits n a b) (mul_bits n a c).
Proof.
  revert a b c. induction n as [|n IH]; intros; [done|]. cbn [mul_bits].
  rewrite Z.shiftr_lxor, IH, (lxor_exchange (if Z.odd b then a else 0)), odd_lxor. f_equal.
  destruct (Z.odd b), (Z.odd c); cbn; by rewrite ?Z.lxor_nilpotent, ?Z.lxor_0_r, ?Z.lxor_0_l.
Qed.

Lemma land_lxor_distr a b c : Z.land (Z.lxor a b) c = Z.lxor (Z.land a c) (Z.land b c).
Proof.
  apply Z.bits_inj'. intros n _. rewrite !Z.land_spec, !Z.lxor_spec, !Z.land_spec.
  by destruct (Z.testbit a n), (Z.testbit b n), (Z.testbit c n).
Qed.

Lemma land_pow2_eqb a n : 0 <= n -> negb (Z.land a (2 ^ n) =? 0) = Z.testbit a n.
Proof.
  intros Hn. destruct (Z.testbit a n) eqn:E.
  - apply negb_true_iff, Z.eqb_neq. intros H.
    assert (Z.testbit (Z.land a (2 ^ n)) n = false) as Hf by (rewrite H; apply Z.bits_0).
    by rewrite Z.land_spec, E, Z.pow2_bits_true in Hf.
  - apply negb_false_iff, Z.eqb_eq, Z.bits_inj'. intros m Hm.
    rewrite Z.land_spec, Z.bits_0, Z.pow2_bits_eqb by done.
    destruct (Z.eqb_spec n m) as [<-|]; [by rewrite E | by rewrite andb_false_r].
Qed.

Lemma xtime_lxor a b : xtime (Z.lxor a b) = Z.lxor (xtime a) (xtime b).
Proof.
  unfold xtime, wrap. change 128 with (2 ^ 7). rewrite !land_pow2_eqb by lia.
  rewrite Z.lxor_spec, Z.shiftl_lxor, <- !Z.land_ones, land_lxor_distr by lia.
  destruct (Z.testbit a 7), (Z.testbit b 7); cbn [xorb].
  - by rewrite lxor_exchange, Z.lxor_nilpotent, Z.lxor_0_r.
  - rewrite !Z.lxor_assoc. f_equal. apply Z.lxor_comm.
  - by rewrite !Z.lxor_assoc.
  - done.
Qed.

Lemma mul_bits_add_l n a b c : mul_bits n (Z.lxor a b) c = Z.lxor (mul_bits n a c) (mul_bits n b c).
Proof.
  revert a b c. induction n as [|n IH]; intros; [done|]. cbn [mul_bits].
  rewrite xtime_lxor, IH, (lxor_exchange (if Z.odd c then a else 0)). f_equal.
  by destruct (Z.odd c).
Qed.

Lemma xtime_byte a : is_byte (xtime a).
Proof.
  unfold xtime. assert (is_byte (wrap 8 (Z.shiftl a 1))) by (apply (wrap_fits 8); lia).
  split_match; [apply lxor_byte|]; unfold is_byte in *; lia.
Qed.

Lemma mul_bits_byte n a b : is_byte a -> is_byte (mul_bits n a b).
Proof.
  revert a b. induction n as [|n IH]; intros a b Ha; cbn [mul_bits]; [unfold is_byte; lia|].
  apply lxor_byte; [|apply IH, xtime_byte]. destruct (Z.odd b); [done | unfold is_byte; lia].
Qed.

(** Induction over bytes as XORs of powers of two. *)
Lemma byte_lin_ind (P : Z -> Prop) :
  P 0 -> (forall i, 0 <= i < 8 -> P (2 ^ i)) ->
  (forall a b, is_byte a -> is_byte b -> P a -> P b -> P (Z.lxor a b)) ->
  forall a, is_byte a -> P a.
Proof.
  intros H0 Hpow Hadd a Ha.
  set (sum := fun l => foldr (fun i acc => Z.lxor (if Z.testbit a i then 2 ^ i else 0) acc) 0 l).
  assert (a = sum (seqZ 0 8)) as Heq.
  { pose proof (forall_bytes (fun a => a =? foldr (fun i acc =>
      Z.lxor (if Z.testbit a i then 2 ^ i else 0) acc) 0 (seqZ 0 8))
      ltac:(vm_compute; reflexivity) a Ha). by bool_to_prop. }
  assert (forall l, (forall i, i ∈ l -> 0 <= i < 8) -> is_byte (sum l) /\ P (sum l)) as Hl.
  { induction l as [|i l IH]; intros Hi; cbn; [split; [unfold is_byte; lia | done]|].
    destruct IH as [IHb IHp]; [intros; apply Hi; by right|].
    assert (0 <= i < 8) as Hi8 by (apply Hi; by left).
    assert (is_byte (2 ^ i)).
    { unfold is_byte. split; [apply Z.pow_nonneg; lia|].
      change 256 with (2 ^ 8). apply Z.pow_lt_mono_r; lia. }
    destruct (Z.testbit a i); [|by rewrite Z.lxor_0_l]. auto with craftec. }
  rewrite Heq. apply Hl. intros i Hi. apply elem_of_seqZ in Hi. lia.
Qed.

Definition pow2_8 : list Z := [1; 2; 4; 8; 16; 32; 64; 128].

Lemma elem_of_pow2_8 i : 0 <= i < 8 -> 2 ^ i ∈ pow2_8.
Proof.
  intros Hi. assert (i = 0 \/ i = 1 \/ i = 2 \/ i = 3 \/ i = 4 \/ i = 5 \/ i = 6 \/ i = 7)
    as [-> | [-> | [-> | [-> | [-> | [-> | [-> | ->]]]]]]] by lia;
  unfold pow2_8; rewrite !elem_of_cons; vm_compute; tauto.
Qed.

Abbreviation mulx := (mul_bits 8).

Lemma mulx_0_l b : is_byte b -> mulx 0 b = 0.
Proof.
  intros Hb. pose proof (forall_bytes (fun b => mulx 0 b =? 0)
    ltac:(vm_compute; reflexivity) b Hb). by bool_to_prop.
Qed.

Lemma mulx_1_l b : is_byte b -> mulx 1 b = b.
Proof.
  intros Hb. pose proof (forall_bytes (fun b => mulx 1 b =? b)
    ltac:(vm_compute; reflexivity) b Hb). by bool_to_prop.
Qed.

Lemma mulx_comm a b : is_byte a -> is_byte b -> mulx a b = mulx b a.
Proof.
  intros Ha Hb. revert a Ha. apply byte_lin_ind.
  - by rewrite mulx_0_l, mul_bits_0.
  - intros i Hi. revert b Hb. apply byte_lin_ind.
    + rewrite mul_bits_0, mulx_0_l; [done|]. unfold is_byte.
      split; [apply Z.pow_nonneg; lia|]. change 256 with (2 ^ 8). apply Z.pow_lt_mono_r; lia.
    + intros j Hj. apply Z.eqb_eq.
      apply (forallb_elem_of (fun b => mulx (2 ^ i) b =? mulx b (2 ^ i)) pow2_8);
        [|by apply elem_of_pow2_8].
      apply (forallb_elem_of (fun a => forallb (fun b => mulx a b =? mulx b a) pow2_8) pow2_8);
        [vm_compute; reflexivity | by apply elem_of_pow2_8].
    + intros b c _ _ Hb Hc. by rewrite mul_bits_add_r, mul_bits_add_l, Hb, Hc.
  - intros a c _ _ Ha Hc. by rewrite mul_bits_add_r, mul_bits_add_l, Ha, Hc.
Qed.

Lemma mulx_assoc_pow2 i j k :
  0 <= i < 8 -> 0 <= j < 8 -> 0 <= k < 8 ->
  mulx (2 ^ i) (mulx (2 ^ j) (2 ^ k)) = mulx (mulx (2 ^ i) (2 ^ j)) (2 ^ k).
Proof.
  intros Hi Hj Hk. apply Z.eqb_eq.
  set (f := fun a b c => mulx a (mulx b c) =? mulx (mulx a b) c).
  assert (forallb (fun a => forallb (fun b => forallb (f a b) pow2_8) pow2_8) pow2_8 = true) as H
    by (vm_compute; reflexivity).
  apply (forallb_elem_of _ pow2_8 (2 ^ i)) in H; [|by apply elem_of_pow2_8]; cbv beta in H.
  apply (forallb_elem_of _ pow2_8 (2 ^ j)) in H; [|by apply elem_of_pow2_8]; cbv beta in H.
  by apply (forallb_elem_of _ pow2_8 (2 ^ k)) in H; [|by apply elem_of_pow2_8].
Qed.

Lemma mulx_assoc a b c :
  is_byte a -> is_byte b -> is_byte c -> mulx a (mulx b c) = mulx (mulx a b) c.
Proof.
  intros Ha Hb Hc. revert a Ha. apply byte_lin_ind.
  { rewrite !mulx_0_l; auto using mul_bits_byte. }
  2: { intros a a' _ _ H H'. by rewrite !mul_bits_add_l, H, H'. }
  intros i Hi. revert b Hb. apply byte_lin_ind.
  { by rewrite mulx_0_l, mul_bits_0, mulx_0_l. }
  2: { intros b b' _ _ H H'. by rewrite mul_bits_add_l, !mul_bits_add_r, mul_bits_add_l, H, H'. }
  intros j Hj. revert c Hc. apply byte_lin_ind.
  { by rewrite !mul_bits_0. }
  2: { intros c c' _ _ H H'. by rewrite !mul_bits_add_r, H, H'. }
  intros k Hk. by apply mulx_assoc_pow2.
Qed.

(** ** The tables compute the reference multiplication *)

Lemma exp_step i : 0 <= i <= 508 -> tbl EXP_TABLE (i + 1) = mulx (tbl EXP_TABLE i) 3.
Proof.
  intros Hi.
  pose proof (forallb_elem_of (fun i => tbl EXP_TABLE (i + 1) =? mulx (tbl EXP_TABLE i) 3)
    (seqZ 0 509) i ltac:(vm_compute; reflexivity)) as H.
  apply Z.eqb_eq, H, elem_of_seqZ. lia.
Qed.

Lemma exp_add (i : nat) j :
  0 <= j -> Z.of_nat i + j <= 509 ->
  tbl EXP_TABLE (Z.of_nat i + j) = mulx (tbl EXP_TABLE (Z.of_nat i)) (tbl EXP_TABLE j).
Proof.
  pose proof exp_entry_byte as Hb. assert (is_byte 3) by (unfold is_byte; lia).
  intros Hj. induction i as [|i IH]; intros Hi.
  - change (tbl EXP_TABLE (Z.of_nat 0)) with 1. by rewrite mulx_1_l.
  - rewrite Nat2Z.inj_succ in *. replace (Z.succ (Z.of_nat i) + j) with (Z.of_nat i + j + 1) by lia.
    unfold Z.succ. rewrite !exp_step, IH by lia.
    rewrite <- !mulx_assoc by done. f_equal. by apply mulx_comm.
Qed.

Lemma gf_mul_mulx a b : is_byte a -> is_byte b -> gf_mul a b = mulx a b.
Proof.
  intros Ha Hb. unfold gf_mul.
  destruct (a =? 0) eqn:Ea; bool_to_prop; [subst; by rewrite mulx_0_l|].
  destruct (b =? 0) eqn:Eb; bool_to_prop; [subst; by rewrite mul_bits_0|]. cbn [orb].
  pose proof (log_range a Ha). pose proof (log_range b Hb).
  rewrite <- (Z2Nat.id (tbl LOG_TABLE a)), exp_add, Z2Nat.id by lia.
  by rewrite !exp_log.
Qed.

Lemma gf_mul_eq_slow a b : is_byte a -> is_byte b -> gf_mul a b = gf_mul_slow a b.
Proof. intros. rewrite gf_mul_slow_bits by (unfold is_byte in *; lia). by apply gf_mul_mulx. Qed.

(** ** Field laws *)

Lemma gf_mul_byte a b : is_byte (gf_mul a b).
Proof. unfold gf_mul. split_match; [unfold is_byte; lia | apply exp_entry_byte]. Qed.

Lemma gf_inv_byte a : is_byte (gf_inv a).
Proof. apply exp_entry_byte. Qed.

Lemma is_byte_0 : is_byte 0.
Proof. unfold is_byte. lia. Qed.

#[export] Hint Resolve gf_mul_byte gf_inv_byte is_byte_0 : craftec.

Lemma gf_mul_0_l a : gf_mul 0 a = 0.
Proof. reflexivity. Qed.

Lemma gf_mul_0_r a : gf_mul a 0 = 0.
Proof. unfold gf_mul. by rewrite orb_true_r. Qed.

Lemma gf_mul_nz a b :
  a <> 0 -> b <> 0 -> gf_mul a b = tbl EXP_TABLE (tbl LOG_TABLE a + tbl LOG_TABLE b).
Proof. intros Ha Hb. unfold gf_mul. apply Z.eqb_neq in Ha, Hb. by rewrite Ha, Hb. Qed.

Lemma gf_mul_comm a b : gf_mul a b = gf_mul b a.
Proof. unfold gf_mul. by rewrite orb_comm, Z.add_comm. Qed.

Lemma gf_mul_1_l a : is_byte a -> gf_mul 1 a = a.
Proof. intros. rewrite gf_mul_mulx by (done || unfold is_byte; lia). by apply mulx_1_l. Qed.

Lemma gf_mul_1_r a : is_byte a -> gf_mul a 1 = a.
Proof. intros. rewrite gf_mul_comm. by apply gf_mul_1_l. Qed.

Lemma gf_mul_eq_0 a b : is_byte a -> is_byte b -> gf_mul a b = 0 -> a = 0 \/ b = 0.
Proof.
  intros Ha Hb H. destruct (Z.eq_dec a 0), (Z.eq_dec b 0); try tauto.
  rewrite gf_mul_nz in H by done. apply exp_nonzero in H; [done|].
  pose proof (log_range a Ha). pose proof (log_range b Hb). lia.
Qed.

Lemma gf_mul_assoc a b c :
  is_byte a -> is_byte b -> is_byte c -> gf_mul a (gf_mul b c) = gf_mul (gf_mul a b) c.
Proof. intros. rewrite !gf_mul_mulx by auto using mul_bits_byte with craftec. by apply mulx_assoc. Qed.

Lemma gf_mul_add_r a b c :
  is_byte a -> is_byte b -> is_byte c ->
  gf_mul a (Z.lxor b c) = Z.lxor (gf_mul a b) (gf_mul a c).
Proof. intros. rewrite !gf_mul_mulx by auto with craftec. apply mul_bits_add_r. Qed.

Lemma gf_mul_add_l a b c :
  is_byte a -> is_byte b -> is_byte c ->
  gf_mul (Z.lxor a b) c = Z.lxor (gf_mul a c) (gf_mul b c).
Proof. intros. rewrite !(gf_mul_comm _ c). by apply gf_mul_add_r. Qed.

Lemma gf_mul_inv a : is_byte a -> a <> 0 -> gf_mul a (gf_inv a) = 1.
Proof.
  intros Ha Hn. pose proof (log_range a Ha).
  rewrite gf_mul_mulx by auto with craftec. rewrite <- (exp_log a) at 1 by done.
  unfold gf_inv. rewrite <- (Z2Nat.id (tbl LOG_TABLE a)) at 1 by lia.
  rewrite <- exp_add, Z2Nat.id by lia.
  by replace (tbl LOG_TABLE a + (255 - tbl LOG_TABLE a)) with 255 by lia.
Qed.

Lemma gf_div_eq a b : is_byte a -> is_byte b -> b <> 0 -> gf_div a b = gf_mul a (gf_inv b).
Proof.
  intros Ha Hb Hn. pose proof (log_range a Ha). pose proof (log_range b Hb). unfold gf_div.
  destruct (a =? 0) eqn:Ea; bool_to_prop; [by subst|].
  rewrite gf_mul_mulx by auto with craftec. rewrite <- (exp_log a) at 2 by done. unfold gf_inv.
  rewrite <- (Z2Nat.id (tbl LOG_TABLE a)) at 2 by lia.
  rewrite <- exp_add, Z2Nat.id by lia. f_equal. lia.
Qed.

(** ** The multiply-accumulate loop *)

Lemma length_zip_update f dst src : length (zip_update f dst src) = length dst.
Proof. revert src. induction dst; intros [|? ?]; simpl; auto. Qed.

Lemma zip_update_ext f g dst src :
  (forall d s, s ∈ src -> f d s = g d s) -> zip_update f dst src = zip_update g dst src.
Proof.
  revert src. induction dst as [|d dst IH]; intros [|s src] H; simpl; auto.
  f_equal; [apply H; by left | apply IH; intros; apply H; by right].
Qed.

Lemma zip_update_id dst src : zip_update (fun d _ => d) dst src = dst.
Proof. revert src. induction dst; intros [|? ?]; simpl; f_equal; auto. Qed.

(** Whatever branch runs, the loop is [dst[i] ^= coeff * src[i]]. *)
Lemma gf_vec_mul_add_spec dst src c :
  is_byte c -> bytes src ->
  gf_vec_mul_add dst src c = zip_update (fun d s => Z.lxor d (gf_mul c s)) dst src.
Proof.
  intros Hc Hs. unfold bytes in Hs. rewrite list.Forall_forall in Hs. unfold gf_vec_mul_add.
  destruct (c =? 0) eqn:E0; bool_to_prop; [subst|].
  { rewrite <- (zip_update_id dst src) at 1. apply zip_update_ext.
    intros. by rewrite gf_mul_0_l, Z.lxor_0_r. }
  destruct (c =? 1) eqn:E1; bool_to_prop; [subst|]; apply zip_update_ext; intros d s Hin.
  - by rewrite gf_mul_1_l by auto.
  - destruct (s =? 0) eqn:Es; bool_to_prop; cbn [negb]; [subst|].
    + by rewrite gf_mul_0_r, Z.lxor_0_r.
    + by rewrite gf_mul_nz.
Qed.

(** ** Properties *)

(** C37: The table-driven product equals the bit-serial reference product the tables
    are built from, for all bytes. *)
Theorem gf_mul_refines_reference a b :
  is_byte a -> is_byte b -> gf_mul a b = gf_mul_slow a b.
Proof. apply gf_mul_eq_slow. Qed.

Lemma gf_mul_refines_reference_witness : gf_mul 83 202 = gf_mul_slow 83 202.
Proof. apply gf_mul_refines_reference; unfold is_byte; lia. Defined.

(** The operations make the bytes a field: addition and multiplication are
    commutative and associative with units 0 and 1, multiplication distributes,
    every non-zero byte times its [gf_inv] is 1 and [gf_div] is multiplication by
    the inverse. *)
Theorem gf256_is_field a b c :
  is_byte a -> is_byte b -> is_byte c ->
  (is_byte (gf_add a b) /\ gf_add a b = gf_add b a /\
   gf_add a (gf_add b c) = gf_add (gf_add a b) c /\ gf_add a 0 = a /\ gf_add a a = 0) /\
  (is_byte (gf_mul a b) /\ gf_mul a b = gf_mul b a /\
   gf_mul a (gf_mul b c) = gf_mul (gf_mul a b) c /\ gf_mul a 1 = a) /\
  gf_mul a (gf_add b c) = gf_add (gf_mul a b) (gf_mul a c) /\
  (a <> 0 -> is_byte (gf_inv a) /\ gf_mul a (gf_inv a) = 1) /\
  (b <> 0 -> gf_div a b = gf_mul a (gf_inv b) /\ gf_mul (gf_div a b) b = a).
Proof.
  intros Ha Hb Hc. unfold gf_add. split_and!; auto with craftec.
  - apply Z.lxor_comm.
  - symmetry. apply Z.lxor_assoc.
  - apply Z.lxor_0_r.
  - apply Z.lxor_nilpotent.
  - apply gf_mul_comm.
  - by apply gf_mul_assoc.
  - by apply gf_mul_1_r.
  - by apply gf_mul_add_r.
  - split; [apply gf_inv_byte|by apply gf_mul_inv].
  - intros Hn. rewrite gf_div_eq by done. split; [done|].
    rewrite <- gf_mul_assoc, (gf_mul_comm (gf_inv b)), gf_mul_inv by auto with craftec.
    by apply gf_mul_1_r.
Qed.

Lemma gf256_is_field_witness : gf_mul 7 (gf_inv 7) = 1.
Proof. apply (gf256_is_field 7 1 2); unfold is_byte; lia. Defined.

(** The slice kernel, with its special cases for coefficients 0 and 1 and its
    hoisted logarithm, adds [c * s] to each byte position and keeps the length. *)
Theorem gf_vec_mul_add_pointwise dst src c :
  is_byte c -> bytes dst -> bytes src -> length dst = length src ->
  length (gf_vec_mul_add dst src c) = length dst /\
  forall i d s, dst !! i = Some d -> src !! i = Some s ->
    gf_vec_mul_add dst src c !! i = Some (gf_add d (gf_mul_slow c s)).
Proof.
  intros Hc Hd Hs Hl. rewrite gf_vec_mul_add_spec by done. split; [apply length_zip_update|].
  revert src Hs Hl. induction Hd as [|d dst Hd Hds IH]; intros [|s src] Hs Hl i d' s' Hi Hi'; try done.
  inversion Hs; subst. destruct i; cbn in *.
  - simplify_eq. by rewrite gf_mul_eq_slow.
  - apply (IH src); [done|by inversion Hl|done|done].
Qed.

Lemma gf_vec_mul_add_pointwise_witness :
  length (gf_vec_mul_add [1; 2] [3; 4] 5) = 2%nat.
Proof.
  apply (gf_vec_mul_add_pointwise [1; 2] [3; 4] 5);
    [unfold is_byte; lia | repeat constructor; unfold is_byte; lia | repeat constructor; unfold is_byte; lia | done].
Defined.

(** Release builds do not return zero for a zero divisor: [gf_div a 0] is [a],
    and [gf_inv 0] is 1. *)
Theorem gf_div_by_zero_release a : is_byte a -> gf_div a 0 = a /\ gf_inv 0 = 1.
Proof.
  intros Ha. split; [|done]. unfold gf_div. destruct (a =? 0) eqn:E; bool_to_prop; [done|].
  pose proof (log_range a Ha). change (tbl LOG_TABLE 0) with 0.
  rewrite <- (exp_log a) at 2 by done. rewrite Z.sub_0_r.
  destruct (Z.eq_dec (tbl LOG_TABLE a) 254) as [->|]; [done|]. rewrite exp_mod by lia. f_equal.
  change 255 with (1 * 255) at 1. rewrite Z.mod_add by lia. apply Z.mod_small. lia.
Qed.

Lemma gf_div_by_zero_release_witness : gf_div 9 0 = 9.
Proof. apply (gf_div_by_zero_release 9). unfold is_byte. lia. Defined.
