(* ===== verification/Linear.v ===== *)
(** * Linear algebra over byte slices

    Vectors are byte lists; [gf_vec_mul_add] is the only row operation the RLNC
    crate uses.  This file gives its index-wise reading, linear combinations,
    dot products, spans and linear subspaces. *)
From Stdlib Require Import ZArith Lia.
From stdpp Require Import base list list_numbers numbers.
From S2P Require Import Prelude Gf256.

Local Open Scope Z_scope.

(** [v[i]], zero beyond the end. *)
Definition at_ (v : list Z) (i : nat) : Z := default 0 (v !! i).

(** A byte vector of length [n]. *)
Definition vec (n : nat) (v : list Z) : Prop := length v = n /\ bytes v.

Definition zeros (n : nat) : list Z := replicate n 0.
Definition unit_vec (n i : nat) : list Z := <[i := 1]> (zeros n).
Definition scale (c : Z) (v : list Z) : list Z := map (fun b => gf_mul b c) v.

(** The accumulation loops of the encoder and the recoder:
    [for (row, c) in rows.zip(cs) { gf_vec_mul_add(&mut acc, row, c) }]. *)
Definition combine_from (acc : list Z) (rows : list (list Z)) (cs : list Z) : list Z :=
  foldl (fun acc rc => gf_vec_mul_add acc rc.1 rc.2) acc (zip rows cs).
Definition combine (n : nat) (rows : list (list Z)) (cs : list Z) : list Z :=
  combine_from (zeros n) rows cs.

Fixpoint dot (cs xs : list Z) : Z :=
  match cs, xs with
  | c :: cs, x :: xs => Z.lxor (gf_mul c x) (dot cs xs)
  | _, _ => 0
  end.

(** Column [i] of a list of rows. *)
Definition column (rows : list (list Z)) (i : nat) : list Z := map (fun r => at_ r i) rows.

Definition in_span (n : nat) (rows : list (list Z)) (v : list Z) : Prop :=
  exists cs, vec (length rows) cs /\ v = combine n rows cs.

(** A set of vectors closed under the row operations. *)
Record subspace (n : nat) (P : list Z -> Prop) : Prop := {
  sub_vec v : P v -> vec n v;
  sub_zero : P (zeros n);
  sub_mul_add u v c : P u -> P v -> is_byte c -> P (gf_vec_mul_add u v c);
}.

(** ** Index-wise reading *)

Lemma at_byte v i : bytes v -> is_byte (at_ v i).
Proof.
  intros Hv. unfold at_. destruct (v !! i) eqn:E; cbn; [|unfold is_byte; lia].
  by eapply Forall_lookup_1.
Qed.
#[export] Hint Resolve at_byte : craftec.

Lemma at_ge v i : (length v <= i)%nat -> at_ v i = 0.
Proof. intros. unfold at_. by rewrite lookup_ge_None_2. Qed.

Lemma at_lookup v i : (i < length v)%nat -> v !! i = Some (at_ v i).
Proof. intros Hi. unfold at_. by destruct (lookup_lt_is_Some_2 v i Hi) as [x ->]. Qed.

Lemma at_take v k i : at_ (take k v) i = if decide (i < k)%nat then at_ v i else 0.
Proof. unfold at_. rewrite lookup_take. by destruct (decide (i < k)%nat). Qed.

Lemma at_drop v k i : at_ (drop k v) i = at_ v (k + i).
Proof. unfold at_. by rewrite lookup_drop. Qed.

Lemma at_zeros n i : at_ (zeros n) i = 0.
Proof.
  unfold at_, zeros. destruct (decide (i < n)%nat).
  - by rewrite lookup_replicate_2.
  - by rewrite lookup_ge_None_2 by (rewrite length_replicate; lia).
Qed.

Lemma vec_eq n u v : vec n u -> vec n v -> (forall i, (i < n)%nat -> at_ u i = at_ v i) -> u = v.
Proof.
  intros [Hu _] [Hv _] H. apply list_eq_same_length with n; [done|done|].
  intros i x y Hi Hx Hy. specialize (H i Hi). unfold at_ in H. rewrite Hx, Hy in H. done.
Qed.

Lemma vec_zeros n : vec n (zeros n).
Proof. split; [apply length_replicate | apply bytes_replicate]. Qed.

Lemma vec_take n k v : (k <= n)%nat -> vec n v -> vec k (take k v).
Proof. intros ? [? ?]. split; [rewrite length_take; lia | by apply bytes_take]. Qed.

Lemma vec_drop n k v : vec n v -> vec (n - k) (drop k v).
Proof. intros [? ?]. split; [rewrite length_drop; lia | by apply bytes_drop]. Qed.

#[export] Hint Resolve vec_zeros : craftec.

Lemma at_unit n i j : (i < n)%nat -> at_ (unit_vec n i) j = if decide (i = j) then 1 else 0.
Proof.
  intros Hi. unfold at_, unit_vec. destruct (decide (i = j)) as [->|Hne].
  - by rewrite list_lookup_insert_eq by (unfold zeros; rewrite length_replicate; done).
  - rewrite list_lookup_insert_ne by done. apply at_zeros.
Qed.

Lemma vec_unit n i : vec n (unit_vec n i).
Proof.
  split; [by unfold unit_vec, zeros; rewrite length_insert, length_replicate|].
  apply Forall_insert; [apply bytes_replicate | unfold is_byte; lia].
Qed.

Lemma zip_update_bytes f u v :
  (forall d s, is_byte d -> is_byte s -> is_byte (f d s)) ->
  bytes u -> bytes v -> bytes (zip_update f u v).
Proof.
  intros Hf Hu. revert v. induction Hu as [|d u Hd Hu IH]; intros [|s v] Hv; cbn; try constructor;
    inversion Hv; subst; auto.
  by apply IH.
Qed.

Lemma at_zip_update f u v i :
  length u = length v -> f 0 0 = 0 -> at_ (zip_update f u v) i = f (at_ u i) (at_ v i).
Proof.
  intros Hl H0. revert v i Hl. induction u as [|d u IH]; intros [|s v] i Hl; try discriminate.
  - by cbn.
  - destruct i; [done|]. cbn. apply IH. by inversion Hl.
Qed.

Lemma vec_mul_add n u v c : vec n u -> vec n v -> is_byte c -> vec n (gf_vec_mul_add u v c).
Proof.
  intros [? ?] [? ?] ?. rewrite gf_vec_mul_add_spec by done. split.
  - by rewrite length_zip_update.
  - apply zip_update_bytes; auto with craftec.
Qed.
#[export] Hint Resolve vec_mul_add : craftec.

Lemma at_mul_add n u v c i :
  vec n u -> vec n v -> is_byte c ->
  at_ (gf_vec_mul_add u v c) i = Z.lxor (at_ u i) (gf_mul c (at_ v i)).
Proof.
  intros [? ?] [? ?] ?. rewrite gf_vec_mul_add_spec by done.
  apply at_zip_update; [congruence|]. by rewrite gf_mul_0_r.
Qed.

Lemma at_scale c v i : at_ (scale c v) i = gf_mul (at_ v i) c.
Proof. unfold at_, scale. rewrite list_lookup_fmap. by destruct (v !! i). Qed.

Lemma vec_scale n c v : vec n v -> vec n (scale c v).
Proof.
  intros [? ?]. split; [by unfold scale; rewrite length_map|].
  apply Forall_fmap, Forall_forall. intros. apply gf_mul_byte.
Qed.

(** Scaling is the multiply-accumulate into a zero vector. *)
Lemma scale_mul_add n c v :
  vec n v -> is_byte c -> scale c v = gf_vec_mul_add (zeros n) v c.
Proof.
  intros Hv Hc. apply vec_eq with n; auto using vec_scale with craftec.
  intros i _. rewrite at_scale, (at_mul_add n), at_zeros, Z.lxor_0_l by auto with craftec.
  apply gf_mul_comm.
Qed.

Lemma sub_scale n P v c : subspace n P -> P v -> is_byte c -> P (scale c v).
Proof.
  intros HP Hv Hc. rewrite (scale_mul_add n) by (try done; by apply (sub_vec n P)).
  apply (sub_mul_add n P HP); [exact (sub_zero n P HP) | done | done].
Qed.

(** ** Dot products *)

Lemma dot_byte cs xs : is_byte (dot cs xs).
Proof. revert xs. induction cs; intros [|? ?]; cbn; auto with craftec. Qed.
#[export] Hint Resolve dot_byte : craftec.

Lemma dot_zeros n xs : dot (zeros n) xs = 0.
Proof.
  revert xs. induction n as [|n IH]; intros [|x xs]; try done.
  change (Z.lxor (gf_mul 0 x) (dot (zeros n) xs) = 0). by rewrite IH.
Qed.

Lemma dot_mul_add cs ds xs c :
  length cs = length ds -> bytes cs -> bytes ds -> bytes xs -> is_byte c ->
  dot (gf_vec_mul_add cs ds c) xs = Z.lxor (dot cs xs) (gf_mul c (dot ds xs)).
Proof.
  intros Hl Hcs Hds Hxs Hc. rewrite gf_vec_mul_add_spec by done.
  revert ds xs Hl Hds Hxs. induction Hcs as [|x cs Hx Hcs IH]; intros [|d ds] xs Hl Hds Hxs;
    try discriminate; [by cbn; rewrite gf_mul_0_r|].
  destruct xs as [|y xs]; cbn; [by rewrite gf_mul_0_r|].
  inversion Hds; inversion Hxs; subst. inversion Hl.
  rewrite IH, gf_mul_add_l, gf_mul_add_r, gf_mul_assoc by auto with craftec.
  apply lxor_exchange.
Qed.

Lemma dot_mul_add_r cs xs ys c :
  length xs = length ys -> bytes cs -> bytes xs -> bytes ys -> is_byte c ->
  dot cs (gf_vec_mul_add xs ys c) = Z.lxor (dot cs xs) (gf_mul c (dot cs ys)).
Proof.
  intros Hl Hcs Hxs Hys Hc. rewrite gf_vec_mul_add_spec by done.
  revert cs ys Hl Hcs Hys. induction Hxs as [|x xs Hx Hxs IH]; intros cs [|y ys] Hl Hcs Hys;
    try discriminate; [by destruct cs; cbn; rewrite gf_mul_0_r|].
  destruct cs as [|a cs]; cbn; [by rewrite gf_mul_0_r|].
  inversion Hcs; inversion Hys; subst. inversion Hl.
  rewrite IH, !gf_mul_add_r, !gf_mul_assoc by auto with craftec.
  rewrite (gf_mul_comm a c). apply lxor_exchange.
Qed.

Lemma dot_unit n i xs :
  (i < n)%nat -> length xs = n -> bytes xs -> dot (unit_vec n i) xs = at_ xs i.
Proof.
  unfold unit_vec, zeros. revert i xs. induction n as [|n IH]; intros i xs Hi Hl Hb; [lia|].
  destruct xs as [|x xs]; [discriminate|]. inversion Hb; subst.
  destruct i as [|i]; cbn.
  - rewrite (dot_zeros n), Z.lxor_0_r. by apply gf_mul_1_l.
  - rewrite IH; [done|lia|by inversion Hl|done].
Qed.

(** ** Linear combinations *)

Lemma column_bytes rows i : Forall bytes rows -> bytes (column rows i).
Proof.
  intros H. apply Forall_fmap. eapply Forall_mono; [|exact H]. intros. by apply at_byte.
Qed.

Lemma vec_combine_from n acc rows cs :
  vec n acc -> Forall (vec n) rows -> bytes cs -> vec n (combine_from acc rows cs).
Proof.
  intros Ha Hr. unfold combine_from. revert acc cs Ha.
  induction Hr as [|r rows Hr Hrs IH]; intros acc [|c cs] Ha Hc; cbn; auto.
  inversion Hc; subst. apply IH; auto with craftec.
Qed.

Lemma at_combine_from n acc rows cs i :
  vec n acc -> Forall (vec n) rows -> bytes cs ->
  at_ (combine_from acc rows cs) i = Z.lxor (at_ acc i) (dot cs (column rows i)).
Proof.
  intros Ha Hr. unfold combine_from. revert acc cs Ha.
  induction Hr as [|r rows Hr Hrs IH]; intros acc cs Ha Hc.
  - destruct cs; cbn; by rewrite Z.lxor_0_r.
  - destruct cs as [|c cs]; cbn; [by rewrite Z.lxor_0_r|]. inversion Hc; subst.
    rewrite IH by auto with craftec. cbn. rewrite (at_mul_add n) by done. by rewrite Z.lxor_assoc.
Qed.

Lemma vec_combine n rows cs : Forall (vec n) rows -> bytes cs -> vec n (combine n rows cs).
Proof. intros. apply vec_combine_from; auto with craftec. Qed.

Lemma at_combine n rows cs i :
  Forall (vec n) rows -> bytes cs -> at_ (combine n rows cs) i = dot cs (column rows i).
Proof.
  intros. unfold combine. rewrite (at_combine_from n) by auto with craftec.
  by rewrite at_zeros, Z.lxor_0_l.
Qed.

Lemma vecs_bytes n rows : Forall (vec n) rows -> Forall bytes rows.
Proof. apply Forall_mono. by intros ? [? ?]. Qed.

(** Combinations are linear in the coefficients. *)
Lemma combine_mul_add n rows cs ds c :
  Forall (vec n) rows -> length cs = length ds -> bytes cs -> bytes ds -> is_byte c ->
  combine n rows (gf_vec_mul_add cs ds c)
  = gf_vec_mul_add (combine n rows cs) (combine n rows ds) c.
Proof.
  intros Hr Hl Hcs Hds Hc.
  assert (vec (length cs) (gf_vec_mul_add cs ds c)) as [Hlb Hbb] by (apply vec_mul_add; done).
  apply vec_eq with n; auto using vec_combine with craftec.
  intros i Hi. rewrite (at_mul_add n), !at_combine by auto using vec_combine.
  assert (bytes (column rows i)) by (eapply column_bytes, vecs_bytes; done).
  by apply dot_mul_add.
Qed.

Lemma combine_zeros n rows m : Forall (vec n) rows -> combine n rows (zeros m) = zeros n.
Proof.
  intros Hr. apply vec_eq with n; auto using vec_combine, bytes_replicate with craftec.
  - apply vec_combine; [done | apply bytes_replicate].
  - intros i Hi. rewrite at_combine, dot_zeros, at_zeros; [done|done|apply bytes_replicate].
Qed.

Lemma combine_unit n rows i r :
  Forall (vec n) rows -> rows !! i = Some r -> combine n rows (unit_vec (length rows) i) = r.
Proof.
  intros Hr Hi. pose proof (lookup_lt_Some _ _ _ Hi).
  assert (vec n r) by (by eapply Forall_lookup_1).
  destruct (vec_unit (length rows) i) as [Hul Hub].
  apply vec_eq with n; auto using vec_combine.
  intros j Hj. rewrite at_combine, dot_unit; auto.
  - unfold column, at_. by rewrite list_lookup_fmap, Hi.
  - unfold column. by rewrite length_map.
  - eapply column_bytes, vecs_bytes; done.
Qed.

(** ** Spans *)

Lemma span_subspace n rows : Forall (vec n) rows -> subspace n (in_span n rows).
Proof.
  intros Hr. split.
  - intros v (cs & [Hl Hb] & ->). by apply vec_combine.
  - exists (zeros (length rows)). split; [apply vec_zeros|]. by rewrite combine_zeros.
  - intros u v c (cs & [Hlc Hbc] & ->) (ds & [Hld Hbd] & ->) Hc.
    exists (gf_vec_mul_add cs ds c). split; [by apply vec_mul_add|].
    rewrite combine_mul_add; try done. congruence.
Qed.

Lemma span_elem n rows r : Forall (vec n) rows -> r ∈ rows -> in_span n rows r.
Proof.
  intros Hr [i Hi]%list_elem_of_lookup_1. exists (unit_vec (length rows) i).
  split; [apply vec_unit|]. symmetry. by apply combine_unit.
Qed.

Lemma sub_combine_from n P acc rows cs :
  subspace n P -> P acc -> Forall P rows -> bytes cs -> P (combine_from acc rows cs).
Proof.
  intros HP Ha Hr. unfold combine_from. revert acc cs Ha.
  induction Hr as [|r rows Hr Hrs IH]; intros acc [|c cs] Ha Hc; cbn; auto.
  inversion Hc; subst. apply IH; [|done]. by apply (sub_mul_add n P).
Qed.

(** The span is the least subspace containing the rows. *)
Lemma span_least n P rows v :
  subspace n P -> Forall P rows -> in_span n rows v -> P v.
Proof.
  intros HP Hr (cs & [Hl Hb] & ->). apply (sub_combine_from n P); auto. exact (sub_zero n P HP).
Qed.
