(* ===== verification/Types.v ===== *)
(** * Shared types (crates/craftec-types/src/cid.rs, piece.rs, error.rs)

    Content identifiers, coded pieces and their self-checks.  BLAKE3 and the
    [hex] crate are parameters: a digest, an output stream and a codec, with the
    documented behaviour the code relies on as laws. *)
From Stdlib Require Import ZArith Lia Ascii.
From stdpp Require Import base list list_numbers numbers strings.
From S2P Require Import Prelude.

Local Open Scope Z_scope.
Local Open Scope craftec_scope.

(** ** External code *)

(** The [blake3] crate: [blake3::hash] and the bytes of [finalize_xof] by
    position. *)
Class Blake3 : Type := {
  blake3_hash : list Z -> list Z;
  blake3_xof : list Z -> nat -> Z;
}.

Class Blake3Laws `{Blake3} : Prop := {
  blake3_hash_length data : length (blake3_hash data) = 32%nat;
  blake3_hash_bytes data : bytes (blake3_hash data);
  blake3_xof_byte input i : is_byte (blake3_xof input i);
}.

(** A lowercase hexadecimal digit, and [format!("{:02x}", b)]. *)
Definition hex_digit (v : Z) : ascii :=
  ascii_of_nat (Z.to_nat (if v <? 10 then 48 + v else 87 + v)).
Definition fmt_02x (b : Z) : string := String (hex_digit (b / 16)) (String (hex_digit (b `mod` 16)) EmptyString).

(** The [hex] crate: lowercase encoding, two digits per byte, and decoding. *)
Class Hex : Type := {
  hex_encode : list Z -> string;
  hex_decode : string -> option (list Z);
}.

Class HexLaws `{Hex} : Prop := {
  hex_decode_encode b : bytes b -> hex_decode (hex_encode b) = Some b;
  hex_decode_bytes s b : hex_decode s = Some b -> bytes b;
  hex_decode_length s b : hex_decode s = Some b -> String.length s = (2 * length b)%nat;
  hex_encode_nil : hex_encode [] = EmptyString;
  hex_encode_cons x b : is_byte x -> hex_encode (x :: b) = fmt_02x x +:+ hex_encode b;
}.

(** ** Errors *)

Inductive CraftecError : Type :=
| StorageError (msg : string)
| NetworkError (msg : string)
| CodingError (msg : string)
| IdentityError (msg : string)
| DatabaseError (msg : string)
| WasmError (msg : string)
| IoError (msg : string)
| SerializationError (msg : string).

(** ** Content identifiers *)

Definition CID_SIZE : nat := 32.

(** A [Cid] is its 32 raw bytes. *)
Abbreviation Cid := (list Z) (only parsing).
Definition cid_wf (c : Cid) : Prop := length c = CID_SIZE /\ bytes c.

Section Cid.
Context `{B3 : Blake3} `{HX : Hex}.

Definition cid_from_data (data : list Z) : Cid := blake3_hash data.

Definition cid_verify (c : Cid) (data : list Z) : bool :=
  bool_decide (cid_from_data data = c).

Definition cid_to_string (c : Cid) : string := hex_encode c.

Definition cid_from_str (s : string) : result Cid CraftecError :=
  match hex_decode s with
  | None => Err (IdentityError "invalid CID hex")
  | Some b =>
      if negb (length b =? CID_SIZE)%nat then Err (IdentityError "CID must be 32 bytes")
      else Ok b
  end.

End Cid.

(** ** Coded pieces *)

Definition K_DEFAULT : Z := 32.
Definition PAGE_SIZE : Z := 16384.

Record CodedPiece : Type := mkPiece {
  piece_id : list Z;
  cid : Cid;
  coding_vector : list Z;
  data : list Z;
  hommac_tag : list Z;
}.

(** One round of [gf256_mul_0x11b]'s loop on [(result, aa, bb)]. *)
Definition gf256_0x11b_round (st : Z * Z * Z) : Z * Z * Z :=
  let '(result, aa, bb) := st in
  let result := if negb (Z.land bb 1 =? 0) then Z.lxor result aa else result in
  let high_bit := Z.land aa 128 in
  let aa := wrap 8 (Z.shiftl aa 1) in
  let aa := if negb (high_bit =? 0) then Z.lxor aa 27 else aa in
  (result, aa, Z.shiftr bb 1).

Definition gf256_mul_0x11b (a b : Z) : Z :=
  (Nat.iter 8 gf256_0x11b_round (0, a, b)).1.1.
#[global] Arguments gf256_mul_0x11b : simpl never.

Section Piece.
Context `{B3 : Blake3}.

Definition piece_id_from_data (d : list Z) : list Z := blake3_hash d.

Definition CodedPiece_new (c : Cid) (cv d tag : list Z) : CodedPiece :=
  {| piece_id := piece_id_from_data (cv ++ d);
     cid := c; coding_vector := cv; data := d; hommac_tag := tag |}.

Definition verify_piece_id (p : CodedPiece) : bool :=
  bool_decide (piece_id_from_data (coding_vector p ++ data p) = piece_id p).

(** The inner-product loop of [verify_mac] over one chunk: [xof.fill] takes the
    next [chunk.len()] bytes of the stream, [acc ^= r * x] folds them in. *)
Definition mac_absorb (mul : Z -> Z -> Z) (stream : nat -> Z)
    (st : Z * nat) (chunk : list Z) : Z * nat :=
  let '(acc, pos) := st in
  let r_buf := map stream (seq pos (length chunk)) in
  (foldl (fun acc rx => Z.lxor acc (mul rx.1 rx.2)) acc (zip r_buf chunk),
   (pos + length chunk)%nat).

Definition verify_mac_byte (key : list Z) (p : CodedPiece) (j : Z) : Z :=
  let xof := blake3_xof (key ++ [j]) in
  let st := foldl (mac_absorb gf256_mul_0x11b xof) (0, 0%nat) (chunks 256 (coding_vector p)) in
  (foldl (mac_absorb gf256_mul_0x11b xof) st (chunks 256 (data p))).1.

Definition verify_mac (p : CodedPiece) : bool :=
  let key := cid p in
  let tag := map (verify_mac_byte key p) (seqZ 0 32) in
  bool_decide (tag = hommac_tag p).

End Piece.

(** ** Piece index record *)

Record PieceIndex : Type := mkPieceIndex {
  pi_cid : Cid;
  piece_count : Z;
  original_size : Z;
}.

(** ** CID text form *)

Lemma cid_string_roundtrip `{HexLaws} (c : Cid) :
  cid_wf c -> cid_from_str (cid_to_string c) = Ok c.
Proof.
  intros [Hl Hb]. unfold cid_from_str, cid_to_string. rewrite hex_decode_encode by done.
  by rewrite Hl.
Qed.

Lemma cid_from_str_wf `{HexLaws} s (c : Cid) : cid_from_str s = Ok c -> cid_wf c.
Proof.
  unfold cid_from_str. destruct (hex_decode s) as [b|] eqn:E; [|done].
  destruct (length b =? CID_SIZE)%nat eqn:El; [|done]. intros [= <-]. bool_to_prop.
  split; [done|]. by eapply hex_decode_bytes.
Qed.

Lemma hex_encode_length `{HexLaws} b : bytes b -> String.length (hex_encode b) = (2 * length b)%nat.
Proof.
  induction 1 as [|x b Hx _ IH]; [by rewrite hex_encode_nil|].
  rewrite hex_encode_cons by done.
  change (S (S (String.length (hex_encode b))) = (2 * length (x :: b))%nat). rewrite IH. cbn. lia.
Qed.

Lemma hex_encode_inj `{HexLaws} a b : bytes a -> bytes b -> hex_encode a = hex_encode b -> a = b.
Proof.
  intros Ha Hb Heq. apply (f_equal hex_decode) in Heq. rewrite !hex_decode_encode in Heq by done. congruence.
Qed.
