(* ===== verification/Instances.v ===== *)
(** * Concrete instances of the external parameters

    A toy digest and output stream and a real hexadecimal codec, with proofs of
    the laws the components assume.  They show the laws can hold and give the
    concrete runs of the development something to compute with. *)
From Stdlib Require Import ZArith Lia Ascii.
From stdpp Require Import base list list_numbers numbers strings.
From S2P Require Import Prelude Gf256 Linear Types.

Local Open Scope Z_scope.

#[export] Instance bytes_dec l : Decision (bytes l).
Proof. unfold bytes. apply _. Defined.
#[export] Instance vec_dec n v : Decision (vec n v).
Proof. unfold vec. apply _. Defined.

(** Prove a decidable closed statement by evaluation. *)
Ltac by_compute := refine (bool_decide_unpack _ _); vm_compute; exact I.

(** ** Digest *)

(** Short byte strings (up to 31 bytes) are embedded, longer ones are named by their length and first bytes. *)
Definition toy_hash (d : list Z) : list Z :=
  if (length d <=? 31)%nat && forallb is_byteb d
  then (Z.of_nat (length d) + 1) :: d ++ replicate (31 - length d) 0
  else 0 :: Z.of_nat (length d) `mod` 256 :: take 30 (map (wrap 8) d ++ replicate 30 0).

Definition toy_xof (input : list Z) (i : nat) : Z :=
  (foldl (fun a b => (a * 31 + b) `mod` 65521) 7 input + Z.of_nat i * 37 + Z.of_nat i * Z.of_nat i) `mod` 256.

#[export] Instance toy_blake3 : Blake3 := {| blake3_hash := toy_hash; blake3_xof := toy_xof |}.

#[export] Instance toy_blake3_laws : Blake3Laws.
Proof.
  split.
  - intros d. cbn. unfold toy_hash. destruct (_ && _) eqn:E; bool_to_prop;
      [|cbn [length]; rewrite length_take, length_app, length_replicate; lia].
    cbn. rewrite length_app, length_replicate. lia.
  - intros d. cbn. unfold toy_hash. destruct (_ && _) eqn:E; bool_to_prop; 
      [|constructor; [unfold is_byte; lia|constructor; [apply Z.mod_pos_bound; lia|]];
        apply bytes_take, bytes_app; split; [|apply bytes_replicate];
        apply Forall_fmap, list.Forall_forall; intros b _; apply (wrap_fits 8); lia].
    constructor; [unfold is_byte; lia|]. apply bytes_app. split; [|apply bytes_replicate].
    apply list.Forall_forall. intros b Hb. apply is_byteb_spec. by apply (forallb_elem_of _ d).
  - intros input i. apply Z.mod_pos_bound. lia.
Qed.

(** Short byte strings have no second preimage. *)
Lemma toy_hash_inj d d' :
  (length d <= 31)%nat -> bytes d -> toy_hash d' = toy_hash d -> d' = d.
Proof.
  intros Hl Hb. unfold toy_hash at 2.
  replace ((length d <=? 31)%nat && forallb is_byteb d) with true.
  2: { symmetry. apply andb_true_iff. split; [by apply Nat.leb_le|]. apply forallb_forall.
       intros b Hin%list_elem_of_In. apply is_byteb_spec. by apply (proj1 (list.Forall_forall _ _) Hb). }
  unfold toy_hash. destruct (_ && _) eqn:E; bool_to_prop; [|intros [= ? _]; lia].
  intros [= Hlen Happ]. apply app_inj_1 in Happ as [? _]; [done|lia].
Qed.

(** ** Hexadecimal *)

Definition hex_value (c : ascii) : option Z :=
  let n := Z.of_nat (nat_of_ascii c) in
  if (48 <=? n) && (n <=? 57) then Some (n - 48)
  else if (97 <=? n) && (n <=? 102) then Some (n - 87)
  else if (65 <=? n) && (n <=? 70) then Some (n - 55)
  else None.

Fixpoint to_hex (b : list Z) : string :=
  match b with
  | [] => EmptyString
  | x :: b => fmt_02x x +:+ to_hex b
  end.

Fixpoint of_hex (s : string) : option (list Z) :=
  match s with
  | EmptyString => Some []
  | String h (String l s) =>
      match hex_value h, hex_value l, of_hex s with
      | Some h, Some l, Some b => Some (h * 16 + l :: b)
      | _, _, _ => None
      end
  | _ => None
  end.

#[export] Instance ascii_hex : Hex := {| hex_encode := to_hex; hex_decode := of_hex |}.

Lemma hex_digit_value x :
  is_byte x ->
  hex_value (hex_digit (x / 16)) = Some (x / 16) /\ hex_value (hex_digit (x `mod` 16)) = Some (x `mod` 16).
Proof.
  intros Hx.
  assert (bool_decide (hex_value (hex_digit (x / 16)) = Some (x / 16)) &&
          bool_decide (hex_value (hex_digit (x `mod` 16)) = Some (x `mod` 16)) = true) as H.
  { revert x Hx.
    apply (forall_bytes (fun x => bool_decide (hex_value (hex_digit (x / 16)) = Some (x / 16)) &&
          bool_decide (hex_value (hex_digit (x `mod` 16)) = Some (x `mod` 16)))). vm_compute. reflexivity. }
  by bool_to_prop.
Qed.

Lemma hex_value_range c v : hex_value c = Some v -> 0 <= v < 16.
Proof.
  unfold hex_value. destruct (_ && _) eqn:E1; [intros [= <-]; bool_to_prop; lia|].
  destruct ((97 <=? _) && _) eqn:E2; [intros [= <-]; bool_to_prop; lia|].
  destruct ((65 <=? _) && _) eqn:E3; [intros [= <-]; bool_to_prop; lia|done].
Qed.

#[export] Instance ascii_hex_laws : HexLaws.
Proof.
  split.
  - intros b Hb. cbn. induction Hb as [|x b Hx Hb IH]; [done|]. cbn [to_hex].
    change (of_hex (fmt_02x x +:+ to_hex b)) with (match hex_value (hex_digit (x / 16)),
      hex_value (hex_digit (x `mod` 16)), of_hex (to_hex b) with
      | Some h, Some l, Some b => Some (h * 16 + l :: b) | _, _, _ => None end).
    destruct (hex_digit_value x Hx) as [-> ->]. rewrite IH. do 2 f_equal.
    pose proof (Z.div_mod x 16). lia.
  - cbn. fix IH 1. intros [|h [|l s]] b; cbn [of_hex]; [intros [= <-]; constructor|done|].
    destruct (hex_value h) eqn:Eh; [|done]. destruct (hex_value l) eqn:El; [|done].
    destruct (of_hex s) eqn:Es; [|done]. intros [= <-]. constructor; [|by apply (IH s)].
    apply hex_value_range in Eh, El. unfold is_byte. lia.
  - cbn. fix IH 1. intros [|h [|l s]] b; cbn [of_hex]; [by intros [= <-]|done|].
    destruct (hex_value h) eqn:Eh; [|done]. destruct (hex_value l) eqn:El; [|done].
    destruct (of_hex s) eqn:Es; [|done]. intros [= <-]. cbn [String.length length].
    rewrite (IH s _ Es). lia.
  - done.
  - done.
Qed.
