(* ===== verification/Serde.v ===== *)
(** * Serialised content identifiers (crates/craftec-types/src/cid.rs)

    The serde instances of [Cid]: hexadecimal text in human-readable formats, raw bytes
    in the others. *)
From Stdlib Require Import ZArith Lia.
From stdpp Require Import base list list_numbers numbers strings gmap.
From S2P Require Import Prelude Types.

Local Open Scope Z_scope.

(** The values of serde's data model the two instances use. *)
Inductive serde_value : Type :=
| SerStr (s : string)
| SerBytes (b : list Z).

Section Serde.
Context `{HX : Hex}.

Definition cid_serialize (human_readable : bool) (c : Cid) : serde_value :=
  if human_readable then SerStr (hex_encode c) else SerBytes c.

Definition cid_deserialize (human_readable : bool) (v : serde_value) : result Cid string :=
  match human_readable, v with
  | true, SerStr s => match cid_from_str s with Ok c => Ok c | Err _ => Err "invalid CID"%string end
  | false, SerBytes b => if negb (length b =? CID_SIZE)%nat then Err "expected 32 bytes for CID"%string else Ok b
  | _, _ => Err "invalid type"%string
  end.

End Serde.

Section SerdeFacts.
Context `{HXL : HexLaws}.

(** In either kind of format a CID is read back as it was written, and whatever is
    read is a CID of 32 bytes. *)
Theorem cid_serde_roundtrip human c :
  cid_wf c ->
  cid_deserialize human (cid_serialize human c) = Ok c /\
  forall v c', cid_deserialize human v = Ok c' -> length c' = CID_SIZE.
Proof.
  intros [Hl Hb]. split.
  - destruct human; cbn.
    + unfold cid_from_str. rewrite hex_decode_encode by done. by rewrite (proj2 (Nat.eqb_eq _ _) Hl).
    + by rewrite (proj2 (Nat.eqb_eq _ _) Hl).
  - intros v c' Hv. destruct human, v as [s|b]; cbn in Hv; try done.
    + unfold cid_from_str in Hv. destruct (hex_decode s) as [b|]; [|done]. destruct (length b =? CID_SIZE)%nat eqn:E; cbn in Hv; [|done].
      injection Hv as <-. by apply Nat.eqb_eq.
    + destruct (length b =? CID_SIZE)%nat eqn:E; cbn in Hv; [|done]. injection Hv as <-. by apply Nat.eqb_eq.
Qed.

End SerdeFacts.
