(* ===== verification/External.v ===== *)
(** * Interfaces of the external containers

    The [lru] and [bloomfilter] crates as the storage layers use them: operations
    with the documented laws, and an instance of each showing the laws can hold. *)
From Stdlib Require Import ZArith Lia.
From stdpp Require Import base list numbers.
From S2P Require Import Prelude.

(** ** [lru::LruCache] *)

Class Lru (K V : Type) : Type := {
  lru : Type;
  lru_new : nat -> lru;
  lru_peek : K -> lru -> option V;
  lru_get : K -> lru -> option V * lru;
  lru_put : K -> V -> lru -> lru;
  lru_pop : K -> lru -> option V * lru;
  lru_len : lru -> nat;
}.

(** A lookup returns what [peek] sees and changes only the recency; an insertion
    binds its key and evicts at most other keys; [pop] unbinds its key; the cache
    never holds more than its capacity. *)
Class LruLaws (K V : Type) `{Lru K V} : Prop := {
  lru_peek_new n k : lru_peek k (lru_new n) = None;
  lru_get_peek k c : (lru_get k c).1 = lru_peek k c;
  lru_get_keeps k k' c : lru_peek k' (lru_get k c).2 = lru_peek k' c;
  lru_put_eq k v c : lru_peek k (lru_put k v c) = Some v;
  lru_put_ne k k' v c : k <> k' -> lru_peek k' (lru_put k v c) = lru_peek k' c \/ lru_peek k' (lru_put k v c) = None;
  lru_pop_eq k c : lru_peek k (lru_pop k c).2 = None;
  lru_pop_ne k k' c : k <> k' -> lru_peek k' (lru_pop k c).2 = lru_peek k' c;
}.

(** Entries after an insertion are the inserted one or old ones. *)
Lemma lru_put_inv `{LruLaws K V} `{EqDecision K} k v k' v' c :
  lru_peek k' (lru_put k v c) = Some v' -> k' = k /\ v' = v \/ k' <> k /\ lru_peek k' c = Some v'.
Proof.
  destruct (decide (k = k')) as [->|Hne].
  - rewrite lru_put_eq. intros [= ->]. by left.
  - intros Hp. right. split; [done|]. destruct (lru_put_ne k k' v c Hne) as [Heq|Heq]; congruence.
Qed.

Lemma lru_pop_inv `{LruLaws K V} `{EqDecision K} k k' v' c :
  lru_peek k' (lru_pop k c).2 = Some v' -> k' <> k /\ lru_peek k' c = Some v'.
Proof.
  destruct (decide (k = k')) as [->|Hne]; [by rewrite lru_pop_eq|].
  rewrite lru_pop_ne by done. by split.
Qed.

(** ** [bloomfilter::Bloom] *)

Class Bloom (A : Type) : Type := {
  bloom : Type;
  bloom_new : bloom;
  bloom_set : A -> bloom -> bloom;
  bloom_check : A -> bloom -> bool;
}.

(** No false negatives. *)
Class BloomLaws (A : Type) `{Bloom A} : Prop := {
  bloom_set_check x b : bloom_check x (bloom_set x b) = true;
  bloom_set_mono x y b : bloom_check y b = true -> bloom_check y (bloom_set x b) = true;
}.

(** ** Instances *)

Section ListLru.
Context {K V : Type} `{EqDecision K}.

Definition alist_find (k : K) (l : list (K * V)) : option V :=
  snd <$> List.find (fun kv => bool_decide (kv.1 = k)) l.
Definition alist_remove (k : K) (l : list (K * V)) : list (K * V) :=
  List.filter (fun kv => negb (bool_decide (kv.1 = k))) l.

Lemma alist_find_remove_eq k l : alist_find k (alist_remove k l) = None.
Proof.
  unfold alist_find, alist_remove. induction l as [|[k' v] l IH]; [done|]. cbn.
  destruct (bool_decide (k' = k)) eqn:E; cbn; [done|]. by rewrite E.
Qed.

Lemma alist_find_remove_ne k k' l : k <> k' -> alist_find k' (alist_remove k l) = alist_find k' l.
Proof.
  intros Hne. unfold alist_find, alist_remove. induction l as [|[k0 v] l IH]; [done|]. cbn.
  destruct (bool_decide (k0 = k)) eqn:E; cbn; bool_to_prop.
  - rewrite IH, bool_decide_false by congruence. done.
  - by destruct (bool_decide (k0 = k')).
Qed.

Lemma alist_find_take n k (l : list (K * V)) :
  alist_find k (take n l) = alist_find k l \/ alist_find k (take n l) = None.
Proof.
  unfold alist_find. revert n. induction l as [|[k0 v] l IH]; intros [|n]; cbn; auto.
  destruct (bool_decide (k0 = k)); auto.
Qed.

(** Most recently used first. *)
#[export] Instance list_lru : Lru K V := {|
  lru := nat * list (K * V);
  lru_new n := (n, []);
  lru_peek k c := alist_find k c.2;
  lru_get k c := match alist_find k c.2 with
    | Some v => (Some v, (c.1, (k, v) :: alist_remove k c.2))
    | None => (None, c) end;
  lru_put k v c := (c.1, (k, v) :: take (c.1 - 1) (alist_remove k c.2));
  lru_pop k c := (alist_find k c.2, (c.1, alist_remove k c.2));
  lru_len c := length c.2;
|}.

Lemma alist_find_cons k k' v l :
  alist_find k' ((k, v) :: l) = if bool_decide (k = k') then Some v else alist_find k' l.
Proof. unfold alist_find. cbn. by destruct (bool_decide (k = k')). Qed.

#[local] Arguments alist_find : simpl never.

#[export] Instance list_lru_laws : LruLaws K V.
Proof.
  split; cbn [lru_new lru_peek lru_get lru_put lru_pop list_lru].
  - done.
  - intros k [n l]. cbn. by destruct (alist_find k l).
  - intros k k' [n l]. cbn. destruct (alist_find k l) as [v|] eqn:E; [|done]. cbn. rewrite alist_find_cons.
    destruct (bool_decide (k = k')) eqn:Hk; bool_to_prop; [congruence|by apply alist_find_remove_ne].
  - intros k v [n l]. cbn. by rewrite alist_find_cons, bool_decide_true.
  - intros k k' v [n l] Hne. cbn. rewrite alist_find_cons, bool_decide_false by done.
    rewrite <- (alist_find_remove_ne k k' l) by done. apply alist_find_take.
  - intros k [n l]. apply alist_find_remove_eq.
  - intros k k' [n l] Hne. by apply alist_find_remove_ne.
Qed.

End ListLru.

Section ListBloom.
Context {A : Type} `{EqDecision A}.

(** An exact set is a filter with no false positives. *)
#[export] Instance list_bloom : Bloom A := {|
  bloom := list A;
  bloom_new := [];
  bloom_set x b := x :: b;
  bloom_check x b := bool_decide (x ∈ b);
|}.

#[export] Instance list_bloom_laws : BloomLaws A.
Proof.
  split; cbn; intros; rewrite bool_decide_eq_true in *; rewrite elem_of_cons; auto.
Qed.

End ListBloom.
