(* ===== verification/Hommac.v ===== *)
(** * Homomorphic MAC (crates/craftec-crypto/src/hommac.rs)

    The GF(2^8) inner-product tag of a coded piece, its combination under
    recoding, and the proof that both are linear: a recoded piece carries the
    tag its own bytes would get. *)
From Stdlib Require Import ZArith Lia.
From stdpp Require Import base list list_numbers numbers.
From S2P Require Import Prelude Gf256 Linear Types Instances.

Local Open Scope Z_scope.

(** ** Definitions *)

(** One round of [gf256_mul]'s [for _ in 0..8] on [(result, aa, bb)]. *)
Definition gf256_round (st : Z * Z * Z) : Z * Z * Z :=
  let '(result, aa, bb) := st in
  let result := if negb (Z.land bb 1 =? 0) then Z.lxor result aa else result in
  let high_bit := Z.land aa 128 in
  let aa := wrap 8 (Z.shiftl aa 1) in
  let aa := if negb (high_bit =? 0) then Z.lxor aa 27 else aa in
  (result, aa, Z.shiftr bb 1).

Definition gf256_mul (a b : Z) : Z := (Nat.iter 8 gf256_round (0, a, b)).1.1.
#[global] Arguments gf256_mul : simpl never.

(** A [HomMacKey] is its 32 raw bytes. *)
Abbreviation HomMacKey := (list Z) (only parsing).

Section Hommac.
Context `{B3 : Blake3}.

(** Byte [j] of the tag: the coding vector, then the data, in chunks of 256
    against one continuous output stream. *)
Definition tag_byte (key : HomMacKey) (cv d : list Z) (j : Z) : Z :=
  let xof := blake3_xof (key ++ [j]) in
  let st := foldl (mac_absorb gf256_mul xof) (0, 0%nat) (chunks 256 cv) in
  (foldl (mac_absorb gf256_mul xof) st (chunks 256 d)).1.

Definition compute_tag (key : HomMacKey) (cv d : list Z) : list Z :=
  map (tag_byte key cv d) (seqZ 0 32).

Definition verify_tag (key : HomMacKey) (cv d tag : list Z) : bool :=
  bool_decide (compute_tag key cv d = tag).

Definition combine_tags (_key : HomMacKey) (tags : list (list Z)) (coefficients : list Z) : list Z :=
  foldl (fun combined tc => zip_update (fun acc t => Z.lxor acc (gf256_mul tc.2 t)) combined tc.1)
    (replicate 32 0) (zip tags coefficients).

End Hommac.

(** ** The bit-serial multiplier is the field multiplication *)

Lemma gf256_iter_bits n r a b :
  (Nat.iter n gf256_round (r, a, b)).1.1 = Z.lxor r (mul_bits n a b).
Proof.
  revert r a b. induction n as [|n IH]; intros r a b; [cbn; by rewrite Z.lxor_0_r|].
  rewrite Nat.iter_succ_r. cbn [gf256_round]. rewrite IH. cbn [mul_bits].
  rewrite land_1_odd. fold (xtime a). destruct (Z.odd b); by rewrite ?Z.lxor_0_l, ?Z.lxor_assoc.
Qed.

Lemma gf256_mul_eq a b : is_byte a -> is_byte b -> gf256_mul a b = gf_mul a b.
Proof.
  intros. unfold gf256_mul. rewrite gf256_iter_bits, Z.lxor_0_l. by rewrite gf_mul_mulx.
Qed.

Lemma gf256_mul_0x11b_eq a b : gf256_mul_0x11b a b = gf256_mul a b.
Proof. reflexivity. Qed.

(** ** The chunked loop is one dot product *)

Lemma foldl_mac_dot mul rs xs acc :
  (forall a b, is_byte a -> is_byte b -> mul a b = gf_mul a b) ->
  length rs = length xs -> bytes rs -> bytes xs ->
  foldl (fun acc rx => Z.lxor acc (mul rx.1 rx.2)) acc (zip rs xs) = Z.lxor acc (dot rs xs).
Proof.
  intros Hm Hl Hrs. revert xs acc Hl. induction Hrs as [|r rs Hr Hrs IH]; intros [|x xs] acc Hl Hx;
    try discriminate; [by rewrite Z.lxor_0_r|].
  inversion Hx; subst. cbn. rewrite IH, Hm by (done || by inversion Hl). by rewrite Z.lxor_assoc.
Qed.

Lemma dot_app rs rs' xs xs' :
  length rs = length xs -> dot (rs ++ rs') (xs ++ xs') = Z.lxor (dot rs xs) (dot rs' xs').
Proof.
  revert xs. induction rs as [|r rs IH]; intros [|x xs] Hl; try discriminate.
  - by rewrite Z.lxor_0_l.
  - cbn. rewrite IH by (by inversion Hl). by rewrite Z.lxor_assoc.
Qed.

Section Linear.
Context `{BL : Blake3Laws}.

Lemma stream_bytes input l : bytes (map (blake3_xof input) l).
Proof. apply Forall_fmap, Forall_forall. intros. apply blake3_xof_byte. Qed.

Lemma mac_absorb_chunks mul input cs acc pos :
  (forall a b, is_byte a -> is_byte b -> mul a b = gf_mul a b) ->
  Forall bytes cs ->
  foldl (mac_absorb mul (blake3_xof input)) (acc, pos) cs
  = (Z.lxor acc (dot (map (blake3_xof input) (seq pos (length (concat cs)))) (concat cs)),
     (pos + length (concat cs))%nat).
Proof.
  intros Hm Hcs. revert acc pos. induction Hcs as [|c cs Hc Hcs IH]; intros acc pos.
  - cbn. by rewrite Z.lxor_0_r, Nat.add_0_r.
  - cbn [foldl concat mac_absorb]. rewrite IH, foldl_mac_dot;
      [|done|by rewrite length_map, length_seq|apply stream_bytes|done].
    rewrite length_app, seq_app, map_app, dot_app by (by rewrite length_map, length_seq).
    by rewrite Z.lxor_assoc, Nat.add_assoc.
Qed.

(** The pseudorandom coefficients of tag byte [j] for a piece of [n] bytes. *)
Definition mac_row (key : HomMacKey) (n : nat) (j : Z) : list Z :=
  map (blake3_xof (key ++ [j])) (seq 0 n).

Lemma tag_byte_dot key cv d j :
  bytes cv -> bytes d ->
  tag_byte key cv d j = dot (mac_row key (length cv + length d) j) (cv ++ d).
Proof.
  intros Hcv Hd. unfold tag_byte, mac_row.
  rewrite mac_absorb_chunks by (auto using gf256_mul_eq, chunks_bytes).
  rewrite mac_absorb_chunks by (auto using gf256_mul_eq, chunks_bytes).
  rewrite !chunks_concat by lia. cbn [fst]. rewrite Z.lxor_0_l.
  by rewrite seq_app, map_app, dot_app by (by rewrite length_map, length_seq).
Qed.

Lemma mac_row_vec key n j : vec n (mac_row key n j).
Proof. split; [unfold mac_row; by rewrite length_map, length_seq | apply stream_bytes]. Qed.

Lemma verify_mac_tag p : verify_mac p = verify_tag (cid p) (coding_vector p) (data p) (hommac_tag p).
Proof.
  unfold verify_mac, verify_tag, compute_tag, verify_mac_byte, tag_byte.
  assert (gf256_mul_0x11b = gf256_mul) as -> by reflexivity. done.
Qed.

Lemma length_compute_tag key cv d : length (compute_tag key cv d) = 32%nat.
Proof. unfold compute_tag. by rewrite length_map, length_seqZ. Qed.

Lemma at_compute_tag key cv d j :
  (j < 32)%nat -> at_ (compute_tag key cv d) j = tag_byte key cv d (Z.of_nat j).
Proof.
  intros Hj. unfold at_, compute_tag. rewrite list_lookup_fmap, lookup_seqZ_lt by lia.
  cbn. by rewrite Z.add_0_l.
Qed.

Lemma compute_tag_vec key cv d : bytes cv -> bytes d -> vec 32 (compute_tag key cv d).
Proof.
  intros Hc Hd. split; [apply length_compute_tag|]. apply Forall_fmap, Forall_forall. intros j _. cbn.
  rewrite tag_byte_dot by done. apply dot_byte.
Qed.

(** ** Linearity *)

Lemma mul_add_app a b c d x :
  length a = length c -> bytes a -> bytes b -> bytes c -> bytes d -> is_byte x ->
  gf_vec_mul_add (a ++ b) (c ++ d) x = gf_vec_mul_add a c x ++ gf_vec_mul_add b d x.
Proof.
  intros Hl Ha Hb Hc Hd Hx. rewrite !gf_vec_mul_add_spec by (auto; by apply bytes_app).
  clear Ha Hb Hd. revert c Hl Hc. induction a as [|y a IH]; intros [|z c] Hl Hc; try discriminate; [done|].
  inversion Hc; subst. cbn. f_equal. apply IH; [by inversion Hl | done].
Qed.

Lemma combine_app k n cvs ds cs :
  Forall (vec k) cvs -> Forall (vec n) ds -> length cvs = length ds -> bytes cs ->
  combine (k + n) (zip_with app cvs ds) cs = combine k cvs cs ++ combine n ds cs.
Proof.
  unfold combine, combine_from. replace (zeros (k + n)) with (zeros k ++ zeros n)
    by (unfold zeros; by rewrite replicate_add).
  assert (vec k (zeros k)) as Ha by apply vec_zeros. assert (vec n (zeros n)) as Hb by apply vec_zeros.
  revert Ha Hb. generalize (zeros k) as a, (zeros n) as b. intros a b Ha Hb Hcv. revert a b Ha Hb ds cs.
  induction Hcv as [|cv cvs Hv Hvs IH]; intros a b Ha Hb [|d ds] cs Hds Hl Hcs; try discriminate; [done|].
  destruct cs as [|c cs]; [done|]. inversion Hds; inversion Hcs; subst. cbn.
  rewrite mul_add_app; [apply IH|..]; auto with craftec.
  all: repeat match goal with H : vec _ _ |- _ => destruct H end; subst; auto; congruence.
Qed.

Lemma dot_combine n r rows cs :
  vec n r -> Forall (vec n) rows -> bytes cs ->
  dot r (combine n rows cs) = dot cs (map (dot r) rows).
Proof.
  intros [Hrl Hrb] Hrows Hcs. unfold combine, combine_from.
  enough (forall acc, vec n acc ->
    dot r (foldl (fun acc rc => gf_vec_mul_add acc rc.1 rc.2) acc (zip rows cs))
    = Z.lxor (dot r acc) (dot cs (map (dot r) rows))) as Hgen.
  { rewrite Hgen by apply vec_zeros. enough (dot r (zeros n) = 0) as -> by apply Z.lxor_0_l.
    clear. unfold zeros. revert n. induction r as [|x r IH]; intros [|n]; try done.
    cbn. rewrite gf_mul_0_r, IH. done. }
  revert cs Hcs. induction Hrows as [|row rows Hrow Hrows IH]; intros [|c cs] Hcs acc Hacc; cbn;
    try by rewrite Z.lxor_0_r.
  inversion Hcs; subst. rewrite IH by auto with craftec.
  destruct Hacc, Hrow. rewrite dot_mul_add_r by (auto; congruence).
  by rewrite Z.lxor_assoc.
Qed.

Lemma combine_tags_combine key tags cs :
  Forall (vec 32) tags -> bytes cs -> combine_tags key tags cs = combine 32 tags cs.
Proof.
  unfold combine_tags, combine, combine_from. change (replicate 32 0) with (zeros 32).
  intros Ht. revert cs. generalize (zeros 32) as acc.
  induction Ht as [|t tags [Hl Hb] Ht IH]; intros acc [|c cs] Hcs; try done.
  inversion Hcs; subst. cbn. rewrite IH, gf_vec_mul_add_spec by done. f_equal.
  apply zip_update_ext. intros d s Hs. rewrite gf256_mul_eq; [done|done|].
  by eapply list.Forall_forall in Hb.
Qed.

(** The combined tag of pieces carrying their own tags is the tag of the
    combined piece. *)
Lemma combine_tags_homomorphic key k n cvs ds cs :
  Forall (vec k) cvs -> Forall (vec n) ds -> length cvs = length ds -> bytes cs ->
  combine_tags key (zip_with (compute_tag key) cvs ds) cs
  = compute_tag key (combine k cvs cs) (combine n ds cs).
Proof.
  intros Hcv Hd Hl Hcs.
  assert (Forall (vec 32) (zip_with (compute_tag key) cvs ds)) as Ht.
  { apply Forall_zip_with_fst with (P := vec k); [done|]. eapply Forall_mono; [|exact Hd].
    intros d [_ ?] cv [_ ?]. by apply compute_tag_vec. }
  destruct (vec_combine k cvs cs Hcv Hcs) as [Hkl Hkb]. destruct (vec_combine n ds cs Hd Hcs) as [Hnl Hnb].
  rewrite combine_tags_combine by done.
  apply vec_eq with 32%nat; [by apply vec_combine | by apply compute_tag_vec |].
  intros j Hj. rewrite at_combine, at_compute_tag, tag_byte_dot, <- combine_app by done.
  rewrite Hkl, Hnl, (dot_combine (k + n)); [|apply mac_row_vec| |done].
  - f_equal. clear Ht Hkl Hkb Hnl Hnb. revert ds Hd Hl.
    induction Hcv as [|cv cvs [Hvl Hvb] Hcv IH]; intros [|d ds] Hd Hl; try discriminate; [done|].
    inversion Hd as [|? ? [? ?] ?]; subst. cbn. f_equal; [|apply IH; [done | by inversion Hl]].
    by rewrite at_compute_tag, tag_byte_dot.
  - apply Forall_zip_with_fst with (P := vec k); [done|]. eapply Forall_mono; [|exact Hd].
    intros d [? ?] cv [? ?]. split; [rewrite length_app; congruence | by apply bytes_app].
Qed.

End Linear.

(** ** Properties *)

(** The tag check of the types crate, with its own multiplier and its own loop,
    accepts exactly the tag the crypto crate computes. *)
Theorem verify_mac_agrees `{Blake3} p :
  verify_mac p = bool_decide (hommac_tag p = compute_tag (cid p) (coding_vector p) (data p)).
Proof.
  rewrite verify_mac_tag. unfold verify_tag. apply bool_decide_ext. split; congruence.
Qed.

(** Tags are homomorphic: combining the tags of pieces with some coefficients
    gives the tag of the piece combined with the same coefficients. *)
Theorem tags_are_homomorphic `{BL : Blake3Laws} key k n cvs ds cs :
  Forall (vec k) cvs -> Forall (vec n) ds -> length cvs = length ds -> bytes cs ->
  combine_tags key (zip_with (compute_tag key) cvs ds) cs
  = compute_tag key (combine k cvs cs) (combine n ds cs).
Proof. apply combine_tags_homomorphic. Qed.

Lemma tags_are_homomorphic_witness :
  combine_tags [1] [compute_tag [1] [1; 2] [7]; compute_tag [1] [3; 4] [9]] [5; 6]
  = compute_tag [1] (combine 2 [[1; 2]; [3; 4]] [5; 6]) (combine 1 [[7]; [9]] [5; 6]).
Proof. apply (tags_are_homomorphic [1] 2 1 [[1; 2]; [3; 4]] [[7]; [9]] [5; 6]); by_compute. Defined.
