(* ===== verification/Merkle.v ===== *)
(** * Hashing helpers (crates/craftec-crypto/src/hash.rs)

    Page hashing and the binary Merkle root.  The root binds a list of leaves of
    known length, as far as the digest does not collide on the nodes involved. *)
From Stdlib Require Import ZArith Lia.
From stdpp Require Import base list list_numbers numbers sets.
From S2P Require Import Prelude Types Instances.

Local Open Scope Z_scope.

Section Merkle.
Context `{B3 : Blake3}.

Definition hash_page (data : list Z) : Cid := cid_from_data data.
Definition verify_cid (data : list Z) (c : Cid) : bool := bool_decide (cid_from_data data = c).

(** One pass over a layer, two nodes at a time, the last one doubled if alone. *)
Fixpoint next_layer (current : list (list Z)) : list (list Z) :=
  match current with
  | a :: b :: rest => blake3_hash (a ++ b) :: next_layer rest
  | [a] => [blake3_hash (a ++ a)]
  | [] => []
  end.

(** [while current.len() > 1]; a layer of two or more shrinks, so as many rounds as
    there are leaves are enough. *)
Fixpoint merkle_loop (fuel : nat) (current : list (list Z)) : list (list Z) :=
  match fuel, current with
  | S fuel, _ :: _ :: _ => merkle_loop fuel (next_layer current)
  | _, _ => current
  end.

Definition merkle_root (leaves : list (list Z)) : list Z :=
  match merkle_loop (length leaves) leaves with
  | root :: _ => root
  | [] => replicate 32 0
  end.

(** The inputs hashed for one layer, and for the whole tree. *)
Fixpoint layer_inputs (current : list (list Z)) : list (list Z) :=
  match current with
  | a :: b :: rest => (a ++ b) :: layer_inputs rest
  | [a] => [a ++ a]
  | [] => []
  end.

Fixpoint tree_inputs (fuel : nat) (current : list (list Z)) : list (list Z) :=
  match fuel, current with
  | S fuel, _ :: _ :: _ => layer_inputs current ++ tree_inputs fuel (next_layer current)
  | _, _ => []
  end.

Lemma two_step_ind {A} (P : list A -> Prop) :
  P [] -> (forall a, P [a]) -> (forall a b l, P l -> P (a :: b :: l)) -> forall l, P l.
Proof.
  intros H0 H1 H2. fix IH 1. intros [|a [|b l]]; [exact H0|apply H1|apply H2, IH].
Qed.

Lemma next_layer_length l : length (next_layer l) = (S (length l) / 2)%nat.
Proof.
  induction l as [|a|a b l IH] using two_step_ind; [done|done|]. cbn [next_layer length]. rewrite IH.
  replace (S (S (S (length l)))) with (S (length l) + 1 * 2)%nat by lia. rewrite Nat.div_add by lia. lia.
Qed.

Lemma next_layer_shrinks a b l : (length (next_layer (a :: b :: l)) < length (a :: b :: l))%nat.
Proof. rewrite next_layer_length. cbn [length]. apply Nat.Div0.div_lt_upper_bound. lia. Qed.

Lemma next_layer_nonempty l : l <> [] -> next_layer l <> [].
Proof. by destruct l as [|a [|b l]]. Qed.

(** The loop ends with a single node. *)
Lemma merkle_loop_single fuel l : (length l <= fuel)%nat -> l <> [] -> exists r, merkle_loop fuel l = [r].
Proof.
  revert l. induction fuel as [|fuel IH]; intros [|a [|b l]] Hl Hn; try done; try (cbn in Hl; lia); [by exists a|].
  cbn [merkle_loop]. apply IH; [|by apply next_layer_nonempty].
  pose proof (next_layer_shrinks a b l). cbn [length] in *. lia.
Qed.

Definition no_collision (B : list (list Z)) : Prop :=
  forall x y, x ∈ B -> y ∈ B -> blake3_hash x = blake3_hash y -> x = y.

#[export] Instance no_collision_dec B : Decision (no_collision B).
Proof.
  destruct (decide (Forall (fun x => Forall (fun y => blake3_hash x = blake3_hash y -> x = y) B) B)) as [Hy|Hn];
    [left|right].
  - intros x y Hx Hy'. exact (proj1 (list.Forall_forall _ _) (proj1 (list.Forall_forall _ _) Hy x Hx) y Hy').
  - intros Hc. apply Hn, list.Forall_forall. intros x Hx. apply list.Forall_forall. intros y Hy. by apply Hc.
Defined.

Lemma no_collision_sub B B' : (forall x, x ∈ B -> x ∈ B') -> no_collision B' -> no_collision B.
Proof. intros Hs Hc x y Hx Hy. apply Hc; auto. Qed.

Lemma next_layer_inj n l l' :
  length l = length l' -> Forall (fun x => length x = n) l -> Forall (fun x => length x = n) l' ->
  no_collision (layer_inputs l ++ layer_inputs l') -> next_layer l = next_layer l' -> l = l'.
Proof.
  revert l'. induction l as [|a|a b l IH] using two_step_ind; intros [|a' [|b' l']] Hl Hf Hf' Hc Heq; try done;
    cbn [layer_inputs next_layer] in *; injection Heq as Hh Ht || (injection Heq as Hh).
  - apply Hc in Hh; [|set_solver|set_solver]. rewrite !Forall_cons in Hf, Hf'. apply app_inj_1 in Hh as [-> _]; [done|].
    destruct Hf, Hf'. congruence.
  - rewrite !Forall_cons in Hf, Hf'. destruct Hf as (Ha & Hb & Hf), Hf' as (Ha' & Hb' & Hf').
    apply Hc in Hh; [|set_solver|set_solver]. apply app_inj_1 in Hh as [-> ->]; [|congruence]. do 2 f_equal.
    apply IH; [cbn in Hl; lia|done|done| |done]. eapply no_collision_sub; [|exact Hc]. set_solver.
Qed.
End Merkle.

Section MerkleFacts.
Context `{BL : Blake3Laws}.

Lemma next_layer_sizes l : Forall (fun x => length x = 32%nat) (next_layer l).
Proof.
  induction l as [|a|a b l IH] using two_step_ind; cbn [next_layer]; [by apply Forall_nil_2| |];
    apply Forall_cons; (split; [apply blake3_hash_length|]); [by apply Forall_nil_2|done].
Qed.

Lemma merkle_loop_inj fuel l l' :
  length l = length l' -> Forall (fun x => length x = 32%nat) l -> Forall (fun x => length x = 32%nat) l' ->
  no_collision (tree_inputs fuel l ++ tree_inputs fuel l') -> merkle_loop fuel l = merkle_loop fuel l' -> l = l'.
Proof.
  revert l l'. induction fuel as [|fuel IH]; intros l l' Hl Hf Hf' Hc Heq; [by destruct l, l'|].
  destruct l as [|a [|b l]], l' as [|a' [|b' l']]; try done. cbn [tree_inputs merkle_loop] in *.
  apply (next_layer_inj 32); try done; [eapply no_collision_sub; [|exact Hc]; set_solver|].
  apply IH; try apply next_layer_sizes; [by rewrite !next_layer_length, Hl|eapply no_collision_sub; [|exact Hc]; set_solver|done].
Qed.

(** ** Properties *)

(** Two lists of equally many 32-byte leaves with the same root are the same list,
    unless the digest collides on two of the nodes hashed for them. *)
Theorem merkle_root_binding l l' :
  length l = length l' -> Forall (fun x => length x = 32%nat) l -> Forall (fun x => length x = 32%nat) l' ->
  no_collision (tree_inputs (length l) l ++ tree_inputs (length l) l') ->
  merkle_root l = merkle_root l' -> l = l'.
Proof.
  intros Hl Hf Hf' Hc Heq. destruct (decide (l = [])) as [->|Hn]; [by destruct l'|].
  assert (l' <> []) as Hn' by (intros ->; by destruct l). unfold merkle_root in Heq. rewrite <- Hl in Heq.
  destruct (merkle_loop_single (length l) l) as [r Hr]; [lia|done|].
  destruct (merkle_loop_single (length l) l') as [r' Hr']; [lia|done|].
  rewrite Hr, Hr' in Heq. subst r'. apply (merkle_loop_inj (length l)); try done. congruence.
Qed.

(** The length is not bound: doubling the last of an odd number of leaves keeps the
    root. *)
Theorem merkle_odd_duplication a b c : merkle_root [a; b; c] = merkle_root [a; b; c; c].
Proof. done. Qed.

End MerkleFacts.

(** The toy digest embeds short inputs; leaves of 32 bytes are named by their first
    bytes. *)
Lemma merkle_root_binding_witness :
  merkle_root [replicate 32 1; replicate 32 9] <> merkle_root [replicate 32 2; replicate 32 9].
Proof.
  intros Heq.
  assert ([replicate 32 1; replicate 32 9] = [replicate 32 2; replicate 32 9]) as Hl; [|discriminate].
  apply (merkle_root_binding [replicate 32 1; replicate 32 9] [replicate 32 2; replicate 32 9]);
    [reflexivity|by_compute|by_compute|by_compute|exact Heq].
Defined.
