(* ===== verification/F64.v ===== *)
(** * IEEE-754 binary64 arithmetic

    The [f64] operations the redundancy formulas, the scan batch size and the
    provider ranking use, on the Standard Library's executable specification of
    floating-point numbers ([SpecFloat], 53-bit significand). *)
From Stdlib Require Import ZArith Lia.
From Stdlib Require Import Floats.SpecFloat.

Local Open Scope Z_scope.

Abbreviation f64 := spec_float.

(** [z as f64] for an integer, rounded to nearest even. *)
Definition f64_of_Z (z : Z) : f64 := binary_normalize 53 1024 z 0 false.

Definition f64_add : f64 -> f64 -> f64 := SFadd 53 1024.
Definition f64_mul : f64 -> f64 -> f64 := SFmul 53 1024.
Definition f64_div : f64 -> f64 -> f64 := SFdiv 53 1024.
Definition f64_partial_cmp : f64 -> f64 -> option comparison := SFcompare.

(** [m * 2^e] rounded up to an integer. *)
Definition ceil_pow2 (m e : Z) : Z :=
  if 0 <=? e then m * 2 ^ e else - ((- m) / 2 ^ (- e)).

(** [x.ceil() as uW]: the cast saturates and sends NaN to 0. *)
Definition f64_ceil_as_u (w : Z) (x : f64) : Z :=
  match x with
  | S754_zero _ => 0
  | S754_infinity s => if s then 0 else 2 ^ w - 1
  | S754_nan => 0
  | S754_finite s m e =>
      if s then 0 else Z.min (ceil_pow2 (Z.pos m) e) (2 ^ w - 1)
  end.

(** [x.clamp(lo, hi)] on non-NaN bounds. *)
Definition f64_clamp (x lo hi : f64) : f64 :=
  match SFcompare x lo with
  | Some Lt => lo
  | _ => match SFcompare x hi with Some Gt => hi | _ => x end
  end.

(** The constants of the source. *)
Definition f64_2 : f64 := Eval vm_compute in f64_of_Z 2.
Definition f64_16 : f64 := Eval vm_compute in f64_of_Z 16.
Definition f64_1 : f64 := Eval vm_compute in f64_of_Z 1.
(** [0.01], the double nearest to one hundredth. *)
Definition f64_0_01 : f64 := Eval vm_compute in f64_div (f64_of_Z 1) (f64_of_Z 100).
(** [0.5] *)
Definition f64_0_5 : f64 := Eval vm_compute in f64_div (f64_of_Z 1) (f64_of_Z 2).
(** [f64::EPSILON = 2^-52] *)
Definition f64_epsilon : f64 := S754_finite false 4503599627370496 (-104).

Lemma ceil_pow2_spec_neg m e :
  e < 0 -> (ceil_pow2 m e - 1) * 2 ^ (- e) < m <= ceil_pow2 m e * 2 ^ (- e).
Proof.
  intros He. unfold ceil_pow2. destruct (Z.leb_spec 0 e); [lia|].
  assert (0 < 2 ^ (- e)) as Hp by (apply Z.pow_pos_nonneg; lia).
  pose proof (Z.div_mod (- m) (2 ^ (- e)) ltac:(lia)).
  pose proof (Z.mod_pos_bound (- m) (2 ^ (- e)) Hp). nia.
Qed.
