(* ===== verification/Encoder.v ===== *)
(** * RLNC encoder (crates/craftec-rlnc/src/encoder.rs, error.rs)

    Splitting data into [k] zero-padded source pieces and emitting coded pieces:
    random linear combinations of them with a homomorphic tag. *)
From Stdlib Require Import ZArith Lia.
From stdpp Require Import base list list_numbers numbers strings.
From S2P Require Import Prelude Gf256 Linear Types Hommac F64.

Local Open Scope Z_scope.

(** ** Errors of the crate *)

Inductive RlncError : Type :=
| InsufficientPieces (have need : Z)
| LinearlyDependent
| DecodeFailed (msg : string)
| InvalidPieceSize (expected got : nat)
| SemaphoreError
| CodingVectorLengthMismatch (expected got : nat)
| InsufficientRecodeInputs (got : nat)
| MismatchedCids.

(** ** Redundancy *)

Definition redundancy (k : Z) : f64 := f64_add f64_2 (f64_div f64_16 (f64_of_Z k)).

Definition target_n (k : Z) : Z := f64_ceil_as_u 32 (f64_mul (f64_of_Z k) (redundancy k)).

(** ** The encoder *)

Record RlncEncoder : Type := mkEncoder {
  enc_k : Z;
  enc_piece_size : nat;
  original_pieces : list (list Z);
  enc_cid : Cid;
}.

Definition div_ceil (a b : nat) : nat := (a / b + (if (a mod b =? 0)%nat then 0 else 1))%nat.

(** Source piece [i]: [vec![0u8; piece_size]] with [data[start..end]] copied to
    its front when [start < total]. *)
Definition source_piece (data : list Z) (piece_size i : nat) : list Z :=
  let total := length data in
  let start := (i * piece_size)%nat in
  let end_ := Nat.min ((i + 1) * piece_size) total in
  if (start <? total)%nat then
    slice data start end_ ++ zeros (piece_size - (end_ - start))
  else zeros piece_size.

(** The coefficient of one source piece: a first draw, and the second draw
    [gen_range(1..=255)] when the first is zero. *)
Definition draw_coeff (d : Z * Z) : Z := if d.1 =? 0 then d.2 else d.1.
Definition draw_ok (d : Z * Z) : Prop := is_byte d.1 /\ 1 <= d.2 <= 255.

Section Encoder.
Context `{B3 : Blake3}.

Definition encoder_new (data : list Z) (k : Z) : result RlncEncoder RlncError :=
  if k =? 0 then Err (InsufficientPieces 0 1)
  else
    let total := length data in
    let piece_size := if (total =? 0)%nat then 1%nat else div_ceil total (Z.to_nat k) in
    let pieces := map (source_piece data piece_size) (seq 0 (Z.to_nat k)) in
    Ok {| enc_k := k; enc_piece_size := piece_size;
          original_pieces := pieces; enc_cid := cid_from_data data |}.

Definition target_pieces (e : RlncEncoder) : Z := target_n (enc_k e).

(** [encode_piece]; [draws] are the [k] pairs of random draws. *)
Definition encode_piece (e : RlncEncoder) (draws : list (Z * Z)) : CodedPiece :=
  let cv := map draw_coeff draws in
  let coded_data := combine (enc_piece_size e) (original_pieces e) cv in
  let hom_mac := compute_tag (enc_cid e) cv coded_data in
  CodedPiece_new (enc_cid e) cv coded_data hom_mac.

(** [encode_n(n)], one list of draws per piece. *)
Definition encode_n (e : RlncEncoder) (draws : list (list (Z * Z))) : list CodedPiece :=
  map (encode_piece e) draws.

End Encoder.

(** [p] is the combination of the source pieces [X] its coding vector states. *)
Definition codes_for (X : list (list Z)) (n : nat) (p : CodedPiece) : Prop :=
  vec (length X) (coding_vector p) /\ data p = combine n X (coding_vector p).

(** ** Splitting *)

Lemma div_ceil_enough a b : (0 < b)%nat -> (a <= b * div_ceil a b)%nat.
Proof.
  intros Hb. unfold div_ceil. pose proof (Nat.div_mod_eq a b).
  pose proof (Nat.mod_upper_bound a b ltac:(lia)).
  destruct (a mod b =? 0)%nat eqn:E; bool_to_prop; nia.
Qed.

Lemma div_ceil_tight a b : (0 < b)%nat -> (b * div_ceil a b < a + b)%nat.
Proof.
  intros Hb. unfold div_ceil. pose proof (Nat.div_mod_eq a b).
  pose proof (Nat.mod_upper_bound a b ltac:(lia)).
  destruct (a mod b =? 0)%nat eqn:E; bool_to_prop; nia.
Qed.

Lemma source_piece_vec d n i : bytes d -> vec n (source_piece d n i).
Proof.
  intros Hd. unfold source_piece. destruct (_ <? _)%nat eqn:E; bool_to_prop; [|apply vec_zeros].
  split.
  - rewrite length_app, length_slice by lia. unfold zeros. rewrite length_replicate. lia.
  - apply bytes_app. split; [|apply bytes_replicate]. unfold slice. auto with craftec.
Qed.

(** The first [i] source pieces are the first [i * n] bytes of the padded data. *)
Lemma source_pieces_prefix d n i :
  concat (map (source_piece d n) (seq 0 i))
  = take (i * n) d ++ zeros (i * n - length d).
Proof.
  induction i as [|i IH]; [done|].
  rewrite seq_S, map_app, concat_app, IH. cbn [map concat Nat.add]. rewrite app_nil_r.
  unfold source_piece. replace ((i + 1) * n)%nat with (S i * n)%nat by lia.
  destruct (i * n <? length d)%nat eqn:E; bool_to_prop.
  - replace (i * n - length d)%nat with 0%nat by lia. cbn [zeros replicate]. rewrite app_nil_r, app_assoc.
    f_equal; [|f_equal; lia]. unfold slice.
    rewrite <- (take_drop (i * n) (take (S i * n) d)), take_take, skipn_firstn_comm.
    replace (Init.Nat.min (i * n) (S i * n)) with (i * n)%nat by lia. f_equal.
    destruct (Nat.le_gt_cases (S i * n) (length d)).
    + by replace (Nat.min (S i * n) (length d)) with (S i * n)%nat by lia.
    + rewrite !take_ge by (rewrite length_drop; lia). done.
  - rewrite !take_ge by lia. rewrite <- app_assoc. f_equal. unfold zeros.
    rewrite <- replicate_add. f_equal. lia.
Qed.

Section EncoderFacts.
Context `{BL : Blake3Laws}.

(** What [encoder_new] builds when [k] is a non-zero [u32]. *)
Lemma encoder_new_pieces d k :
  0 < k -> bytes d ->
  exists e, encoder_new d k = Ok e /\ enc_k e = k /\ enc_cid e = cid_from_data d /\
    (0 < enc_piece_size e)%nat /\
    length (original_pieces e) = Z.to_nat k /\
    Forall (vec (enc_piece_size e)) (original_pieces e) /\
    concat (original_pieces e)
    = d ++ zeros (Z.to_nat k * enc_piece_size e - length d).
Proof.
  intros Hk Hd. unfold encoder_new. destruct (k =? 0) eqn:E; bool_to_prop; [lia|].
  eexists. split; [reflexivity|]. cbn [enc_k enc_cid enc_piece_size original_pieces].
  set (n := if (length d =? 0)%nat then 1%nat else div_ceil (length d) (Z.to_nat k)).
  assert (length d <= Z.to_nat k * n)%nat as Hn.
  { subst n. destruct (length d =? 0)%nat eqn:El; bool_to_prop; [lia|].
    apply div_ceil_enough. lia. }
  split_and!; try done.
  - subst n. destruct (length d =? 0)%nat eqn:El; bool_to_prop; [lia|].
    pose proof (div_ceil_enough (length d) (Z.to_nat k) ltac:(lia)).
    destruct (div_ceil (length d) (Z.to_nat k)); lia.
  - by rewrite length_map, length_seq.
  - apply Forall_fmap, Forall_forall. intros. by apply source_piece_vec.
  - rewrite source_pieces_prefix, take_ge by lia. done.
Qed.

Lemma draw_coeff_byte d : draw_ok d -> is_byte (draw_coeff d) /\ draw_coeff d <> 0.
Proof.
  intros [H1 H2]. unfold draw_coeff. destruct (d.1 =? 0) eqn:E; bool_to_prop; unfold is_byte; [lia|done].
Qed.

Lemma draws_bytes draws : Forall draw_ok draws -> bytes (map draw_coeff draws).
Proof.
  intros Hd. apply Forall_fmap. eapply Forall_mono; [|exact Hd]. intros d ?. by apply draw_coeff_byte.
Qed.

Lemma encode_piece_codes e draws :
  Forall draw_ok draws -> length draws = length (original_pieces e) ->
  codes_for (original_pieces e) (enc_piece_size e) (encode_piece e draws).
Proof.
  intros Hd Hl. split; [|done]. split; [cbn; by rewrite length_map | by apply draws_bytes].
Qed.

End EncoderFacts.

(** ** Properties *)

(** For the generation sizes in use the floating-point target is within one piece
    of the exact [2k + 16]. *)
Theorem target_n_bounds k : 1 <= k <= 128 -> 2 * k + 16 <= target_n k <= 2 * k + 17.
Proof.
  intros Hk.
  assert (forallb (fun k => (2 * k + 16 <=? target_n k) && (target_n k <=? 2 * k + 17)) (seqZ 1 128) = true)
    as H by (vm_compute; reflexivity).
  apply (forallb_elem_of _ _ k) in H; [by bool_to_prop|]. apply elem_of_seqZ. lia.
Qed.

Lemma target_n_bounds_witness : 80 <= target_n 32 <= 81.
Proof. apply (target_n_bounds 32). lia. Defined.

(** Rounding can add a piece: the exact value at [k = 22] is 60. *)
Theorem target_n_rounds_up : target_n 22 = 61 /\ target_n 32 = 80.
Proof. by vm_compute. Qed.
