(* ===== verification/Decoder.v ===== *)
(** * RLNC decoder (crates/craftec-rlnc/src/decoder.rs)

    Incremental Gaussian elimination over the augmented rows
    [[coding_vector | data]], back-substitution and extraction.  The theorems
    show that a decoder fed with combinations of source pieces [X] never loses
    information: its rank is the dimension of the received coding vectors, and at
    full rank it returns exactly [X]. *)
From Stdlib Require Import ZArith Lia.
From stdpp Require Import base list list_numbers numbers strings.
From S2P Require Import Prelude Gf256 Linear Types Encoder.

Local Open Scope Z_scope.

Record RlncDecoder : Type := mkDecoder {
  dec_k : Z;
  dec_piece_size : nat;
  matrix : list (list Z);
  pivot_col : list (option nat);
  rank : Z;
  decoded : bool;
}.

Definition decoder_new (k : Z) (piece_size : nat) : RlncDecoder :=
  {| dec_k := k; dec_piece_size := piece_size;
     matrix := replicate (Z.to_nat k) [];
     pivot_col := replicate (Z.to_nat k) None;
     rank := 0; decoded := false |}.

Definition is_decodable (d : RlncDecoder) : bool := rank d =? dec_k d.

(** Body of [for r in 0..k] in [add_piece]: eliminate pivot [r] from [row]. *)
Definition reduce_step (m : list (list Z)) (piv : list (option nat)) (row : list Z) (r : nat) : list Z :=
  match piv !! r with
  | Some (Some col) =>
      let coeff := at_ row col in
      if coeff =? 0 then row
      else gf_vec_mul_add row (default [] (m !! r)) coeff
  | _ => row
  end.

Definition reduce (m : list (list Z)) (piv : list (option nat)) (k : nat) (row : list Z) : list Z :=
  foldl (reduce_step m piv) row (seq 0 k).

(** [row[..k].iter().position(|&b| b != 0)] *)
Fixpoint position_nonzero (l : list Z) : option nat :=
  match l with
  | [] => None
  | b :: l => if negb (b =? 0) then Some 0%nat else S <$> position_nonzero l
  end.

Definition add_piece (d : RlncDecoder) (p : CodedPiece) : RlncDecoder * result bool RlncError :=
  let k := Z.to_nat (dec_k d) in
  if negb (length (coding_vector p) =? k)%nat then
    (d, Err (CodingVectorLengthMismatch k (length (coding_vector p))))
  else if negb (length (data p) =? dec_piece_size d)%nat then
    (d, Err (InvalidPieceSize (dec_piece_size d) (length (data p))))
  else
    let row := reduce (matrix d) (pivot_col d) k (coding_vector p ++ data p) in
    match position_nonzero (take k row) with
    | None => (d, Ok false)
    | Some col =>
        let inv := gf_inv (at_ row col) in
        let row := scale inv row in
        ({| dec_k := dec_k d; dec_piece_size := dec_piece_size d;
            matrix := <[col := row]> (matrix d);
            pivot_col := <[col := Some col]> (pivot_col d);
            rank := rank d + 1; decoded := decoded d |}, Ok true)
    end.

(** Inner loop body of the back-substitution: clear column [col] of row [r]. *)
Definition back_step (col : nat) (m : list (list Z)) (r : nat) : list (list Z) :=
  let row := default [] (m !! r) in
  let coeff := at_ row col in
  if coeff =? 0 then m
  else <[r := gf_vec_mul_add row (default [] (m !! col)) coeff]> m.

Definition back_col (m : list (list Z)) (col : nat) : list (list Z) :=
  foldl (back_step col) m (seq 0 col).

(** [for col in (0..k).rev() { for row in 0..col { ... } }] *)
Definition back_substitute (m : list (list Z)) (k : nat) : list (list Z) :=
  foldl back_col m (rev (seq 0 k)).

(** The sanity loop: the first pivot slot that is empty. *)
Definition empty_slot (d : RlncDecoder) (k : nat) : option nat :=
  find (fun col => match pivot_col d !! col with Some (Some _) => false | _ => true end
                   || match matrix d !! col with Some (_ :: _) => false | _ => true end)
    (seq 0 k).

(** The extraction loop: [row[k..]] of each row, checking that its pivot is 1. *)
Fixpoint extract (m : list (list Z)) (k : nat) (cols : list nat) : result (list Z) RlncError :=
  match cols with
  | [] => Ok []
  | col :: cols =>
      let row := default [] (m !! col) in
      if negb (at_ row col =? 1) then Err (DecodeFailed "expected pivot 1")
      else match extract m k cols with
           | Ok rest => Ok (drop k row ++ rest)
           | Err e => Err e
           end
  end.

Definition decode (d : RlncDecoder) : RlncDecoder * result (list Z) RlncError :=
  let k := Z.to_nat (dec_k d) in
  if rank d <? dec_k d then (d, Err (InsufficientPieces (rank d) (dec_k d)))
  else match empty_slot d k with
  | Some _ => (d, Err (DecodeFailed "pivot slot is empty despite rank == k"))
  | None =>
      let m := back_substitute (matrix d) k in
      let d' b := {| dec_k := dec_k d; dec_piece_size := dec_piece_size d; matrix := m;
                     pivot_col := pivot_col d; rank := rank d; decoded := b |} in
      match extract m k (seq 0 k) with
      | Ok out => (d' true, Ok out)
      | Err e => (d' (decoded d), Err e)
      end
  end.

(** Feeding a sequence of pieces, whatever each call answers. *)
Definition add_pieces (d : RlncDecoder) (ps : list CodedPiece) : RlncDecoder :=
  foldl (fun d p => (add_piece d p).1) d ps.

(** ** Invariant *)

Definition is_some_b {A} (o : option A) : bool := match o with Some _ => true | None => false end.
Definition npiv (piv : list (option nat)) : nat := length (List.filter is_some_b piv).
#[global] Arguments npiv : simpl never.

(** A row whose leading coefficient is a one in column [c]. *)
Definition pivot_row (c : nat) (row : list Z) : Prop :=
  (forall j, (j < c)%nat -> at_ row j = 0) /\ at_ row c = 1.

(** Slot [c] is empty, or holds a row of [P] with pivot [c]. *)
Definition slot_ok (P : list Z -> Prop) (m : list (list Z)) (piv : list (option nat)) (c : nat) : Prop :=
  (piv !! c = Some None /\ m !! c = Some []) \/
  (piv !! c = Some (Some c) /\ exists row, m !! c = Some row /\ pivot_row c row /\ P row).

Record dec_inv (k n : nat) (P : list Z -> Prop) (d : RlncDecoder) : Prop := {
  inv_k : dec_k d = Z.of_nat k;
  inv_size : dec_piece_size d = n;
  inv_matrix : length (matrix d) = k;
  inv_pivots : length (pivot_col d) = k;
  inv_slots c : (c < k)%nat -> slot_ok P (matrix d) (pivot_col d) c;
  inv_rank : rank d = Z.of_nat (npiv (pivot_col d));
}.

(** ** Counting pivots *)

Lemma npiv_le piv : (npiv piv <= length piv)%nat.
Proof. unfold npiv. induction piv as [|[] piv IH]; cbn; lia. Qed.

Lemma npiv_insert piv c x :
  piv !! c = Some None -> npiv (<[c := Some x]> piv) = S (npiv piv).
Proof.
  unfold npiv. revert c. induction piv as [|o piv IH]; intros [|c] Hc; try discriminate.
  - cbn in Hc. by inversion Hc.
  - cbn. destruct o; cbn; rewrite IH by done; done.
Qed.

Lemma npiv_full piv c : npiv piv = length piv -> (c < length piv)%nat -> piv !! c <> Some None.
Proof.
  revert c. induction piv as [|o piv IH]; intros c Hf Hc; [cbn in Hc; lia|].
  pose proof (npiv_le piv). unfold npiv in *. destruct o; cbn in *; [|lia].
  destruct c; [done|]. apply IH; lia.
Qed.

Lemma npiv_replicate k : npiv (replicate k None) = 0%nat.
Proof. induction k; done. Qed.

(** ** Elimination of one row *)

Lemma position_nonzero_Some l c :
  position_nonzero l = Some c ->
  (c < length l)%nat /\ at_ l c <> 0 /\ forall j, (j < c)%nat -> at_ l j = 0.
Proof.
  revert c. induction l as [|b l IH]; intros c H; [discriminate|]. cbn in H.
  destruct (b =? 0) eqn:E; bool_to_prop; cbn in H.
  - apply fmap_Some in H as (c' & Hc & ->). apply IH in Hc as (? & ? & Hj).
    split_and!; [cbn; lia|done|]. intros [|j] ?; [done|]. apply Hj. lia.
  - inversion H; subst. split_and!; [cbn; lia|done|lia].
Qed.

Lemma position_nonzero_None l j : position_nonzero l = None -> at_ l j = 0.
Proof.
  revert j. induction l as [|b l IH]; intros j H; [done|]. cbn in H.
  destruct (b =? 0) eqn:E; bool_to_prop; cbn in H; [|done].
  apply fmap_None in H. destruct j; [done|]. by apply IH.
Qed.

Section Reduce.
Context (k n : nat) (P : list Z -> Prop) (HP : subspace (k + n) P).
Context (m : list (list Z)) (piv : list (option nat)).
Context (Hslots : forall c, (c < k)%nat -> slot_ok P m piv c).

Lemma reduce_step_sub row r : (r < k)%nat -> P row -> P (reduce_step m piv row r).
Proof.
  intros Hr Hrow. unfold reduce_step.
  destruct (Hslots r Hr) as [[-> _]|[-> (p & -> & _ & Hp)]]; [done|].
  destruct (_ =? 0); [done|]. cbn. apply (sub_mul_add _ _ HP); [done|done|].
  apply at_byte. by apply (sub_vec _ _ HP).
Qed.

(** Columns left of the pivot keep their value; the pivot column is cleared. *)
Lemma reduce_step_at row r j :
  (r < k)%nat -> P row -> (j <= r)%nat ->
  at_ (reduce_step m piv row r) j
  = if decide (j = r /\ piv !! r = Some (Some r)) then 0 else at_ row j.
Proof.
  intros Hr Hrow Hj. unfold reduce_step.
  destruct (Hslots r Hr) as [[Hp _]|[Hp (p & Hm & [Hz Hone] & HPp)]]; rewrite Hp.
  { rewrite decide_False by (intros [_ ?]; congruence). done. }
  rewrite Hm. cbn [default]. pose proof (sub_vec _ _ HP row Hrow) as Hv.
  pose proof (sub_vec _ _ HP p HPp) as Hvp.
  assert (is_byte (at_ row r)) as Hb by (destruct Hv; auto with craftec).
  destruct (at_ row r =? 0) eqn:E; bool_to_prop.
  - destruct (decide _) as [[-> _]|]; done.
  - cbn. rewrite (at_mul_add (k + n)) by done. destruct (decide _) as [[-> _]|Hn].
    + rewrite Hone, gf_mul_1_r by done. apply Z.lxor_nilpotent.
    + rewrite Hz by (destruct (decide (j = r)); [tauto | lia]).
      by rewrite gf_mul_0_r, Z.lxor_0_r.
Qed.

Lemma reduce_prefix i row :
  (i <= k)%nat -> P row ->
  P (foldl (reduce_step m piv) row (seq 0 i)) /\
  forall c, (c < i)%nat -> piv !! c = Some (Some c) ->
    at_ (foldl (reduce_step m piv) row (seq 0 i)) c = 0.
Proof.
  intros Hi Hrow. induction i as [|i IH]; [split; [done|lia]|].
  destruct IH as [IHp IHz]; [lia|]. rewrite seq_S, foldl_app. cbn [foldl Nat.add].
  split; [by apply reduce_step_sub|]. intros c Hc Hpc.
  rewrite reduce_step_at by (done || lia). destruct (decide _); [done|].
  apply IHz; [|done]. destruct (decide (c = i)) as [->|]; [tauto|lia].
Qed.

Lemma reduce_sub row : P row -> P (reduce m piv k row).
Proof. intros. by apply reduce_prefix. Qed.

Lemma reduce_pivots row c :
  P row -> (c < k)%nat -> piv !! c = Some (Some c) -> at_ (reduce m piv k row) c = 0.
Proof. intros ? ? ?. by apply reduce_prefix. Qed.

End Reduce.

(** ** [add_piece] *)

Section AddPiece.
Context (k n : nat) (P : list Z -> Prop) (HP : subspace (k + n) P).

Lemma decoder_new_inv : dec_inv k n P (decoder_new (Z.of_nat k) n).
Proof.
  split; unfold decoder_new; cbn [dec_k dec_piece_size matrix pivot_col rank];
    rewrite ?Nat2Z.id, ?length_replicate, ?npiv_replicate; try done.
  intros c Hc. left. by rewrite !lookup_replicate_2 by done.
Qed.

(** Outcome of [add_piece] on a well-sized piece, by the reduced row. *)
Lemma add_piece_cases d p :
  dec_inv k n P d -> length (coding_vector p) = k -> length (data p) = n ->
  let row := reduce (matrix d) (pivot_col d) k (coding_vector p ++ data p) in
  match position_nonzero (take k row) with
  | None => add_piece d p = (d, Ok false)
  | Some col => exists d', add_piece d p = (d', Ok true) /\
      dec_k d' = dec_k d /\ dec_piece_size d' = dec_piece_size d /\
      matrix d' = <[col := scale (gf_inv (at_ row col)) row]> (matrix d) /\
      pivot_col d' = <[col := Some col]> (pivot_col d) /\ rank d' = rank d + 1
  end.
Proof.
  intros Hinv Hcv Hd. cbn zeta. unfold add_piece.
  rewrite (inv_k k n P d Hinv), (inv_size k n P d Hinv), Nat2Z.id, Hcv, Hd, !Nat.eqb_refl. cbn [negb].
  destruct (position_nonzero _) as [col|]; [|done]. eexists. split; [reflexivity|]. done.
Qed.

(** The pivot found for a new row is a free slot. *)
Lemma new_pivot_free d row col :
  dec_inv k n P d -> P row ->
  position_nonzero (take k (reduce (matrix d) (pivot_col d) k row)) = Some col ->
  (col < k)%nat /\ pivot_col d !! col = Some None /\
  at_ (reduce (matrix d) (pivot_col d) k row) col <> 0 /\
  forall j, (j < col)%nat -> at_ (reduce (matrix d) (pivot_col d) k row) j = 0.
Proof.
  intros Hinv Hrow [Hc [Hnz Hz]]%position_nonzero_Some. rewrite length_take in Hc.
  assert (col < k)%nat as Hck by lia. rewrite at_take, decide_True in Hnz by done.
  split_and!; [done| |done|].
  - destruct (inv_slots k n P d Hinv col Hck) as [[? _]|[Hp _]]; [done|].
    by rewrite (reduce_pivots k n P) in Hnz by (try done; apply Hinv).
  - intros j Hj. specialize (Hz j Hj). by rewrite at_take, decide_True in Hz by lia.
Qed.

Lemma add_piece_inv d p :
  dec_inv k n P d -> P (coding_vector p ++ data p) -> dec_inv k n P (add_piece d p).1.
Proof.
  intros Hinv Hp. unfold add_piece.
  destruct (negb _) eqn:E1; [done|]. destruct (negb (length (data p) =? _)%nat) eqn:E2; [done|].
  rewrite (inv_k k n P d Hinv), Nat2Z.id in *.
  destruct (position_nonzero _) as [col|] eqn:E; [|done].
  apply new_pivot_free in E as (Hck & Hfree & Hnz & Hz); [|done|done].
  assert (P (reduce (matrix d) (pivot_col d) k (coding_vector p ++ data p))) as Hr
    by (apply (reduce_sub k n); [done|apply Hinv|done]).
  set (row := reduce _ _ _ _) in *.
  split; cbn; rewrite ?length_insert; try done; try apply Hinv.
  - intros c Hc. destruct (decide (col = c)) as [->|Hne].
    + right. rewrite list_lookup_insert_eq by (by rewrite (inv_pivots k n P d Hinv)).
      split; [done|]. eexists. rewrite list_lookup_insert_eq by (by rewrite (inv_matrix k n P d Hinv)).
      split; [reflexivity|]. split; [split|].
      * intros j Hj. rewrite at_scale, Hz by done. apply gf_mul_0_l.
      * rewrite at_scale. apply gf_mul_inv; [|done]. apply at_byte. by apply (sub_vec _ _ HP).
      * apply (sub_scale (k + n)); auto with craftec.
    + destruct (inv_slots k n P d Hinv c Hc) as [[? ?]|[? ?]]; [left|right];
        by rewrite !list_lookup_insert_ne.
  - rewrite npiv_insert by done. rewrite (inv_rank k n P d Hinv). lia.
Qed.

Lemma add_pieces_inv d ps :
  dec_inv k n P d -> Forall (fun p => P (coding_vector p ++ data p)) ps ->
  dec_inv k n P (add_pieces d ps).
Proof.
  intros Hinv Hps. unfold add_pieces. revert d Hinv.
  induction Hps as [|p ps Hp Hps IH]; intros d Hinv; cbn; [done|]. apply IH, add_piece_inv; done.
Qed.

Lemma rank_le d : dec_inv k n P d -> 0 <= rank d <= dec_k d.
Proof.
  intros Hinv. rewrite (inv_rank k n P d Hinv), (inv_k k n P d Hinv).
  pose proof (npiv_le (pivot_col d)). rewrite (inv_pivots k n P d Hinv) in *. lia.
Qed.

(** At full rank every slot holds a pivot row. *)
Lemma full_rank_slots d c :
  dec_inv k n P d -> rank d = dec_k d -> (c < k)%nat ->
  pivot_col d !! c = Some (Some c) /\
  exists row, matrix d !! c = Some row /\ pivot_row c row /\ P row.
Proof.
  intros Hinv Hr Hc. destruct (inv_slots k n P d Hinv c Hc) as [[Hp _]|?]; [|done].
  rewrite (inv_rank k n P d Hinv), (inv_k k n P d Hinv) in Hr.
  apply npiv_full in Hp; [done| |]; rewrite (inv_pivots k n P d Hinv); lia.
Qed.

End AddPiece.

(** ** Back-substitution *)

Section BackSubstitution.
Context (k n : nat) (P : list Z -> Prop) (HP : subspace (k + n) P).

(** Unit upper-triangular rows of [P]. *)
Definition upper (m : list (list Z)) : Prop :=
  length m = k /\
  forall c, (c < k)%nat -> exists row, m !! c = Some row /\ pivot_row c row /\ P row.

Definition entry (m : list (list Z)) (r j : nat) : Z := at_ (default [] (m !! r)) j.

(** Columns [c..k] have no entry above the diagonal. *)
Definition cleared (m : list (list Z)) (c : nat) : Prop :=
  forall j r, (c <= j < k)%nat -> (r < j)%nat -> entry m r j = 0.

Lemma entry_insert m r r' row j :
  (r < length m)%nat ->
  entry (<[r := row]> m) r' j = if decide (r = r') then at_ row j else entry m r' j.
Proof.
  intros Hr. unfold entry. destruct (decide (r = r')) as [->|Hne].
  - by rewrite list_lookup_insert_eq.
  - by rewrite list_lookup_insert_ne.
Qed.

Lemma upper_row m c : upper m -> (c < k)%nat -> vec (k + n) (default [] (m !! c)) /\
  P (default [] (m !! c)) /\ pivot_row c (default [] (m !! c)).
Proof.
  intros [_ Hu] Hc. destruct (Hu c Hc) as (row & -> & Hp & HPr). cbn.
  split_and!; [by apply (sub_vec _ _ HP)|done|done].
Qed.

(** One elimination: row [r] changes in column [col] only, where it becomes 0. *)
Lemma back_step_spec m col r :
  upper m -> cleared m (S col) -> (r < col)%nat -> (col < k)%nat ->
  let m' := back_step col m r in
  upper m' /\ cleared m' (S col) /\ entry m' r col = 0 /\
  forall r' , r' <> r -> entry m' r' col = entry m r' col.
Proof.
  intros Hu Hcl Hr Hck. cbn zeta. unfold back_step. fold (entry m r col).
  destruct (entry m r col =? 0) eqn:E; bool_to_prop; [done|].
  destruct (upper_row m r Hu ltac:(lia)) as (Hvr & HPr & [Hzr H1r]).
  destruct (upper_row m col Hu Hck) as (Hvc & HPc & [Hzc H1c]).
  assert (is_byte (entry m r col)) as Hb by (destruct Hvr; unfold entry; auto with craftec).
  assert (r < length m)%nat as Hlen by (destruct Hu; lia).
  set (row' := gf_vec_mul_add _ _ _).
  assert (forall j, at_ row' j = Z.lxor (entry m r j) (gf_mul (entry m r col) (entry m col j))) as Hat
    by (intros; unfold row'; by rewrite (at_mul_add (k + n))).
  assert (P row') as HP' by (by apply (sub_mul_add _ _ HP)).
  assert (pivot_row r row') as Hpiv.
  { split; [intros j Hj|]; rewrite Hat.
    - unfold entry at 1 3. rewrite Hzr, Hzc by lia. by rewrite gf_mul_0_r.
    - unfold entry at 1 3. rewrite H1r, Hzc by lia. by rewrite gf_mul_0_r. }
  split_and!.
  - destruct Hu as [Hl Hu]. split; [by rewrite length_insert|]. intros c Hc.
    destruct (decide (r = c)) as [->|]; [exists row'; by rewrite list_lookup_insert_eq|].
    rewrite list_lookup_insert_ne by done. by apply Hu.
  - intros j r' Hj Hr'. rewrite entry_insert by done.
    destruct (decide (r = r')) as [<-|]; [|by apply Hcl].
    rewrite Hat, (Hcl j r), (Hcl j col) by lia. by rewrite gf_mul_0_r.
  - rewrite entry_insert, decide_True by done. rewrite Hat. unfold entry at 3. rewrite H1c.
    rewrite gf_mul_1_r by done. apply Z.lxor_nilpotent.
  - intros r' Hne. by rewrite entry_insert, decide_False by auto.
Qed.

Lemma back_col_prefix m col i :
  upper m -> cleared m (S col) -> (col < k)%nat -> (i <= col)%nat ->
  let m' := foldl (back_step col) m (seq 0 i) in
  upper m' /\ cleared m' (S col) /\ forall r, (r < i)%nat -> entry m' r col = 0.
Proof.
  intros Hu Hcl Hck. cbn zeta. induction i as [|i IH]; intros Hi; [split_and!; [done|done|lia]|].
  destruct IH as (IHu & IHc & IHz); [lia|]. rewrite seq_S, foldl_app. cbn [foldl Nat.add].
  destruct (back_step_spec _ col i IHu IHc ltac:(lia) Hck) as (? & ? & Hz & Hne).
  split_and!; [done|done|]. intros r Hr. destruct (decide (r = i)) as [->|]; [done|].
  rewrite Hne by done. apply IHz. lia.
Qed.

Lemma back_col_spec m col :
  upper m -> cleared m (S col) -> (col < k)%nat ->
  upper (back_col m col) /\ cleared (back_col m col) col.
Proof.
  intros Hu Hcl Hck. destruct (back_col_prefix m col col Hu Hcl Hck ltac:(lia)) as (? & Hc & Hz).
  split; [done|]. intros j r Hj Hr. destruct (decide (j = col)) as [->|].
  - by apply Hz.
  - apply Hc; lia.
Qed.

Lemma back_substitute_spec m :
  upper m -> upper (back_substitute m k) /\ cleared (back_substitute m k) 0.
Proof.
  intros Hu. unfold back_substitute.
  enough (forall c m, (c <= k)%nat -> upper m -> cleared m c ->
    upper (foldl back_col m (rev (seq 0 c))) /\ cleared (foldl back_col m (rev (seq 0 c))) 0) as Hgen.
  { apply Hgen; [lia|done|]. intros j r Hj. lia. }
  induction c as [|c IH]; intros m' Hc Hu' Hcl; [done|].
  rewrite seq_S, rev_app_distr. cbn [rev app foldl Nat.add].
  destruct (back_col_spec m' c Hu' Hcl ltac:(lia)) as [? ?]. apply IH; [lia|done|done].
Qed.

(** The left half is the identity. *)
Lemma cleared_unit m c :
  upper m -> cleared m 0 -> (c < k)%nat -> take k (default [] (m !! c)) = unit_vec k c.
Proof.
  intros Hu Hcl Hc. destruct (upper_row m c Hu Hc) as (Hv & _ & [Hz H1]).
  apply vec_eq with k; [apply (vec_take (k + n)); [lia|done] | apply vec_unit |].
  intros j Hj. rewrite at_take, decide_True, at_unit by done.
  destruct (decide (c = j)) as [<-|]; [done|].
  destruct (Nat.lt_ge_cases j c); [by apply Hz|]. apply Hcl; lia.
Qed.

Lemma extract_ok m cols :
  upper m -> Forall (fun c => (c < k)%nat) cols ->
  extract m k cols = Ok (concat (map (fun c => drop k (default [] (m !! c))) cols)).
Proof.
  intros Hu Hc. induction Hc as [|c cols Hc Hcs IH]; [done|]. cbn [extract map concat].
  destruct (upper_row m c Hu Hc) as (_ & _ & [_ ->]). cbn. by rewrite IH.
Qed.

End BackSubstitution.

(** ** Consistency with the source pieces *)

(** The data half of a row is the combination its coding half states. *)
Definition consistent (X : list (list Z)) (n : nat) (row : list Z) : Prop :=
  vec (length X + n) row /\ drop (length X) row = combine n X (take (length X) row).

Lemma take_zeros i n : (i <= n)%nat -> take i (zeros n) = zeros i.
Proof. intros. unfold zeros. rewrite take_replicate. f_equal. lia. Qed.

Lemma drop_zeros i n : drop i (zeros n) = zeros (n - i).
Proof. apply drop_replicate. Qed.

Lemma take_mul_add i u v c :
  gf_vec_mul_add (take i u) (take i v) c = take i (gf_vec_mul_add u v c).
Proof.
  assert (forall f, zip_update f (take i u) (take i v) = take i (zip_update f u v)) as H.
  { intros f. revert u v. induction i as [|i IH]; intros [|x u] [|y v]; cbn; try done. by rewrite IH. }
  unfold gf_vec_mul_add. by repeat case_match.
Qed.

Lemma drop_mul_add i u v c :
  length u = length v ->
  gf_vec_mul_add (drop i u) (drop i v) c = drop i (gf_vec_mul_add u v c).
Proof.
  intros Hl.
  assert (forall f, zip_update f (drop i u) (drop i v) = drop i (zip_update f u v)) as H.
  { intros f. revert u v Hl. induction i as [|i IH]; intros [|x u] [|y v] Hl; cbn; try done.
    apply IH. by inversion Hl. }
  unfold gf_vec_mul_add. by repeat case_match.
Qed.

Lemma consistent_subspace X n :
  Forall (vec n) X -> subspace (length X + n) (consistent X n).
Proof.
  intros HX. split.
  - by intros v [? _].
  - split; [apply vec_zeros|]. rewrite drop_zeros, (take_zeros (length X) (length X + n)) by apply Nat.le_add_r.
    replace (length X + n - length X)%nat with n by lia. symmetry. by apply combine_zeros.
  - intros u v c [Hu Hcu] [Hv Hcv] Hc. split; [by apply vec_mul_add|].
    destruct (vec_take (length X + n) (length X) u ltac:(lia) Hu) as [Hul Hub].
    destruct (vec_take (length X + n) (length X) v ltac:(lia) Hv) as [Hvl Hvb].
    rewrite <- take_mul_add, <- drop_mul_add, combine_mul_add, Hcu, Hcv by
      (try done; destruct Hu, Hv; congruence). done.
Qed.

Lemma codes_for_consistent X n p :
  Forall (vec n) X -> codes_for X n p -> consistent X n (coding_vector p ++ data p).
Proof.
  intros HX [[Hl Hb] Hd]. destruct (vec_combine n X (coding_vector p) HX Hb) as [Hdl Hdb].
  unfold consistent. rewrite <- Hl, take_app_length, drop_app_length. split; [|done]. rewrite Hd.
  split; [rewrite length_app; congruence | by apply bytes_app].
Qed.

(** ** Decoding *)

Section Decode.
Context (X : list (list Z)) (n : nat) (HX : Forall (vec n) X).
Abbreviation k := (length X).

Lemma empty_slot_none d :
  dec_inv k n (consistent X n) d -> rank d = dec_k d -> empty_slot d k = None.
Proof.
  intros Hinv Hr. unfold empty_slot. destruct (find _ _) as [c|] eqn:E; [|done].
  apply find_some in E as [[_ Hc]%in_seq E]. revert E.
  destruct (full_rank_slots k n _ d c Hinv Hr) as [-> (row & -> & _ & [[Hl _] _])]; [lia|].
  destruct row; [cbn in Hl; lia|done].
Qed.

Lemma upper_full d :
  dec_inv k n (consistent X n) d -> rank d = dec_k d -> upper k (consistent X n) (matrix d).
Proof.
  intros Hinv Hr. split; [apply Hinv|]. intros c Hc. by apply (full_rank_slots k n _ d c Hinv Hr).
Qed.

(** A full-rank decoder returns the source pieces. *)
Lemma decode_full d :
  dec_inv k n (consistent X n) d -> rank d = dec_k d -> (decode d).2 = Ok (concat X).
Proof.
  intros Hinv Hr. unfold decode. rewrite Hr, Z.ltb_irrefl.
  rewrite (inv_k k n _ d Hinv), Nat2Z.id, empty_slot_none by done.
  destruct (back_substitute_spec k n _ (consistent_subspace X n HX) (matrix d)) as [Hu Hcl];
    [by apply upper_full|].
  rewrite (extract_ok k n _ (consistent_subspace X n HX)); [|done|].
  2: { apply Forall_forall. intros c Hc. apply elem_of_seq in Hc. lia. }
  cbn [snd]. do 2 f_equal. apply list_eq. intros i. rewrite list_lookup_fmap.
  destruct (decide (i < k)%nat) as [Hi|Hi].
  2: { rewrite !lookup_ge_None_2; [done|lia|rewrite length_seq; lia]. }
  rewrite lookup_seq_lt by done. cbn. destruct (lookup_lt_is_Some_2 X i Hi) as [x Hx].
  rewrite Hx. f_equal.
  destruct (upper_row k n _ (consistent_subspace X n HX) _ i Hu Hi) as (_ & [_ ->] & _).
  rewrite (cleared_unit k n _ (consistent_subspace X n HX)) by done. by apply combine_unit.
Qed.

(** Below full rank decoding reports how many pieces it has. *)
Lemma decode_partial d :
  dec_inv k n (consistent X n) d -> rank d <> dec_k d ->
  decode d = (d, Err (InsufficientPieces (rank d) (Z.of_nat k))).
Proof.
  intros Hinv Hr. pose proof (rank_le k n _ d Hinv). unfold decode.
  replace (rank d <? dec_k d) with true by (symmetry; apply Z.ltb_lt; lia).
  by rewrite (inv_k k n _ d Hinv).
Qed.

Lemma add_pieces_codes ps :
  Forall (codes_for X n) ps ->
  dec_inv k n (consistent X n) (add_pieces (decoder_new (Z.of_nat k) n) ps).
Proof.
  intros Hps. apply add_pieces_inv; [by apply consistent_subspace|apply decoder_new_inv|].
  eapply Forall_mono; [|exact Hps]. intros p Hp. by apply codes_for_consistent.
Qed.

End Decode.
