(* ===== verification/DecoderRank.v ===== *)
(** * Rank of the RLNC decoder (crates/craftec-rlnc/src/decoder.rs)

    [add_piece] answers [Ok true] exactly for the coding vectors outside the span
    of those received before, and the decoder is decodable exactly when the
    received vectors span the whole space. *)
From Stdlib Require Import ZArith Lia.
From stdpp Require Import base list list_numbers numbers strings.
From S2P Require Import Prelude Gf256 Linear Types Encoder Decoder Instances.

Local Open Scope Z_scope.

(** ** The coding half of the elimination *)

(** The matrix restricted to the coding columns. *)
Definition heads (k : nat) (m : list (list Z)) : list (list Z) := map (take k) m.

Lemma heads_lookup k m c : default [] (heads k m !! c) = take k (default [] (m !! c)).
Proof. unfold heads. rewrite list_lookup_fmap. destruct (m !! c); cbn; [done|by rewrite take_nil]. Qed.

Lemma reduce_step_heads k n P m piv row r :
  (forall c, (c < k)%nat -> slot_ok P m piv c) -> subspace (k + n) P -> (r < k)%nat ->
  take k (reduce_step m piv row r) = reduce_step (heads k m) piv (take k row) r.
Proof.
  intros Hs HP Hr. unfold reduce_step.
  destruct (Hs r Hr) as [[-> _]|[-> (p & Hm & _ & _)]]; [done|].
  rewrite heads_lookup, at_take, decide_True by done.
  destruct (_ =? 0); [done|]. by rewrite take_mul_add.
Qed.

Lemma reduce_heads k n P m piv row :
  (forall c, (c < k)%nat -> slot_ok P m piv c) -> subspace (k + n) P ->
  take k (reduce m piv k row) = reduce (heads k m) piv k (take k row).
Proof.
  intros Hs HP. unfold reduce.
  enough (forall i, (i <= k)%nat ->
    take k (foldl (reduce_step m piv) row (seq 0 i))
    = foldl (reduce_step (heads k m) piv) (take k row) (seq 0 i)) as Hi by (apply Hi; lia).
  induction i as [|i IH]; intros Hi; [done|]. rewrite seq_S, !foldl_app. cbn [foldl Nat.add].
  by rewrite (reduce_step_heads k n P), IH by (done || lia).
Qed.

(** Rows of width [k + n] whose coding half lies in [Q]. *)
Definition lift_half (k n : nat) (Q : list Z -> Prop) (row : list Z) : Prop :=
  vec (k + n) row /\ Q (take k row).

Lemma lift_half_subspace k n Q : subspace k Q -> subspace (k + n) (lift_half k n Q).
Proof.
  intros HQ. split.
  - by intros v [? _].
  - split; [apply vec_zeros|]. rewrite take_zeros by lia. exact (sub_zero k Q HQ).
  - intros u v c [Hu HQu] [Hv HQv] Hc. split; [by apply vec_mul_add|].
    rewrite <- take_mul_add. by apply (sub_mul_add k Q HQ).
Qed.

Lemma slot_heads k n Q m piv c :
  (c < k)%nat -> slot_ok (lift_half k n Q) m piv c -> slot_ok Q (heads k m) piv c.
Proof.
  intros Hc [[Hp Hm]|[Hp (row & Hm & [Hz H1] & [Hv HQ])]]; [left|right]; (split; [done|]).
  - unfold heads. rewrite list_lookup_fmap, Hm. cbn. by rewrite take_nil.
  - exists (take k row). unfold heads. rewrite list_lookup_fmap, Hm. split_and!; [done| |done].
    split; [intros j Hj|]; rewrite at_take, decide_True by lia; auto.
Qed.

(** ** Elimination is linear and reversible *)

Lemma mul_add_twice n u v c :
  vec n u -> vec n v -> is_byte c -> gf_vec_mul_add (gf_vec_mul_add u v c) v c = u.
Proof.
  intros Hu Hv Hc. apply vec_eq with n; auto with craftec.
  intros i _. rewrite !(at_mul_add n) by auto with craftec.
  by rewrite Z.lxor_assoc, Z.lxor_nilpotent, Z.lxor_0_r.
Qed.

Section Elimination.
Context (k : nat) (P : list Z -> Prop) (HP : subspace k P).
Context (m : list (list Z)) (piv : list (option nat)).
Context (Hslots : forall c, (c < k)%nat -> slot_ok P m piv c).
Abbreviation step := (reduce_step m piv).

(** Step [r] as one row operation. *)
Lemma reduce_step_eq row r :
  (r < k)%nat -> vec k row ->
  reduce_step m piv row r = row /\ (piv !! r = Some None \/ at_ row r = 0) \/
  exists p, m !! r = Some p /\ piv !! r = Some (Some r) /\ pivot_row r p /\ P p /\
    reduce_step m piv row r = gf_vec_mul_add row p (at_ row r).
Proof.
  intros Hr Hv. unfold reduce_step.
  destruct (Hslots r Hr) as [[-> _]|[-> (p & -> & Hpr & Hp)]]; [by left; auto|].
  cbn [default]. destruct (at_ row r =? 0) eqn:E; bool_to_prop; [left; auto|right; by exists p].
Qed.

Lemma vec_step row r : (r < k)%nat -> vec k row -> vec k (reduce_step m piv row r).
Proof.
  intros Hr Hv. destruct (reduce_step_eq row r Hr Hv) as [[-> _]|(p & _ & _ & _ & Hp & ->)]; [done|].
  apply vec_mul_add; [done|by apply (sub_vec k P)|apply at_byte, Hv].
Qed.

(** The uniform reading of a step, whether or not the coefficient is zero. *)
Lemma reduce_step_at_all row r p j :
  (r < k)%nat -> vec k row -> piv !! r = Some (Some r) -> m !! r = Some p ->
  at_ (reduce_step m piv row r) j = Z.lxor (at_ row j) (gf_mul (at_ row r) (at_ p j)).
Proof.
  intros Hr Hv Hpi Hm. destruct (reduce_step_eq row r Hr Hv) as [[-> [?|Hz]]|(p' & Hm' & _ & _ & Hp & ->)].
  - congruence.
  - by rewrite Hz, gf_mul_0_l, Z.lxor_0_r.
  - assert (p' = p) as -> by congruence.
    apply (at_mul_add k); [done|by apply (sub_vec k P)|apply at_byte, Hv].
Qed.

Lemma reduce_step_linear u v c r :
  (r < k)%nat -> vec k u -> vec k v -> is_byte c ->
  reduce_step m piv (gf_vec_mul_add u v c) r
  = gf_vec_mul_add (reduce_step m piv u r) (reduce_step m piv v r) c.
Proof.
  intros Hr Hu Hv Hc. destruct (Hslots r Hr) as [[Hp _]|[Hp (p & Hm & _ & HPp)]].
  { unfold reduce_step. by rewrite Hp. }
  apply vec_eq with k; auto using vec_step, vec_mul_add with craftec.
  intros j _. rewrite (at_mul_add k) by auto using vec_step.
  rewrite !(reduce_step_at_all _ r p j), !(at_mul_add k) by auto with craftec.
  assert (is_byte (at_ u r) /\ is_byte (at_ v r) /\ is_byte (at_ p j) /\ is_byte (at_ v j)) as (? & ? & ? & ?).
  { split_and!; apply at_byte; [apply Hu|apply Hv|by apply (sub_vec k P HP)|apply Hv]. }
  rewrite gf_mul_add_l, gf_mul_add_r, gf_mul_assoc by auto with craftec. apply lxor_exchange.
Qed.

(** The elimination steps [0..i). *)
Definition reduce_upto (i : nat) (row : list Z) : list Z := foldl step row (seq 0 i).

Lemma reduce_upto_S i row : reduce_upto (S i) row = reduce_step m piv (reduce_upto i row) i.
Proof. unfold reduce_upto. by rewrite seq_S, foldl_app. Qed.

Lemma vec_reduce_upto i row : (i <= k)%nat -> vec k row -> vec k (reduce_upto i row).
Proof.
  induction i as [|i IH]; intros Hi Hv; [done|]. rewrite reduce_upto_S. apply vec_step; [lia|].
  apply IH; [lia|done].
Qed.

Lemma reduce_upto_linear i u v c :
  (i <= k)%nat -> vec k u -> vec k v -> is_byte c ->
  reduce_upto i (gf_vec_mul_add u v c) = gf_vec_mul_add (reduce_upto i u) (reduce_upto i v) c.
Proof.
  induction i as [|i IH]; intros Hi Hu Hv Hc; [done|].
  rewrite !reduce_upto_S, IH by (done || lia). apply reduce_step_linear; auto with craftec.
  all: apply vec_reduce_upto; [lia|done].
Qed.

(** A row whose coefficients at the pivots are zero is left alone. *)
Lemma reduce_upto_fixed i row :
  (i <= k)%nat -> vec k row ->
  (forall c, (c < i)%nat -> piv !! c = Some (Some c) -> at_ row c = 0) -> reduce_upto i row = row.
Proof.
  intros Hi Hv. induction i as [|i IH]; intros Hz; [done|].
  rewrite reduce_upto_S, IH by (done || lia || auto).
  destruct (reduce_step_eq row i ltac:(lia) Hv) as [[-> _]|(p & _ & Hp & _ & _ & ->)]; [done|].
  rewrite (Hz i) by (done || lia). unfold gf_vec_mul_add. by rewrite Z.eqb_refl.
Qed.

(** A pivot row is eliminated completely. *)
Lemma reduce_upto_pivot c p :
  (c < k)%nat -> piv !! c = Some (Some c) -> m !! c = Some p -> pivot_row c p -> P p ->
  reduce_upto k p = zeros k.
Proof.
  intros Hc Hp Hm [Hz H1] HPp. pose proof (sub_vec k P HP p HPp) as Hv.
  assert (reduce_upto (S c) p = zeros k) as Hcz.
  { rewrite reduce_upto_S, reduce_upto_fixed by (done || lia || auto).
    apply vec_eq with k; auto using vec_step with craftec. intros j _.
    rewrite (reduce_step_at_all p c p j), H1, gf_mul_1_l, at_zeros by (done || apply at_byte, Hv).
    apply Z.lxor_nilpotent. }
  assert (forall d, (S c + d <= k)%nat -> reduce_upto (S c + d) p = zeros k) as Hd.
  { induction d as [|d IH]; intros Hle; [by rewrite Nat.add_0_r|].
    rewrite Nat.add_succ_r, reduce_upto_S, IH by lia.
    destruct (reduce_step_eq (zeros k) (S c + d) ltac:(lia) (vec_zeros k)) as [[-> _]|(q & _ & _ & _ & _ & ->)];
      [done|]. rewrite at_zeros. unfold gf_vec_mul_add. by rewrite Z.eqb_refl. }
  replace k with (S c + (k - S c))%nat at 1 by lia. apply Hd. lia.
Qed.

(** Each step can be undone with a row of the matrix. *)
Lemma reduce_reversible Q i row :
  subspace k Q -> (forall c p, (c < k)%nat -> m !! c = Some p -> piv !! c = Some (Some c) -> Q p) ->
  (i <= k)%nat -> vec k row -> Q (reduce_upto i row) -> Q row.
Proof.
  intros HQ Hrows Hi Hv. induction i as [|i IH]; intros Hq; [done|].
  apply IH; [lia|]. rewrite reduce_upto_S in Hq.
  pose proof (vec_reduce_upto i row ltac:(lia) Hv) as Hvi.
  destruct (reduce_step_eq (reduce_upto i row) i ltac:(lia) Hvi) as [[Hs _]|(p & Hm & Hp & _ & HPp & Hs)];
    rewrite Hs in Hq; [done|].
  rewrite <- (mul_add_twice k (reduce_upto i row) p (at_ (reduce_upto i row) i)).
  - apply (sub_mul_add k Q HQ); [done|by apply (Hrows i); try lia|apply at_byte, Hvi].
  - done.
  - by apply (sub_vec k P).
  - apply at_byte, Hvi.
Qed.

(** The rows eliminated to zero form a subspace. *)
Lemma eliminated_subspace :
  subspace k (fun row => vec k row /\ reduce_upto k row = zeros k).
Proof.
  split.
  - by intros v [? _].
  - split; [apply vec_zeros|]. apply reduce_upto_fixed; [lia|apply vec_zeros|].
    intros. apply at_zeros.
  - intros u v c [Hu Hzu] [Hv Hzv] Hc. split; [by apply vec_mul_add|].
    rewrite reduce_upto_linear, Hzu, Hzv by (done || lia).
    apply vec_eq with k; auto with craftec. intros j _.
    rewrite (at_mul_add k), at_zeros, gf_mul_0_r by auto with craftec. done.
Qed.

End Elimination.

(** ** Rank as a span *)

Lemma npiv_missing piv : npiv piv <> length piv -> exists c, (c < length piv)%nat /\ piv !! c = Some None.
Proof.
  induction piv as [|o piv IH]; intros Hn; [done|]. destruct o.
  - destruct IH as (c & ? & ?); [unfold npiv in *; cbn in Hn; lia|]. exists (S c). cbn. split; [lia|done].
  - exists 0%nat. cbn. split; [lia|done].
Qed.

Definition piece_ok (k n : nat) (p : CodedPiece) : Prop :=
  vec k (coding_vector p) /\ vec n (data p).

Section Rank.
Context (k n : nat).

(** [Q] contains the coding half of every row the decoder holds. *)
Definition holds_rows (d : RlncDecoder) (Q : list Z -> Prop) : Prop :=
  forall c row, (c < k)%nat -> pivot_col d !! c = Some (Some c) -> matrix d !! c = Some row ->
    Q (take k row).

(** The decoder's rows and the received vectors [A] span the same space. *)
Record rank_inv (A : list (list Z)) (d : RlncDecoder) : Prop := {
  ri_vecs : Forall (vec k) A;
  ri_dec : dec_inv k n (lift_half k n (in_span k A)) d;
  ri_cover Q a : subspace k Q -> holds_rows d Q -> a ∈ A -> Q a;
}.

Definition residue (d : RlncDecoder) (cv : list Z) : list Z :=
  reduce (heads k (matrix d)) (pivot_col d) k cv.

Lemma slots_heads A d :
  rank_inv A d -> forall c, (c < k)%nat -> slot_ok (in_span k A) (heads k (matrix d)) (pivot_col d) c.
Proof. intros Hi c Hc. apply (slot_heads k n); [done|]. by apply Hi. Qed.

Lemma span_sub A d : rank_inv A d -> subspace k (in_span k A).
Proof. intros Hi. apply span_subspace, Hi. Qed.

(** A vector is in the span exactly when it is eliminated to zero. *)
Lemma residue_span A d cv :
  rank_inv A d -> vec k cv -> in_span k A cv <-> residue d cv = zeros k.
Proof.
  intros Hi Hv. pose proof (slots_heads A d Hi) as Hs. pose proof (span_sub A d Hi) as HS. split.
  - intros Hcv. assert (vec k cv /\ residue d cv = zeros k) as [_ ?]; [|done].
    apply (span_least k _ A cv (eliminated_subspace k _ HS _ _ Hs)); [|done].
    apply list.Forall_forall. intros a Ha.
    apply (ri_cover A d Hi _ a (eliminated_subspace k _ HS _ _ Hs)); [|done].
    intros c row Hc Hp Hm. destruct (Hs c Hc) as [[? _]|[_ (p & Hm' & Hpr & HPp)]]; [congruence|].
    unfold heads in Hm'. rewrite list_lookup_fmap, Hm in Hm'. cbn in Hm'. inversion Hm'; subst.
    split; [by apply (sub_vec k _ HS)|].
    eapply (reduce_upto_pivot k _ HS _ _ Hs c); try done. unfold heads. by rewrite list_lookup_fmap, Hm.
  - intros Hz. apply (reduce_reversible k _ HS _ _ Hs (in_span k A) k cv HS); [|lia|done|].
    + intros c p Hc Hm Hp. destruct (Hs c Hc) as [[? _]|[_ (p' & Hm' & _ & HPp)]]; congruence.
    + unfold residue, reduce in Hz. unfold reduce_upto. rewrite Hz. exact (sub_zero k _ HS).
Qed.

Lemma position_nonzero_zeros v : vec k v -> position_nonzero v = None <-> v = zeros k.
Proof.
  intros Hv. split.
  - intros Hp. apply vec_eq with k; auto with craftec. intros i _.
    by rewrite at_zeros, (position_nonzero_None v).
  - intros ->. destruct (position_nonzero _) as [c|] eqn:E; [|done].
    apply position_nonzero_Some in E as (_ & Hn & _). by rewrite at_zeros in Hn.
Qed.

Lemma vec_residue A d cv : rank_inv A d -> vec k cv -> vec k (residue d cv).
Proof.
  intros Hi Hv. apply (vec_reduce_upto k _ (span_sub A d Hi) _ _ (slots_heads A d Hi) k); [lia|done].
Qed.

(** The coding half of the row [add_piece] reduces. *)
Lemma add_piece_residue A d p :
  rank_inv A d -> piece_ok k n p ->
  take k (reduce (matrix d) (pivot_col d) k (coding_vector p ++ data p)) = residue d (coding_vector p).
Proof.
  intros Hi [[Hl _] _].
  rewrite (reduce_heads k n (lift_half k n (in_span k A))).
  - by rewrite take_app_length' by done.
  - apply Hi.
  - by apply lift_half_subspace, (span_sub A d).
Qed.

(** [add_piece] rejects exactly the vectors of the span. *)
Lemma add_piece_result A d p :
  rank_inv A d -> piece_ok k n p ->
  ((add_piece d p).2 = Ok false /\ (add_piece d p).1 = d /\ in_span k A (coding_vector p)) \/
  ((add_piece d p).2 = Ok true /\ ~ in_span k A (coding_vector p)).
Proof.
  intros Hi Hp. pose proof (add_piece_cases k n _ d p (ri_dec A d Hi)) as Hc.
  destruct Hp as [[Hl Hb] [Hld Hbd]]. specialize (Hc Hl Hld). cbn zeta in Hc.
  rewrite (add_piece_residue A) in Hc by done.
  rewrite (residue_span A d) by done. rewrite <- position_nonzero_zeros by (by apply (vec_residue A)).
  destruct (position_nonzero _) as [col|].
  - destruct Hc as (d' & -> & _). by right.
  - rewrite Hc. by left.
Qed.

Lemma dec_inv_mono P Q d : (forall row, P row -> Q row) -> dec_inv k n P d -> dec_inv k n Q d.
Proof.
  intros HPQ Hi. split; try apply Hi. intros c Hc.
  destruct (inv_slots _ _ _ _ Hi c Hc) as [?|[? (row & ? & ? & ?)]]; [by left|right].
  split; [done|]. exists row. auto.
Qed.

Lemma vecs_snoc A v : Forall (vec k) A -> vec k v -> Forall (vec k) (A ++ [v]).
Proof. intros. apply Forall_app_2; [done|by apply Forall_singleton]. Qed.

Lemma in_span_snoc A v w : Forall (vec k) A -> vec k v -> in_span k A w -> in_span k (A ++ [v]) w.
Proof.
  intros HA Hv. pose proof (vecs_snoc A v HA Hv) as HAv.
  apply span_least; [by apply span_subspace|].
  apply list.Forall_forall. intros a Ha. apply span_elem; [done|]. apply elem_of_app. by left.
Qed.

(** The invariant seen from the vectors received including the next one. *)
Lemma dec_inv_next A d p :
  rank_inv A d -> piece_ok k n p ->
  let P := lift_half k n (in_span k (A ++ [coding_vector p])) in
  subspace (k + n) P /\ dec_inv k n P d /\ P (coding_vector p ++ data p).
Proof.
  intros Hi [Hv Hvd]. pose proof (vecs_snoc A _ (ri_vecs A d Hi) Hv) as HA. cbn zeta. split_and!.
  - by apply lift_half_subspace, span_subspace.
  - eapply dec_inv_mono; [|apply Hi]. intros row [? ?]. split; [done|].
    apply in_span_snoc; [apply Hi|done|done].
  - destruct Hv as [Hl Hb], Hvd as [? ?]. split; [split; [rewrite length_app; lia|by apply bytes_app]|].
    rewrite take_app_length' by done. apply span_elem; [done|]. apply elem_of_app. right.
    by apply list_elem_of_singleton.
Qed.

Lemma scale_inv_cancel a v :
  vec k v -> is_byte a -> a <> 0 -> scale a (scale (gf_inv a) v) = v.
Proof.
  intros Hv Ha Hn. apply vec_eq with k; auto using vec_scale. intros i _.
  assert (is_byte (at_ v i)) by apply at_byte, Hv.
  rewrite !at_scale, <- gf_mul_assoc, (gf_mul_comm (gf_inv a)), gf_mul_inv by (done || apply gf_inv_byte).
  by apply gf_mul_1_r.
Qed.

Lemma take_scale i c v : take i (scale c v) = scale c (take i v).
Proof. apply firstn_map. Qed.

(** Every subspace that holds the new rows holds the new vector. *)
Lemma new_row_cover A d p Q :
  rank_inv A d -> piece_ok k n p -> (add_piece d p).2 = Ok true ->
  subspace k Q -> holds_rows (add_piece d p).1 Q -> holds_rows d Q /\ Q (coding_vector p).
Proof.
  intros Hi Hp Ht HQ Hh. pose proof Hp as [[Hl Hb] [Hld Hbd]].
  pose proof (add_piece_cases k n _ d p (ri_dec A d Hi) Hl Hld) as Hc. cbn zeta in Hc.
  destruct (position_nonzero _) as [col|] eqn:E; [|rewrite Hc in Ht; done].
  destruct Hc as (d' & Hd' & _ & _ & Hm & Hpi & _). rewrite Hd' in Hh. cbn [fst] in Hh. clear Hd' Ht.
  destruct (dec_inv_next A d p Hi Hp) as (HP & Hin & HPp).
  destruct (new_pivot_free k n _ HP d _ col Hin HPp E) as (Hck & Hfree & Hnz & _).
  assert (holds_rows d Q) as Hhd.
  { intros c row Hc Hpc Hmc. apply (Hh c row Hc); rewrite ?Hm, ?Hpi, list_lookup_insert_ne; congruence. }
  split; [done|].
  assert (vec k (residue d (coding_vector p))) as Hr by (by apply (vec_residue A)).
  pose proof (inv_pivots _ _ _ _ Hin) as Hlp. pose proof (inv_matrix _ _ _ _ Hin) as Hlm.
  eapply (Hh col) in Hck as Hq.
  2: { rewrite Hpi. apply list_lookup_insert_eq. by rewrite Hlp. }
  2: { rewrite Hm. apply list_lookup_insert_eq. by rewrite Hlm. }
    rewrite take_scale, (add_piece_residue A) in Hq by done.
  set (a := at_ _ col) in *.
  assert (is_byte a) as Ha by (apply at_byte, (sub_vec _ _ HP), (reduce_sub k n); [done|apply Hin|done]).
  apply (reduce_reversible k _ (span_sub A d Hi) _ _ (slots_heads A d Hi) Q k); [done| |lia|done|].
  - intros c q Hc Hqc Hpc. unfold heads in Hqc. rewrite list_lookup_fmap in Hqc.
    destruct (matrix d !! c) as [row|] eqn:Hr'; [|done]. cbn in Hqc. inversion Hqc; subst.
    by apply (Hhd c).
  - change (Q (residue d (coding_vector p))). rewrite <- (scale_inv_cancel a) by done.
    by apply (sub_scale k).
Qed.

Lemma rank_inv_add A d p :
  rank_inv A d -> piece_ok k n p -> rank_inv (A ++ [coding_vector p]) (add_piece d p).1.
Proof.
  intros Hi Hp. destruct (dec_inv_next A d p Hi Hp) as (HP & Hin & HPp). split.
  - apply vecs_snoc; [apply Hi|apply Hp].
  - by apply add_piece_inv.
  - intros Q a HQ Hh [Ha|Ha]%elem_of_app; destruct (add_piece_result A d p Hi Hp) as [(_ & Hd & Hs)|[Ht _]].
    + rewrite Hd in Hh. by apply (ri_cover A d Hi).
    + apply (ri_cover A d Hi); [done| |done]. by apply (new_row_cover A d p).
    + apply list_elem_of_singleton in Ha as ->. rewrite Hd in Hh.
      apply (span_least k Q A); [done| |done]. apply list.Forall_forall. intros a Ha.
      by apply (ri_cover A d Hi).
    + apply list_elem_of_singleton in Ha as ->. by apply (new_row_cover A d p).
Qed.

Lemma rank_inv_new : rank_inv [] (decoder_new (Z.of_nat k) n).
Proof. split; [constructor|apply decoder_new_inv|]. intros Q a _ _ Ha. by apply not_elem_of_nil in Ha. Qed.

Lemma rank_inv_adds A d ps :
  rank_inv A d -> Forall (piece_ok k n) ps ->
  rank_inv (A ++ map coding_vector ps) (add_pieces d ps).
Proof.
  intros Hi Hps. unfold add_pieces. revert A d Hi. induction Hps as [|p ps Hp Hps IH]; intros A d Hi.
  - cbn. by rewrite app_nil_r.
  - cbn [foldl map]. rewrite cons_middle, app_assoc. apply IH. by apply rank_inv_add.
Qed.

(** Full rank is a spanning set of coding vectors. *)
Lemma full_rank_span A d :
  rank_inv A d -> is_decodable d = true <-> forall v, vec k v -> in_span k A v.
Proof.
  intros Hi. pose proof (ri_dec A d Hi) as Hd. unfold is_decodable. rewrite Z.eqb_eq.
  pose proof (slots_heads A d Hi) as Hs. split.
  - intros Hr v Hv. apply (residue_span A d); [done|done|].
    apply vec_eq with k; [by apply (vec_residue A)|apply vec_zeros|]. intros c Hc. rewrite at_zeros.
    destruct (full_rank_slots k n _ d c Hd Hr Hc) as [Hp _].
    apply (reduce_pivots k 0 (vec k)); try done.
    + rewrite Nat.add_0_r. split; auto with craftec.
    + intros c' Hc'. destruct (Hs c' Hc') as [?|[? (q & ? & ? & Hq)]]; [by left|right].
      split; [done|]. exists q. split_and!; try done. by apply (sub_vec k _ (span_sub A d Hi)).
  - intros Hall. destruct (decide (rank d = dec_k d)) as [|Hne]; [done|]. exfalso.
    rewrite (inv_rank _ _ _ _ Hd), (inv_k _ _ _ _ Hd) in Hne.
    destruct (npiv_missing (pivot_col d)) as (c & Hc & Hn).
    { rewrite (inv_pivots _ _ _ _ Hd). lia. }
    rewrite (inv_pivots _ _ _ _ Hd) in Hc.
    specialize (Hall (unit_vec k c) (vec_unit k c)). apply (residue_span A d) in Hall; [|done|apply vec_unit].
    unfold residue, reduce in Hall. fold (reduce_upto (heads k (matrix d)) (pivot_col d) k (unit_vec k c)) in Hall.
    rewrite (reduce_upto_fixed k _ _ _ Hs) in Hall; [|lia|apply vec_unit|].
    + assert (at_ (unit_vec k c) c = 0) as Hz by (rewrite Hall; apply at_zeros).
      by rewrite at_unit, decide_True in Hz by done.
    + intros c' Hc' Hp. rewrite at_unit by done. destruct (decide (c = c')) as [->|]; [congruence|done].
Qed.

End Rank.

(** ** Properties *)

(** C29: [add_piece] answers [Ok true] exactly for a coding vector outside the span of
    the vectors received before it, and [Ok false] exactly for one inside. *)
Theorem add_piece_innovative_iff k n ps p :
  Forall (piece_ok k n) ps -> piece_ok k n p ->
  let d := add_pieces (decoder_new (Z.of_nat k) n) ps in
  ((add_piece d p).2 = Ok true <-> ~ in_span k (map coding_vector ps) (coding_vector p)) /\
  ((add_piece d p).2 = Ok false <-> in_span k (map coding_vector ps) (coding_vector p)).
Proof.
  intros Hps Hp. cbn zeta.
  destruct (add_piece_result k n _ _ p (rank_inv_adds k n [] _ ps (rank_inv_new k n) Hps) Hp)
    as [(-> & _ & Hs)|(-> & Hs)]; cbn in Hs; by split; split.
Qed.

(** The decoder reports full rank exactly when the received coding vectors span
    every vector of [k] bytes. *)
Theorem decodable_iff_spanning k n ps :
  Forall (piece_ok k n) ps ->
  is_decodable (add_pieces (decoder_new (Z.of_nat k) n) ps) = true
  <-> forall v, vec k v -> in_span k (map coding_vector ps) v.
Proof. intros Hps. apply (full_rank_span k n), (rank_inv_adds k n []); [apply rank_inv_new|done]. Qed.

#[export] Instance piece_ok_dec k n p : Decision (piece_ok k n p).
Proof. unfold piece_ok. apply _. Defined.

Definition demo_rows : list CodedPiece :=
  [mkPiece [] [] [1; 2; 3] [9] []; mkPiece [] [] [2; 4; 6] [7] []; mkPiece [] [] [0; 1; 5] [8] []].

Lemma add_piece_innovative_iff_witness :
  ~ in_span 3 (map coding_vector demo_rows) [0; 0; 1].
Proof.
  apply (add_piece_innovative_iff 3 1 demo_rows (mkPiece [] [] [0; 0; 1] [1] [])).
  - by_compute.
  - by_compute.
  - vm_compute. reflexivity.
Defined.

Lemma decodable_iff_spanning_witness :
  in_span 3 (map coding_vector (demo_rows ++ [mkPiece [] [] [0; 0; 1] [1] []])) [7; 0; 255].
Proof.
  apply (decodable_iff_spanning 3 1 (demo_rows ++ [mkPiece [] [] [0; 0; 1] [1] []])).
  - by_compute.
  - vm_compute. reflexivity.
  - by_compute.
Defined.
