(* ===== verification/Recoder.v ===== *)
(** * RLNC recoder (crates/craftec-rlnc/src/recoder.rs)

    Combining coded pieces into a fresh coded piece without decoding.  The
    theorems show that recoding keeps a piece's meaning (it still states the
    combination of the source pieces its payload holds) and its authentication
    (the combined tag is the tag of the combined piece). *)
From Stdlib Require Import ZArith Lia.
From stdpp Require Import base list list_numbers numbers strings.
From S2P Require Import Prelude Gf256 Linear Types Hommac Encoder.

Local Open Scope Z_scope.

Section Recoder.
Context `{B3 : Blake3}.

(** [for p in pieces.iter().skip(1) { if p.cid != cid { return Err } }] *)
Definition same_cid (c : Cid) (pieces : list CodedPiece) : bool :=
  forallb (fun p => bool_decide (cid p = c)) pieces.

(** [recode]; [draws] are the random draws of the scalars, one pair per piece. *)
Definition recode (pieces : list CodedPiece) (draws : list (Z * Z)) : result CodedPiece RlncError :=
  match pieces with
  | p0 :: _ :: _ =>
      let c := cid p0 in
      if negb (same_cid c (drop 1 pieces)) then Err MismatchedCids
      else
        let k := length (coding_vector p0) in
        let data_len := length (data p0) in
        let scalars := map draw_coeff draws in
        let new_coding_vector := combine k (map coding_vector pieces) scalars in
        let new_data := combine data_len (map data pieces) scalars in
        let hom_mac := combine_tags c (map hommac_tag pieces) scalars in
        Ok (CodedPiece_new c new_coding_vector new_data hom_mac)
  | _ => Err (InsufficientRecodeInputs (length pieces))
  end.

End Recoder.

(** The piece carries the tag [compute_tag] gives it under its own CID. *)
Definition tagged `{Blake3} (p : CodedPiece) : Prop :=
  hommac_tag p = compute_tag (cid p) (coding_vector p) (data p).

Section RecoderFacts.
Context `{BL : Blake3Laws}.

(** The two ways [recode] fails, and what it returns otherwise. *)
Lemma recode_cases pieces draws :
  match recode pieces draws with
  | Err (InsufficientRecodeInputs n) => n = length pieces /\ (length pieces < 2)%nat
  | Err MismatchedCids => exists p q, p ∈ pieces /\ q ∈ pieces /\ cid p <> cid q
  | Err _ => False
  | Ok r => (2 <= length pieces)%nat /\ Forall (fun p => cid p = cid r) pieces /\
      exists p0, head pieces = Some p0 /\
      r = CodedPiece_new (cid p0)
            (combine (length (coding_vector p0)) (map coding_vector pieces) (map draw_coeff draws))
            (combine (length (data p0)) (map data pieces) (map draw_coeff draws))
            (combine_tags (cid p0) (map hommac_tag pieces) (map draw_coeff draws))
  end.
Proof.
  destruct pieces as [|p0 [|p1 ps]]; [cbn; lia|cbn; lia|]. cbn [recode drop].
  destruct (same_cid (cid p0) (p1 :: ps)) eqn:E; cbn [negb].
  - split; [cbn; lia|]. split; [|by exists p0]. cbn [cid CodedPiece_new].
    constructor; [done|]. apply list.Forall_forall. intros p Hp.
    apply (forallb_elem_of _ _ p) in E; [|done]. by bool_to_prop.
  - assert (exists q, q ∈ p1 :: ps /\ cid q <> cid p0) as (q & Hq & Hn).
    { revert E. unfold same_cid. clear. induction (p1 :: ps) as [|q l IH]; [done|].
      cbn. destruct (bool_decide _) eqn:E; bool_to_prop.
      - intros (q' & ? & ?)%IH. exists q'. split; [by apply list_elem_of_further|done].
      - intros _. exists q. split; [apply list_elem_of_here|done]. }
    exists q, p0. split_and!; [by apply list_elem_of_further|apply list_elem_of_here|done].
Qed.

(** Combining combinations is combining with the combined coefficients. *)
Lemma combine_combine n X cvs cs :
  Forall (vec n) X -> Forall (vec (length X)) cvs -> bytes cs ->
  combine n (map (combine n X) cvs) cs = combine n X (combine (length X) cvs cs).
Proof.
  intros HX Hcvs Hcs. unfold combine at 1 4, combine_from.
  assert (vec (length X) (zeros (length X))) as Ha by apply vec_zeros.
  replace (zeros n) with (combine n X (zeros (length X))) by (by apply combine_zeros).
  revert cs Hcs Ha. generalize (zeros (length X)) as acc.
  induction Hcvs as [|v cvs [Hvl Hvb] Hcvs IH]; intros acc [|c cs] Hcs [Hal Hab]; try done.
  inversion Hcs; subst. cbn [map zip zip_with foldl fst snd].
  rewrite <- combine_mul_add by (done || congruence).
  apply IH; [done|]. apply vec_mul_add; done.
Qed.

Lemma codes_vecs X n p : Forall (vec n) X -> codes_for X n p -> vec (length X) (coding_vector p) /\ vec n (data p).
Proof. intros HX [Hcv Hd]. split; [done|]. rewrite Hd. apply vec_combine; [done|apply Hcv]. Qed.

Lemma recode_codes X n pieces draws r :
  Forall (vec n) X -> Forall (codes_for X n) pieces -> Forall draw_ok draws ->
  recode pieces draws = Ok r -> codes_for X n r.
Proof.
  intros HX Hps Hd Hr. pose proof (recode_cases pieces draws) as Hc. rewrite Hr in Hc.
  destruct Hc as (_ & _ & p0 & Hh & ->). apply draws_bytes in Hd.
  assert (vec (length X) (coding_vector p0) /\ vec n (data p0)) as [[Hk _] [Hn _]].
  { destruct pieces; [done|]. inversion Hh; subst. inversion Hps; subst. by apply codes_vecs. }
  assert (Forall (vec (length X)) (map coding_vector pieces)) as Hcvs.
  { apply Forall_fmap. eapply Forall_mono; [|exact Hps]. by intros p [? _]. }
  rewrite Hk, Hn. split; cbn [coding_vector data CodedPiece_new]; [by apply vec_combine|].
  rewrite <- combine_combine by done. f_equal. rewrite map_map. apply map_ext_in.
  intros p Hp%list_elem_of_In. by apply (proj1 (list.Forall_forall _ _) Hps).
Qed.

(** Recoding authenticated pieces gives an authenticated piece. *)
Lemma recode_tagged k n pieces draws r :
  Forall (fun p => vec k (coding_vector p) /\ vec n (data p)) pieces -> Forall tagged pieces ->
  Forall draw_ok draws -> recode pieces draws = Ok r -> tagged r.
Proof.
  intros Hps Ht Hd Hr. pose proof (recode_cases pieces draws) as Hc. rewrite Hr in Hc.
  destruct Hc as (_ & Hcids & p0 & Hh & ->). apply draws_bytes in Hd. cbn [cid CodedPiece_new] in Hcids.
  assert (vec k (coding_vector p0) /\ vec n (data p0)) as [[Hk _] [Hn _]].
  { destruct pieces; [done|]. inversion Hh; subst. by inversion Hps; subst. }
  unfold tagged. cbn [cid coding_vector data hommac_tag CodedPiece_new]. rewrite Hk, Hn.
  rewrite <- combine_tags_homomorphic; [|by apply Forall_fmap; eapply Forall_mono; [|exact Hps]; intros ? [? ?]..
    |by rewrite !length_map|done].
  f_equal. clear Hh Hk Hn Hps Hr. induction Ht as [|p ps Hp Ht IH]; [done|].
  inversion Hcids as [|? ? Hc Hcs]; subst. cbn [map zip_with]. rewrite IH by done. by rewrite <- Hc, <- Hp.
Qed.

Lemma recode_piece_id pieces draws r : recode pieces draws = Ok r -> verify_piece_id r = true.
Proof.
  intros Hr. pose proof (recode_cases pieces draws) as Hc. rewrite Hr in Hc.
  destruct Hc as (_ & _ & p0 & _ & ->). by apply bool_decide_eq_true.
Qed.

Lemma tagged_verifies p : tagged p <-> verify_mac p = true.
Proof. rewrite verify_mac_tag. unfold tagged, verify_tag. rewrite bool_decide_eq_true. split; congruence. Qed.

End RecoderFacts.
