(* ===== verification/Engine.v ===== *)
(** * RLNC engine (crates/craftec-rlnc/src/engine.rs)

    The entry point of the coding crate: encode, decode and recode with counters
    and a limit of eight operations in flight.  The theorems are the end-to-end
    contract: whatever subset of encoded and recoded pieces arrives, mixed with
    pieces of the wrong shape, decoding returns the encoded data (zero-padded) as
    soon as the coding vectors span, and [InsufficientPieces] otherwise. *)
From Stdlib Require Import ZArith Lia.
From stdpp Require Import base list list_numbers numbers strings relations.
From S2P Require Import Prelude Gf256 Linear Types Hommac F64 Encoder Decoder DecoderRank Recoder Instances.

Local Open Scope Z_scope.

(** ** State *)

Record RlncMetrics : Type := mkMetrics {
  encodes : Z;
  decodes : Z;
  recodes : Z;
  encode_bytes : Z;
}.

Definition metrics_default : RlncMetrics := mkMetrics 0 0 0 0.

Definition count_encode (n : nat) (m : RlncMetrics) : RlncMetrics :=
  mkMetrics (wrap 64 (encodes m + 1)) (decodes m) (recodes m)
    (wrap 64 (encode_bytes m + wrap 64 (Z.of_nat n))).
Definition count_decode (m : RlncMetrics) : RlncMetrics :=
  mkMetrics (encodes m) (wrap 64 (decodes m + 1)) (recodes m) (encode_bytes m).
Definition count_recode (m : RlncMetrics) : RlncMetrics :=
  mkMetrics (encodes m) (decodes m) (wrap 64 (recodes m + 1)) (encode_bytes m).

(** ** Operations

    The bodies run between taking and dropping a semaphore permit; each returns
    the metrics it leaves. *)

(** The [for piece in pieces] loop of [decode]. *)
Fixpoint feed (d : RlncDecoder) (pieces : list CodedPiece) : RlncDecoder * option RlncError :=
  match pieces with
  | [] => (d, None)
  | p :: ps =>
      let '(d', r) := add_piece d p in
      match r with
      | Ok _ | Err (CodingVectorLengthMismatch _ _) | Err (InvalidPieceSize _ _) =>
          if is_decodable d' then (d', None) else feed d' ps
      | Err e => (d', Some e)
      end
  end.

Section Engine.
Context `{B3 : Blake3}.

(** [encode]; [rng i] are the draws of the [i]-th piece. *)
Definition engine_encode (m : RlncMetrics) (data : list Z) (k : Z) (rng : nat -> list (Z * Z))
    : RlncMetrics * result (list CodedPiece) RlncError :=
  match encoder_new data k with
  | Err e => (m, Err e)
  | Ok encoder =>
      let n := Z.to_nat (target_pieces encoder) in
      let result := encode_n encoder (map rng (seq 0 n)) in
      (count_encode (length data) m, Ok result)
  end.

Definition engine_decode (m : RlncMetrics) (k : Z) (piece_size : nat) (pieces : list CodedPiece)
    : RlncMetrics * result (list Z) RlncError :=
  match feed (decoder_new k piece_size) pieces with
  | (_, Some e) => (m, Err e)
  | (d, None) =>
      match (decode d).2 with
      | Ok data => (count_decode m, Ok data)
      | Err e => (m, Err e)
      end
  end.

Definition engine_recode (m : RlncMetrics) (pieces : list CodedPiece) (draws : list (Z * Z))
    : RlncMetrics * result CodedPiece RlncError :=
  match recode pieces draws with
  | Err e => (m, Err e)
  | Ok result => (count_recode m, Ok result)
  end.

(** ** Concurrency

    [acquire] takes one of [MAX_CONCURRENCY] permits before an operation runs;
    the permit is dropped when the operation returns.  The semaphore is never
    closed, so [acquire] never fails. *)

Definition MAX_CONCURRENCY : nat := 8.

Inductive engine_op : Type :=
| OpEncode (data : list Z) (k : Z) (rng : nat -> list (Z * Z))
| OpDecode (k : Z) (piece_size : nat) (pieces : list CodedPiece)
| OpRecode (pieces : list CodedPiece) (draws : list (Z * Z)).

(** The metrics an operation leaves and whether it succeeded. *)
Definition run_op (m : RlncMetrics) (op : engine_op) : RlncMetrics * bool :=
  match op with
  | OpEncode d k rng => let r := engine_encode m d k rng in (r.1, is_ok r.2)
  | OpDecode k n ps => let r := engine_decode m k n ps in (r.1, is_ok r.2)
  | OpRecode ps draws => let r := engine_recode m ps draws in (r.1, is_ok r.2)
  end.

Record EngineState : Type := mkEngine {
  permits : nat;
  in_flight : list engine_op;
  metrics : RlncMetrics;
  completed : nat;
}.

Definition engine_new : EngineState := mkEngine MAX_CONCURRENCY [] metrics_default 0.

Inductive engine_step : EngineState -> EngineState -> Prop :=
| step_acquire s op :
    (0 < permits s)%nat ->
    engine_step s (mkEngine (permits s - 1) (op :: in_flight s) (metrics s) (completed s))
| step_return s l1 op l2 m ok :
    in_flight s = l1 ++ op :: l2 ->
    run_op (metrics s) op = (m, ok) ->
    engine_step s (mkEngine (permits s + 1) (l1 ++ l2) m (completed s + if ok then 1 else 0)).

End Engine.

(** ** Feeding pieces *)

(** A piece of the shape the decoder accepts. *)
Definition well_sized (k n : nat) (p : CodedPiece) : bool :=
  (length (coding_vector p) =? k)%nat && (length (data p) =? n)%nat.

Lemma add_piece_shape k n P d p :
  dec_inv k n P d ->
  if well_sized k n p then exists b, (add_piece d p).2 = Ok b
  else add_piece d p = (d, Err (CodingVectorLengthMismatch k (length (coding_vector p)))) \/
       add_piece d p = (d, Err (InvalidPieceSize n (length (data p)))).
Proof.
  intros Hi. unfold well_sized, add_piece.
  rewrite (inv_k k n P d Hi), (inv_size k n P d Hi), Nat2Z.id.
  destruct (_ =? k)%nat; cbn; [|by left]. destruct (_ =? n)%nat; cbn; [|by right].
  destruct (position_nonzero _); cbn; eauto.
Qed.

(** The loop never fails: it stops at the first full-rank prefix, or at the end,
    having added the well-sized pieces it read. *)
Lemma feed_prefix k n P d ps :
  subspace (k + n) P -> dec_inv k n P d ->
  Forall (fun p => well_sized k n p = true -> P (coding_vector p ++ data p)) ps ->
  exists pre post, ps = pre ++ post /\
    feed d ps = (add_pieces d (List.filter (well_sized k n) pre), None) /\
    (post = [] \/ is_decodable (add_pieces d (List.filter (well_sized k n) pre)) = true).
Proof.
  intros HP Hi Hps. revert d Hi. induction Hps as [|p ps Hp Hps IH]; intros d Hi.
  { exists [], []. cbn. by auto. }
  pose proof (add_piece_shape k n P d p Hi) as Hs. cbn [feed].
  destruct (well_sized k n p) eqn:Hw.
  - destruct Hs as [b Hb]. pose proof (add_piece_inv k n P HP d p Hi (Hp eq_refl)) as Hi'.
    destruct (add_piece d p) as [d' r] eqn:Ha. cbn in Hb, Hi'. subst r.
    destruct (is_decodable d') eqn:Hd.
    + exists [p], ps. cbn [app List.filter]. rewrite Hw. cbn. rewrite Ha. cbn. auto.
    + destruct (IH d' Hi') as (pre & post & -> & Hf & Hor). exists (p :: pre), post.
      cbn [app List.filter]. rewrite Hw. cbn [add_pieces foldl]. rewrite Ha. cbn. auto.
  - destruct (is_decodable d) eqn:Hd.
    + exists [p], ps. cbn [app List.filter]. rewrite Hw. cbn.
      destruct Hs as [-> | ->]; rewrite Hd; auto.
    + destruct (IH d Hi) as (pre & post & -> & Hf & Hor). exists (p :: pre), post.
      cbn [app List.filter]. rewrite Hw. destruct Hs as [-> | ->]; rewrite Hd; auto.
Qed.

Lemma filter_app_Forall {A} (P : A -> Prop) f (l1 l2 : list A) :
  Forall P (List.filter f (l1 ++ l2)) -> Forall P (List.filter f l1).
Proof. rewrite List.filter_app. by intros [? _]%Forall_app. Qed.

Lemma codes_piece_ok X n p : Forall (vec n) X -> codes_for X n p -> piece_ok (length X) n p.
Proof. apply codes_vecs. Qed.

Lemma in_span_app k A B v : Forall (vec k) (A ++ B) -> in_span k A v -> in_span k (A ++ B) v.
Proof.
  intros HAB. apply span_least; [by apply span_subspace|].
  apply list.Forall_forall. intros a Ha. apply span_elem; [done|]. apply elem_of_app. by left.
Qed.

(** The received vectors span the whole space. *)
Definition spanning (k : nat) (cvs : list (list Z)) : Prop := forall v, vec k v -> in_span k cvs v.

Lemma decoder_spanning X n ps :
  Forall (vec n) X -> Forall (codes_for X n) ps ->
  is_decodable (add_pieces (decoder_new (Z.of_nat (length X)) n) ps) = true
  <-> spanning (length X) (map coding_vector ps).
Proof.
  intros HX Hps.
  apply (full_rank_span (length X) n), (rank_inv_adds (length X) n []); [apply rank_inv_new|].
  eapply Forall_mono; [|exact Hps]. intros p. by apply codes_piece_ok.
Qed.

(** [decode] on any list of pieces whose well-sized members code for [X]. *)
Lemma engine_decode_spec X n m ps :
  let k := length X in
  let good := List.filter (well_sized k n) ps in
  Forall (vec n) X -> Forall (codes_for X n) good ->
  (spanning k (map coding_vector good) /\
     engine_decode m (Z.of_nat k) n ps = (count_decode m, Ok (concat X))) \/
  (~ spanning k (map coding_vector good) /\
     exists r, 0 <= r < Z.of_nat k /\
     engine_decode m (Z.of_nat k) n ps = (m, Err (InsufficientPieces r (Z.of_nat k)))).
Proof.
  intros k good HX Hgood. unfold engine_decode.
  destruct (feed_prefix k n (consistent X n) (decoder_new (Z.of_nat k) n) ps) as (pre & post & Heq & -> & Hor).
  - by apply consistent_subspace.
  - apply decoder_new_inv.
  - apply list.Forall_forall. intros p Hp Hw. apply codes_for_consistent; [done|].
    apply (proj1 (list.Forall_forall _ _) Hgood). apply list_elem_of_In, filter_In.
    by split; [apply list_elem_of_In|].
  - assert (Forall (codes_for X n) (List.filter (well_sized k n) pre)) as Hpre.
    { unfold good in Hgood. rewrite Heq in Hgood. by eapply filter_app_Forall. }
    pose proof (add_pieces_codes X n HX _ Hpre) as Hinv. pose proof (decoder_spanning X n _ HX Hpre) as Hsp.
    fold k in Hinv, Hsp.
    assert (spanning k (map coding_vector (List.filter (well_sized k n) pre)) <->
            spanning k (map coding_vector good)) as Heqs.
    { unfold good. rewrite Heq, List.filter_app, map_app. split.
      - intros Hs v Hv. apply in_span_app; [|by apply Hs]. rewrite <- map_app, <- List.filter_app, <- Heq.
        apply Forall_fmap. eapply Forall_mono; [|exact Hgood]. by intros p [? _].
      - intros Hs. destruct Hor as [-> | Hd]; [|by apply Hsp]. cbn in Hs. by rewrite app_nil_r in Hs. }
    rewrite <- Heqs, <- Hsp. set (d := add_pieces _ _) in *.
    destruct (is_decodable d) eqn:Hd; unfold is_decodable in Hd; bool_to_prop; [left|right]; (split; [done|]).
    + by rewrite (decode_full X n HX d Hinv Hd).
    + rewrite (decode_partial X n d Hinv Hd). exists (rank d). cbn [snd].
      pose proof (rank_le k n _ d Hinv). pose proof (inv_k _ _ _ _ Hinv). split; [lia|done].
Qed.

(** ** Pieces in circulation *)

Section EngineFacts.
Context `{BL : Blake3Laws}.

(** The pieces of a generation that nodes can hold: fresh ones from the encoder
    and anything recoded from pieces in circulation. *)
Inductive circulates (e : RlncEncoder) : CodedPiece -> Prop :=
| circ_encoded draws :
    length draws = length (original_pieces e) -> Forall draw_ok draws ->
    circulates e (encode_piece e draws)
| circ_recoded ps draws p :
    (forall q, q ∈ ps -> circulates e q) -> Forall draw_ok draws ->
    recode ps draws = Ok p -> circulates e p.

Lemma circulates_codes e p :
  Forall (vec (enc_piece_size e)) (original_pieces e) -> circulates e p ->
  codes_for (original_pieces e) (enc_piece_size e) p.
Proof.
  intros HX. induction 1 as [draws Hl Hd|ps draws p _ IH Hd Hr]; [by apply encode_piece_codes|].
  apply (recode_codes _ _ ps draws); try done. by apply list.Forall_forall.
Qed.

Lemma circulates_tagged e p :
  Forall (vec (enc_piece_size e)) (original_pieces e) -> circulates e p -> tagged p.
Proof.
  intros HX. induction 1 as [draws Hl Hd|ps draws p Hps IH Hd Hr]; [done|].
  apply (recode_tagged (length (original_pieces e)) (enc_piece_size e) ps draws); try done.
  - apply list.Forall_forall. intros q Hq. apply codes_vecs; [done|]. by apply circulates_codes, Hps.
  - by apply list.Forall_forall.
Qed.

Lemma circulates_piece_id e p : circulates e p -> verify_piece_id p = true.
Proof.
  intros [draws _ _|ps draws q _ _ Hr]; [by apply bool_decide_eq_true|].
  by eapply recode_piece_id.
Qed.

Lemma padding_small data k e :
  0 < k -> encoder_new data k = Ok e ->
  (length data <= Z.to_nat k * enc_piece_size e <= length data + Z.to_nat k)%nat.
Proof.
  intros Hk. unfold encoder_new. destruct (k =? 0) eqn:E; bool_to_prop; [lia|]. intros [= <-].
  cbn [enc_piece_size]. destruct (length data =? 0)%nat eqn:El; bool_to_prop; [lia|].
  pose proof (div_ceil_enough (length data) (Z.to_nat k) ltac:(lia)).
  pose proof (div_ceil_tight (length data) (Z.to_nat k) ltac:(lia)). lia.
Qed.

(** ** Contract *)

(** C1: Whatever mix of circulating and mis-shaped pieces arrives, decoding returns
    the encoded data and its zero padding exactly when the coding vectors of the
    well-shaped pieces span, and reports [InsufficientPieces] otherwise; it never
    fails in another way.  The padding is at most [k] bytes. *)
Theorem rlnc_roundtrip data k e m ps :
  0 < k < 2 ^ 32 -> bytes data -> encoder_new data k = Ok e ->
  Forall (fun p => well_sized (Z.to_nat k) (enc_piece_size e) p = true -> circulates e p) ps ->
  let good := List.filter (well_sized (Z.to_nat k) (enc_piece_size e)) ps in
  let pad := (Z.to_nat k * enc_piece_size e - length data)%nat in
  (pad <= Z.to_nat k)%nat /\
  ((spanning (Z.to_nat k) (map coding_vector good) /\
      engine_decode m k (enc_piece_size e) ps = (count_decode m, Ok (data ++ zeros pad))) \/
   (~ spanning (Z.to_nat k) (map coding_vector good) /\
      exists r, 0 <= r < k /\
      engine_decode m k (enc_piece_size e) ps = (m, Err (InsufficientPieces r k)))).
Proof.
  intros Hk Hd He Hps good pad.
  destruct (encoder_new_pieces data k ltac:(lia) Hd) as (e' & He' & _ & _ & _ & Hlen & HX & Hconcat).
  assert (e' = e) as -> by congruence.
  pose proof (padding_small data k e ltac:(lia) He). split; [lia|].
  pose proof (engine_decode_spec (original_pieces e) (enc_piece_size e) m ps) as Hspec.
  cbn zeta in Hspec. rewrite Hlen, Z2Nat.id, Hconcat in Hspec by lia. apply Hspec; [done|].
  apply list.Forall_forall. intros p [Hin Hw]%list_elem_of_In%filter_In.
  apply circulates_codes; [done|]. apply (proj1 (list.Forall_forall _ _) Hps); [|done].
  by apply list_elem_of_In.
Qed.

(** C30: Every piece in circulation passes both self-checks a receiver runs. *)
Theorem circulating_pieces_verify data k e p :
  0 < k < 2 ^ 32 -> bytes data -> encoder_new data k = Ok e -> circulates e p ->
  verify_mac p = true /\ verify_piece_id p = true.
Proof.
  intros Hk Hd He Hp.
  destruct (encoder_new_pieces data k ltac:(lia) Hd) as (e' & He' & _ & _ & _ & _ & HX & _).
  assert (e' = e) as -> by congruence. split.
  - by apply tagged_verifies, (circulates_tagged e).
  - by apply (circulates_piece_id e).
Qed.

(** [encode] fails only for [k = 0]; otherwise it emits [target_n k] pieces in
    circulation and counts one operation and the input bytes. *)
Theorem engine_encode_ok m data k rng :
  0 <= k < 2 ^ 32 -> bytes data ->
  (forall i, length (rng i) = Z.to_nat k /\ Forall draw_ok (rng i)) ->
  if k =? 0 then engine_encode m data k rng = (m, Err (InsufficientPieces 0 1))
  else exists e ps, encoder_new data k = Ok e /\
    engine_encode m data k rng = (count_encode (length data) m, Ok ps) /\
    length ps = Z.to_nat (target_n k) /\ Forall (circulates e) ps.
Proof.
  intros Hk Hd Hrng. destruct (k =? 0) eqn:E; bool_to_prop; [by subst|].
  destruct (encoder_new_pieces data k ltac:(lia) Hd) as (e & He & Hek & _ & _ & Hlen & HX & _).
  unfold engine_encode. rewrite He. eexists e, _. split_and!; [done|done| |].
  - unfold encode_n, target_pieces. by rewrite !length_map, length_seq, Hek.
  - apply Forall_fmap, Forall_fmap, list.Forall_forall. intros i _.
    destruct (Hrng i). constructor; [congruence|done].
Qed.

(** ** Concurrency limit *)

Definition engine_inv (s : EngineState) : Prop :=
  (permits s + length (in_flight s) = MAX_CONCURRENCY)%nat /\
  (encodes (metrics s) + decodes (metrics s) + recodes (metrics s)) `mod` 2 ^ 64
  = Z.of_nat (completed s) `mod` 2 ^ 64.

Lemma run_op_count m op m' ok :
  run_op m op = (m', ok) ->
  (encodes m' + decodes m' + recodes m') `mod` 2 ^ 64
  = (encodes m + decodes m + recodes m + (if ok then 1 else 0)) `mod` 2 ^ 64.
Proof.
  assert (forall a b, (wrap 64 (a + 1) + b) `mod` 2 ^ 64 = (a + b + 1) `mod` 2 ^ 64) as Hw.
  { intros a b. unfold wrap. rewrite Zplus_mod_idemp_l. f_equal. lia. }
  destruct op; cbn [run_op]; unfold engine_encode, engine_decode, engine_recode; intros [= <- <-];
    repeat case_match; cbn; rewrite ?Z.add_0_r; try done.
  - apply (Hw (encodes m) (decodes m + recodes m)) || (rewrite <- !Z.add_assoc; rewrite Hw; f_equal; lia).
  - rewrite (Z.add_comm (encodes m)), <- Z.add_assoc, Hw. f_equal. lia.
  - rewrite Z.add_comm, Hw. f_equal. lia.
Qed.

(** At most eight operations run at once, and the success counters add up to the
    successful operations whatever the order in which they finish. *)
Theorem engine_concurrency s :
  rtc engine_step engine_new s ->
  (length (in_flight s) <= MAX_CONCURRENCY)%nat /\
  (encodes (metrics s) + decodes (metrics s) + recodes (metrics s)) `mod` 2 ^ 64
  = Z.of_nat (completed s) `mod` 2 ^ 64.
Proof.
  intros Hs. enough (engine_inv s) as [? ?] by (split; [lia|done]).
  assert (engine_inv engine_new) as H0 by done. revert H0.
  induction Hs as [s|s s' s'' Hstep _ IH]; [done|]. intros [Hp Hm]. apply IH. clear IH.
  destruct Hstep as [s op Hpos|s l1 op l2 m ok Hf Hrun]; split; cbn [permits in_flight metrics completed length]; try done.
  - lia.
  - rewrite Hf, length_app in Hp. cbn in Hp. rewrite length_app. lia.
  - apply run_op_count in Hrun. rewrite Hrun, <- Zplus_mod_idemp_l, Hm, Zplus_mod_idemp_l.
    f_equal. destruct ok; lia.
Qed.

End EngineFacts.

(** ** Concrete runs *)

Definition demo_data : list Z := [72; 101; 108; 108; 111].

Definition demo_encoder : RlncEncoder :=
  match encoder_new demo_data 3 with Ok e => e | Err _ => mkEncoder 0 0 [] [] end.

Definition demo_pieces : list CodedPiece :=
  encode_n demo_encoder [[(1, 1); (2, 1); (3, 1)]; [(0, 7); (5, 1); (9, 1)]; [(1, 1); (0, 1); (4, 1)]].

(** Two encoded pieces, a piece recoded from them, a third encoded piece and a
    mis-shaped one. *)
Definition demo_recoded : CodedPiece :=
  match recode (take 2 demo_pieces) [(6, 1); (0, 200)] with Ok p => p | Err _ => mkPiece [] [] [] [] [] end.

Definition demo_input : list CodedPiece :=
  mkPiece [] [] [1] [] [] :: demo_recoded :: demo_pieces.

Lemma demo_encoded draws :
  length draws = 3%nat -> Forall draw_ok draws -> circulates demo_encoder (encode_piece demo_encoder draws).
Proof. intros. by constructor. Qed.

#[export] Instance draw_ok_dec d : Decision (draw_ok d).
Proof. unfold draw_ok. apply _. Defined.

Lemma demo_pieces_circulate p : p ∈ demo_pieces -> circulates demo_encoder p.
Proof.
  intros Hp. apply list_elem_of_fmap in Hp as (draws & -> & Hd).
  assert (Forall (fun ds => length ds = 3%nat /\ Forall draw_ok ds)
    [[(1, 1); (2, 1); (3, 1)]; [(0, 7); (5, 1); (9, 1)]; [(1, 1); (0, 1); (4, 1)]]) as Hall by by_compute.
  apply (proj1 (list.Forall_forall _ _) Hall) in Hd as [? ?]. by apply demo_encoded.
Qed.

Lemma demo_recoded_circulates : circulates demo_encoder demo_recoded.
Proof.
  apply (circ_recoded _ (take 2 demo_pieces) [(6, 1); (0, 200)]).
  - intros q Hq. apply demo_pieces_circulate. by eapply elem_of_take in Hq as (i & Hi & _); apply list_elem_of_lookup_2 in Hi.
  - by_compute.
  - vm_compute. reflexivity.
Qed.

Lemma rlnc_roundtrip_witness :
  engine_decode metrics_default 3 2 demo_input
  = (count_decode metrics_default, Ok (demo_data ++ [0])).
Proof.
  destruct (rlnc_roundtrip demo_data 3 demo_encoder metrics_default demo_input) as [_ [[_ H]|[_ (r & _ & H)]]].
  - lia.
  - by_compute.
  - vm_compute. reflexivity.
  - apply list.Forall_forall. intros p Hp Hw. apply elem_of_cons in Hp as [->|Hp]; [discriminate Hw|].
    apply elem_of_cons in Hp as [->|Hp]; [apply demo_recoded_circulates|by apply demo_pieces_circulate].
  - exact H.
  - vm_compute in H. discriminate H.
Defined.

Lemma circulating_pieces_verify_witness :
  verify_mac demo_recoded = true /\ verify_piece_id demo_recoded = true.
Proof.
  apply (circulating_pieces_verify demo_data 3 demo_encoder).
  - lia.
  - by_compute.
  - vm_compute. reflexivity.
  - apply demo_recoded_circulates.
Defined.

Lemma engine_encode_ok_witness :
  exists e ps, encoder_new demo_data 3 = Ok e /\
    engine_encode metrics_default demo_data 3 (fun _ => [(1, 1); (2, 1); (3, 1)])
    = (count_encode 5 metrics_default, Ok ps) /\
    length ps = Z.to_nat (target_n 3) /\ Forall (circulates e) ps.
Proof.
  apply (engine_encode_ok metrics_default demo_data 3 (fun _ => [(1, 1); (2, 1); (3, 1)])).
  - lia.
  - by_compute.
  - intros i. by_compute.
Defined.

Lemma engine_concurrency_witness :
  (length (in_flight (mkEngine 7 [OpRecode [] []] metrics_default 0)) <= MAX_CONCURRENCY)%nat.
Proof.
  apply (engine_concurrency (mkEngine 7 [OpRecode [] []] metrics_default 0)).
  apply rtc_once. apply (step_acquire engine_new (OpRecode [] [])). cbn. unfold MAX_CONCURRENCY. lia.
Defined.
