(* ===== verification/Hlc.v ===== *)
(** * Hybrid logical clock (crates/craftec-types/src/hlc.rs)

    The 64-bit timestamp [48-bit wall ms | 16-bit logical] and the lock-free
    clock on it.  Threads run the compare-and-swap loops of [now] and [observe]
    interleaved in any order, with spurious failures of the weak exchange and
    arbitrary readings of the wall clock; the theorems show that timestamps are
    strictly increasing in the order in which they are issued and dominate every
    remote timestamp observed before. *)
From Stdlib Require Import ZArith Lia.
From stdpp Require Import base list numbers relations functions.
From S2P Require Import Prelude.

Local Open Scope Z_scope.

Definition MAX_SKEW_MS : Z := 500.
Definition REPLAY_WINDOW_MS : Z := 30000.
Definition U16_MAX : Z := 65535.

Definition pack (wall_ms logical : Z) : Z := Z.lor (wrap 64 (Z.shiftl wall_ms 16)) logical.

Definition unpack (ts : Z) : Z * Z := (Z.shiftr ts 16, Z.land ts 65535).

Inductive HlcError : Type :=
| ClockSkew (local_ms remote_ms skew_ms : Z)
| ReplayDetected (local_ms remote_ms delta_ms : Z).

(** [new]: the state seeded from a wall-clock reading. *)
Definition hlc_new (wall : Z) : Z := pack wall 0.

(** One round of [now]'s loop: the value it tries to swap in for [old]. *)
Definition now_next (old current_wall : Z) : Z :=
  let '(old_wall, old_logical) := unpack old in
  if current_wall >? old_wall then pack current_wall 0
  else if old_logical =? U16_MAX then pack (wrap 64 (old_wall + 1)) 0
  else pack old_wall (wrap 16 (old_logical + 1)).

Definition abs_diff (a b : Z) : Z := if a <? b then b - a else a - b.

(** The two rejections at the start of [observe]. *)
Definition observe_check (remote_ts current_wall : Z) : result unit HlcError :=
  let '(remote_wall, remote_logical) := unpack remote_ts in
  if remote_wall >? wrap 64 (current_wall + MAX_SKEW_MS) then
    Err (ClockSkew current_wall remote_wall (wrap 64 (remote_wall - current_wall)))
  else
    let delta := abs_diff remote_wall current_wall in
    if delta >? REPLAY_WINDOW_MS then Err (ReplayDetected current_wall remote_wall delta)
    else Ok tt.

Definition saturating_add16 (a b : Z) : Z := Z.min U16_MAX (a + b).

(** One round of [observe]'s loop. *)
Definition observe_next (old remote_ts current_wall : Z) : Z :=
  let '(remote_wall, remote_logical) := unpack remote_ts in
  let '(old_wall, old_logical) := unpack old in
  if (current_wall >? old_wall) && (current_wall >? remote_wall) then pack current_wall 0
  else if old_wall >? remote_wall then pack old_wall (saturating_add16 old_logical 1)
  else if remote_wall >? old_wall then pack remote_wall (saturating_add16 remote_logical 1)
  else
    let max_logical := Z.max old_logical remote_logical in
    if max_logical =? U16_MAX then pack (wrap 64 (old_wall + 1)) 0
    else pack old_wall (wrap 16 (max_logical + 1)).

#[global] Arguments now_next : simpl never.
#[global] Arguments observe_next : simpl never.

(** [observe] as it runs when no other thread interferes. *)
Definition observe (state remote_ts current_wall : Z) : Z * result unit HlcError :=
  match observe_check remote_ts current_wall with
  | Err e => (state, Err e)
  | Ok _ => (observe_next state remote_ts current_wall, Ok tt)
  end.

Definition is_within_replay_window (ts current : Z) : bool :=
  let '(ts_wall, _) := unpack ts in abs_diff ts_wall current <=? REPLAY_WINDOW_MS.

(** ** Interleaved execution *)

(** Where a thread stands: outside the clock, about to load the state, or about
    to compare-and-swap the [old] value it loaded for [new_ts]. *)
Inductive hlc_pc : Type :=
| Idle
| NowLoop
| NowCas (old new_ts : Z)
| ObserveLoop (remote_ts current_wall : Z)
| ObserveCas (remote_ts current_wall old new_ts : Z).

(** What the clock has done, latest first. *)
Inductive hlc_event : Type :=
| Issued (ts : Z)
| Observed (remote_ts : Z).

Definition event_ts (e : hlc_event) : Z := match e with Issued ts => ts | Observed ts => ts end.

Record HlcSystem : Type := mkHlc {
  state : Z;
  threads : nat -> hlc_pc;
  history : list hlc_event;
}.

Definition set_pc (s : HlcSystem) (t : nat) (pc : hlc_pc) : HlcSystem :=
  mkHlc (state s) (<[t := pc]> (threads s)) (history s).

(** Steps of any thread, with wall-clock readings of at most [W]. *)
Inductive hlc_step (W : Z) : HlcSystem -> HlcSystem -> Prop :=
| now_call s t :
    threads s t = Idle -> hlc_step W s (set_pc s t NowLoop)
| now_load s t wall :
    threads s t = NowLoop -> 0 <= wall <= W ->
    hlc_step W s (set_pc s t (NowCas (state s) (now_next (state s) wall)))
| now_cas_ok s t old new_ts :
    threads s t = NowCas old new_ts -> state s = old ->
    hlc_step W s (mkHlc new_ts (<[t := Idle]> (threads s)) (Issued new_ts :: history s))
| now_cas_fail s t old new_ts :
    threads s t = NowCas old new_ts -> hlc_step W s (set_pc s t NowLoop)
| observe_call s t remote wall :
    threads s t = Idle -> fits 64 remote -> 0 <= wall <= W ->
    observe_check remote wall = Ok tt ->
    hlc_step W s (set_pc s t (ObserveLoop remote wall))
| observe_reject s t remote wall e :
    threads s t = Idle -> fits 64 remote -> 0 <= wall <= W ->
    observe_check remote wall = Err e -> hlc_step W s s
| observe_load s t remote wall :
    threads s t = ObserveLoop remote wall ->
    hlc_step W s (set_pc s t (ObserveCas remote wall (state s) (observe_next (state s) remote wall)))
| observe_cas_ok s t remote wall old new_ts :
    threads s t = ObserveCas remote wall old new_ts -> state s = old ->
    hlc_step W s (mkHlc new_ts (<[t := Idle]> (threads s)) (Observed remote :: history s))
| observe_cas_fail s t remote wall old new_ts :
    threads s t = ObserveCas remote wall old new_ts ->
    hlc_step W s (set_pc s t (ObserveLoop remote wall)).

Definition hlc_init (wall : Z) : HlcSystem := mkHlc (hlc_new wall) (fun _ => Idle) [].

(** ** Timestamps as numbers *)

Lemma pack_val w l : 0 <= w < 2 ^ 48 -> 0 <= l < 65536 -> pack w l = w * 65536 + l.
Proof.
  intros Hw Hl. unfold pack. rewrite Z.shiftl_mul_pow2 by lia. change (2 ^ 16) with 65536.
  rewrite wrap_id by (unfold fits; lia). symmetry. rewrite Z.add_nocarry_lxor, Z.lxor_lor; [done| |].
  all: apply Z.bits_inj_0; intros i; rewrite Z.land_spec; destruct (Z.ltb_spec i 16).
  all: try (change 65536 with (2 ^ 16); rewrite Z.mul_pow2_bits_low by lia; done).
  all: destruct (Z.le_gt_cases 0 i); [|rewrite !Z.testbit_neg_r by lia; done].
  all: rewrite (Z.bits_above_log2 l), andb_false_r; [done|lia|].
  all: destruct (Z.eq_dec l 0) as [->|]; [cbn; lia|]; assert (Z.log2 l < 16) by (apply Z.log2_lt_pow2; lia); lia.
Qed.

(** Any timestamp is a u64, whatever the wall clock shows. *)
Lemma pack_fits w l : fits 16 l -> fits 64 (pack w l).
Proof.
  intros Hl. assert (pack w l = pack (w `mod` 2 ^ 48) l) as ->.
  { unfold pack, wrap. f_equal. rewrite !Z.shiftl_mul_pow2 by lia. change (2 ^ 64) with (2 ^ 48 * 2 ^ 16).
    rewrite !Z.mul_mod_distr_r by lia. by rewrite Z.mod_mod by lia. }
  pose proof (Z.mod_pos_bound w (2 ^ 48) ltac:(lia)). unfold fits in *. rewrite pack_val by lia. lia.
Qed.

Lemma now_next_u64 old w : fits 64 (now_next old w).
Proof. unfold now_next. destruct (unpack old). repeat case_match; apply pack_fits; [unfold fits; lia..|apply wrap_fits; lia]. Qed.

Lemma unpack_val ts : unpack ts = (ts / 65536, ts `mod` 65536).
Proof.
  unfold unpack. rewrite Z.shiftr_div_pow2 by lia. change 65535 with (Z.ones 16).
  by rewrite Z.land_ones by lia.
Qed.

Lemma unpack_bounds ts : fits 64 ts -> 0 <= ts / 65536 < 2 ^ 48 /\ 0 <= ts `mod` 65536 < 65536 /\
  ts = ts / 65536 * 65536 + ts `mod` 65536.
Proof.
  unfold fits. intros Hts. pose proof (Z.mod_pos_bound ts 65536 ltac:(lia)).
  pose proof (Z.div_mod ts 65536 ltac:(lia)). split_and!; lia.
Qed.

(** The next timestamp is the wall clock's, or the successor of the last one. *)
Lemma now_next_val old w :
  fits 64 old -> old < 2 ^ 64 - 1 -> 0 <= w < 2 ^ 48 ->
  now_next old w = if w >? old / 65536 then w * 65536 else old + 1.
Proof.
  intros Ho Hm Hw. destruct (unpack_bounds old Ho) as (Hb & Hl & Heq). unfold now_next, U16_MAX. rewrite unpack_val.
  destruct (w >? _); [rewrite pack_val; lia|].
  destruct (_ =? 65535) eqn:E; bool_to_prop.
  - rewrite wrap_id by (unfold fits; lia). rewrite pack_val by lia. lia.
  - rewrite wrap_id by (unfold fits; lia). rewrite pack_val by lia. lia.
Qed.

Lemma now_next_gt old w :
  fits 64 old -> old < 2 ^ 64 - 1 -> 0 <= w < 2 ^ 48 ->
  old < now_next old w /\ (now_next old w <= w * 65536 \/ now_next old w = old + 1).
Proof.
  intros Ho Hm Hw. rewrite now_next_val by done. destruct (unpack_bounds old Ho) as (Hb & Hl & Heq).
  destruct (Z.gtb_spec w (old / 65536)); lia.
Qed.

(** [observe] moves the clock up to the local, remote and wall clocks; it stays
    put only when the leading logical counter is saturated. *)
Lemma observe_next_ge old r w :
  fits 64 old -> fits 64 r -> Z.max old r < 2 ^ 64 - 1 -> 0 <= w < 2 ^ 48 ->
  old <= observe_next old r w /\ r <= observe_next old r w /\
  (observe_next old r w <= w * 65536 \/ observe_next old r w <= Z.max old r + 1) /\
  ((Z.max old r) `mod` 65536 <> U16_MAX -> Z.max old r < observe_next old r w).
Proof.
  intros Ho Hr Hm Hw. destruct (unpack_bounds old Ho) as (Hb & Hl & Heq).
  destruct (unpack_bounds r Hr) as (Hb' & Hl' & Heq'). unfold observe_next, saturating_add16, U16_MAX.
  rewrite !unpack_val.
  set (ow := old / 65536) in *. set (ol := old `mod` 65536) in *.
  set (rw := r / 65536) in *. set (rl := r `mod` 65536) in *.
  assert ((Z.max old r) `mod` 65536 = if ow >? rw then ol else if rw >? ow then rl else Z.max ol rl) as ->.
  { destruct (Z.gtb_spec ow rw); [rewrite Z.max_l by lia; done|].
    destruct (Z.gtb_spec rw ow); [rewrite Z.max_r by lia; done|].
    destruct (Z.le_gt_cases ol rl); [rewrite !Z.max_r by lia|rewrite !Z.max_l by lia]; done. }
  destruct (Z.gtb_spec w ow), (Z.gtb_spec w rw); cbn [andb];
    destruct (Z.gtb_spec ow rw), (Z.gtb_spec rw ow); try lia;
    try (destruct (Z.max ol rl =? 65535) eqn:E; bool_to_prop);
    rewrite ?wrap_id by (unfold fits; lia); rewrite ?pack_val by lia; split_and!; try lia.
Qed.

(** ** Invariant of the interleaved executions *)

(** Each issued timestamp exceeds everything issued or observed before it. *)
Definition causal (h : list hlc_event) : Prop :=
  forall l1 ts l2, h = l1 ++ Issued ts :: l2 -> Forall (fun e => event_ts e < ts) l2.

Section Interleaving.
Context (W : Z) (HW : 0 <= W).

(** A remote timestamp [observe] let through. *)
Definition accepted (remote wall : Z) : Prop :=
  fits 64 remote /\ 0 <= wall <= W /\ remote < (W + 501) * 65536.

Definition pc_ok (pc : hlc_pc) : Prop :=
  match pc with
  | Idle | NowLoop => True
  | NowCas old new_ts => exists wall, 0 <= wall <= W /\ new_ts = now_next old wall
  | ObserveLoop remote wall => accepted remote wall
  | ObserveCas remote wall old new_ts => accepted remote wall /\ new_ts = observe_next old remote wall
  end.

Record hlc_inv (n : Z) (s : HlcSystem) : Prop := {
  hi_state : 0 <= state s < (W + 501) * 65536 + n;
  hi_history : Forall (fun e => event_ts e <= state s) (history s);
  hi_causal : causal (history s);
  hi_pcs t : pc_ok (threads s t);
}.

Lemma check_accepted remote wall :
  W < 2 ^ 48 -> fits 64 remote -> 0 <= wall <= W -> observe_check remote wall = Ok tt -> accepted remote wall.
Proof.
  intros HW' Hr Hw. unfold observe_check, MAX_SKEW_MS. rewrite unpack_val.
  destruct (unpack_bounds remote Hr) as (Hb & Hl & Heq).
  rewrite wrap_id by (unfold fits; lia).
  destruct (Z.gtb_spec (remote / 65536) (wall + 500)); [done|]. intros _. split_and!; try done; lia.
Qed.

Lemma hlc_inv_pc n s t pc : hlc_inv n s -> pc_ok pc -> hlc_inv (n + 1) (set_pc s t pc).
Proof.
  intros [Hs Hh Hc Hp] Hpc. split; cbn; try done; [lia|]. intros t'.
  destruct (decide (t = t')) as [->|Hne]; [by rewrite fn_lookup_insert|by rewrite fn_lookup_insert_ne].
Qed.

Lemma causal_cons e h :
  causal h -> (forall ts, e = Issued ts -> Forall (fun e => event_ts e < ts) h) -> causal (e :: h).
Proof.
  intros Hc He [|e' l1] ts l2 Heq; cbn in Heq; inversion Heq; subst; [by apply He|by apply (Hc l1)].
Qed.

(** A successful swap to [new_ts >= state] recording [e]. *)
Lemma hlc_inv_swap n s t new_ts e :
  hlc_inv n s -> state s <= new_ts -> new_ts < (W + 501) * 65536 + n + 1 -> event_ts e <= new_ts ->
  (forall ts, e = Issued ts -> state s < ts) ->
  hlc_inv (n + 1) (mkHlc new_ts (<[t := Idle]> (threads s)) (e :: history s)).
Proof.
  intros [Hs Hh Hc Hp] Hge Hlt He Hi. split; cbn.
  - lia.
  - constructor; [done|]. eapply Forall_mono; [|exact Hh]. cbn. lia.
  - apply causal_cons; [done|]. intros ts Hts. eapply Forall_mono; [|exact Hh]. cbn.
    specialize (Hi ts Hts). lia.
  - intros t'. destruct (decide (t = t')) as [->|Hne]; [by rewrite fn_lookup_insert|by rewrite fn_lookup_insert_ne].
Qed.

Lemma hlc_step_inv n s s' :
  (W + 501) * 65536 + n < 2 ^ 64 -> 0 <= n -> hlc_step W s s' -> hlc_inv n s -> hlc_inv (n + 1) s'.
Proof.
  intros Hn Hn0 Hstep Hi. pose proof (hi_state n s Hi) as Hs.
  assert (fits 64 (state s)) as Hfit by (unfold fits; lia).
  destruct Hstep as [s t Ht|s t w Ht Hw|s t old nw Ht Ho|s t old nw Ht|s t r w Ht Hr Hw Hc|s t r w e Ht Hr Hw Hc
    |s t r w Ht|s t r w old nw Ht Ho|s t r w old nw Ht];
    try (pose proof (hi_pcs n s Hi t) as Hpc; rewrite Ht in Hpc; cbn in Hpc).
  - by apply hlc_inv_pc.
  - apply hlc_inv_pc; [done|]. by exists w.
  - destruct Hpc as (w & Hw & ->). subst old.
    destruct (now_next_gt (state s) w Hfit ltac:(lia) ltac:(lia)) as [? [?|?]];
      apply hlc_inv_swap; cbn [event_ts]; try done; try lia; by intros ? [= <-].
  - by apply hlc_inv_pc.
  - apply hlc_inv_pc; [done|]. apply check_accepted; try done. lia.
  - destruct Hi as [? ? ? ?]. split; try done. lia.
  - by apply hlc_inv_pc.
  - destruct Hpc as [(Hr & Hw & Hlt) ->]. subst old.
    destruct (observe_next_ge (state s) r w Hfit Hr ltac:(lia) ltac:(lia)) as (? & ? & [?|?] & _);
      apply hlc_inv_swap; cbn [event_ts]; try done; lia.
  - destruct Hpc as [? _]. by apply hlc_inv_pc.
Qed.

Lemma hlc_init_inv w0 : W < 2 ^ 48 -> 0 <= w0 <= W -> hlc_inv 0 (hlc_init w0).
Proof.
  intros HW' Hw. split; cbn; try done.
  - unfold hlc_new. rewrite pack_val by lia. lia.
  - intros [|? ?] ? ? ?; discriminate.
Qed.

Lemma hlc_reachable_inv n m s0 s :
  (W + 501) * 65536 + m + Z.of_nat n < 2 ^ 64 -> 0 <= m -> hlc_inv m s0 -> nsteps (hlc_step W) n s0 s ->
  hlc_inv (m + Z.of_nat n) s.
Proof.
  intros Hn Hm Hi Hs. revert m Hn Hm Hi. induction Hs as [s|n s s' s'' Hst _ IH]; intros m Hn Hm Hi.
  - by rewrite Z.add_0_r.
  - replace (m + Z.of_nat (S n)) with (m + 1 + Z.of_nat n) by lia. apply IH; [lia|lia|].
    apply hlc_step_inv with s; [lia|lia|done|done].
Qed.

End Interleaving.

(** ** Properties *)

(** C31: However threads interleave, fail spuriously and read the wall clock, each
    timestamp [now] returns exceeds every timestamp issued and every remote
    timestamp observed before it, as long as the 64 bits are not used up: [n]
    steps with readings of at most [W] ms need [(W + 501) * 2^16 + n <= 2^64 - 1]. *)
Theorem hlc_strictly_increasing W n w0 s :
  0 <= w0 <= W -> (W + 501) * 65536 + Z.of_nat n < 2 ^ 64 ->
  nsteps (hlc_step W) n (hlc_init w0) s ->
  forall l1 ts l2, history s = l1 ++ Issued ts :: l2 -> Forall (fun e => event_ts e < ts) l2.
Proof.
  intros Hw Hn Hs. apply (hi_causal W (0 + Z.of_nat n) s).
  apply (hlc_reachable_inv W n 0 (hlc_init w0)); try done; try lia. apply hlc_init_inv; lia.
Qed.

(** [observe] accepts a remote timestamp exactly when its wall clock is at most
    500 ms ahead and at most 30 s behind, otherwise it leaves the clock alone and
    reports which bound failed; an accepted one leaves the clock at or above the
    local and the remote timestamp, strictly above unless the logical counter of
    the larger one is saturated. *)
Theorem observe_spec state remote wall :
  fits 64 state -> fits 64 remote -> Z.max state remote < 2 ^ 64 - 1 -> 0 <= wall < 2 ^ 48 ->
  let rw := remote / 65536 in
  match observe state remote wall with
  | (state', Ok _) => rw <= wall + 500 /\ wall - 30000 <= rw /\
      state <= state' /\ remote <= state' /\
      ((Z.max state remote) `mod` 65536 <> 65535 -> Z.max state remote < state')
  | (state', Err (ClockSkew l r skew)) =>
      state' = state /\ l = wall /\ r = rw /\ skew = rw - wall /\ wall + 500 < rw
  | (state', Err (ReplayDetected l r delta)) =>
      state' = state /\ l = wall /\ r = rw /\ delta = wall - rw /\ rw < wall - 30000
  end.
Proof.
  intros Hs Hr Hm Hw. cbn zeta. destruct (unpack_bounds remote Hr) as (Hb & Hl & Heq).
  unfold observe, observe_check, abs_diff, MAX_SKEW_MS, REPLAY_WINDOW_MS. rewrite unpack_val.
  rewrite (wrap_id 64 (wall + 500)) by (unfold fits; lia).
  destruct (Z.gtb_spec (remote / 65536) (wall + 500)).
  { rewrite wrap_id by (unfold fits; lia). split_and!; lia. }
  destruct (observe_next_ge state remote wall Hs Hr Hm Hw) as (? & ? & _ & ?).
  destruct (Z.ltb_spec (remote / 65536) wall).
  - destruct (Z.gtb_spec (wall - remote / 65536) 30000); split_and!; (done || lia).
  - destruct (Z.gtb_spec (remote / 65536 - wall) 30000); split_and!; (done || lia).
Qed.

(** The packed layout loses nothing, and orders timestamps by wall clock first. *)
Theorem hlc_pack_order w l w' l' :
  0 <= w < 2 ^ 48 -> fits 16 l -> 0 <= w' < 2 ^ 48 -> fits 16 l' ->
  unpack (pack w l) = (w, l) /\ fits 64 (pack w l) /\
  (pack w l < pack w' l' <-> w < w' \/ w = w' /\ l < l').
Proof.
  unfold fits. intros Hw Hl Hw' Hl'. rewrite !pack_val, unpack_val by lia.
  rewrite Z.div_add_l, Z.div_small, Z.add_0_r, (Z.add_comm (w * 65536)), Z.mod_add, Z.mod_small by lia.
  split_and!; [done|lia|lia|lia].
Qed.

(** An observation at a saturated logical counter does not advance the clock. *)
Theorem observe_saturated_keeps_clock :
  observe (pack 1000 3) (pack 1001 65535) 1000 = (pack 1001 65535, Ok tt) /\
  observe (pack 1001 65535) (pack 1000 0) 1000 = (pack 1001 65535, Ok tt).
Proof. by vm_compute. Qed.

Definition demo_hlc_load : HlcSystem :=
  set_pc (set_pc (hlc_init 7) 1 NowLoop) 1 (NowCas (hlc_new 7) (now_next (hlc_new 7) 7)).

Definition demo_hlc : HlcSystem :=
  mkHlc (now_next (hlc_new 7) 7) (<[1%nat := Idle]> (threads demo_hlc_load)) [Issued (now_next (hlc_new 7) 7)].

Lemma hlc_strictly_increasing_witness :
  nsteps (hlc_step 7) 3 (hlc_init 7) demo_hlc /\
  forall l1 ts l2, history demo_hlc = l1 ++ Issued ts :: l2 -> Forall (fun e => event_ts e < ts) l2.
Proof.
  assert (nsteps (hlc_step 7) 3 (hlc_init 7) demo_hlc) as Hs.
  { eapply nsteps_l; [apply (now_call 7 _ 1); reflexivity|].
    eapply nsteps_l; [apply (now_load 7 _ 1 7); [reflexivity|lia]|].
    eapply nsteps_l; [|apply nsteps_O].
    by apply (now_cas_ok 7 demo_hlc_load 1 (hlc_new 7) (now_next (hlc_new 7) 7)). }
  split; [exact Hs|]. apply (hlc_strictly_increasing 7 3 7 demo_hlc); [lia|lia|exact Hs].
Defined.

Lemma observe_spec_witness :
  match observe (pack 10 0) (pack 12 4) 10 with
  | (s, Ok _) => pack 12 4 <= s
  | _ => False
  end.
Proof.
  destruct (observe_spec (pack 10 0) (pack 12 4) 10) as (_ & _ & _ & H & _);
    [split; vm_compute; congruence|split; vm_compute; congruence|vm_compute; reflexivity|lia|].
  exact H.
Defined.

Lemma hlc_pack_order_witness : unpack (pack 5 6) = (5, 6).
Proof. apply (hlc_pack_order 5 6 5 7); unfold fits; lia. Defined.
