(* ===== verification/Wire.v ===== *)
(** * Wire protocol (crates/craftec-types/src/wire.rs)

    Messages, RPC requests and responses, and their length-prefixed frames.
    [postcard] is a parameter: a partial encoder and decoder per message type with
    the law that decoding an encoding gives the value back.  The theorems show
    that frames round-trip, that every truncation of a frame is rejected and that
    the three kinds of frames on a shared transport are told apart. *)
From Stdlib Require Import ZArith Lia.
From stdpp Require Import base list list_numbers numbers strings.
From S2P Require Import Prelude Types Instances F64.

Local Open Scope Z_scope.

(** ** Data *)

(** A [NodeId] is its 32 key bytes, a [Signature] its 64 bytes. *)
Abbreviation NodeId := (list Z) (only parsing).
Abbreviation Signature := (list Z) (only parsing).

Definition TYPE_TAG_RPC_REQUEST : Z := 512.
Definition TYPE_TAG_RPC_RESPONSE : Z := 513.

Inductive RpcRequest : Type :=
| ReqStatus
| ReqStorePut (data : list Z)
| ReqStoreGet (c : Cid)
| ReqStoreList
| ReqSqlQuery (sql : string)
| ReqSqlExecute (sql : string) (writer : NodeId) (signature : Signature)
| ReqPeers
| ReqPieceInfo (c : Cid).

Inductive RpcValue : Type :=
| RpcNull
| RpcInteger (i : Z)
| RpcReal (x : f64)
| RpcText (s : string)
| RpcBlob (b : list Z).

Inductive RpcResponse : Type :=
| RespStatus (node_id : NodeId) (alive_peers store_objects : nat) (db_root_cid : Cid) (uptime_secs : Z)
| RespStorePut (c : Cid)
| RespStoreGet (data : option (list Z))
| RespStoreList (cids : list Cid)
| RespSqlQuery (rows : list (list RpcValue))
| RespSqlExecute (root_cid : Cid)
| RespPeers (peers : list NodeId) (count : nat)
| RespPieceInfo (c : Cid) (available : Z) (k : option Z) (holders : list NodeId)
| RespError (code : Z) (message : string).

Inductive WireMessage : Type :=
| Ping (nonce : Z)
| Pong (nonce : Z)
| PieceRequest (c : Cid) (piece_indices : list Z) (request_id : Z)
| PieceResponse (pieces : list CodedPiece) (request_id : Z)
| ProviderAnnounce (c : Cid) (node_id : NodeId)
| SignedWriteMsg (payload : list Z) (signature : Signature) (writer : NodeId) (cas_version : Z)
| SwimJoin (node_id : NodeId) (listen_port : Z)
| SwimAlive (node_id : NodeId) (incarnation : Z)
| SwimSuspect (node_id : NodeId) (incarnation : Z) (from : NodeId)
| SwimDead (node_id : NodeId) (incarnation : Z) (from : NodeId)
| HealthReportMsg (c : Cid) (available_pieces target_pieces : Z)
| SwimPing (from : NodeId) (nonce : Z) (piggyback : list WireMessage)
| SwimPingAck (from : NodeId) (nonce : Z) (incarnation : Z).

Definition WIRE_VERSION : Z := 1.
Definition FRAME_HEADER_SIZE : nat := 17.
Definition FRAME_HEADER_V0_SIZE : nat := 9.

Definition is_swim (m : WireMessage) : bool :=
  match m with
  | SwimJoin _ _ | SwimAlive _ _ | SwimSuspect _ _ _ | SwimDead _ _ _
  | SwimPing _ _ _ | SwimPingAck _ _ _ => true
  | _ => false
  end.

Definition type_name (m : WireMessage) : string :=
  match m with
  | Ping _ => "Ping"
  | Pong _ => "Pong"
  | PieceRequest _ _ _ => "PieceRequest"
  | PieceResponse _ _ => "PieceResponse"
  | ProviderAnnounce _ _ => "ProviderAnnounce"
  | SignedWriteMsg _ _ _ _ => "SignedWrite"
  | SwimJoin _ _ => "SwimJoin"
  | SwimAlive _ _ => "SwimAlive"
  | SwimSuspect _ _ _ => "SwimSuspect"
  | SwimDead _ _ _ => "SwimDead"
  | HealthReportMsg _ _ _ => "HealthReport"
  | SwimPing _ _ _ => "SwimPing"
  | SwimPingAck _ _ _ => "SwimPingAck"
  end.

Definition type_tag (m : WireMessage) : Z :=
  match m with
  | Ping _ => 1
  | Pong _ => 2
  | PieceRequest _ _ _ => 16
  | PieceResponse _ _ => 17
  | ProviderAnnounce _ _ => 32
  | SignedWriteMsg _ _ _ _ => 48
  | SwimJoin _ _ => 256
  | SwimAlive _ _ => 257
  | SwimSuspect _ _ _ => 258
  | SwimDead _ _ _ => 259
  | SwimPing _ _ _ => 260
  | SwimPingAck _ _ _ => 261
  | HealthReportMsg _ _ _ => 64
  end.

(** ** External code *)

(** [postcard::to_allocvec] and [postcard::from_bytes] at a type; [None] is the
    crate's error. *)
Class Postcard (A : Type) : Type := {
  to_allocvec : A -> option (list Z);
  from_bytes : list Z -> option A;
}.

Class PostcardLaws (A : Type) `{Postcard A} : Prop := {
  from_to_bytes m b : to_allocvec m = Some b -> from_bytes b = Some m;
  to_allocvec_bytes m b : to_allocvec m = Some b -> bytes b;
}.

(** ** Encoding

    Error values carry the fixed part of the source's messages. *)

Section Codec.
Context `{PM : Postcard WireMessage} `{PQ : Postcard RpcRequest} `{PR : Postcard RpcResponse}.

Definition encode (m : WireMessage) : result (list Z) CraftecError :=
  match to_allocvec m with
  | Some b => Ok b
  | None => Err (SerializationError "postcard encode error")
  end.

Definition decode_msg (data : list Z) : result WireMessage CraftecError :=
  match from_bytes data with
  | Some m => Ok m
  | None => Err (SerializationError "postcard decode error")
  end.

(** [type_tag:4 | version:1 | hlc_ts:8 | payload_len:4 | payload] *)
Definition frame_v1 (tag hlc_ts : Z) (payload : list Z) : list Z :=
  to_be_bytes 4 tag ++ [WIRE_VERSION] ++ to_be_bytes 8 hlc_ts
  ++ to_be_bytes 4 (wrap 32 (Z.of_nat (length payload))) ++ payload.

Definition encode_framed_with_hlc (m : WireMessage) (hlc_ts : Z) : result (list Z) CraftecError :=
  match to_allocvec m with
  | None => Err (SerializationError "postcard encode error")
  | Some payload => Ok (frame_v1 (type_tag m) hlc_ts payload)
  end.

Definition encode_framed (m : WireMessage) : result (list Z) CraftecError :=
  encode_framed_with_hlc m 0.

Definition encode_rpc_request (req : RpcRequest) (hlc_ts : Z) : result (list Z) CraftecError :=
  match to_allocvec req with
  | None => Err (SerializationError "postcard encode error")
  | Some payload => Ok (frame_v1 TYPE_TAG_RPC_REQUEST hlc_ts payload)
  end.

Definition encode_rpc_response (resp : RpcResponse) (hlc_ts : Z) : result (list Z) CraftecError :=
  match to_allocvec resp with
  | None => Err (SerializationError "postcard encode error")
  | Some payload => Ok (frame_v1 TYPE_TAG_RPC_RESPONSE hlc_ts payload)
  end.

(** ** Decoding *)

(** [data[4]] *)
Definition version_byte (data : list Z) : Z := default 0 (data !! 4%nat).

Definition decode_framed_with_hlc (data : list Z) : result (WireMessage * Z) CraftecError :=
  if (length data <? FRAME_HEADER_V0_SIZE)%nat then Err (SerializationError "frame too short")
  else
    let version := version_byte data in
    if version =? 0 then
      let payload_len := Z.to_nat (from_be_bytes (slice data 5 9)) in
      if (length data <? FRAME_HEADER_V0_SIZE + payload_len)%nat then
        Err (SerializationError "v0 frame truncated")
      else match from_bytes (slice data FRAME_HEADER_V0_SIZE (FRAME_HEADER_V0_SIZE + payload_len)) with
           | None => Err (SerializationError "postcard decode error")
           | Some msg => Ok (msg, 0)
           end
    else if version =? 1 then
      if (length data <? FRAME_HEADER_SIZE)%nat then Err (SerializationError "v1 frame too short")
      else
        let hlc_ts := from_be_bytes (slice data 5 13) in
        let payload_len := Z.to_nat (from_be_bytes (slice data 13 17)) in
        if (length data <? FRAME_HEADER_SIZE + payload_len)%nat then
          Err (SerializationError "v1 frame truncated")
        else match from_bytes (slice data FRAME_HEADER_SIZE (FRAME_HEADER_SIZE + payload_len)) with
             | None => Err (SerializationError "postcard decode error")
             | Some msg => Ok (msg, hlc_ts)
             end
    else Err (SerializationError "unsupported wire version").

Definition decode_framed (data : list Z) : result WireMessage CraftecError :=
  match decode_framed_with_hlc data with
  | Ok (msg, _ts) => Ok msg
  | Err e => Err e
  end.

(** The common body of [decode_rpc_request] and [decode_rpc_response]. *)
Definition decode_rpc {A} `{Postcard A} (expected_tag : Z) (data : list Z) : result (A * Z) CraftecError :=
  if (length data <? FRAME_HEADER_SIZE)%nat then Err (SerializationError "RPC frame too short")
  else
    let type_tag := from_be_bytes (slice data 0 4) in
    if negb (type_tag =? expected_tag) then Err (SerializationError "unexpected RPC type tag")
    else
      let version := version_byte data in
      if negb (version =? WIRE_VERSION) then Err (SerializationError "unsupported wire version")
      else
        let hlc_ts := from_be_bytes (slice data 5 13) in
        let payload_len := Z.to_nat (from_be_bytes (slice data 13 17)) in
        if (length data <? FRAME_HEADER_SIZE + payload_len)%nat then
          Err (SerializationError "RPC frame truncated")
        else match from_bytes (slice data FRAME_HEADER_SIZE (FRAME_HEADER_SIZE + payload_len)) with
             | None => Err (SerializationError "postcard decode error")
             | Some req => Ok (req, hlc_ts)
             end.

Definition decode_rpc_request (data : list Z) : result (RpcRequest * Z) CraftecError :=
  decode_rpc TYPE_TAG_RPC_REQUEST data.

Definition decode_rpc_response (data : list Z) : result (RpcResponse * Z) CraftecError :=
  decode_rpc TYPE_TAG_RPC_RESPONSE data.

End Codec.

(** ** Frames *)

(** A v1 header with declared payload length [len]. *)
Definition header_v1 (tag ts len : Z) : list Z :=
  to_be_bytes 4 tag ++ [WIRE_VERSION] ++ to_be_bytes 8 ts ++ to_be_bytes 4 len.

Lemma length_header tag ts len : length (header_v1 tag ts len) = 17%nat.
Proof. unfold header_v1. by rewrite !length_app, !length_to_be_bytes. Qed.

Lemma frame_header tag ts p :
  frame_v1 tag ts p = header_v1 tag ts (wrap 32 (Z.of_nat (length p))) ++ p.
Proof. unfold frame_v1, header_v1. by rewrite <- !app_assoc. Qed.

Lemma length_frame_v1 tag ts p : length (frame_v1 tag ts p) = (17 + length p)%nat.
Proof. by rewrite frame_header, length_app, length_header. Qed.

Section Header.
Context (tag ts len : Z) (rest : list Z).
Abbreviation f := (header_v1 tag ts len ++ rest).

Lemma header_tag : fits 32 tag -> from_be_bytes (slice f 0 4) = tag.
Proof.
  intros Ht. unfold header_v1, slice. rewrite drop_0, <- app_assoc.
  rewrite take_app_length' by (by rewrite length_to_be_bytes).
  by rewrite from_to_be_bytes, wrap_id.
Qed.

Lemma header_version : version_byte f = WIRE_VERSION.
Proof.
  unfold version_byte, header_v1. rewrite <- app_assoc.
  rewrite lookup_app_r; rewrite length_to_be_bytes; [done|lia].
Qed.

Lemma header_hlc : fits 64 ts -> from_be_bytes (slice f 5 13) = ts.
Proof.
  intros Ht. unfold header_v1.
  replace (_ ++ rest) with ((to_be_bytes 4 tag ++ [WIRE_VERSION]) ++ to_be_bytes 8 ts ++
    (to_be_bytes 4 len ++ rest)) by (by rewrite <- !app_assoc).
  rewrite slice_app_at; rewrite ?length_app, ?length_to_be_bytes; try done.
  by rewrite from_to_be_bytes, wrap_id.
Qed.

Lemma header_len : fits 32 len -> from_be_bytes (slice f 13 17) = len.
Proof.
  intros Hl. unfold header_v1.
  replace (_ ++ rest) with ((to_be_bytes 4 tag ++ [WIRE_VERSION] ++ to_be_bytes 8 ts) ++
    to_be_bytes 4 len ++ rest) by (by rewrite <- !app_assoc).
  rewrite slice_app_at; rewrite ?length_app, ?length_to_be_bytes; try done.
  by rewrite from_to_be_bytes, wrap_id.
Qed.

Lemma header_payload n : slice f 17 (17 + n) = take n rest.
Proof.
  unfold slice. rewrite drop_app_length' by (by rewrite length_header). f_equal. lia.
Qed.

End Header.

(** ** What each decoder does on a frame *)

Section Decoders.
Context `{PML : PostcardLaws WireMessage} `{PQL : PostcardLaws RpcRequest} `{PRL : PostcardLaws RpcResponse}.
Context (tag ts len : Z) (rest : list Z).
Context (Ht : fits 32 tag) (Hts : fits 64 ts) (Hlen : fits 32 len).
Abbreviation f := (header_v1 tag ts len ++ rest).

(** The message decoder looks at everything but the tag. *)
Lemma decode_framed_header :
  decode_framed_with_hlc f =
  if (length rest <? Z.to_nat len)%nat then Err (SerializationError "v1 frame truncated")
  else match from_bytes (take (Z.to_nat len) rest) with
       | None => Err (SerializationError "postcard decode error")
       | Some msg => Ok (msg, ts)
       end.
Proof.
  unfold decode_framed_with_hlc, FRAME_HEADER_V0_SIZE, FRAME_HEADER_SIZE.
  rewrite header_version, header_hlc, header_len, header_payload, length_app, length_header by done.
  change (WIRE_VERSION =? 0) with false. change (WIRE_VERSION =? 1) with true. cbn [Nat.add Nat.ltb Nat.leb].
  done.
Qed.

Lemma decode_rpc_header {A} `{Postcard A} expected :
  decode_rpc (A := A) expected f =
  if negb (tag =? expected) then Err (SerializationError "unexpected RPC type tag")
  else if (length rest <? Z.to_nat len)%nat then Err (SerializationError "RPC frame truncated")
  else match from_bytes (take (Z.to_nat len) rest) with
       | None => Err (SerializationError "postcard decode error")
       | Some req => Ok (req, ts)
       end.
Proof.
  unfold decode_rpc, FRAME_HEADER_SIZE.
  rewrite header_version, header_tag, header_hlc, header_len, header_payload, length_app, length_header by done.
  rewrite Z.eqb_refl. cbn [Nat.add Nat.ltb Nat.leb negb]. done.
Qed.

End Decoders.

Lemma type_tag_fits m : fits 32 (type_tag m).
Proof. unfold fits. destruct m; cbn; lia. Qed.

Lemma take_frame n tag ts p :
  (17 <= n)%nat ->
  take n (frame_v1 tag ts p) = header_v1 tag ts (wrap 32 (Z.of_nat (length p))) ++ take (n - 17) p.
Proof.
  intros Hn. rewrite frame_header, take_app, length_header. f_equal.
  apply take_ge. rewrite length_header. lia.
Qed.

(** A prefix shorter than a header keeps the version byte once it has nine bytes. *)
Lemma version_prefix n tag ts p :
  (9 <= n)%nat -> version_byte (take n (frame_v1 tag ts p)) = WIRE_VERSION.
Proof.
  intros Hn. rewrite <- (header_version tag ts (wrap 32 (Z.of_nat (length p))) p), <- frame_header.
  unfold version_byte. by rewrite lookup_take_lt by lia.
Qed.

Section Properties.
Context `{PML : PostcardLaws WireMessage} `{PQL : PostcardLaws RpcRequest} `{PRL : PostcardLaws RpcResponse}.

(** Decoding undoes framing, also with other bytes following in the buffer. *)
Lemma decode_encode_framed m ts f extra :
  fits 64 ts -> encode_framed_with_hlc m ts = Ok f -> Z.of_nat (length f) <= 2 ^ 32 ->
  decode_framed_with_hlc (f ++ extra) = Ok (m, ts).
Proof.
  intros Hts. unfold encode_framed_with_hlc. destruct (to_allocvec m) as [p|] eqn:E; [|done].
  intros [= <-] Hl. rewrite length_frame_v1 in Hl.
  assert (fits 32 (Z.of_nat (length p))) as Hp by (unfold fits; lia).
  rewrite frame_header, wrap_id, <- app_assoc by done.
  rewrite decode_framed_header by (done || apply type_tag_fits).
  rewrite length_app, Nat2Z.id, take_app_length. destruct (Nat.ltb_spec (length p + length extra) (length p)); [lia|].
  by rewrite (from_to_bytes m p).
Qed.

(** C35: A framed message decodes to the same message and timestamp, also with other
    bytes following it in the buffer. *)
Theorem framed_roundtrip m ts f extra :
  fits 64 ts -> encode_framed_with_hlc m ts = Ok f -> Z.of_nat (length f) <= 2 ^ 32 ->
  decode_framed_with_hlc (f ++ extra) = Ok (m, ts).
Proof. apply decode_encode_framed. Qed.

(** C36: Every strict prefix of a frame is rejected: a reader that gets part of a frame
    never takes it for a message. *)
Theorem truncated_frame_rejected m ts f n :
  fits 64 ts -> encode_framed_with_hlc m ts = Ok f -> Z.of_nat (length f) <= 2 ^ 32 ->
  (n < length f)%nat -> exists e, decode_framed_with_hlc (take n f) = Err (SerializationError e).
Proof.
  intros Hts. unfold encode_framed_with_hlc. destruct (to_allocvec m) as [p|] eqn:E; [|done].
  intros [= <-] Hl Hn. rewrite length_frame_v1 in Hl, Hn.
  assert (fits 32 (Z.of_nat (length p))) as Hp by (unfold fits; lia).
  destruct (Nat.le_gt_cases 17 n) as [Hn17|Hn17].
  - rewrite take_frame, wrap_id by done. rewrite decode_framed_header by (done || apply type_tag_fits).
    rewrite length_take, Nat2Z.id.
    destruct (Nat.ltb_spec (Nat.min (n - 17) (length p)) (length p)); [eauto|lia].
  - unfold decode_framed_with_hlc. rewrite length_take, length_frame_v1, Nat.min_l by lia.
    destruct (Nat.ltb_spec n FRAME_HEADER_V0_SIZE); [eauto|].
    rewrite version_prefix by done. cbn [Z.eqb WIRE_VERSION Pos.eqb].
    destruct (Nat.ltb_spec n FRAME_HEADER_SIZE); [eauto|]. unfold FRAME_HEADER_SIZE in *. lia.
Qed.

Lemma decode_encode_request req ts f :
  fits 64 ts -> encode_rpc_request req ts = Ok f -> Z.of_nat (length f) <= 2 ^ 32 -> decode_rpc_request f = Ok (req, ts).
Proof.
  intros Hts. unfold encode_rpc_request. destruct (to_allocvec req) as [p|] eqn:E; [|done]. intros [= <-] Hl.
  rewrite length_frame_v1 in Hl. assert (fits 32 (Z.of_nat (length p))) as Hp by (unfold fits; lia).
  unfold decode_rpc_request. rewrite frame_header, wrap_id by done.
  rewrite decode_rpc_header by (try done; unfold fits, TYPE_TAG_RPC_REQUEST; lia).
  by rewrite Nat2Z.id, Nat.ltb_irrefl, firstn_all, (from_to_bytes req p).
Qed.

Lemma decode_encode_response resp ts f :
  fits 64 ts -> encode_rpc_response resp ts = Ok f -> Z.of_nat (length f) <= 2 ^ 32 -> decode_rpc_response f = Ok (resp, ts).
Proof.
  intros Hts. unfold encode_rpc_response. destruct (to_allocvec resp) as [p|] eqn:E; [|done]. intros [= <-] Hl.
  rewrite length_frame_v1 in Hl. assert (fits 32 (Z.of_nat (length p))) as Hp by (unfold fits; lia).
  unfold decode_rpc_response. rewrite frame_header, wrap_id by done.
  rewrite decode_rpc_header by (try done; unfold fits, TYPE_TAG_RPC_RESPONSE; lia).
  by rewrite Nat2Z.id, Nat.ltb_irrefl, firstn_all, (from_to_bytes resp p).
Qed.

(** RPC frames round-trip. *)
Theorem rpc_roundtrip req resp ts fq fr :
  fits 64 ts ->
  encode_rpc_request req ts = Ok fq -> Z.of_nat (length fq) <= 2 ^ 32 ->
  encode_rpc_response resp ts = Ok fr -> Z.of_nat (length fr) <= 2 ^ 32 ->
  decode_rpc_request fq = Ok (req, ts) /\ decode_rpc_response fr = Ok (resp, ts).
Proof. intros. split; [by apply decode_encode_request|by apply decode_encode_response]. Qed.

(** Kinds of frames are told apart: the RPC decoders reject each other's frames
    and every message frame, whatever the payload. *)
Theorem frame_kinds_separated m req resp ts fm fq fr :
  fits 64 ts ->
  encode_framed_with_hlc m ts = Ok fm ->
  encode_rpc_request req ts = Ok fq -> encode_rpc_response resp ts = Ok fr ->
  is_ok (decode_rpc_request fm) = false /\ is_ok (decode_rpc_response fm) = false /\
  is_ok (decode_rpc_request fr) = false /\ is_ok (decode_rpc_response fq) = false.
Proof.
  intros Hts. unfold encode_framed_with_hlc, encode_rpc_request, encode_rpc_response.
  destruct (to_allocvec m) as [pm|] eqn:Em; [|done]. destruct (to_allocvec req) as [p|] eqn:E; [|done].
  destruct (to_allocvec resp) as [q|] eqn:E'; [|done]. intros [= <-] [= <-] [= <-].
  unfold decode_rpc_request, decode_rpc_response. rewrite !frame_header.
  rewrite !decode_rpc_header by (try apply wrap_fits; try done; try apply type_tag_fits; try lia;
    unfold fits, TYPE_TAG_RPC_REQUEST, TYPE_TAG_RPC_RESPONSE; lia).
  split_and!; try done; by destruct m.
Qed.

(** The message decoder never compares the tag with the payload: any 32-bit tag
    in front of a valid payload is accepted. *)
Theorem decode_framed_ignores_tag m ts p tag :
  fits 64 ts -> fits 32 tag -> to_allocvec m = Some p -> fits 32 (Z.of_nat (length p)) ->
  decode_framed_with_hlc (frame_v1 tag ts p) = Ok (m, ts).
Proof.
  intros Hts Ht Hm Hl. rewrite frame_header, wrap_id by done. rewrite decode_framed_header by done.
  by rewrite Nat2Z.id, Nat.ltb_irrefl, firstn_all, (from_to_bytes m p).
Qed.

End Properties.

(** Tags identify the message variant. *)
Theorem type_tag_injective m m' : type_tag m = type_tag m' <-> type_name m = type_name m'.
Proof. split; destruct m, m'; cbn; congruence. Qed.

(** ** A concrete codec *)

(** Enough of an encoding to run the frames on: small pings, status requests and
    empty errors; other values are refused. *)
#[export] Instance demo_postcard_msg : Postcard WireMessage := {|
  to_allocvec m := match m with
    | Ping n => if is_byteb n then Some [0; n] else None
    | Pong n => if is_byteb n then Some [1; n] else None
    | _ => None end;
  from_bytes b := match b with 0 :: n :: _ => Some (Ping n) | 1 :: n :: _ => Some (Pong n) | _ => None end |}.

#[export] Instance demo_postcard_req : Postcard RpcRequest := {|
  to_allocvec r := match r with ReqStatus => Some [0] | ReqPeers => Some [6] | _ => None end;
  from_bytes b := match b with 0 :: _ => Some ReqStatus | 6 :: _ => Some ReqPeers | _ => None end |}.

#[export] Instance demo_postcard_resp : Postcard RpcResponse := {|
  to_allocvec r := match r with RespStoreGet None => Some [2; 0] | _ => None end;
  from_bytes b := match b with 2 :: 0 :: _ => Some (RespStoreGet None) | _ => None end |}.

Lemma pair_bytes a b : is_byte a -> is_byte b -> bytes [a; b].
Proof. intros. apply Forall_cons; split; [done|]. apply Forall_cons; split; [done|]. apply Forall_nil_2. Qed.

#[export] Instance demo_postcard_msg_laws : PostcardLaws WireMessage.
Proof.
  split; intros m b; destruct m; cbn; try done; destruct (is_byteb _) eqn:E; try done; intros [= <-]; try done;
    apply is_byteb_spec in E; apply pair_bytes; try done; unfold is_byte; lia.
Qed.

#[export] Instance demo_postcard_req_laws : PostcardLaws RpcRequest.
Proof.
  split; intros m b; destruct m; cbn; try done; intros [= <-]; try done; by_compute.
Qed.

#[export] Instance demo_postcard_resp_laws : PostcardLaws RpcResponse.
Proof.
  split; intros m b; destruct m as [| |[d|]| | | | | |]; cbn; try done; intros [= <-]; try done;
    by_compute.
Qed.

Lemma framed_roundtrip_witness :
  decode_framed_with_hlc (frame_v1 1 77 [0; 9] ++ [1; 2; 3]) = Ok (Ping 9, 77).
Proof. apply framed_roundtrip; [unfold fits; lia|reflexivity|vm_compute; congruence]. Defined.

Lemma truncated_frame_rejected_witness :
  exists e, decode_framed_with_hlc (take 18 (frame_v1 1 77 [0; 9])) = Err (SerializationError e).
Proof.
  apply (truncated_frame_rejected (Ping 9) 77 (frame_v1 1 77 [0; 9]));
    [unfold fits; lia|reflexivity|vm_compute; congruence|vm_compute; lia].
Defined.

Lemma rpc_roundtrip_witness : decode_rpc_request (frame_v1 512 5 [0]) = Ok (ReqStatus, 5).
Proof.
  apply (rpc_roundtrip ReqStatus (RespStoreGet None) 5 (frame_v1 512 5 [0]) (frame_v1 513 5 [2; 0]));
    try reflexivity; [unfold fits; lia|vm_compute; congruence|vm_compute; congruence].
Defined.

Lemma frame_kinds_separated_witness : is_ok (decode_rpc_request (frame_v1 1 5 [0; 9])) = false.
Proof.
  apply (frame_kinds_separated (Ping 9) ReqStatus (RespStoreGet None) 5 (frame_v1 1 5 [0; 9])
    (frame_v1 512 5 [0]) (frame_v1 513 5 [2; 0])); try reflexivity. unfold fits; lia.
Defined.

Lemma decode_framed_ignores_tag_witness :
  decode_framed_with_hlc (frame_v1 513 5 [0; 9]) = Ok (Ping 9, 5).
Proof. apply decode_framed_ignores_tag; try reflexivity; unfold fits; cbn; lia. Defined.
