(* ===== verification/Events.v ===== *)
(** * Event bus (crates/craftec-types/src/event.rs, crates/craftec-node/src/event_bus.rs)

    tokio's broadcast channel is a parameter, given by what each receiver has still
    to read: a bounded queue that drops its oldest entries when it overflows and
    reports how many it dropped. *)
From Stdlib Require Import ZArith Lia.
From stdpp Require Import base list list_numbers numbers gmap.
From S2P Require Import Prelude Types F64 Wire.

Local Open Scope Z_scope.

Definition CID_WRITTEN_CAP : nat := 256.
Definition PAGE_COMMITTED_CAP : nat := 256.
Definition PEER_EVENT_CAP : nat := 256.
Definition REPAIR_NEEDED_CAP : nat := 256.
Definition DISK_WATERMARK_CAP : nat := 64.
Definition SHUTDOWN_CAP : nat := 8.

Inductive Event : Type :=
| EvCidWritten (c : Cid)
| EvPageCommitted (db_id : Cid) (page_num : Z) (root_cid : Cid)
| EvPeerConnected (node_id : NodeId)
| EvPeerDisconnected (node_id : NodeId)
| EvRepairNeeded (c : Cid) (available target : Z)
| EvDiskWatermarkHit (usage_percent : f64)
| EvShutdownSignal.

(** ** [tokio::sync::broadcast] *)

(** What [recv] answers at once; [RecvPending] when it would wait. *)
Inductive recv_result (A : Type) : Type :=
| RecvOk (a : A)
| RecvLagged (n : nat)
| RecvClosed
| RecvPending.
Arguments RecvOk {A} a.
Arguments RecvLagged {A} n.
Arguments RecvClosed {A}.
Arguments RecvPending {A}.

Class Broadcast (A : Type) : Type := {
  chan : Type;
  chan_new : nat -> chan;
  chan_capacity : chan -> nat;
  chan_view : chan -> nat -> option (nat * list A);
  chan_send : A -> chan -> chan;
  chan_subscribe : chan -> chan * nat;
  chan_recv : nat -> chan -> chan * recv_result A;
  chan_receivers : chan -> nat;
}.

(** A receiver's state after a send: the entries it missed and those it will get. *)
Definition push {A} (cap : nat) (a : A) (v : nat * list A) : nat * list A :=
  if (length v.2 <? cap)%nat then (v.1, v.2 ++ [a]) else (S v.1, tail v.2 ++ [a]).

(** What [recv] takes from a receiver's state. *)
Definition pop {A} (v : nat * list A) : (nat * list A) * recv_result A :=
  match v with
  | (O, []) => (v, RecvPending)
  | (O, a :: l) => ((O, l), RecvOk a)
  | (lost, l) => ((O, l), RecvLagged lost)
  end.

Class BroadcastLaws (A : Type) `{Broadcast A} : Prop := {
  view_new n rx : chan_view (chan_new n) rx = None;
  capacity_new n : (n <= chan_capacity (chan_new n))%nat;
  view_send a c rx : chan_view (chan_send a c) rx = push (chan_capacity c) a <$> chan_view c rx;
  capacity_send a c : chan_capacity (chan_send a c) = chan_capacity c;
  view_subscribe c : chan_view (chan_subscribe c).1 (chan_subscribe c).2 = Some (O, []);
  view_subscribe_ne c rx : rx <> (chan_subscribe c).2 -> chan_view (chan_subscribe c).1 rx = chan_view c rx;
  capacity_subscribe c : chan_capacity (chan_subscribe c).1 = chan_capacity c;
  recv_pop c rx v : chan_view c rx = Some v ->
    chan_view (chan_recv rx c).1 rx = Some (pop v).1 /\ (chan_recv rx c).2 = (pop v).2;
  capacity_recv c rx : chan_capacity (chan_recv rx c).1 = chan_capacity c;
}.

(** ** The bus *)

Section Bus.
Context {E : Type} `{BC : Broadcast E}.

Definition bus_new (capacity : nat) : chan := chan_new capacity.
(** The result of [send] only chooses the log line. *)
Definition publish (bus : chan) (ev : E) : chan := chan_send ev bus.
Definition subscribe (bus : chan) : chan * nat := chan_subscribe bus.
Definition receiver_count (bus : chan) : nat := chan_receivers bus.

Definition publish_all (bus : chan) (evs : list E) : chan := foldl publish bus evs.

End Bus.

Section BusFacts.
Context {E : Type} `{BL : BroadcastLaws E}.

Lemma publish_all_capacity bus evs : chan_capacity (publish_all bus evs) = chan_capacity bus.
Proof.
  revert bus. induction evs as [|e evs IH]; intros bus; [done|].
  change (publish_all bus (e :: evs)) with (publish_all (publish bus e) evs). rewrite IH. apply capacity_send.
Qed.

Lemma push_all cap (evs : list E) v :
  (length v.2 <= cap)%nat -> (0 < cap)%nat ->
  foldl (fun v e => push cap e v) v evs =
  ((v.1 + (length (v.2 ++ evs) - cap))%nat, drop (length (v.2 ++ evs) - cap) (v.2 ++ evs)).
Proof.
  intros Hl Hc. revert v Hl. induction evs as [|e evs IH]; intros [lost l] Hl; cbn [foldl fst snd] in *.
  { rewrite app_nil_r. replace (length l - cap)%nat with 0%nat by lia. by rewrite Nat.add_0_r, drop_0. }
  unfold push. cbn [fst snd]. destruct (Nat.ltb_spec (length l) cap).
  - rewrite IH by (cbn; rewrite length_app; cbn; lia). cbn [fst snd]. by rewrite <- app_assoc.
  - destruct l as [|x l]; cbn [length tail] in *; [lia|]. rewrite IH by (cbn; rewrite length_app; cbn; lia). cbn [fst snd].
    rewrite <- app_assoc. cbn [app]. rewrite !length_app. cbn [length]. rewrite !length_app. cbn [length].
    replace (S (length l + S (length evs)) - cap)%nat with (S (length l + S (length evs) - cap)) by lia.
    f_equal. lia.
Qed.

Lemma publish_all_view bus evs rx v :
  chan_view bus rx = Some v -> chan_view (publish_all bus evs) rx = Some (foldl (fun v e => push (chan_capacity bus) e v) v evs).
Proof.
  revert bus v. induction evs as [|e evs IH]; intros bus v Hv; [done|].
  change (publish_all bus (e :: evs)) with (publish_all (publish bus e) evs). cbn [foldl]. rewrite (IH (publish bus e) (push (chan_capacity bus) e v)).
  - unfold publish. by rewrite capacity_send.
  - unfold publish. by rewrite view_send, Hv.
Qed.

(** A subscriber gets every event published after it subscribed, in order, as long
    as no more than the capacity are waiting; when there are more it is told how
    many were lost and gets the most recent ones. *)
Theorem bus_delivery cap evs :
  (0 < cap)%nat ->
  let '(bus, rx) := subscribe (bus_new cap) in
  let n := (length evs - chan_capacity bus)%nat in
  (cap <= chan_capacity bus)%nat /\ chan_view (publish_all bus evs) rx = Some (n, drop n evs) /\
  (n = 0%nat -> forall e rest, evs = e :: rest ->
     (chan_recv rx (publish_all bus evs)).2 = RecvOk e /\
     chan_view (chan_recv rx (publish_all bus evs)).1 rx = Some (0%nat, rest)) /\
  (n <> 0%nat -> (chan_recv rx (publish_all bus evs)).2 = RecvLagged n).
Proof.
  intros Hc. destruct (subscribe (bus_new cap)) as [bus rx] eqn:Es. cbn zeta.
  assert (chan_view bus rx = Some (0%nat, [])) as Hv.
  { unfold subscribe in Es. pose proof (view_subscribe (bus_new cap)) as Hv. by rewrite Es in Hv. }
  assert (cap <= chan_capacity bus)%nat as Hcap.
  { pose proof (capacity_subscribe (bus_new cap)) as Hs. unfold subscribe in Es. rewrite Es in Hs. cbn in Hs. rewrite Hs. apply capacity_new. }
  pose proof (publish_all_view bus evs rx _ Hv) as Hp. rewrite push_all in Hp by (cbn; lia). cbn [fst snd app Nat.add] in Hp.
  destruct (recv_pop _ rx _ Hp) as [H1 H2]. split_and!; [done|done| |].
  - intros Hn e rest ->. rewrite Hn in *. by rewrite H1, H2.
  - intros Hn. rewrite H2. by destruct (length evs - chan_capacity bus)%nat.
Qed.

End BusFacts.

(** ** A channel with a table of receivers *)

Section ListBroadcast.
Context {E : Type}.

Record queue_chan : Type := mkChan { qc_cap : nat; qc_rx : list (nat * list E) }.

#[export] Instance queue_broadcast : Broadcast E := {|
  chan := queue_chan;
  chan_new n := mkChan n [];
  chan_capacity := qc_cap;
  chan_view c rx := qc_rx c !! rx;
  chan_send a c := mkChan (qc_cap c) (map (push (qc_cap c) a) (qc_rx c));
  chan_subscribe c := (mkChan (qc_cap c) (qc_rx c ++ [(O, [])]), length (qc_rx c));
  chan_recv rx c :=
    match qc_rx c !! rx with
    | Some v => (mkChan (qc_cap c) (<[rx := (pop v).1]> (qc_rx c)), (pop v).2)
    | None => (c, RecvClosed)
    end;
  chan_receivers c := length (qc_rx c);
|}.

#[export] Instance queue_broadcast_laws : BroadcastLaws E.
Proof.
  split; cbn.
  - done.
  - lia.
  - intros a c rx. apply list_lookup_fmap.
  - done.
  - intros c. apply list_lookup_middle. done.
  - intros c rx Hrx. destruct (decide (rx < length (qc_rx c))%nat); [by apply lookup_app_l|].
    rewrite (lookup_ge_None_2 (qc_rx c ++ _)), (lookup_ge_None_2 (qc_rx c)); [done|lia|rewrite length_app; cbn; lia].
  - done.
  - intros c rx v Hv. rewrite Hv. cbn. split; [|done]. apply list_lookup_insert_eq. by eapply lookup_lt_Some.
  - intros c rx. by destruct (qc_rx c !! rx).
Qed.

End ListBroadcast.
