(* ===== verification/ObjCache.v ===== *)
(** * Object cache (crates/craftec-obj/src/cache.rs)

    The cache in front of the object store, with the recency order of the [lru]
    crate: entries from the most to the least recently used. *)
From Stdlib Require Import ZArith Lia.
From stdpp Require Import base list list_numbers numbers gmap fin_sets.
From S2P Require Import Prelude Types Instances External.

Local Open Scope Z_scope.

(** ** The order of an [LruCache] *)

Section Order.
Context {K V : Type} `{EqDecision K}.

(** The documented behaviour of [get], [put], [pop] and [clear] on the entries. *)
Class LruOrder `{Lru K V} : Type := {
  lru_entries : lru -> list (K * V);
  lru_cap : lru -> nat;
  lru_clear : lru -> lru;
}.

Class LruOrderLaws `{LruOrder} : Prop := {
  entries_new n : lru_entries (lru_new n) = [];
  cap_new n : lru_cap (lru_new n) = n;
  peek_entries k c : lru_peek k c = alist_find k (lru_entries c);
  len_entries c : lru_len c = length (lru_entries c);
  get_entries k c :
    lru_entries (lru_get k c).2 =
      match alist_find k (lru_entries c) with
      | Some v => (k, v) :: alist_remove k (lru_entries c)
      | None => lru_entries c
      end /\ (lru_get k c).1 = alist_find k (lru_entries c) /\ lru_cap (lru_get k c).2 = lru_cap c;
  put_entries k v c :
    lru_entries (lru_put k v c) = (k, v) :: take (lru_cap c - 1) (alist_remove k (lru_entries c)) /\
    lru_cap (lru_put k v c) = lru_cap c;
  pop_entries k c :
    lru_entries (lru_pop k c).2 = alist_remove k (lru_entries c) /\ (lru_pop k c).1 = alist_find k (lru_entries c) /\
    lru_cap (lru_pop k c).2 = lru_cap c;
  clear_entries c : lru_entries (lru_clear c) = [] /\ lru_cap (lru_clear c) = lru_cap c;
}.

End Order.
Arguments LruOrder K V {_}.
Arguments LruOrderLaws K V {_ _ _}.

(** ** The cache *)

Section Cache.
Context `{LO : LruOrder Cid (list Z)}.

Record ObjectCache : Type := mkCache {
  oc_inner : lru (K := Cid) (V := list Z);
  oc_capacity : nat;
}.

Definition with_inner (c : ObjectCache) (l : lru) : ObjectCache := mkCache l (oc_capacity c).

(** [NonZeroUsize::new(capacity).expect(..)] *)
Definition cache_new (capacity : nat) : outcome ObjectCache :=
  if (capacity =? 0)%nat then Panicked else Returned (mkCache (lru_new capacity) capacity).
Definition cache_get (c : ObjectCache) (k : Cid) : ObjectCache * option (list Z) :=
  let '(r, l) := lru_get k (oc_inner c) in (with_inner c l, r).
Definition cache_peek (c : ObjectCache) (k : Cid) : option (list Z) := lru_peek k (oc_inner c).
Definition cache_put (c : ObjectCache) (k : Cid) (data : list Z) : ObjectCache := with_inner c (lru_put k data (oc_inner c)).
Definition cache_remove (c : ObjectCache) (k : Cid) : ObjectCache * option (list Z) :=
  let '(r, l) := lru_pop k (oc_inner c) in (with_inner c l, r).
Definition cache_len (c : ObjectCache) : nat := lru_len (oc_inner c).
Definition cache_is_empty (c : ObjectCache) : bool := (cache_len c =? 0)%nat.
Definition cache_capacity (c : ObjectCache) : nat := oc_capacity c.
Definition cache_contains (c : ObjectCache) (k : Cid) : bool := bool_decide (is_Some (lru_peek k (oc_inner c))).
Definition cache_clear (c : ObjectCache) : ObjectCache := with_inner c (lru_clear (oc_inner c)).

Inductive cache_op : Type :=
| CGet (k : Cid)
| CPut (k : Cid) (data : list Z)
| CRemove (k : Cid)
| CClear.

Definition cache_exec (c : ObjectCache) (op : cache_op) : ObjectCache :=
  match op with
  | CGet k => (cache_get c k).1
  | CPut k d => cache_put c k d
  | CRemove k => (cache_remove c k).1
  | CClear => cache_clear c
  end.

End Cache.

(** ** Association lists *)

Section Alist.
Context {V : Type}.
Implicit Types l : list (Cid * V).

Lemma alist_remove_ne k (l : list (Cid * V)) : k ∉ (alist_remove k l).*1.
Proof.
  unfold alist_remove. intros ((k', v) & -> & Hin)%list_elem_of_fmap. apply list_elem_of_In, filter_In in Hin as [_ Hf].
  cbn in Hf. by rewrite bool_decide_true in Hf.
Qed.

Lemma alist_remove_sub k (l : list (Cid * V)) x : x ∈ (alist_remove k l).*1 -> x ∈ l.*1.
Proof.
  intros ((k', v) & -> & Hin)%list_elem_of_fmap. apply list_elem_of_fmap. exists (k', v). split; [done|].
  apply list_elem_of_In. by apply list_elem_of_In, filter_In in Hin as [? _].
Qed.

Lemma alist_remove_nodup k (l : list (Cid * V)) : NoDup l.*1 -> NoDup (alist_remove k l).*1.
Proof.
  induction l as [|[k' v] l IH]; [done|]. cbn. intros [Hn Hd]%NoDup_cons. unfold alist_remove. cbn.
  destruct (negb _); [|by apply IH]. cbn. apply NoDup_cons. split; [|by apply IH]. intros Hin. by apply Hn, (alist_remove_sub k).
Qed.

Lemma alist_remove_length k (l : list (Cid * V)) : (length (alist_remove k l) <= length l)%nat.
Proof. unfold alist_remove. induction l as [|x l IH]; cbn; [done|]. destruct (negb _); cbn; lia. Qed.

Lemma alist_remove_app k (l l' : list (Cid * V)) : alist_remove k (l ++ l') = alist_remove k l ++ alist_remove k l'.
Proof. apply List.filter_app. Qed.

Lemma alist_remove_cons_ne k c v (l : list (Cid * V)) : c <> k -> alist_remove k ((c, v) :: l) = (c, v) :: alist_remove k l.
Proof. intros Hne. unfold alist_remove. cbn. by rewrite bool_decide_false. Qed.

Lemma alist_find_app c v (l l' : list (Cid * V)) : c ∉ l.*1 -> alist_find c (l ++ (c, v) :: l') = Some v.
Proof.
  induction l as [|[k w] l IH]; cbn; intros Hn.
  - unfold alist_find. cbn. by rewrite bool_decide_true.
  - apply not_elem_of_cons in Hn as [Hne Hn]. unfold alist_find in *. cbn. rewrite bool_decide_false by congruence. by apply IH.
Qed.

Lemma keys_remove_take k n (l : list (Cid * V)) x : x ∈ (take n (alist_remove k l)).*1 -> x ∈ l.*1.
Proof. rewrite fmap_take. intros Hx. apply elem_of_take in Hx as (i & Hi & _). by eapply alist_remove_sub, list_elem_of_lookup_2. Qed.

End Alist.

(** ** Retention *)

Section CacheFacts.
Context {LR : Lru Cid (list Z)} {LO : LruOrder Cid (list Z)} {LOL : LruOrderLaws Cid (list Z)}.

Local Abbreviation entries c := (lru_entries (oc_inner c)).

Record cache_inv (c : ObjectCache) : Prop := {
  ci_cap : lru_cap (oc_inner c) = oc_capacity c;
  ci_pos : (0 < oc_capacity c)%nat;
  ci_len : (length (entries c) <= oc_capacity c)%nat;
  ci_keys : NoDup (entries c).*1;
}.

(** The entries after each operation. *)
Definition entries_after (cap : nat) (l : list (Cid * list Z)) (op : cache_op) : list (Cid * list Z) :=
  match op with
  | CGet k => match alist_find k l with Some v => (k, v) :: alist_remove k l | None => l end
  | CPut k d => (k, d) :: take (cap - 1) (alist_remove k l)
  | CRemove k => alist_remove k l
  | CClear => []
  end.

Lemma exec_entries c op :
  lru_cap (oc_inner c) = oc_capacity c ->
  entries (cache_exec c op) = entries_after (oc_capacity c) (entries c) op /\
  lru_cap (oc_inner (cache_exec c op)) = oc_capacity c /\ oc_capacity (cache_exec c op) = oc_capacity c.
Proof.
  intros Hc. destruct op as [k|k d|k|]; cbn [cache_exec].
  - unfold cache_get. destruct (get_entries k (oc_inner c)) as (He & _ & Hcap). destruct (lru_get _ _) as [r l]. cbn in *. by rewrite Hcap.
  - destruct (put_entries k d (oc_inner c)) as [He Hcap]. cbn. by rewrite He, Hcap, Hc.
  - unfold cache_remove. destruct (pop_entries k (oc_inner c)) as (He & _ & Hcap). destruct (lru_pop _ _) as [r l]. cbn in *. by rewrite Hcap.
  - destruct (clear_entries (oc_inner c)) as [He Hcap]. cbn. by rewrite He, Hcap.
Qed.

Lemma find_remove_length (k : Cid) (l : list (Cid * list Z)) v : alist_find k l = Some v -> (length (alist_remove k l) < length l)%nat.
Proof.
  induction l as [|[k' w] l IH]; [done|]. rewrite alist_find_cons.
  assert (alist_remove k ((k', w) :: l) = if bool_decide (k' = k) then alist_remove k l else (k', w) :: alist_remove k l) as ->
    by (unfold alist_remove; cbn; by destruct (bool_decide (k' = k))).
  destruct (bool_decide (k' = k)) eqn:E; cbn [length].
  - intros _. pose proof (alist_remove_length k l). lia.
  - intros Hf. specialize (IH Hf). lia.
Qed.

Lemma exec_inv c op : cache_inv c -> cache_inv (cache_exec c op).
Proof.
  intros [Hcap Hpos Hlen Hk]. destruct (exec_entries c op Hcap) as (He & Hcap' & Hc').
  split; rewrite ?He, ?Hcap', ?Hc'; try done; destruct op as [k|k d|k|]; cbn.
  - destruct (alist_find k _) as [v|] eqn:Ef; [|done]. cbn. pose proof (find_remove_length _ _ _ Ef). lia.
  - rewrite length_take. pose proof (alist_remove_length k (entries c)). lia.
  - pose proof (alist_remove_length k (entries c)). lia.
  - lia.
  - destruct (alist_find k _); [|done]. cbn. apply NoDup_cons. split; [apply alist_remove_ne|by apply alist_remove_nodup].
  - apply NoDup_cons. split.
    + rewrite fmap_take. intros Hin. apply elem_of_take in Hin as (i & Hi & _). by eapply (alist_remove_ne k), list_elem_of_lookup_2.
    + rewrite fmap_take. apply (sublist_NoDup _ (alist_remove k (entries c)).*1); [by apply alist_remove_nodup|apply sublist_take].
  - by apply alist_remove_nodup.
  - apply NoDup_nil_2.
Qed.

(** [c] is cached, and only keys of [T] were used since. *)
Definition recent (l : list (Cid * list Z)) (k : Cid) (d : list Z) (T : gset Cid) : Prop :=
  exists pre post, l = pre ++ (k, d) :: post /\ forall x, x ∈ pre.*1 -> x ∈ T.

(** The keys an operation uses, other than [k]. *)
Definition uses (k : Cid) (op : cache_op) : gset Cid :=
  match op with
  | CGet k' | CPut k' _ => if bool_decide (k' = k) then ∅ else {[ k' ]}
  | _ => ∅
  end.

(** Operations that do not drop or rebind [k]. *)
Definition spares (k : Cid) (d : list Z) (op : cache_op) : Prop :=
  match op with
  | CGet _ => True
  | CPut k' d' => k' = k -> d' = d
  | CRemove k' => k' <> k
  | CClear => False
  end.

Lemma pre_length (pre : list (Cid * list Z)) (T : gset Cid) :
  NoDup pre.*1 -> (forall x, x ∈ pre.*1 -> x ∈ T) -> (length pre <= size T)%nat.
Proof.
  intros Hd Hs. rewrite <- (length_fmap fst pre). rewrite <- (size_list_to_set (C := gset Cid) pre.*1) by done.
  apply subseteq_size. intros x Hx. apply Hs. by apply elem_of_list_to_set in Hx.
Qed.

Lemma recent_front l k d T : recent ((k, d) :: l) k d T.
Proof. exists [], l. split; [done|]. intros x Hx. by apply not_elem_of_nil in Hx. Qed.

Lemma recent_step cap l k d T op :
  NoDup l.*1 -> recent l k d T -> spares k d op -> (size (T ∪ uses k op) < cap)%nat ->
  recent (entries_after cap l op) k d (T ∪ uses k op).
Proof.
  intros Hnd (pre & post & -> & Hpre) Hsp Hsz.
  assert (k ∉ pre.*1 /\ NoDup (pre.*1)) as [Hkp Hdp].
  { rewrite fmap_app in Hnd. apply NoDup_app in Hnd as (Hd1 & Hd2 & _). split; [|done]. intros Hin. apply (Hd2 k Hin). cbn. by apply elem_of_cons; left. }
  assert (alist_find k (pre ++ (k, d) :: post) = Some d) as Hfind by (by apply alist_find_app).
  assert (forall k', k' <> k -> alist_remove k' (pre ++ (k, d) :: post) = alist_remove k' pre ++ (k, d) :: alist_remove k' post) as Hrm.
  { intros k' Hne. rewrite alist_remove_app, alist_remove_cons_ne by done. done. }
  assert (forall k' (v : list Z) x, x ∈ ((k', v) :: alist_remove k' pre).*1 -> x ∈ T ∪ {[ k' ]}) as Hkeys.
  { intros k' v x Hx. cbn in Hx. apply elem_of_union. apply elem_of_cons in Hx as [->|Hx]; [right; by apply elem_of_singleton|].
    left. by eapply Hpre, alist_remove_sub. }
  destruct op as [k'|k' d'|k'|]; cbn [entries_after uses spares] in *; [| | |done].
  - destruct (bool_decide (k' = k)) eqn:E; bool_to_prop.
    + subst k'. rewrite Hfind. apply recent_front.
    + destruct (alist_find k' _) as [v|].
      * rewrite Hrm by done. exists ((k', v) :: alist_remove k' pre), (alist_remove k' post). split; [done|]. apply Hkeys.
      * exists pre, post. split; [done|]. intros x Hx. apply elem_of_union. left. by apply Hpre.
  - destruct (bool_decide (k' = k)) eqn:E; bool_to_prop.
    + subst k'. rewrite Hsp by done. apply recent_front.
    + rewrite Hrm by done.
      assert (length ((k', d') :: alist_remove k' pre) <= size (T ∪ {[ k' ]}))%nat as Hlen.
      { apply pre_length; [|apply Hkeys]. cbn. apply NoDup_cons. split; [apply alist_remove_ne|by apply alist_remove_nodup]. }
      cbn [length] in Hlen. rewrite take_app_ge by lia.
      destruct (cap - 1 - length (alist_remove k' pre))%nat as [|r] eqn:Er; [lia|]. cbn [take].
      exists ((k', d') :: alist_remove k' pre), (take r (alist_remove k' post)). split; [done|]. apply Hkeys.
  - rewrite Hrm by done. exists (alist_remove k' pre), (alist_remove k' post). split; [done|].
    intros x Hx. apply elem_of_union. left. by eapply Hpre, alist_remove_sub.
Qed.

(** The cache keeps what is in use: after an object is cached it stays readable as
    long as fewer than [capacity] other objects are used, whatever the order of the
    operations; and the cache never holds more than [capacity] objects.  A capacity
    of zero is refused with a panic. *)
Theorem cache_keeps_recent capacity c0 before k d ops :
  cache_new capacity = Returned c0 -> Forall (spares k d) ops ->
  (size (union_list (map (uses k) ops)) < capacity)%nat ->
  let c := foldl cache_exec (cache_put (foldl cache_exec c0 before) k d) ops in
  (cache_len c <= capacity)%nat /\ cache_peek c k = Some d /\ (cache_get c k).2 = Some d /\ cache_contains c k = true.
Proof.
  intros Hnew Hsp Hsz. cbn zeta. unfold cache_new in Hnew. destruct (capacity =? 0)%nat eqn:E; [done|]. bool_to_prop.
  inversion Hnew; subst c0. clear Hnew.
  assert (cache_inv (mkCache (lru_new capacity) capacity)) as H0.
  { split; cbn; rewrite ?cap_new, ?entries_new; cbn; try lia; try done. apply NoDup_nil_2. }
  assert (forall ops c, cache_inv c -> cache_inv (foldl cache_exec c ops) /\ oc_capacity (foldl cache_exec c ops) = oc_capacity c) as Hrun.
  { clear -LOL. induction ops as [|op ops IH]; intros c Hc; [done|]. cbn [foldl]. destruct (IH _ (exec_inv c op Hc)) as [Hi ->].
    split; [done|]. by destruct (exec_entries c op (ci_cap c Hc)) as (_ & _ & ?). }
  destruct (Hrun before _ H0) as [Hb Hbc]. set (c1 := foldl cache_exec _ before) in *. cbn in Hbc.
  pose proof (exec_inv c1 (CPut k d) Hb) as Hc2. cbn [cache_exec] in Hc2.
  assert (recent (entries (cache_put c1 k d)) k d ∅) as Hr2.
  { destruct (exec_entries c1 (CPut k d) (ci_cap c1 Hb)) as (He & _). cbn [cache_exec] in He. rewrite He. apply recent_front. }
  assert (oc_capacity (cache_put c1 k d) = capacity) as Hcap2 by done.
  assert (exists T, recent (entries (foldl cache_exec (cache_put c1 k d) ops)) k d T) as [T (pre & post & He & _)].
  { revert Hc2 Hr2 Hcap2 Hsz. rewrite <- (union_empty_l_L (union_list _)). generalize (cache_put c1 k d) as c, (∅ : gset Cid) as T.
    clear -LOL Hsp. induction Hsp as [|op ops Ho Hsp IH]; intros c T Hc Hr Hcap Hsz; [by exists T|]. cbn [foldl].
    destruct (exec_entries c op (ci_cap c Hc)) as (He & _ & Hce). cbn [map union_list] in Hsz.
    apply (IH (cache_exec c op) (T ∪ uses k op)); [by apply exec_inv| |congruence|by rewrite <- assoc_L by apply _].
    rewrite He, Hcap. apply recent_step; [apply Hc|done|done|].
    eapply Nat.le_lt_trans; [|exact Hsz]. apply subseteq_size. intros x Hx. apply elem_of_union in Hx as [Hx|Hx];
      apply elem_of_union; [by left|right; apply elem_of_union; by left]. }
  destruct (Hrun ops _ Hc2) as [Hci Hcc]. set (c := foldl cache_exec _ ops) in *.
  assert (alist_find k (entries c) = Some d) as Hf.
  { pose proof (ci_keys c Hci) as Hnd. rewrite He in *. apply alist_find_app. rewrite fmap_app in Hnd.
    apply NoDup_app in Hnd as (_ & Hd2 & _). intros Hin. apply (Hd2 k Hin). cbn. by apply elem_of_cons; left. }
  split_and!.
  - unfold cache_len. rewrite len_entries. pose proof (ci_len c Hci). congruence.
  - unfold cache_peek. by rewrite peek_entries.
  - unfold cache_get. destruct (get_entries k (oc_inner c)) as (_ & Hg & _). destruct (lru_get _ _) as [r l]. cbn in *. congruence.
  - unfold cache_contains. rewrite peek_entries, Hf. by apply bool_decide_eq_true.
Qed.

End CacheFacts.

(** ** The list cache *)

#[export] Instance list_lru_order : @LruOrder Cid (list Z) list_lru :=
  @Build_LruOrder Cid (list Z) list_lru
    (fun c : nat * list (Cid * list Z) => c.2) (fun c : nat * list (Cid * list Z) => c.1)
    (fun c : nat * list (Cid * list Z) => (c.1, [])).

#[export] Instance list_lru_order_laws : @LruOrderLaws Cid (list Z) _ list_lru list_lru_order.
Proof.
  split; try done. intros k [n l]. cbn -[alist_find]. by destruct (alist_find k l).
Qed.

Lemma cache_keeps_recent_witness :
  exists c, cache_peek c [1] = Some [7] /\ cache_len c = 2%nat.
Proof.
  eexists (foldl cache_exec (cache_put (foldl cache_exec (mkCache (lru_new 2) 2) [CPut [9] []; CPut [8] []]) [1] [7])
    [CPut [2] [5]; CGet [1]; CPut [2] [6]]). split; [|vm_compute; reflexivity].
  apply (cache_keeps_recent 2 (mkCache (lru_new 2) 2) [CPut [9] []; CPut [8] []] [1] [7] [CPut [2] [5]; CGet [1]; CPut [2] [6]]).
  - reflexivity.
  - repeat (apply Forall_cons; split; [first [exact I|discriminate]|]). apply Forall_nil_2.
  - vm_compute. lia.
Defined.
