(* ===== verification/ObjStore.v ===== *)
(** * Content-addressed object store (crates/craftec-obj/src)

    Sharded files with a Bloom filter and an LRU cache in front ([shard.rs],
    [bloom.rs], [cache.rs], [store.rs]).  The file system is a map from paths to
    contents; every operation takes the outcome of its I/O calls from the
    environment.  The store refines a map from CIDs to contents, across failed
    writes and restarts, and never returns bytes that do not hash to their CID,
    whatever happens to the files. *)
From Stdlib Require Import ZArith Lia Ascii.
From stdpp Require Import base list list_numbers numbers strings gmap relations.
From S2P Require Import Prelude Types Instances External.

Local Open Scope Z_scope.

(** ** Errors and I/O outcomes *)

Inductive ObjError : Type :=
| IntegrityViolation (c actual : Cid)
| ObjNotFound (c : Cid)
| ObjIoError
| StoreFull
| InvalidCid (value : string).

(** What a file-system call answers; a failed write may leave part of the data. *)
Inductive write_outcome : Type := WriteOk | WriteErr (enospc : bool) (left_over : option (list Z)).
Inductive rename_outcome : Type := RenameOk | RenameErr (tmp_removed : bool).
Inductive read_outcome : Type := ReadOk | ReadErr.
Inductive remove_outcome : Type := RemoveOk | RemoveErr.

(** What a walk meets at a shard directory: its entries; an [exists()] that answers
    [false], as it does when the metadata call fails; or an error while reading it. *)
Inductive dir_outcome : Type := DirOk | DirUnseen | DirErr.

(** ** Paths *)

(** A path under [base]: shard directory and file name. *)
Abbreviation path := (string * string)%type (only parsing).

Section Paths.
Context `{HX : Hex}.

Definition shard_prefix (c : Cid) : string := String.substring 0 2 (cid_to_string c).

Definition shard_path (c : Cid) : path := (shard_prefix c, cid_to_string c).

(** [dest.with_extension("tmp")]: the file name has no extension to replace. *)
Definition tmp_path (p : path) : path := (p.1, p.2 +:+ ".tmp").

(** The names [00] .. [ff] of the shard directories. *)
Definition shard_names : list string := map fmt_02x (seqZ 0 256).

(** The entries of one directory; the order is the file system's. *)
Definition dir_entries (files : gmap path (list Z)) (dir : string) : list (string * list Z) :=
  omap (fun pb => if bool_decide (pb.1.1 = dir) then Some (pb.1.2, pb.2) else None) (map_to_list files).

(** The file names of a directory that are CIDs. *)
Definition dir_cids (files : gmap path (list Z)) (dir : string) : list Cid :=
  omap (fun fb => match cid_from_str fb.1 with Ok c => Some c | Err _ => None end) (dir_entries files dir).

(** What a walk makes of a directory's entries [l] and the rest; a directory that is
    not seen is skipped. *)
Definition dir_step {A} (o : dir_outcome) (l : list A) (rest : result (list A) ObjError) : result (list A) ObjError :=
  match o with
  | DirUnseen => rest
  | DirErr => Err ObjIoError
  | DirOk => match rest with Ok l' => Ok (l ++ l') | Err e => Err e end
  end.

(** The loop over the shard directories. *)
Fixpoint walk_dirs {A} (per_dir : string -> list A) (io : string -> dir_outcome) (dirs : list string) : result (list A) ObjError :=
  match dirs with
  | [] => Ok []
  | dir :: dirs => dir_step (io dir) (per_dir dir) (walk_dirs per_dir io dirs)
  end.

Definition walk_shards (files : gmap path (list Z)) (io : string -> dir_outcome) : result (list Cid) ObjError :=
  walk_dirs (dir_cids files) io shard_names.

(** What a walk finds that sees every directory. *)
Definition walk_all (files : gmap path (list Z)) : list Cid := concat (map (dir_cids files) shard_names).

End Paths.

(** ** State *)

Record StoreMetrics : Type := mkStoreMetrics {
  puts : Z;
  gets : Z;
  cache_hits : Z;
  cache_misses : Z;
  bloom_false_positives : Z;
  integrity_violations : Z;
}.

Definition store_metrics_default : StoreMetrics := mkStoreMetrics 0 0 0 0 0 0.

Definition inc (z : Z) : Z := wrap 64 (z + 1).
Definition count_put (m : StoreMetrics) : StoreMetrics :=
  mkStoreMetrics (inc (puts m)) (gets m) (cache_hits m) (cache_misses m) (bloom_false_positives m) (integrity_violations m).
Definition count_get (m : StoreMetrics) : StoreMetrics :=
  mkStoreMetrics (puts m) (inc (gets m)) (cache_hits m) (cache_misses m) (bloom_false_positives m) (integrity_violations m).
Definition count_hit (m : StoreMetrics) : StoreMetrics :=
  mkStoreMetrics (puts m) (gets m) (inc (cache_hits m)) (cache_misses m) (bloom_false_positives m) (integrity_violations m).
Definition count_miss (m : StoreMetrics) : StoreMetrics :=
  mkStoreMetrics (puts m) (gets m) (cache_hits m) (inc (cache_misses m)) (bloom_false_positives m) (integrity_violations m).
Definition count_false_positive (m : StoreMetrics) : StoreMetrics :=
  mkStoreMetrics (puts m) (gets m) (cache_hits m) (cache_misses m) (inc (bloom_false_positives m)) (integrity_violations m).
Definition count_violation (m : StoreMetrics) : StoreMetrics :=
  mkStoreMetrics (puts m) (gets m) (cache_hits m) (cache_misses m) (bloom_false_positives m) (inc (integrity_violations m)).

Section Store.
Context `{B3 : Blake3} `{HX : Hex} `{LRU : Lru Cid (list Z)} `{BF : Bloom Cid}.

(** [CidBloomFilter]: the filter and its insertion counter. *)
Record CidBloomFilter : Type := mkBloom { bloom_inner : bloom (A := Cid); bloom_count : nat }.

Definition bloom_empty : CidBloomFilter := mkBloom bloom_new 0.
Definition bloom_insert (b : CidBloomFilter) (c : Cid) : CidBloomFilter :=
  mkBloom (bloom_set c (bloom_inner b)) (bloom_count b + 1).
Definition probably_contains (b : CidBloomFilter) (c : Cid) : bool := bloom_check c (bloom_inner b).
Definition bloom_of (cids : list Cid) : CidBloomFilter := foldl bloom_insert bloom_empty cids.
Definition bloom_rebuild (files : gmap path (list Z)) (io : string -> dir_outcome) : result CidBloomFilter ObjError :=
  match walk_shards files io with
  | Ok cids => Ok (bloom_of cids)
  | Err e => Err e
  end.

(** [Inner], with the directory tree it owns and the [CidWritten] events sent. *)
Record ObjStore : Type := mkStore {
  files : gmap path (list Z);
  cache : lru (K := Cid) (V := list Z);
  obj_bloom : CidBloomFilter;
  obj_metrics : StoreMetrics;
  has_sender : bool;
  events : list Cid;
}.

Definition with_metrics (s : ObjStore) (f : StoreMetrics -> StoreMetrics) : ObjStore :=
  mkStore (files s) (cache s) (obj_bloom s) (f (obj_metrics s)) (has_sender s) (events s).
Definition with_files (s : ObjStore) (fs : gmap path (list Z)) : ObjStore :=
  mkStore fs (cache s) (obj_bloom s) (obj_metrics s) (has_sender s) (events s).
Definition with_cache (s : ObjStore) (c : lru (K := Cid) (V := list Z)) : ObjStore :=
  mkStore (files s) c (obj_bloom s) (obj_metrics s) (has_sender s) (events s).

Definition store_init (fs : gmap path (list Z)) (cache_capacity : nat) (b : CidBloomFilter) : ObjStore :=
  mkStore fs (lru_new cache_capacity) b store_metrics_default false [].

(** [ContentAddressedStore::new] on a directory tree that already holds [fs];
    [mkdirs] tells whether the base and the shard directories could be created. *)
Definition store_new (fs : gmap path (list Z)) (cache_capacity : nat) (mkdirs : bool) (io : string -> dir_outcome)
    : result ObjStore ObjError :=
  if negb mkdirs then Err ObjIoError
  else match bloom_rebuild fs io with
  | Ok b => Ok (store_init fs cache_capacity b)
  | Err e => Err e
  end.

(** The store that comes of a walk that sees every directory. *)
Definition store_over (fs : gmap path (list Z)) (cache_capacity : nat) : ObjStore :=
  store_init fs cache_capacity (bloom_of (walk_all fs)).

Definition set_event_sender (s : ObjStore) : ObjStore :=
  mkStore (files s) (cache s) (obj_bloom s) (obj_metrics s) true (events s).

(** [tokio::fs::metadata(&path).await.is_ok()]: a call that fails reads as an absent
    file. *)
Definition file_exists (s : ObjStore) (p : path) (st : read_outcome) : bool :=
  match st with ReadOk => bool_decide (is_Some (files s !! p)) | ReadErr => false end.

Definition put (s : ObjStore) (data : list Z) (st : read_outcome) (w : write_outcome) (r : rename_outcome)
    : ObjStore * result Cid ObjError :=
  let c := cid_from_data data in
  let s := with_metrics s count_put in
  let dest := shard_path c in
  if probably_contains (obj_bloom s) c && file_exists s dest st then (s, Ok c)
  else
    let tmp := tmp_path dest in
    match w with
    | WriteErr enospc left_over =>
        (match left_over with None => s | Some b => with_files s (<[tmp := b]> (files s)) end,
         Err (if enospc then StoreFull else ObjIoError))
    | WriteOk =>
        match r with
        | RenameErr tmp_removed =>
            (with_files s (if tmp_removed then delete tmp (files s) else <[tmp := data]> (files s)),
             Err ObjIoError)
        | RenameOk =>
            (mkStore (<[dest := data]> (delete tmp (files s)))
               (lru_put c data (cache s)) (bloom_insert (obj_bloom s) c) (obj_metrics s)
               (has_sender s) (if has_sender s then events s ++ [c] else events s), Ok c)
        end
    end.

Definition get (s : ObjStore) (c : Cid) (r : read_outcome) : ObjStore * result (option (list Z)) ObjError :=
  let s := with_metrics s count_get in
  match lru_get c (cache s) with
  | (Some bytes, cache') => (with_metrics (with_cache s cache') count_hit, Ok (Some bytes))
  | (None, cache') =>
      let s := with_metrics (with_cache s cache') count_miss in
      if negb (probably_contains (obj_bloom s) c) then (s, Ok None)
      else match r with
      | ReadErr => (s, Err ObjIoError)
      | ReadOk =>
          match files s !! shard_path c with
          | None => (with_metrics s count_false_positive, Ok None)
          | Some data =>
              let actual_cid := cid_from_data data in
              if negb (bool_decide (actual_cid = c)) then
                (with_metrics s count_violation, Err (IntegrityViolation c actual_cid))
              else (with_cache s (lru_put c data (cache s)), Ok (Some data))
          end
      end
  end.

Definition contains (s : ObjStore) (c : Cid) (st : read_outcome) : bool :=
  if negb (probably_contains (obj_bloom s) c) then false else file_exists s (shard_path c) st.

Definition obj_delete (s : ObjStore) (c : Cid) (r : remove_outcome) : ObjStore * result bool ObjError :=
  match r with
  | RemoveErr => (s, Err ObjIoError)
  | RemoveOk =>
      match files s !! shard_path c with
      | Some _ => (with_cache (with_files s (delete (shard_path c) (files s))) (lru_pop c (cache s)).2, Ok true)
      | None => (s, Ok false)
      end
  end.

Definition list_cids (s : ObjStore) (io : string -> dir_outcome) : result (list Cid) ObjError := walk_shards (files s) io.

(** The regular files of the shard directories: [meta] tells whether an entry's
    metadata can be read, which [disk_usage] needs and [object_count] passes over. *)
Definition disk_usage (s : ObjStore) (io : string -> dir_outcome) (meta : string -> bool) : result Z ObjError :=
  match walk_dirs (dir_entries (files s)) io shard_names with
  | Err e => Err e
  | Ok l =>
      if forallb (fun fb => meta fb.1) l
      then Ok (foldl (fun total fb => wrap 64 (total + Z.of_nat (length fb.2))) 0 l)
      else Err ObjIoError
  end.
Definition object_count (s : ObjStore) (io : string -> dir_outcome) (meta : string -> bool) : result nat ObjError :=
  match walk_dirs (dir_entries (files s)) io shard_names with
  | Err e => Err e
  | Ok l => Ok (length (List.filter (fun fb => meta fb.1) l))
  end.

End Store.

(** ** Abstract specification

    A map from CIDs to contents.  Storing data whose CID is bound keeps the
    binding. *)

Section Spec.
Context `{B3 : Blake3}.

Definition spec_put (M : gmap Cid (list Z)) (d : list Z) : gmap Cid (list Z) :=
  match M !! cid_from_data d with
  | Some _ => M
  | None => <[cid_from_data d := d]> M
  end.

(** What a store promises its clients: operations whose I/O may fail, and a
    representation of a map that they respect. *)
Class ContentStore (S IO : Type) : Type := {
  cs_put : S -> list Z -> IO -> S * result Cid ObjError;
  cs_get : S -> Cid -> IO -> S * result (option (list Z)) ObjError;
  cs_repr : S -> gmap Cid (list Z) -> Prop;
}.

Class ContentStoreLaws (S IO : Type) `{ContentStore S IO} : Prop := {
  cs_put_spec s M d io : cs_repr s M -> bytes d ->
    match cs_put s d io with
    | (s', Ok c) => c = cid_from_data d /\ cs_repr s' (spec_put M d)
    | (s', Err _) => cs_repr s' M
    end;
  cs_get_spec s M c io : cs_repr s M -> cid_wf c ->
    match cs_get s c io with
    | (s', Ok r) => r = M !! c /\ cs_repr s' M
    | (s', Err _) => cs_repr s' M
    end;
  cs_repr_hash s M c d : cs_repr s M -> M !! c = Some d -> cid_from_data d = c;
}.

End Spec.

(** ** Paths *)

Section PathFacts.
Context `{HL : HexLaws}.

Lemma shard_path_inj c c' : cid_wf c -> cid_wf c' -> shard_path c = shard_path c' -> c = c'.
Proof. intros [_ ?] [_ ?] [= _ Heq]. by apply hex_encode_inj in Heq. Qed.

Lemma string_length_app a b : String.length (a +:+ b) = (String.length a + String.length b)%nat.
Proof. induction a as [|x a IH]; [done|]. change (S (String.length (a +:+ b)) = S (String.length a) + String.length b)%nat. lia. Qed.

Lemma shard_not_tmp c c' : cid_wf c -> cid_wf c' -> shard_path c <> tmp_path (shard_path c').
Proof.
  intros [Hl Hb] [Hl' Hb'] Heq. apply (f_equal (fun p => String.length p.2)) in Heq. cbn [snd shard_path tmp_path] in Heq.
  unfold cid_to_string in Heq. rewrite string_length_app, !hex_encode_length, Hl, Hl' in Heq by done.
  cbn in Heq. lia.
Qed.

Lemma shard_prefix_name c : cid_wf c -> shard_prefix c ∈ shard_names.
Proof.
  intros [Hl Hb]. destruct c as [|x c]; [done|]. inversion Hb; subst.
  unfold shard_prefix, cid_to_string. rewrite hex_encode_cons by done.
  replace (String.substring 0 2 _) with (fmt_02x x) by (unfold fmt_02x; cbn; by destruct (hex_encode c)).
  apply list_elem_of_fmap. exists x. split; [done|]. by apply elem_of_seqZ.
Qed.

Lemma cid_from_tmp c : cid_wf c -> is_ok (cid_from_str (tmp_path (shard_path c)).2) = false.
Proof.
  intros [Hl Hb]. unfold cid_from_str. cbn [snd tmp_path shard_path].
  destruct (hex_decode _) as [b|] eqn:E; [|done]. apply hex_decode_length in E.
  unfold cid_to_string in E. rewrite string_length_app, hex_encode_length, Hl in E by done. cbn in E.
  destruct (length b =? CID_SIZE)%nat eqn:El; [|done]. bool_to_prop. unfold CID_SIZE in *. lia.
Qed.

Lemma elem_of_concat_map {A B} (f : A -> list B) l y :
  y ∈ concat (map f l) <-> exists x, x ∈ l /\ y ∈ f x.
Proof.
  rewrite list_elem_of_In, in_concat. setoid_rewrite in_map_iff. setoid_rewrite list_elem_of_In.
  split; [intros (? & (x & <- & ?) & ?); eauto | intros (x & ? & ?); eauto].
Qed.

Lemma elem_of_dir_cids fs dir c : c ∈ dir_cids fs dir <-> exists f b, fs !! (dir, f) = Some b /\ cid_from_str f = Ok c.
Proof.
  unfold dir_cids. split.
  - intros Hc. apply list_elem_of_omap in Hc as ([f b] & Hf & Hc).
    apply list_elem_of_omap in Hf as ([[d f'] b'] & Hin & Hf). cbn in Hf.
    destruct (bool_decide (d = dir)) eqn:E; [|done]. bool_to_prop. simplify_eq.
    cbn in Hc. destruct (cid_from_str f) eqn:Ec; [|done]. simplify_eq.
    exists f, b. split; [|done]. by apply elem_of_map_to_list in Hin.
  - intros (f & b & Hf & Hc). apply list_elem_of_omap. exists (f, b). cbn. rewrite Hc. split; [|done].
    apply list_elem_of_omap. exists ((dir, f), b). cbn. rewrite bool_decide_true by done.
    split; [|done]. by apply elem_of_map_to_list.
Qed.

Lemma elem_of_walk fs c :
  c ∈ walk_all fs <-> exists dir f b, dir ∈ shard_names /\ fs !! (dir, f) = Some b /\ cid_from_str f = Ok c.
Proof. unfold walk_all. rewrite elem_of_concat_map. setoid_rewrite elem_of_dir_cids. naive_solver. Qed.

Lemma walk_dirs_elem {A} (f : string -> list A) io dirs l x :
  walk_dirs f io dirs = Ok l -> x ∈ l <-> exists dir, dir ∈ dirs /\ io dir <> DirUnseen /\ x ∈ f dir.
Proof.
  revert l. induction dirs as [|dir dirs IH]; intros l; cbn.
  { intros [= <-]. split; [by intros ?%not_elem_of_nil|]. by intros (dir & ?%not_elem_of_nil & _). }
  destruct (io dir) eqn:Ei; [|intros Hl; rewrite (IH l Hl)|done]; cycle 1.
  { split; intros (dir' & Hin & Hio & Hx); exists dir'; (split; [|done]); [by right|]. by apply elem_of_cons in Hin as [->|Hin]. }
  destruct (walk_dirs f io dirs) as [l'|]; [|done]. intros [= <-]. rewrite elem_of_app, (IH l' eq_refl). split.
  - intros [Hx|(dir' & Hin & Hio & Hx)]; [exists dir|exists dir']; (split; [by constructor|]); (split; [congruence|done]).
  - intros (dir' & [->|Hin]%elem_of_cons & Hio & Hx); [by left|right; eauto].
Qed.

Lemma walk_dirs_all {A} (f : string -> list A) io dirs l :
  (forall dir, io dir <> DirUnseen) -> walk_dirs f io dirs = Ok l -> l = concat (map f dirs).
Proof.
  intros Hio. revert l. induction dirs as [|dir dirs IH]; intros l; cbn; [by intros [= <-]|]. specialize (Hio dir). destruct (io dir); [|done|done].
  destruct (walk_dirs f io dirs) as [l'|]; [|done]. intros [= <-]. by rewrite (IH l' eq_refl).
Qed.

Lemma walk_dirs_err {A} (f : string -> list A) io dirs e : walk_dirs f io dirs = Err e -> e = ObjIoError /\ exists dir, io dir = DirErr.
Proof.
  induction dirs as [|dir dirs IH]; cbn; [done|]. destruct (io dir) eqn:E; [|done|intros [= <-]; by split; [|exists dir]].
  destruct (walk_dirs f io dirs); [done|]. intros [= <-]. by apply IH.
Qed.

Lemma walk_dirs_ok {A} (f : string -> list A) dirs : walk_dirs f (fun _ => DirOk) dirs = Ok (concat (map f dirs)).
Proof. induction dirs as [|dir dirs IH]; [done|]. cbn. by rewrite IH. Qed.

End PathFacts.

(** ** The store refines the map *)

Section Refinement.
Context `{BL : Blake3Laws} `{HL : HexLaws} `{LL : LruLaws Cid (list Z)} `{BFL : BloomLaws Cid}.

Lemma cid_from_data_wf d : cid_wf (cid_from_data d).
Proof. split; [apply blake3_hash_length|apply blake3_hash_bytes]. Qed.

(** The object files are exactly the map's contents (other files are left-over
    temporaries), each under its hash; the filter covers them and the cache holds
    only them. *)
Record store_repr (s : ObjStore) (M : gmap Cid (list Z)) : Prop := {
  sr_files c d : M !! c = Some d -> files s !! shard_path c = Some d;
  sr_only p d : files s !! p = Some d ->
    (exists c, p = shard_path c /\ M !! c = Some d) \/
    (exists c, cid_wf c /\ p = tmp_path (shard_path c));
  sr_hash c d : M !! c = Some d -> cid_from_data d = c;
  sr_bloom c : is_Some (M !! c) -> probably_contains (obj_bloom s) c = true;
  sr_cache c d : lru_peek c (cache s) = Some d -> M !! c = Some d;
}.

Lemma repr_wf s M c : store_repr s M -> is_Some (M !! c) -> cid_wf c.
Proof. intros Hr [d Hd]. rewrite <- (sr_hash s M Hr c d Hd). apply cid_from_data_wf. Qed.

Lemma repr_lookup s M c : store_repr s M -> cid_wf c -> files s !! shard_path c = M !! c.
Proof.
  intros Hr Hc. destruct (M !! c) as [d|] eqn:E; [by apply (sr_files s M Hr)|].
  destruct (files s !! shard_path c) as [d|] eqn:Ef; [|done].
  destruct (sr_only s M Hr _ d Ef) as [(c' & Hp & Hd)|(c' & Hc' & Hp)].
  - apply shard_path_inj in Hp as ->; [congruence|done|]. by apply (repr_wf s M).
  - by apply shard_not_tmp in Hp.
Qed.

Lemma repr_metrics s M f : store_repr s M -> store_repr (with_metrics s f) M.
Proof. intros [? ? ? ? ?]. by split. Qed.

(** Writing or removing a temporary file changes nothing. *)
Lemma repr_tmp s M c fs :
  store_repr s M -> cid_wf c ->
  (forall p, p <> tmp_path (shard_path c) -> fs !! p = files s !! p) -> store_repr (with_files s fs) M.
Proof.
  intros Hr Hc Hfs. destruct Hr as [Hf Ho Hh Hb Hca] eqn:E. split; cbn; try done.
  - intros c' d Hd. rewrite Hfs; [by apply Hf|]. apply shard_not_tmp; [|done]. apply (repr_wf s M); [done|by eexists].
  - intros p d Hp. destruct (decide (p = tmp_path (shard_path c))) as [->|Hne]; [right; by exists c|].
    rewrite Hfs in Hp by done. by apply Ho.
Qed.

(** A cache whose entries are entries of the map. *)
Lemma repr_cache s M ca :
  store_repr s M -> (forall c d, lru_peek c ca = Some d -> M !! c = Some d) -> store_repr (with_cache s ca) M.
Proof. intros [? ? ? ? ?] Hca. by split. Qed.

(** A completed write. *)
Lemma repr_insert s M d m sender ev :
  let c := cid_from_data d in
  store_repr s M ->
  store_repr (mkStore (<[shard_path c := d]> (delete (tmp_path (shard_path c)) (files s)))
    (lru_put c d (cache s)) (bloom_insert (obj_bloom s) c) m sender ev) (<[c := d]> M).
Proof.
  intros c Hr. pose proof (cid_from_data_wf d) as Hc. fold c in Hc. split; cbn.
  - intros c' d'. destruct (decide (c = c')) as [<-|Hne].
    { rewrite lookup_insert_eq. intros [= <-]. by rewrite lookup_insert_eq. }
    rewrite lookup_insert_ne by done. intros Hd'.
    assert (cid_wf c') by (apply (repr_wf s M); [done|by eexists]).
    rewrite lookup_insert_ne by (intros Heq; by apply shard_path_inj in Heq).
    rewrite lookup_delete_ne by (intros Heq; symmetry in Heq; by apply shard_not_tmp in Heq).
    by apply (sr_files s M).
  - intros p d' Hp. destruct (decide (p = shard_path c)) as [->|Hne].
    { rewrite lookup_insert_eq in Hp. left. exists c. rewrite lookup_insert_eq. split; [done|congruence]. }
    rewrite lookup_insert_ne in Hp by done. apply lookup_delete_Some in Hp as [_ Hp].
    destruct (sr_only s M Hr p d' Hp) as [(c' & -> & Hd')|Ht]; [left|by right].
    exists c'. split; [done|]. rewrite lookup_insert_ne; [done|]. congruence.
  - intros c' d'. rewrite lookup_insert_Some. intros [[<- <-]|[_ Hd']]; [done|by apply (sr_hash s M Hr)].
  - intros c' [d' Hd']. unfold probably_contains. cbn. apply lookup_insert_Some in Hd' as [[<- _]|[_ Hd']].
    { apply bloom_set_check. }
    apply bloom_set_mono. apply (sr_bloom s M Hr). by eexists.
  - intros c' d' Hp. apply lru_put_inv in Hp as [[-> ->]|[Hne Hp]]; [by rewrite lookup_insert_eq|].
    rewrite lookup_insert_ne by done. by apply (sr_cache s M Hr).
Qed.

(** A put whose existence check failed stores the content again. *)
Definition put_map (M : gmap Cid (list Z)) (d : list Z) (st : read_outcome) : gmap Cid (list Z) :=
  match st with ReadOk => spec_put M d | ReadErr => <[cid_from_data d := d]> M end.

Lemma put_any_repr s M d st w r :
  store_repr s M ->
  match put s d st w r with
  | (s', Ok c) => c = cid_from_data d /\ store_repr s' (put_map M d st)
  | (s', Err _) => ~ (w = WriteOk /\ r = RenameOk) /\ store_repr s' M
  end.
Proof.
  intros Hr. pose proof (cid_from_data_wf d) as Hc. pose proof (repr_metrics s M count_put Hr) as Hr'.
  unfold put. set (s1 := with_metrics s count_put) in *. set (c := cid_from_data d) in *.
  pose proof (repr_lookup s1 M c Hr' Hc) as Hl.
  destruct (probably_contains _ c && file_exists s1 _ st) eqn:E.
  { apply andb_true_iff in E as [_ Hf]. unfold file_exists in Hf. destruct st; [|done]. bool_to_prop. rewrite Hl in Hf.
    split; [done|]. unfold put_map, spec_put. fold c. destruct (M !! c); [done|]. by destruct Hf. }
  destruct w as [|enospc [b|]].
  - destruct r as [|removed].
    + split; [done|]. pose proof (repr_insert s1 M d (obj_metrics s1) (has_sender s1) (if has_sender s1 then events s1 ++ [c] else events s1) Hr') as Hi.
      unfold put_map. destruct st; [|exact Hi]. unfold spec_put. fold c. destruct (M !! c) as [d0|] eqn:Em; [|exact Hi].
      (* bound already: the filter and the file say so *)
      rewrite (sr_bloom s1 M Hr' c) in E by (by eexists). unfold file_exists in E. rewrite Hl in E. done.
    + split; [by intros [_ ?]|]. apply (repr_tmp s1 M c); [done|done|]. intros p Hp. destruct removed.
      * by rewrite lookup_delete_ne.
      * by rewrite lookup_insert_ne.
  - split; [by intros [? _]|]. apply (repr_tmp s1 M c); [done|done|]. intros p Hp. by rewrite lookup_insert_ne.
  - by split; [intros [? _]|].
Qed.

(** When the existence check can be made, bound content is kept. *)
Lemma put_repr s M d w r :
  store_repr s M ->
  match put s d ReadOk w r with
  | (s', Ok c) => c = cid_from_data d /\ store_repr s' (spec_put M d)
  | (s', Err _) => ~ (w = WriteOk /\ r = RenameOk) /\ store_repr s' M
  end.
Proof. exact (put_any_repr s M d ReadOk w r). Qed.

Lemma get_repr s M c r :
  store_repr s M -> cid_wf c ->
  match get s c r with
  | (s', Ok o) => o = M !! c /\ store_repr s' M
  | (s', Err e) => e = ObjIoError /\ r = ReadErr /\ store_repr s' M
  end.
Proof.
  intros Hr Hc. pose proof (repr_metrics s M count_get Hr) as Hr1. unfold get.
  set (s1 := with_metrics s count_get) in *.
  pose proof (lru_get_peek c (cache s1)) as Hpk. pose proof (fun k' => lru_get_keeps c k' (cache s1)) as Hkeep.
  destruct (lru_get c (cache s1)) as [o ca]. cbn in Hpk, Hkeep.
  assert (store_repr (with_cache s1 ca) M) as Hr2.
  { apply repr_cache; [done|]. intros c' d'. rewrite Hkeep. by apply (sr_cache s1 M). }
  destruct o as [d|].
  { split; [|by apply repr_metrics]. symmetry. by apply (sr_cache s1 M Hr1). }
  pose proof (repr_metrics _ M count_miss Hr2) as Hr3. set (s3 := with_metrics _ count_miss) in *.
  destruct (probably_contains (obj_bloom s3) c) eqn:Eb; cbn [negb].
  2: { split; [|done]. destruct (M !! c) eqn:Em; [|done].
       rewrite (sr_bloom s3 M Hr3 c) in Eb by (by eexists). done. }
  destruct r; [|done]. rewrite (repr_lookup s3 M c Hr3 Hc).
  destruct (M !! c) as [d|] eqn:Em; [|by split; [|apply repr_metrics]].
  rewrite (sr_hash s3 M Hr3 c d Em), bool_decide_true by done. cbn [negb]. split; [done|].
  apply repr_cache; [done|]. intros c' d' Hp.
  apply lru_put_inv in Hp as [[-> ->]|[Hne Hp]]; [done|]. by apply (sr_cache s3 M Hr3).
Qed.

(** Whatever CID is asked for, data that comes back is the object of that CID. *)
Lemma get_any s M c r :
  store_repr s M -> store_repr (get s c r).1 M /\ forall d, (get s c r).2 = Ok (Some d) -> M !! c = Some d.
Proof.
  intros Hr. pose proof (repr_metrics s M count_get Hr) as Hr1. unfold get. set (s1 := with_metrics s count_get) in *.
  pose proof (lru_get_peek c (cache s1)) as Hpk. pose proof (fun k' => lru_get_keeps c k' (cache s1)) as Hkeep.
  destruct (lru_get c (cache s1)) as [o ca]. cbn in Hpk, Hkeep.
  assert (store_repr (with_cache s1 ca) M) as Hr2.
  { apply repr_cache; [done|]. intros c' d'. rewrite Hkeep. by apply (sr_cache s1 M). }
  destruct o as [d|].
  { split; [by apply repr_metrics|]. intros d' [= <-]. by apply (sr_cache s1 M Hr1). }
  pose proof (repr_metrics _ M count_miss Hr2) as Hr3. set (s3 := with_metrics _ count_miss) in *.
  destruct (negb _); [done|]. destruct r; [|done].
  destruct (files s3 !! shard_path c) as [d|] eqn:Ef; [|by split; [apply repr_metrics|]].
  destruct (bool_decide (cid_from_data d = c)) eqn:E; bool_to_prop; cbn [negb]; [|by split; [apply repr_metrics|]].
  subst c. rewrite (repr_lookup s3 M _ Hr3 (cid_from_data_wf d)) in Ef. split; [|by intros d' [= <-]].
  apply repr_cache; [done|]. intros c' d' Hp. apply lru_put_inv in Hp as [[-> ->]|[Hne Hp]]; [done|]. by apply (sr_cache s3 M Hr3).
Qed.

Lemma contains_repr s M c st :
  store_repr s M -> cid_wf c -> contains s c st = match st with ReadOk => bool_decide (is_Some (M !! c)) | ReadErr => false end.
Proof.
  intros Hr Hc. unfold contains, file_exists. rewrite (repr_lookup s M c Hr Hc).
  destruct (probably_contains _ c) eqn:E; cbn [negb]; [done|]. destruct st; [|done].
  symmetry. apply bool_decide_eq_false. intros Hs. by rewrite (sr_bloom s M Hr c Hs) in E.
Qed.

Lemma delete_repr s M c r :
  store_repr s M -> cid_wf c ->
  match obj_delete s c r with
  | (s', Ok b) => b = bool_decide (is_Some (M !! c)) /\ store_repr s' (delete c M)
  | (s', Err e) => e = ObjIoError /\ r = RemoveErr /\ store_repr s' M
  end.
Proof.
  intros Hr Hc. unfold obj_delete. destruct r; [|done]. rewrite (repr_lookup s M c Hr Hc).
  destruct (M !! c) as [d|] eqn:Em.
  2: { split; [by rewrite bool_decide_false by (by intros [? ?])|]. by rewrite delete_id. }
  split; [by rewrite bool_decide_true by (by eexists)|]. split; cbn.
  - intros c' d' Hd'. apply lookup_delete_Some in Hd' as [Hne Hd'].
    assert (cid_wf c') by (apply (repr_wf s M); [done|by eexists]).
    rewrite lookup_delete_ne by (intros Heq; by apply shard_path_inj in Heq). by apply (sr_files s M Hr).
  - intros p d' Hp. apply lookup_delete_Some in Hp as [Hne Hp].
    destruct (sr_only s M Hr p d' Hp) as [(c' & -> & Hd')|Ht]; [left|by right].
    exists c'. split; [done|]. rewrite lookup_delete_ne; [done|]. congruence.
  - intros c' d' Hd'. apply lookup_delete_Some in Hd' as [_ Hd']. by apply (sr_hash s M Hr).
  - intros c' [d' Hd']. apply lookup_delete_Some in Hd' as [_ Hd']. apply (sr_bloom s M Hr). by eexists.
  - intros c' d' Hp. apply lru_pop_inv in Hp as [Hne Hp]. rewrite lookup_delete_ne by done.
    by apply (sr_cache s M Hr).
Qed.

(** The objects are found in the directories of their shards. *)
Lemma dir_repr s M dir c : store_repr s M -> c ∈ dir_cids (files s) dir <-> is_Some (M !! c) /\ dir = shard_prefix c.
Proof.
  intros Hr. rewrite elem_of_dir_cids. split.
  - intros (f & b & Hf & Hc). destruct (sr_only s M Hr _ b Hf) as [(c' & Hp & Hd)|(c' & Hwf & Hp)].
    + assert (cid_wf c') by (apply (repr_wf s M); [done|by eexists]).
      inversion Hp; subst. rewrite cid_string_roundtrip in Hc by done. simplify_eq. by split; [eexists|].
    + pose proof (cid_from_tmp c' Hwf) as Hbad. rewrite <- Hp in Hbad. cbn in Hbad. by rewrite Hc in Hbad.
  - intros [[d Hd] ->]. assert (cid_wf c) by (apply (repr_wf s M); [done|by eexists]).
    exists (cid_to_string c), d. split; [by apply (sr_files s M Hr)|by apply cid_string_roundtrip].
Qed.

Lemma all_repr s M c : store_repr s M -> c ∈ walk_all (files s) <-> is_Some (M !! c).
Proof.
  intros Hr. unfold walk_all. rewrite elem_of_concat_map. setoid_rewrite (dir_repr s M _ _ Hr). split; [by intros (dir & _ & Hc & _)|].
  intros Hc. exists (shard_prefix c). split_and!; [|done|done]. apply shard_prefix_name. by apply (repr_wf s M).
Qed.

(** A listing holds the objects of the shards it has seen. *)
Lemma list_repr s M io l c :
  store_repr s M -> list_cids s io = Ok l -> c ∈ l <-> is_Some (M !! c) /\ io (shard_prefix c) <> DirUnseen.
Proof.
  intros Hr Hl. unfold list_cids, walk_shards in Hl. rewrite (walk_dirs_elem (dir_cids (files s)) io shard_names l c Hl). setoid_rewrite (dir_repr s M _ _ Hr). split.
  - intros (dir & _ & Hio & Hc & ->). done.
  - intros [Hc Hio]. exists (shard_prefix c). split_and!; try done. apply shard_prefix_name. by apply (repr_wf s M).
Qed.

(** ** Restart *)

Lemma foldl_bloom_mono l b c : probably_contains b c = true -> probably_contains (foldl bloom_insert b l) c = true.
Proof.
  revert b. induction l as [|x l IH]; intros b Hb; [done|]. cbn. apply IH. by apply bloom_set_mono.
Qed.

Lemma rebuild_contains cids c : c ∈ cids -> probably_contains (bloom_of cids) c = true.
Proof.
  unfold bloom_of. generalize bloom_empty. induction cids as [|x l IH]; intros b Hc; [by apply not_elem_of_nil in Hc|].
  cbn. apply elem_of_cons in Hc as [->|Hc]; [|by apply IH]. apply foldl_bloom_mono, bloom_set_check.
Qed.

(** Re-opening the directory keeps the map: the filter is rebuilt from the files. *)
Lemma restart_repr s M cap : store_repr s M -> store_repr (store_over (files s) cap) M.
Proof.
  intros Hr. split; cbn; try apply Hr.
  - intros c Hc. apply rebuild_contains. by apply (all_repr s M).
  - intros c d. by rewrite lru_peek_new.
Qed.

(** [new] gives this store unless it fails or misses a directory. *)
Lemma store_new_over fs cap mkdirs io s : (forall dir, io dir <> DirUnseen) -> store_new fs cap mkdirs io = Ok s -> s = store_over fs cap.
Proof.
  intros Hio. unfold store_new, bloom_rebuild, walk_shards. destruct mkdirs; [|done]. cbn [negb].
  destruct (walk_dirs _ _ _) as [l|] eqn:E; [|done]. intros [= <-]. apply walk_dirs_all in E as ->; done.
Qed.

Lemma store_new_ok fs cap : store_new fs cap true (fun _ => DirOk) = Ok (store_over fs cap).
Proof. unfold store_new, bloom_rebuild, walk_shards. cbn [negb]. by rewrite walk_dirs_ok. Qed.

Lemma store_new_err fs cap mkdirs io e : store_new fs cap mkdirs io = Err e -> e = ObjIoError /\ (mkdirs = false \/ exists dir, io dir = DirErr).
Proof.
  unfold store_new, bloom_rebuild, walk_shards. destruct mkdirs; [|intros [= <-]; auto]. cbn [negb].
  destruct (walk_dirs _ _ _) as [l|e'] eqn:E; [done|]. intros [= <-]. apply walk_dirs_err in E as [-> ?]. auto.
Qed.

Lemma new_repr cap : store_repr (store_over ∅ cap) ∅.
Proof.
  split; cbn.
  - intros c d. by rewrite lookup_empty.
  - intros p d. by rewrite lookup_empty.
  - intros c d. by rewrite lookup_empty.
  - intros c [d Hd]. by rewrite lookup_empty in Hd.
  - intros c d. by rewrite lru_peek_new.
Qed.

End Refinement.

(** ** Sequences of operations *)

Inductive store_op : Type :=
| OpPut (data : list Z) (st : read_outcome) (w : write_outcome) (r : rename_outcome)
| OpGet (c : Cid) (r : read_outcome)
| OpContains (c : Cid) (st : read_outcome)
| OpDelete (c : Cid) (r : remove_outcome)
| OpList (io : string -> dir_outcome)
| OpRestart (cache_capacity : nat) (mkdirs : bool) (io : string -> dir_outcome)
| OpTamper (fs : gmap path (list Z)).

Inductive store_out : Type :=
| OutCid (c : Cid)
| OutData (d : option (list Z))
| OutBool (b : bool)
| OutList (l : list Cid)
| OutErr (e : ObjError)
| OutUnit.

Section Runs.
Context `{B3 : Blake3} `{HX : Hex} `{LRU : Lru Cid (list Z)} `{BF : Bloom Cid}.

(** One operation on the store, a new handle on its directory, with which the
    operations go on if it could be made, or a change of its files from outside. *)
Definition store_exec (s : ObjStore) (op : store_op) : ObjStore * store_out :=
  match op with
  | OpPut d st w r => match put s d st w r with (s', Ok c) => (s', OutCid c) | (s', Err e) => (s', OutErr e) end
  | OpGet c r => match get s c r with (s', Ok o) => (s', OutData o) | (s', Err e) => (s', OutErr e) end
  | OpContains c st => (s, OutBool (contains s c st))
  | OpDelete c r => match obj_delete s c r with (s', Ok b) => (s', OutBool b) | (s', Err e) => (s', OutErr e) end
  | OpList io => (s, match list_cids s io with Ok l => OutList l | Err e => OutErr e end)
  | OpRestart n mk io => match store_new (files s) n mk io with Ok s' => (s', OutUnit) | Err e => (s, OutErr e) end
  | OpTamper fs => (with_files s fs, OutUnit)
  end.

Fixpoint store_run (s : ObjStore) (ops : list store_op) : list store_out :=
  match ops with
  | [] => []
  | op :: ops => let '(s', out) := store_exec s op in out :: store_run s' ops
  end.

(** What the map answers: the only failures are those of the environment. *)
Inductive spec_step : gmap Cid (list Z) -> store_op -> store_out -> gmap Cid (list Z) -> Prop :=
| spec_put_ok M d w r : spec_step M (OpPut d ReadOk w r) (OutCid (cid_from_data d)) (spec_put M d)
| spec_put_again M d w r : spec_step M (OpPut d ReadErr w r) (OutCid (cid_from_data d)) (<[cid_from_data d := d]> M)
| spec_put_err M d st w r e : ~ (w = WriteOk /\ r = RenameOk) -> spec_step M (OpPut d st w r) (OutErr e) M
| spec_get_ok M c r : spec_step M (OpGet c r) (OutData (M !! c)) M
| spec_get_err M c : spec_step M (OpGet c ReadErr) (OutErr ObjIoError) M
| spec_contains M c : spec_step M (OpContains c ReadOk) (OutBool (bool_decide (is_Some (M !! c)))) M
| spec_contains_err M c : spec_step M (OpContains c ReadErr) (OutBool false) M
| spec_delete_ok M c r : spec_step M (OpDelete c r) (OutBool (bool_decide (is_Some (M !! c)))) (delete c M)
| spec_delete_err M c : spec_step M (OpDelete c RemoveErr) (OutErr ObjIoError) M
| spec_list M io l :
    (forall c, c ∈ l <-> is_Some (M !! c) /\ io (shard_prefix c) <> DirUnseen) -> spec_step M (OpList io) (OutList l) M
| spec_list_err M io : (exists dir, io dir = DirErr) -> spec_step M (OpList io) (OutErr ObjIoError) M
| spec_restart M n mk io : spec_step M (OpRestart n mk io) OutUnit M
| spec_restart_err M n mk io : mk = false \/ (exists dir, io dir = DirErr) -> spec_step M (OpRestart n mk io) (OutErr ObjIoError) M.

Inductive spec_run : gmap Cid (list Z) -> list store_op -> list store_out -> Prop :=
| spec_run_nil M : spec_run M [] []
| spec_run_cons M M' op ops out outs :
    spec_step M op out M' -> spec_run M' ops outs -> spec_run M (op :: ops) (out :: outs).

(** Operations on well-formed CIDs, with no change from outside; and a restart sees
    every shard directory. *)
Definition honest (op : store_op) : Prop :=
  match op with
  | OpGet c _ | OpContains c _ | OpDelete c _ => cid_wf c
  | OpRestart _ _ io => forall dir, io dir <> DirUnseen
  | OpTamper _ => False
  | _ => True
  end.

End Runs.

Section RunFacts.
Context `{BL : Blake3Laws} `{HL : HexLaws} `{LL : LruLaws Cid (list Z)} `{BFL : BloomLaws Cid}.

Lemma store_exec_repr s M op :
  store_repr s M -> honest op ->
  exists M', spec_step M op (store_exec s op).2 M' /\ store_repr (store_exec s op).1 M'.
Proof.
  intros Hr Hop. destruct op as [d st w r|c r|c st|c r|io|n mk io|fs]; cbn in *.
  - pose proof (put_any_repr s M d st w r Hr) as Hp. destruct (put s d st w r) as [s' [c|e]]; cbn.
    + destruct Hp as [-> Hr']. exists (put_map M d st). split; [destruct st; constructor|done].
    + destruct Hp as [Hn Hr']. eexists. split; [by constructor|done].
  - pose proof (get_repr s M c r Hr Hop) as Hg. destruct (get s c r) as [s' [o|e]]; cbn.
    + destruct Hg as [-> Hr']. eexists. split; [constructor|done].
    + destruct Hg as (-> & -> & Hr'). eexists. split; [constructor|done].
  - eexists. rewrite (contains_repr s M c st Hr Hop). split; [destruct st; constructor|done].
  - pose proof (delete_repr s M c r Hr Hop) as Hd. destruct (obj_delete s c r) as [s' [b|e]]; cbn.
    + destruct Hd as [-> Hr']. eexists. split; [constructor|done].
    + destruct Hd as (-> & -> & Hr'). eexists. split; [constructor|done].
  - exists M. split; [|done]. destruct (list_cids s io) as [l|e] eqn:El.
    + constructor. intros c. by apply (list_repr s M io l c).
    + unfold list_cids, walk_shards in El. apply walk_dirs_err in El as [-> He]. by constructor.
  - exists M. destruct (store_new (files s) n mk io) as [s'|e] eqn:En; cbn.
    + apply store_new_over in En as ->; [|done]. split; [constructor|by apply restart_repr].
    + apply store_new_err in En as [-> He]. split; [by constructor|done].
  - done.
Qed.

Lemma store_run_spec s M ops :
  store_repr s M -> Forall honest ops -> spec_run M ops (store_run s ops).
Proof.
  intros Hr Hops. revert s M Hr. induction Hops as [|op ops Hop Hops IH]; intros s M Hr; cbn; [constructor|].
  destruct (store_exec_repr s M op Hr Hop) as (M' & Hst & Hr').
  destruct (store_exec s op) as [s' out]. cbn in *. econstructor; [exact Hst|]. by apply IH.
Qed.

(** C2: The object store refines a map from CIDs to contents: every sequence of puts,
    gets, deletes, membership tests, listings and restarts answers as the map does,
    whichever of their writes, renames, reads, removals, metadata calls and directory
    walks fail.  An operation fails only when its I/O failed; a failed metadata call
    makes a membership test answer no and a put store its content again; a listing
    leaves out the shards whose directories it could not see.  Restarts are taken
    to see every shard directory. *)
Theorem store_refines_map cap ops :
  Forall honest ops -> spec_run ∅ ops (store_run (store_over ∅ cap) ops).
Proof. intros Hops. apply store_run_spec; [apply new_repr|done]. Qed.

(** ** Integrity *)

(** Cached bytes were verified. *)
Definition cache_verified (s : ObjStore) : Prop :=
  forall c d, lru_peek c (cache s) = Some d -> cid_from_data d = c.

Lemma put_verified s c d : cache_verified s -> cid_from_data d = c ->
  forall c' d', lru_peek c' (lru_put c d (cache s)) = Some d' -> cid_from_data d' = c'.
Proof. intros Hv Hc c' d' Hp. apply lru_put_inv in Hp as [[-> ->]|[_ Hp]]; [done|by apply Hv]. Qed.

Lemma get_verified s c r : cache_verified s ->
  cache_verified (get s c r).1 /\ forall d, (get s c r).2 = Ok (Some d) -> cid_from_data d = c.
Proof.
  intros Hv. unfold get. set (s1 := with_metrics s count_get).
  pose proof (lru_get_peek c (cache s1)) as Hpk. pose proof (fun k' => lru_get_keeps c k' (cache s1)) as Hkeep.
  destruct (lru_get c (cache s1)) as [o ca]. cbn in Hpk, Hkeep.
  assert (forall c' d', lru_peek c' ca = Some d' -> cid_from_data d' = c') as Hca
    by (intros c' d'; rewrite Hkeep; apply Hv).
  destruct o as [d|].
  { split; [done|]. intros d' [= <-]. by apply Hv. }
  destruct (negb _); [done|]. destruct r; [|done]. cbn.
  destruct (files s !! shard_path c) as [d|]; [|done].
  destruct (bool_decide (cid_from_data d = c)) eqn:E; bool_to_prop; [|done]. split.
  - intros c' d' Hp. apply lru_put_inv in Hp as [[-> ->]|[_ Hp]]; [done|by apply Hca].
  - by intros d' [= <-].
Qed.

Lemma exec_verified s op : cache_verified s -> cache_verified (store_exec s op).1.
Proof.
  intros Hv. destruct op as [d st w r|c r|c st|c r|io|n mk io|fs]; cbn; try done.
  - unfold put. destruct (_ && _); [done|]. destruct w as [|e [b|]]; [|done|done]. destruct r; [|done].
    intros c' d'. by apply (put_verified s).
  - pose proof (get_verified s c r Hv) as [Hg _]. by destruct (get s c r) as [s' [o|e]].
  - unfold obj_delete. destruct r; [|done]. destruct (files s !! _); [|done]. cbn.
    intros c' d' Hp. apply lru_pop_inv in Hp as [_ Hp]. by apply Hv.
  - unfold store_new. destruct mk; [|done]. cbn [negb]. destruct (bloom_rebuild _ _); [|done]. intros c d. cbn. by rewrite lru_peek_new.
Qed.

(** Whatever is done to the files between the operations, data the store returns
    for a CID hashes to that CID. *)
Theorem store_integrity fs cap ops c r d :
  let s := foldl (fun s op => (store_exec s op).1) (store_over fs cap) ops in
  (get s c r).2 = Ok (Some d) -> cid_from_data d = c.
Proof.
  cbn zeta. apply get_verified.
  assert (cache_verified (store_over fs cap)) as Hv by (intros c' d'; cbn; by rewrite lru_peek_new).
  revert Hv. generalize (store_over fs cap). induction ops as [|op ops IH]; intros s Hv; [done|].
  cbn. by apply IH, exec_verified.
Qed.

(** The store as an implementation of the client interface, whose contract is for
    puts that can check whether the object exists. *)
#[export] Instance obj_content_store : ContentStore ObjStore (write_outcome * rename_outcome * read_outcome) := {|
  cs_put s d io := put s d ReadOk io.1.1 io.1.2;
  cs_get s c io := get s c io.2;
  cs_repr := store_repr;
|}.

#[export] Instance obj_content_store_laws :
  ContentStoreLaws ObjStore (write_outcome * rename_outcome * read_outcome).
Proof.
  split; cbn.
  - intros s M d io Hr _. pose proof (put_repr s M d io.1.1 io.1.2 Hr) as Hp.
    destruct (put s d ReadOk io.1.1 io.1.2) as [s' [c|e]]; [done|by destruct Hp].
  - intros s M c io Hr Hc. pose proof (get_repr s M c io.2 Hr Hc) as Hg.
    destruct (get s c io.2) as [s' [o|e]]; [done|by destruct Hg as (_ & _ & ?)].
  - intros s M c d Hr. by apply (sr_hash s M).
Qed.

End RunFacts.

(** ** Concrete runs *)

Definition demo_cid : Cid := cid_from_data [1; 2; 3].

Definition demo_ops : list store_op :=
  [OpPut [1; 2; 3] ReadOk WriteOk RenameOk; OpPut [4] ReadOk (WriteErr true (Some [4])) RenameOk; OpRestart 2 true (fun _ => DirOk);
   OpContains demo_cid ReadErr; OpPut [1; 2; 3] ReadErr WriteOk RenameOk; OpGet demo_cid ReadOk; OpDelete demo_cid RemoveOk; OpGet demo_cid ReadOk].

Definition demo_outs : list store_out :=
  [OutCid demo_cid; OutErr StoreFull; OutUnit; OutBool false; OutCid demo_cid; OutData (Some [1; 2; 3]); OutBool true; OutData None].

#[export] Instance cid_wf_dec c : Decision (cid_wf c).
Proof. unfold cid_wf. apply _. Defined.

Lemma demo_honest : Forall honest demo_ops.
Proof. repeat (apply Forall_cons; split; [first [exact I | by_compute | discriminate]|]). apply Forall_nil_2. Qed.

Lemma store_refines_map_witness : spec_run ∅ demo_ops demo_outs.
Proof.
  assert (store_run (store_over ∅ 2) demo_ops = demo_outs) as <- by (vm_compute; reflexivity).
  exact (store_refines_map 2 demo_ops demo_honest).
Defined.

Lemma store_integrity_witness : cid_from_data [1; 2; 3] = demo_cid.
Proof.
  apply (store_integrity ∅ 2 [OpPut [1; 2; 3] ReadOk WriteOk RenameOk; OpTamper ∅] demo_cid ReadOk).
  vm_compute. reflexivity.
Defined.

(** A restart that does not see a shard directory loses its objects from view: they
    are on disk, and a get does not find them. *)
Theorem unseen_shard_hides_objects :
  let s := (put (store_over ∅ 2) [1; 2; 3] ReadOk WriteOk RenameOk).1 in
  match store_new (files s) 2 true (fun dir => if bool_decide (dir = shard_prefix demo_cid) then DirUnseen else DirOk) with
  | Ok s' => files s' !! shard_path demo_cid = Some [1; 2; 3] /\ (get s' demo_cid ReadOk).2 = Ok None
  | Err _ => False
  end.
Proof. vm_compute. done. Qed.
