(* ===== verification/StoreConc.v ===== *)
(** * Concurrent use of the object store (crates/craftec-obj/src/store.rs)

    The operations of the store split at every access to what their tasks share:
    the file system, the cache, the filter and the event channel.  Files are inodes
    behind names, written and read in pieces.  Any number of operations interleave.
    As long as no two writers store the same content at once, the store still refines
    a map, readers never see a partial object, and a crash at any moment leaves
    every completed write; two concurrent writers of one content break this. *)
From Stdlib Require Import ZArith Lia.
From stdpp Require Import base list list_numbers numbers strings gmap relations.
From S2P Require Import Prelude Types Instances External ObjStore.

Local Open Scope Z_scope.

Abbreviation path := (string * string)%type (only parsing).

(** ** The file system *)

Record Disk : Type := mkDisk {
  names : gmap path nat;
  inodes : gmap nat (list Z);
  next_inode : nat;
}.

Definition contents (D : Disk) (i : nat) : list Z := default [] (inodes D !! i).
Definition disk_files (D : Disk) : gmap path (list Z) := contents D <$> names D.

(** [File::create]: an existing file is truncated in place. *)
Definition disk_create (D : Disk) (p : path) : Disk * nat :=
  match names D !! p with
  | Some i => (mkDisk (names D) (<[i := []]> (inodes D)) (next_inode D), i)
  | None => (mkDisk (<[p := next_inode D]> (names D)) (<[next_inode D := []]> (inodes D)) (S (next_inode D)), next_inode D)
  end.

(** [write] at an offset; a gap before it reads as zeros. *)
Definition pwrite (off : nat) (b old : list Z) : list Z :=
  take off (old ++ replicate (off - length old) 0) ++ b ++ drop (off + length b) old.
Definition disk_write (D : Disk) (i off : nat) (b : list Z) : Disk :=
  mkDisk (names D) (<[i := pwrite off b (contents D i)]> (inodes D)) (next_inode D).

Definition disk_rename (D : Disk) (p q : path) : option Disk :=
  match names D !! p with
  | Some i => Some (mkDisk (<[q := i]> (delete p (names D))) (inodes D) (next_inode D))
  | None => None
  end.

Definition disk_unlink (D : Disk) (p : path) : option Disk :=
  match names D !! p with
  | Some _ => Some (mkDisk (delete p (names D)) (inodes D) (next_inode D))
  | None => None
  end.

(** What a system call answers: it moves up to [S n] bytes, or fails. *)
Inductive io_answer : Type := IoGo (n : nat) | IoFail (enospc : bool).

Section Conc.
Context `{B3 : Blake3} `{HX : Hex} `{LRU : Lru Cid (list Z)} `{BF : Bloom Cid}.

(** ** Shared state and tasks *)

Record SharedStore : Type := mkShared {
  ss_disk : Disk;
  ss_cache : lru (K := Cid) (V := list Z);
  ss_bloom : CidBloomFilter;
  ss_metrics : StoreMetrics;
  ss_sender : bool;
  ss_events : list Cid;
}.

(** The store as one value: what a restart and the atomic operations see. *)
Definition snapshot_of (s : SharedStore) : ObjStore :=
  mkStore (disk_files (ss_disk s)) (ss_cache s) (ss_bloom s) (ss_metrics s) (ss_sender s) (ss_events s).

Definition ss_count (s : SharedStore) (f : StoreMetrics -> StoreMetrics) : SharedStore :=
  mkShared (ss_disk s) (ss_cache s) (ss_bloom s) (f (ss_metrics s)) (ss_sender s) (ss_events s).
Definition ss_with_disk (s : SharedStore) (D : Disk) : SharedStore :=
  mkShared D (ss_cache s) (ss_bloom s) (ss_metrics s) (ss_sender s) (ss_events s).
Definition ss_with_cache (s : SharedStore) (c : lru (K := Cid) (V := list Z)) : SharedStore :=
  mkShared (ss_disk s) c (ss_bloom s) (ss_metrics s) (ss_sender s) (ss_events s).
Definition ss_with_bloom (s : SharedStore) (b : CidBloomFilter) : SharedStore :=
  mkShared (ss_disk s) (ss_cache s) b (ss_metrics s) (ss_sender s) (ss_events s).
Definition ss_send (s : SharedStore) (c : Cid) : SharedStore :=
  if ss_sender s then mkShared (ss_disk s) (ss_cache s) (ss_bloom s) (ss_metrics s) true (ss_events s ++ [c]) else s.

(** Where an operation is.  [put] holds the inode it writes and its offset, [get]
    the inode it reads and the bytes read so far. *)
Inductive store_task : Type :=
| PutStart (d : list Z)
| PutStat (d : list Z)
| PutCreate (d : list Z)
| PutWrite (d : list Z) (i off : nat)
| PutRename (d : list Z)
| PutCleanup (d : list Z)
| PutBloom (d : list Z)
| PutCache (d : list Z)
| PutEvent (d : list Z)
| PutDone (d : list Z) (r : result Cid ObjError)
| GetStart (c : Cid)
| GetBloom (c : Cid)
| GetOpen (c : Cid)
| GetRead (c : Cid) (i : nat) (acc : list Z)
| GetCache (c : Cid) (d : list Z)
| GetDone (c : Cid) (r : result (option (list Z)) ObjError)
| HasStart (c : Cid)
| HasStat (c : Cid)
| HasDone (c : Cid) (b : bool)
| DelStart (c : Cid)
| DelCache (c : Cid)
| DelDone (c : Cid) (r : result bool ObjError).

Definition named (s : SharedStore) (p : path) : bool := bool_decide (is_Some (names (ss_disk s) !! p)).

Definition write_error (enospc : bool) : ObjError := if enospc then StoreFull else ObjIoError.

(** One access of [put].  A failing [metadata] call reads as an absent file. *)
Definition put_step (s : SharedStore) (t : store_task) (io : io_answer) : SharedStore * store_task :=
  match t with
  | PutStart d =>
      let s := ss_count s count_put in
      (s, if probably_contains (ss_bloom s) (cid_from_data d) then PutStat d else PutCreate d)
  | PutStat d =>
      let found := match io with IoGo _ => named s (shard_path (cid_from_data d)) | IoFail _ => false end in
      (s, if found then PutDone d (Ok (cid_from_data d)) else PutCreate d)
  | PutCreate d =>
      match io with
      | IoGo _ =>
          let '(D, i) := disk_create (ss_disk s) (tmp_path (shard_path (cid_from_data d))) in
          (ss_with_disk s D, PutWrite d i 0)
      | IoFail e => (s, PutDone d (Err (write_error e)))
      end
  | PutWrite d i off =>
      match drop off d with
      | [] => (s, PutRename d)
      | rest =>
          match io with
          | IoGo n =>
              let b := take (S n) rest in
              (ss_with_disk s (disk_write (ss_disk s) i off b), PutWrite d i (off + length b))
          | IoFail e => (s, PutDone d (Err (write_error e)))
          end
      end
  | PutRename d =>
      let dest := shard_path (cid_from_data d) in
      match io, disk_rename (ss_disk s) (tmp_path dest) dest with
      | IoGo _, Some D => (ss_with_disk s D, PutBloom d)
      | _, _ => (s, PutCleanup d)
      end
  | PutCleanup d =>
      let D := match io with IoGo _ => disk_unlink (ss_disk s) (tmp_path (shard_path (cid_from_data d))) | IoFail _ => None end in
      (ss_with_disk s (default (ss_disk s) D), PutDone d (Err ObjIoError))
  | PutBloom d => (ss_with_bloom s (bloom_insert (ss_bloom s) (cid_from_data d)), PutCache d)
  | PutCache d => (ss_with_cache s (lru_put (cid_from_data d) d (ss_cache s)), PutEvent d)
  | PutEvent d => (ss_send s (cid_from_data d), PutDone d (Ok (cid_from_data d)))
  | t => (s, t)
  end.

Definition get_step (s : SharedStore) (t : store_task) (io : io_answer) : SharedStore * store_task :=
  match t with
  | GetStart c =>
      let s := ss_count s count_get in
      match lru_get c (ss_cache s) with
      | (Some bytes, cache') => (ss_count (ss_with_cache s cache') count_hit, GetDone c (Ok (Some bytes)))
      | (None, cache') => (ss_count (ss_with_cache s cache') count_miss, GetBloom c)
      end
  | GetBloom c => (s, if probably_contains (ss_bloom s) c then GetOpen c else GetDone c (Ok None))
  | GetOpen c =>
      match io with
      | IoFail _ => (s, GetDone c (Err ObjIoError))
      | IoGo _ =>
          match names (ss_disk s) !! shard_path c with
          | None => (ss_count s count_false_positive, GetDone c (Ok None))
          | Some i => (s, GetRead c i [])
          end
      end
  | GetRead c i acc =>
      match io with
      | IoFail _ => (s, GetDone c (Err ObjIoError))
      | IoGo n =>
          match drop (length acc) (contents (ss_disk s) i) with
          | [] =>
              let actual_cid := cid_from_data acc in
              if bool_decide (actual_cid = c) then (s, GetCache c acc)
              else (ss_count s count_violation, GetDone c (Err (IntegrityViolation c actual_cid)))
          | rest => (s, GetRead c i (acc ++ take (S n) rest))
          end
      end
  | GetCache c d => (ss_with_cache s (lru_put c d (ss_cache s)), GetDone c (Ok (Some d)))
  | t => (s, t)
  end.

Definition has_step (s : SharedStore) (t : store_task) (io : io_answer) : SharedStore * store_task :=
  match t with
  | HasStart c => (s, if probably_contains (ss_bloom s) c then HasStat c else HasDone c false)
  | HasStat c => (s, HasDone c (match io with IoGo _ => named s (shard_path c) | IoFail _ => false end))
  | t => (s, t)
  end.

Definition del_step (s : SharedStore) (t : store_task) (io : io_answer) : SharedStore * store_task :=
  match t with
  | DelStart c =>
      match io with
      | IoFail _ => (s, DelDone c (Err ObjIoError))
      | IoGo _ =>
          match disk_unlink (ss_disk s) (shard_path c) with
          | Some D => (ss_with_disk s D, DelCache c)
          | None => (s, DelDone c (Ok false))
          end
      end
  | DelCache c => (ss_with_cache s (lru_pop c (ss_cache s)).2, DelDone c (Ok true))
  | t => (s, t)
  end.

Definition store_step (s : SharedStore) (t : store_task) (io : io_answer) : SharedStore * store_task :=
  match t with
  | PutStart _ | PutStat _ | PutCreate _ | PutWrite _ _ _ | PutRename _ | PutCleanup _ | PutBloom _ | PutCache _ | PutEvent _ | PutDone _ _ =>
      put_step s t io
  | GetStart _ | GetBloom _ | GetOpen _ | GetRead _ _ _ | GetCache _ _ | GetDone _ _ => get_step s t io
  | HasStart _ | HasStat _ | HasDone _ _ => has_step s t io
  | DelStart _ | DelCache _ | DelDone _ _ => del_step s t io
  end.

(** [ContentAddressedStore::new] on the directory a process left behind; one that fails
    leaves everything as it is and is not a step. *)
Definition reopen (s : SharedStore) (cache_capacity : nat) : SharedStore :=
  let o := store_over (disk_files (ss_disk s)) cache_capacity in
  mkShared (ss_disk s) (cache o) (obj_bloom o) (obj_metrics o) (has_sender o) (events o).

(** ** Interleavings

    Clients start operations, tasks make their accesses in any order, and the process
    may die at any moment and be started again over its directory. *)

(** The calls that clients may make. *)
Definition starting (t : store_task) : Prop :=
  match t with
  | PutStart d => bytes d
  | GetStart c | HasStart c | DelStart c => cid_wf c
  | _ => False
  end.

Inductive sys_step : SharedStore * list store_task -> SharedStore * list store_task -> Prop :=
| sys_spawn s ts t : starting t -> sys_step (s, ts) (s, ts ++ [t])
| sys_run s ts k t io : ts !! k = Some t ->
    sys_step (s, ts) ((store_step s t io).1, <[k := (store_step s t io).2]> ts)
| sys_sender s ts : sys_step (s, ts) (mkShared (ss_disk s) (ss_cache s) (ss_bloom s) (ss_metrics s) true (ss_events s), ts)
| sys_crash s ts cap : sys_step (s, ts) (reopen s cap, []).

(** The content a running [put] is storing. *)
Definition storing (t : store_task) : option (list Z) :=
  match t with
  | PutStart d | PutStat d | PutCreate d | PutWrite d _ _ | PutRename d | PutCleanup d | PutBloom d | PutCache d | PutEvent d => Some d
  | _ => None
  end.

(** The content whose CID a task has found in, or added to, the filter. *)
Definition listed (t : store_task) : option (list Z) :=
  match t with PutStat d | PutCache d | PutEvent d | PutDone d (Ok _) => Some d | _ => None end.

Definition deleting (t : store_task) : bool :=
  match t with DelStart _ | DelCache _ | DelDone _ _ => true | _ => false end.

(** No content is stored twice at a time. *)
Definition exclusive (ts : list store_task) : Prop :=
  forall j k t u d e, ts !! j = Some t -> ts !! k = Some u -> storing t = Some d -> storing u = Some e ->
    cid_from_data d = cid_from_data e -> j = k.

Definition quiet_tasks (ts : list store_task) : Prop := exclusive ts /\ Forall (fun t => deleting t = false) ts.

(** Runs in which nothing is deleted, writers of one content take turns, and only
    [known] contents are stored. *)
Inductive orderly (known : list Z -> Prop) (a b : SharedStore * list store_task) : Prop :=
| orderly_step : sys_step a b -> quiet_tasks a.2 -> (forall k d, b.2 !! k = Some (PutStart d) -> known d) -> orderly known a b.

(** The store over an empty directory. *)
Definition fresh_store (cache_capacity : nat) : SharedStore :=
  reopen (mkShared (mkDisk ∅ ∅ 0) (lru_new 0) bloom_empty store_metrics_default false []) cache_capacity.

End Conc.

(** ** Files under their names *)

Lemma string_app_inj_r a b s : a +:+ s = b +:+ s -> a = b.
Proof.
  intros Heq. assert (String.length a = String.length b) as Hl.
  { apply (f_equal String.length) in Heq. rewrite !string_length_app in Heq. lia. }
  revert b Hl Heq. induction a as [|x a IH]; intros [|y b] Hl Heq; try done.
  change (String x (a +:+ s) = String y (b +:+ s)) in Heq. injection Heq as -> Heq. f_equal. apply IH; [by injection Hl|done].
Qed.

Section DiskFacts.
Context `{BL : Blake3Laws} `{HL : HexLaws} `{LL : LruLaws Cid (list Z)} `{BFL : BloomLaws Cid}.

Abbreviation tmp_of c := (tmp_path (shard_path c)).

Lemma tmp_of_inj c c' : cid_wf c -> cid_wf c' -> tmp_of c = tmp_of c' -> c = c'.
Proof.
  intros Hc Hc' [= Hp Hn]. apply shard_path_inj; [done..|]. unfold shard_path. f_equal; [done|].
  by apply string_app_inj_r in Hn.
Qed.

(** An inode that no writer can reach any more. *)
Definition sealed (D : Disk) (i : nat) (d : list Z) : Prop :=
  inodes D !! i = Some d /\ (i < next_inode D)%nat /\ forall c, cid_wf c -> names D !! tmp_of c <> Some i.

(** Object files are sealed inodes with the map's contents; the other names are
    temporaries, each with an inode of its own. *)
Record disk_ok (D : Disk) (M : gmap Cid (list Z)) : Prop := {
  dk_files c d : M !! c = Some d -> exists i, names D !! shard_path c = Some i /\ sealed D i d;
  dk_only p i : names D !! p = Some i ->
    (exists c d, p = shard_path c /\ M !! c = Some d) \/ (exists c, cid_wf c /\ p = tmp_of c);
  dk_inode p i : names D !! p = Some i -> (i < next_inode D)%nat /\ is_Some (inodes D !! i);
  dk_tmp c p i : cid_wf c -> names D !! tmp_of c = Some i -> names D !! p = Some i -> p = tmp_of c;
  dk_hash c d : M !! c = Some d -> cid_from_data d = c;
}.

Lemma disk_ok_wf D M c : disk_ok D M -> is_Some (M !! c) -> cid_wf c.
Proof. intros Hok [d Hd]. rewrite <- (dk_hash D M Hok c d Hd). apply cid_from_data_wf. Qed.

(** A writer of [c] leaves everything else alone. *)
Record framed (c : Cid) (D D' : Disk) : Prop := {
  fr_names p : p <> tmp_of c -> p <> shard_path c -> names D' !! p = names D !! p;
  fr_inodes i : (i < next_inode D)%nat -> names D !! tmp_of c <> Some i -> inodes D' !! i = inodes D !! i;
  fr_next : (next_inode D <= next_inode D')%nat;
  fr_tmp i : (i < next_inode D)%nat -> names D' !! tmp_of c = Some i -> names D !! tmp_of c = Some i;
}.

Lemma framed_refl c D : framed c D D.
Proof. by split. Qed.

Lemma framed_tmp c c' D D' : cid_wf c -> cid_wf c' -> c <> c' -> framed c D D' -> names D' !! tmp_of c' = names D !! tmp_of c'.
Proof.
  intros Hc Hc' Hne Hf. apply (fr_names c D D' Hf).
  - intros Heq. apply Hne. symmetry. by apply tmp_of_inj.
  - intros Heq. symmetry in Heq. by apply shard_not_tmp in Heq.
Qed.

Lemma framed_sealed c D D' i d : cid_wf c -> framed c D D' -> sealed D i d -> sealed D' i d.
Proof.
  intros Hc Hf (Hi & Hlt & Ht). pose proof (fr_next c D D' Hf). split_and!; [|lia|].
  - rewrite (fr_inodes c D D' Hf); [done|done|by apply Ht].
  - intros c' Hc' Hn. destruct (decide (c = c')) as [<-|Hne].
    + by apply (Ht c Hc), (fr_tmp c D D' Hf i Hlt).
    + apply (Ht c' Hc'). by rewrite <- (framed_tmp c c' D D').
Qed.

(** Changes of a temporary and of the inode behind it. *)
Lemma disk_ok_tmp c D D' M :
  cid_wf c -> disk_ok D M -> framed c D D' -> names D' !! shard_path c = names D !! shard_path c ->
  (forall i, names D' !! tmp_of c = Some i -> (i < next_inode D')%nat /\ is_Some (inodes D' !! i) /\
     forall p, names D' !! p = Some i -> p = tmp_of c) ->
  disk_ok D' M.
Proof.
  intros Hc Hok Hf Hsh Ht. pose proof (fr_next c D D' Hf) as Hnx.
  assert (forall p, p <> tmp_of c -> names D' !! p = names D !! p) as Hother.
  { intros p Hp. destruct (decide (p = shard_path c)) as [->|Hne]; [done|by apply (fr_names c D D' Hf)]. }
  split.
  - intros c' d Hd. destruct (dk_files D M Hok c' d Hd) as (i & Hn & Hs). exists i. split; [|by apply (framed_sealed c D)].
    rewrite Hother; [done|]. intros Heq. rewrite Heq in Hn. destruct Hs as (_ & _ & Hs). by apply (Hs c Hc).
  - intros p i Hp. destruct (decide (p = tmp_of c)) as [->|Hne]; [right; by exists c|]. rewrite Hother in Hp by done.
    by apply (dk_only D M Hok p i).
  - intros p i Hp. destruct (decide (p = tmp_of c)) as [->|Hne]; [by destruct (Ht i Hp) as (? & ? & _)|].
    rewrite Hother in Hp by done. destruct (dk_inode D M Hok p i Hp) as [Hlt Hi]. split; [lia|].
    destruct (decide (names D !! tmp_of c = Some i)) as [Htc|Htc].
    + by pose proof (dk_tmp D M Hok c p i Hc Htc Hp).
    + by rewrite (fr_inodes c D D' Hf).
  - intros c' p i Hc' Hn Hp. destruct (decide (tmp_of c' = tmp_of c)) as [Heq|Hne].
    { rewrite Heq in Hn |- *. by destruct (Ht i Hn) as (_ & _ & Hu); apply Hu. }
    destruct (decide (p = tmp_of c)) as [->|Hne'].
    { destruct (Ht i Hp) as (_ & _ & Hu). by apply Hu in Hn. }
    rewrite Hother in Hn, Hp by done. by apply (dk_tmp D M Hok c' p i).
  - apply Hok.
Qed.

Lemma create_ok c D M :
  cid_wf c -> disk_ok D M ->
  let '(D', i) := disk_create D (tmp_of c) in
  disk_ok D' M /\ framed c D D' /\ names D' !! tmp_of c = Some i /\ inodes D' !! i = Some [].
Proof.
  intros Hc Hok. pose proof (shard_not_tmp c c Hc Hc) as Hne. unfold disk_create.
  destruct (names D !! tmp_of c) as [i|] eqn:E.
  - assert (framed c D (mkDisk (names D) (<[i := []]> (inodes D)) (next_inode D))) as Hf.
    { split; cbn; try done. intros j Hj Hn. rewrite lookup_insert_ne; [done|congruence]. }
    split_and!; [|done|done|cbn; by rewrite lookup_insert_eq].
    apply (disk_ok_tmp c D); [done..|]. cbn. intros j Hj. assert (j = i) as -> by congruence.
    destruct (dk_inode D M Hok _ i E) as [Hlt _]. rewrite lookup_insert_eq. split_and!; [done|by eexists|].
    intros p Hp. by apply (dk_tmp D M Hok c p i).
  - set (i := next_inode D). assert (framed c D (mkDisk (<[tmp_of c := i]> (names D)) (<[i := []]> (inodes D)) (S i))) as Hf.
    { split; cbn.
      - intros p Hp _. by rewrite lookup_insert_ne.
      - intros j Hj _. rewrite lookup_insert_ne; [done|]. unfold i. lia.
      - unfold i. lia.
      - intros j Hj. rewrite lookup_insert_eq. intros [= <-]. subst i. lia. }
    split_and!; [|done|cbn; by rewrite lookup_insert_eq..].
    apply (disk_ok_tmp c D); [done|done|done|cbn; by rewrite lookup_insert_ne|]. cbn. intros j. rewrite lookup_insert_eq.
    intros [= <-]. rewrite lookup_insert_eq. split_and!; [lia|by eexists|]. intros p Hp.
    destruct (decide (p = tmp_of c)) as [->|Hp']; [done|]. rewrite lookup_insert_ne in Hp by done.
    destruct (dk_inode D M Hok p i Hp) as [Hlt _]. unfold i in Hlt. lia.
Qed.

Lemma write_ok c D M i off b old :
  cid_wf c -> disk_ok D M -> names D !! tmp_of c = Some i -> inodes D !! i = Some old ->
  let D' := disk_write D i off b in
  disk_ok D' M /\ framed c D D' /\ names D' !! tmp_of c = Some i /\ inodes D' !! i = Some (pwrite off b old).
Proof.
  intros Hc Hok Hn Hi. cbn zeta. unfold disk_write, contents. rewrite Hi. cbn [default].
  assert (framed c D (mkDisk (names D) (<[i := pwrite off b old]> (inodes D)) (next_inode D))) as Hf.
  { split; cbn; try done. intros j Hj Hnj. rewrite lookup_insert_ne; [done|congruence]. }
  split_and!; [|done|done|cbn; by rewrite lookup_insert_eq].
  apply (disk_ok_tmp c D); [done..|]. cbn. intros j Hj. assert (j = i) as -> by congruence.
  destruct (dk_inode D M Hok _ i Hn) as [Hlt _]. rewrite lookup_insert_eq. split_and!; [done|by eexists|].
  intros p Hp. by apply (dk_tmp D M Hok c p i).
Qed.

Lemma unlink_tmp_ok c D M D' :
  cid_wf c -> disk_ok D M -> disk_unlink D (tmp_of c) = Some D' -> disk_ok D' M /\ framed c D D'.
Proof.
  intros Hc Hok. pose proof (shard_not_tmp c c Hc Hc) as Hne. unfold disk_unlink.
  destruct (names D !! tmp_of c) as [i|] eqn:E; [|done]. intros [= <-].
  assert (framed c D (mkDisk (delete (tmp_of c) (names D)) (inodes D) (next_inode D))) as Hf.
  { split; cbn; try done; [intros p Hp _; by rewrite lookup_delete_ne|intros j _; by rewrite lookup_delete_eq]. }
  split; [|done]. apply (disk_ok_tmp c D); [done|done|done|cbn; by rewrite lookup_delete_ne|].
  cbn. intros j. by rewrite lookup_delete_eq.
Qed.

(** The rename publishes the object, also over an equal one. *)
Lemma rename_ok c D M i d :
  cid_wf c -> disk_ok D M -> names D !! tmp_of c = Some i -> inodes D !! i = Some d -> cid_from_data d = c ->
  exists D', disk_rename D (tmp_of c) (shard_path c) = Some D' /\ disk_ok D' (<[c := d]> M) /\ framed c D D'.
Proof.
  intros Hc Hok Hn Hi Hd. pose proof (shard_not_tmp c c Hc Hc) as Hne. unfold disk_rename. rewrite Hn. eexists. split; [done|].
  set (D' := mkDisk _ _ _).
  assert (framed c D D') as Hf.
  { split; cbn; try done.
    - intros p Hp Hp'. by rewrite lookup_insert_ne, lookup_delete_ne.
    - intros j _. by rewrite lookup_insert_ne, lookup_delete_eq. }
  split; [|done].
  assert (forall p j, names D' !! p = Some j -> p = shard_path c /\ j = i \/ p <> shard_path c /\ p <> tmp_of c /\ names D !! p = Some j) as Hnm.
  { intros p j. cbn. destruct (decide (p = shard_path c)) as [->|Hp]; [rewrite lookup_insert_eq; intros [= ->]; by left|].
    rewrite lookup_insert_ne by done. intros [Hp' Hj]%lookup_delete_Some. by right. }
  split.
  - intros c' d'. destruct (decide (c = c')) as [<-|Hcc].
    + rewrite lookup_insert_eq. intros [= <-]. exists i. split; [cbn; by rewrite lookup_insert_eq|].
      split_and!; [done|by apply (dk_inode D M Hok _ i Hn)|]. intros c' Hc' Hj.
      destruct (Hnm _ _ Hj) as [[Hp _]|(_ & Hp & Hp')]; [symmetry in Hp; by apply shard_not_tmp in Hp|].
      apply Hp. by apply (dk_tmp D M Hok c (tmp_of c') i).
    + rewrite lookup_insert_ne by done. intros Hd'. destruct (dk_files D M Hok c' d' Hd') as (j & Hj & Hs).
      exists j. split; [|by apply (framed_sealed c D)]. cbn. rewrite lookup_insert_ne, lookup_delete_ne; [done| |].
      * intros Heq. rewrite <- Heq in Hj. destruct Hs as (_ & _ & Hs). by apply (Hs c Hc).
      * intros Heq. apply Hcc. apply shard_path_inj; [done| |done]. apply (disk_ok_wf D M); [done|by eexists].
  - intros p j Hj. destruct (Hnm p j Hj) as [[-> ->]|(Hp & Hp' & Hj')].
    + left. exists c, d. by rewrite lookup_insert_eq.
    + destruct (dk_only D M Hok p j Hj') as [(c' & d' & -> & Hd')|Ht]; [left|by right]. exists c', d'. split; [done|].
      rewrite lookup_insert_ne; [done|]. congruence.
  - intros p j Hj. destruct (Hnm p j Hj) as [[-> ->]|(_ & _ & Hj')]; [by apply (dk_inode D M Hok (tmp_of c) i)|by apply (dk_inode D M Hok p j)].
  - intros c' p j Hc' Ht Hp. destruct (Hnm _ _ Ht) as [[Heq _]|(_ & Hnt & Ht')]; [symmetry in Heq; by apply shard_not_tmp in Heq|].
    destruct (Hnm _ _ Hp) as [[-> ->]|(_ & _ & Hp')]; [|by apply (dk_tmp D M Hok c' p j)].
    exfalso. apply Hnt. by apply (dk_tmp D M Hok c (tmp_of c') i).
  - intros c' d' [[<- <-]|[_ Hd']]%lookup_insert_Some; [done|by apply (dk_hash D M Hok)].
Qed.

End DiskFacts.

(** ** The invariant of orderly runs *)

Section Interleaved.
Context `{BL : Blake3Laws} `{HL : HexLaws} `{LL : LruLaws Cid (list Z)} `{BFL : BloomLaws Cid}.

(** The contents that clients store; their hashes do not collide. *)
Context (known : list Z -> Prop).
Context (Hinj : forall d e, known d -> known e -> cid_from_data d = cid_from_data e -> d = e).

Abbreviation tmp_of c := (tmp_path (shard_path c)).

(** What a task has done so far. *)
Definition task_good (D : Disk) (M : gmap Cid (list Z)) (t : store_task) : Prop :=
  match t with
  | PutWrite d i off => names D !! tmp_of (cid_from_data d) = Some i /\ inodes D !! i = Some (take off d) /\ (off <= length d)%nat
  | PutRename d => exists i, names D !! tmp_of (cid_from_data d) = Some i /\ inodes D !! i = Some d
  | PutBloom d | PutCache d | PutEvent d => M !! cid_from_data d = Some d
  | PutDone d (Ok c) => c = cid_from_data d /\ M !! c = Some d
  | GetRead c i acc => exists d, M !! c = Some d /\ sealed D i d /\ acc `prefix_of` d
  | GetCache c d => M !! c = Some d
  | GetDone c (Ok (Some d)) => M !! c = Some d
  | GetDone c (Err e) => e = ObjIoError
  | HasDone c true => is_Some (M !! c)
  | _ => True
  end.

Definition task_wf (t : store_task) : Prop :=
  (forall d, storing t = Some d -> known d) /\
  match t with
  | GetStart c | GetBloom c | GetOpen c | GetRead c _ _ | GetCache c _ | HasStart c | HasStat c => cid_wf c
  | _ => True
  end.

Record sys_inv (s : SharedStore) (ts : list store_task) (M : gmap Cid (list Z)) : Prop := {
  iv_disk : disk_ok (ss_disk s) M;
  iv_known c d : M !! c = Some d -> known d;
  iv_bloom c : is_Some (M !! c) ->
    probably_contains (ss_bloom s) c = true \/ exists k d, ts !! k = Some (PutBloom d) /\ cid_from_data d = c;
  iv_cache c d : lru_peek c (ss_cache s) = Some d -> M !! c = Some d;
  iv_tasks k t : ts !! k = Some t -> task_good (ss_disk s) M t /\ task_wf t;
  iv_listed k t d : ts !! k = Some t -> listed t = Some d -> probably_contains (ss_bloom s) (cid_from_data d) = true;
}.

(** What one access of a task may do. *)
Record step_effect (s : SharedStore) (t : store_task) (s' : SharedStore) (t' : store_task) (M M' : gmap Cid (list Z)) : Prop := {
  se_grows : M ⊆ M';
  se_disk : disk_ok (ss_disk s') M';
  se_known c d : M' !! c = Some d -> known d;
  se_cache c d : lru_peek c (ss_cache s') = Some d -> M' !! c = Some d;
  se_good : task_good (ss_disk s') M' t';
  se_frame : ss_disk s' = ss_disk s \/ exists d, storing t = Some d /\ framed (cid_from_data d) (ss_disk s) (ss_disk s');
  se_bloom c : probably_contains (ss_bloom s) c = true -> probably_contains (ss_bloom s') c = true;
  se_listed d : t = PutBloom d -> probably_contains (ss_bloom s') (cid_from_data d) = true;
  se_found d : listed t' = Some d -> probably_contains (ss_bloom s') (cid_from_data d) = true;
  se_new c : is_Some (M' !! c) -> is_Some (M !! c) \/ exists d, t' = PutBloom d /\ cid_from_data d = c;
}.

(** A step that touches neither the files nor the map. *)
Lemma effect_same s ts M t s' t' :
  sys_inv s ts M -> ss_disk s' = ss_disk s -> (forall c d, lru_peek c (ss_cache s') = Some d -> M !! c = Some d) ->
  (forall c, probably_contains (ss_bloom s) c = true -> probably_contains (ss_bloom s') c = true) ->
  (forall d, t = PutBloom d -> probably_contains (ss_bloom s') (cid_from_data d) = true) ->
  task_good (ss_disk s) M t' -> (forall d, listed t' = Some d -> probably_contains (ss_bloom s') (cid_from_data d) = true) ->
  step_effect s t s' t' M M.
Proof.
  intros Hi HD Hc Hb Hl Hg Hf. split; rewrite ?HD; try done; try apply Hi; [by left|by left].
Qed.

(** A writer's step that leaves the map alone. *)
Lemma effect_write s ts M t d D' t' :
  sys_inv s ts M -> storing t = Some d -> disk_ok D' M -> framed (cid_from_data d) (ss_disk s) D' ->
  (forall e, t <> PutBloom e) -> task_good D' M t' -> listed t' = None -> step_effect s t (ss_with_disk s D') t' M M.
Proof.
  intros Hi Hst HD Hf Ht Hg Hn. split; cbn; try done; try apply Hi; [right; by exists d| |congruence|by left].
  intros e ->. by destruct (Ht e).
Qed.

Lemma pwrite_next d off n :
  (off <= length d)%nat -> pwrite off (take (S n) (drop off d)) (take off d) = take (off + length (take (S n) (drop off d))) d.
Proof.
  intros Hoff. set (b := take (S n) (drop off d)). unfold pwrite.
  assert (length (take off d) = off) as Hl by (by apply length_take_le). rewrite Hl, Nat.sub_diag. cbn [replicate].
  rewrite app_nil_r, take_take, Nat.min_id, (drop_ge (take off d)) by lia. rewrite app_nil_r.
  assert (b = take (length b) (drop off d)) as Hb.
  { unfold b at 2. rewrite length_take. unfold b. destruct (decide (S n <= length (drop off d))%nat); [by rewrite Nat.min_l|].
    rewrite Nat.min_r by lia. by rewrite !take_ge by lia. }
  rewrite Hb at 1. apply take_take_drop.
Qed.

Lemma put_effect s ts M k t io d :
  sys_inv s ts M -> ts !! k = Some t -> storing t = Some d ->
  exists M', step_effect s t (put_step s t io).1 (put_step s t io).2 M M'.
Proof.
  intros Hi Hk Hst. destruct (iv_tasks s ts M Hi k t Hk) as [Hg [Hw _]]. specialize (Hw d Hst).
  pose proof (cid_from_data_wf d) as Hc. pose proof (iv_disk s ts M Hi) as HD.
  assert (forall t', task_good (ss_disk s) M t' -> (forall e, t <> PutBloom e) ->
    (forall e, listed t' = Some e -> probably_contains (ss_bloom s) (cid_from_data e) = true) -> step_effect s t s t' M M) as Hstay.
  { intros t' Hg' Ht Hl. apply (effect_same s ts); try done; [apply Hi|]. intros e ->. by destruct (Ht e). }
  pose proof (fun e => iv_listed s ts M Hi k t e Hk) as Hlist.
  destruct t as [e|e|e|e i off|e|e|e|e|e|e r| | | | | | | | | | | |]; try done; injection Hst as ->; cbn [put_step].
  - exists M. cbn [fst snd ss_bloom ss_count]. destruct (probably_contains _ _) eqn:Eb; apply (effect_same s ts); try done; try apply Hi.
    by intros e [= <-].
  - exists M. cbn [fst snd]. apply Hstay; [|done|destruct (match io with IoGo _ => _ | _ => _ end); [exact Hlist|done]].
    destruct io as [n|e]; [|done]. unfold named. case_bool_decide as Hn; [|done]. destruct Hn as [i Hn]. split; [done|].
    destruct (dk_only _ M HD _ i Hn) as [(c & d0 & Hp & Hd0)|(c & Hcw & Hp)]; [|by apply shard_not_tmp in Hp].
    apply shard_path_inj in Hp; [|done|by apply (disk_ok_wf _ M c HD); eexists]. rewrite Hp, Hd0. f_equal.
    apply Hinj; [by apply (iv_known s ts M Hi c)|done|]. by rewrite (dk_hash _ M HD c d0 Hd0).
  - destruct io as [n|e]; [|exists M; by apply Hstay]. exists M.
    pose proof (create_ok (cid_from_data d) (ss_disk s) M Hc HD) as Hcr. destruct (disk_create _ _) as [D' i].
    destruct Hcr as (HD' & Hf & Hn & Hin). cbn [fst snd]. apply (effect_write s ts M _ d); try done.
    split_and!; [done|done|lia].
  - destruct Hg as (Hn & Hin & Hoff). destruct (drop off d) as [|x rest] eqn:Er.
    { exists M. apply Hstay; [|done|done]. exists i. split; [done|]. rewrite Hin. f_equal. apply take_ge.
      apply (f_equal length) in Er. rewrite length_drop in Er. cbn in Er. lia. }
    destruct io as [n|e]; [|exists M; by apply Hstay]. exists M. rewrite <- Er. clear x rest Er. set (b := take (S n) (drop off d)).
    destruct (write_ok (cid_from_data d) (ss_disk s) M i off b (take off d) Hc HD Hn Hin) as (HD' & Hf & Hn' & Hin').
    cbn [fst snd]. apply (effect_write s ts M _ d); try done. split_and!; [done| |].
    + rewrite Hin'. f_equal. by apply pwrite_next.
    + unfold b. rewrite length_take, length_drop. lia.
  - destruct Hg as (i & Hn & Hin). destruct (rename_ok (cid_from_data d) (ss_disk s) M i d Hc HD Hn Hin eq_refl) as (D' & HR & HD' & Hf).
    rewrite HR. destruct io as [n|e]; [|exists M; by apply Hstay]. exists (<[cid_from_data d := d]> M). cbn [fst snd].
    assert (M ⊆ <[cid_from_data d := d]> M) as Hsub.
    { destruct (M !! cid_from_data d) as [d0|] eqn:E; [|by apply insert_subseteq].
      assert (d0 = d) as ->; [|by rewrite insert_id].
      apply Hinj; [by apply (iv_known s ts M Hi _ d0 E)|done|]. by apply (dk_hash _ M HD). }
    split; cbn; try done.
    + intros c d' [[<- <-]|[_ Hd']]%lookup_insert_Some; [done|by apply (iv_known s ts M Hi c)].
    + intros c d' Hp. eapply lookup_weaken; [|exact Hsub]. by apply (iv_cache s ts M Hi).
    + by rewrite lookup_insert_eq.
    + right. by exists d.
    + intros c [d' Hd']. apply lookup_insert_Some in Hd' as [[<- _]|[_ Hd']]; [right; by exists d|left; by eexists].
  - exists M. cbn [fst snd]. destruct io as [n|e]; cbn [default]; [|apply (effect_write s ts M _ d); try done; apply framed_refl].
    destruct (disk_unlink (ss_disk s) _) as [D'|] eqn:E; cbn [default id]; [|apply (effect_write s ts M _ d); try done; apply framed_refl].
    destruct (unlink_tmp_ok (cid_from_data d) (ss_disk s) M D' Hc HD E) as [HD' Hf]. by apply (effect_write s ts M _ d).
  - exists M. apply (effect_same s ts); try done; [apply Hi| | |].
    + intros c Hp. by apply bloom_set_mono.
    + intros e [= <-]. apply bloom_set_check.
    + intros e [= <-]. apply bloom_set_check.
  - exists M. apply (effect_same s ts); try done. intros c d'. cbn. intros [[-> ->]|[_ Hp]]%lru_put_inv; [done|by apply (iv_cache s ts M Hi)].
  - exists M. assert (ss_disk (ss_send s (cid_from_data d)) = ss_disk s /\ ss_cache (ss_send s (cid_from_data d)) = ss_cache s /\
      ss_bloom (ss_send s (cid_from_data d)) = ss_bloom s) as (Hd & Hca & Hb) by (unfold ss_send; by destruct (ss_sender s)).
    cbn [fst snd]. apply (effect_same s ts); rewrite ?Hca, ?Hb; try done; try apply Hi.
Qed.

Lemma get_effect s ts M k t io :
  sys_inv s ts M -> ts !! k = Some t -> storing t = None -> deleting t = false ->
  exists M', step_effect s t (store_step s t io).1 (store_step s t io).2 M M'.
Proof.
  intros Hi Hk Hst Hdel. destruct (iv_tasks s ts M Hi k t Hk) as [Hg [_ Hw]]. pose proof (iv_disk s ts M Hi) as HD.
  exists M. assert (forall t', task_good (ss_disk s) M t' -> listed t' = None \/ t' = t -> step_effect s t s t' M M) as Hstay.
  { intros t' Hg' Hl. apply (effect_same s ts); try done; [apply Hi|by intros e ->|].
    intros e He. destruct Hl as [Hl| ->]; [congruence|by apply (iv_listed s ts M Hi k t)]. }
  assert (forall f t', task_good (ss_disk s) M t' -> listed t' = None -> step_effect s t (ss_count s f) t' M M) as Hcount.
  { intros f t' Hg' Hl. apply (effect_same s ts); try done; [apply Hi|by intros e ->|congruence]. }
  destruct t as [| | | | | | | | |e r|c|c|c|c i acc|c d|c r|c|c|c b|c|c|c r]; try done; cbn [store_step get_step has_step fst snd].
  - apply Hstay; [done|by right].
  - cbn [ss_cache ss_count]. pose proof (lru_get_peek c (ss_cache s)) as Hpk. pose proof (fun k' => lru_get_keeps c k' (ss_cache s)) as Hkeep.
    destruct (lru_get c (ss_cache s)) as [o ca]. cbn in Hpk, Hkeep.
    assert (forall c' d', lru_peek c' ca = Some d' -> M !! c' = Some d') as Hca by (intros c' d'; rewrite Hkeep; apply Hi).
    destruct o as [d|]; cbn [fst snd]; apply (effect_same s ts); try done. symmetry in Hpk. by apply (iv_cache s ts M Hi).
  - apply Hstay; [by destruct (probably_contains _ _)|left; by destruct (probably_contains _ _)].
  - destruct io as [n|e]; [|by apply Hstay; [|left]]. destruct (names (ss_disk s) !! shard_path c) as [i|] eqn:E; cbn [fst snd]; [|by apply Hcount].
    apply Hstay; [|by left]. destruct (dk_only _ M HD _ i E) as [(c' & d & Hp & Hd)|(c' & Hcw & Hp)]; [|by apply shard_not_tmp in Hp].
    apply shard_path_inj in Hp as ->; [|done|by apply (disk_ok_wf _ M c' HD); eexists].
    exists d. split; [done|]. split; [|apply prefix_nil].
    destruct (dk_files _ M HD c' d Hd) as (j & Hj & Hs). congruence.
  - destruct io as [n|e]; [|by apply Hstay; [|left]]. destruct Hg as (d & Hd & Hs & [rest ->]). unfold contents.
    assert (inodes (ss_disk s) !! i = Some (acc ++ rest)) as Hin by apply Hs. rewrite Hin. cbn [default id]. rewrite drop_app_length.
    destruct rest as [|x rest]; cbn [fst snd].
    + rewrite app_nil_r in *. rewrite (dk_hash _ M HD c acc Hd), bool_decide_true by done. by apply Hstay; [|left].
    + apply Hstay; [|by left]. exists (acc ++ x :: rest). split_and!; [done|done|]. exists (drop n rest). rewrite <- app_assoc. f_equal. cbn. by rewrite take_drop.
  - apply (effect_same s ts); try done. intros c' d'. cbn. intros [[-> ->]|[_ Hp]]%lru_put_inv; [done|by apply (iv_cache s ts M Hi)].
  - apply Hstay; [done|by right].
  - apply Hstay; [by destruct (probably_contains _ _)|left; by destruct (probably_contains _ _)].
  - apply Hstay; [|by left]. destruct io as [n|e]; [|done]. unfold named. case_bool_decide as Hn; [|done]. destruct Hn as [i Hn]. cbn.
    destruct (dk_only _ M HD _ i Hn) as [(c' & d & Hp & Hd)|(c' & Hcw & Hp)]; [|by apply shard_not_tmp in Hp].
    apply shard_path_inj in Hp as ->; [by eexists|done|by apply (disk_ok_wf _ M c' HD); eexists].
  - apply Hstay; [done|by right].
Qed.

Lemma task_good_mono D M M' u : M ⊆ M' -> task_good D M u -> task_good D M' u.
Proof.
  intros Hsub. assert (forall c d, M !! c = Some d -> M' !! c = Some d) as Hw by (intros c d Hd; by eapply lookup_weaken).
  destruct u as [| | | | | | | | |d [c|e]| | | |c i acc|c d|c [[d|]|e]| | |c [|]| | |]; cbn; try done; auto.
  - intros [? ?]; auto.
  - intros (d & Hd & Hs). exists d. auto.
  - intros [d Hd]. exists d. auto.
Qed.

Lemma task_good_framed c D D' M u :
  cid_wf c -> disk_ok D M -> framed c D D' -> (forall e, storing u = Some e -> cid_from_data e <> c) ->
  task_good D M u -> task_good D' M u.
Proof.
  intros Hc HD Hf Hne. destruct u as [| | |e i off|e| | | | |d [x|x]| | | |x i acc|x d|x [[d|]|y]| | |x [|]| | |]; cbn in Hne |- *; try done.
  - specialize (Hne e eq_refl). intros (Hn & Hin & Hoff). pose proof (cid_from_data_wf e) as He.
    rewrite (framed_tmp c (cid_from_data e) D D') by done. split_and!; [done| |done].
    rewrite (fr_inodes c D D' Hf); [done|by apply (dk_inode D M HD _ i Hn)|]. intros Hi. apply Hne.
    symmetry. apply tmp_of_inj; [done..|]. symmetry. by apply (dk_tmp D M HD c (tmp_of (cid_from_data e)) i).
  - specialize (Hne e eq_refl). intros (i & Hn & Hin). exists i. pose proof (cid_from_data_wf e) as He.
    rewrite (framed_tmp c (cid_from_data e) D D') by done. split; [done|].
    rewrite (fr_inodes c D D' Hf); [done|by apply (dk_inode D M HD _ i Hn)|]. intros Hi. apply Hne.
    symmetry. apply tmp_of_inj; [done..|]. symmetry. by apply (dk_tmp D M HD c (tmp_of (cid_from_data e)) i).
  - intros (d & Hd & Hs & Hp). exists d. split_and!; [done|by apply (framed_sealed c D)|done].
Qed.

Lemma step_wf s t io : task_wf t -> deleting t = false -> task_wf (store_step s t io).2.
Proof.
  intros Hw Hdel. destruct t as [d|d|d|d i off|d|d|d|d|d|d r|c|c|c|c i acc|c d|c r|c|c|c b|c|c|c r]; try done;
    cbn [store_step put_step get_step has_step fst snd]; unfold task_wf in *; cbn in Hw; destruct Hw as [Hw Hc];
    repeat case_match; simplify_eq/=; split; try done; auto.
Qed.

Lemma effect_inv s ts M k t s' t' M' :
  sys_inv s ts M -> exclusive ts -> ts !! k = Some t -> step_effect s t s' t' M M' -> task_wf t' ->
  sys_inv s' (<[k := t']> ts) M'.
Proof.
  intros Hi Hex Hk He Hw. pose proof (lookup_lt_Some ts k t Hk) as Hlt. split; try apply He.
  - intros c Hc. destruct (se_new _ _ _ _ _ _ He c Hc) as [Hc0|(d & -> & <-)].
    + destruct (iv_bloom s ts M Hi c Hc0) as [Hb|(j & d & Hj & <-)]; [left; by apply (se_bloom _ _ _ _ _ _ He)|].
      destruct (decide (j = k)) as [->|Hne]; [left; apply (se_listed _ _ _ _ _ _ He); congruence|].
      right. exists j, d. by rewrite list_lookup_insert_ne.
    + right. exists k, d. by rewrite list_lookup_insert_eq.
  - intros j u Hj. apply list_lookup_insert_Some in Hj as [(<- & <- & _)|[Hne Hj]]; [split; [apply He|done]|].
    destruct (iv_tasks s ts M Hi j u Hj) as [Hg Hwu]. split; [|done].
    apply (task_good_mono _ M); [apply He|]. destruct (se_frame _ _ _ _ _ _ He) as [->|(d & Hst & Hf)]; [done|].
    apply (task_good_framed (cid_from_data d) (ss_disk s)); [apply cid_from_data_wf|apply Hi|done| |done].
    intros e Hu Heq. apply Hne. by apply (Hex k j t u d e).
  - intros j u d Hj Hu. apply list_lookup_insert_Some in Hj as [(<- & <- & _)|[Hne Hj]]; [by apply (se_found _ _ _ _ _ _ He)|].
    apply (se_bloom _ _ _ _ _ _ He). by apply (iv_listed s ts M Hi j u).
Qed.

(** A crash keeps the map: temporaries are ignored and the filter is rebuilt. *)
Lemma reopen_repr D M cap : disk_ok D M -> store_repr (store_over (disk_files D) cap) M.
Proof.
  intros HD. assert (forall c d, M !! c = Some d -> disk_files D !! shard_path c = Some d) as Hfiles.
  { intros c d Hd. destruct (dk_files D M HD c d Hd) as (i & Hn & Hin & _). unfold disk_files, contents.
    by rewrite lookup_fmap, Hn, <- Hin; cbn; rewrite Hin. }
  split; cbn.
  - exact Hfiles.
  - intros p d. unfold disk_files. rewrite lookup_fmap. destruct (names D !! p) as [i|] eqn:E; [|done]. cbn. intros [= <-].
    destruct (dk_only D M HD p i E) as [(c & d & -> & Hd)|Ht]; [left|by right]. exists c. split; [done|].
    destruct (dk_files D M HD c d Hd) as (j & Hj & Hin & _). assert (j = i) as -> by congruence. unfold contents. by rewrite Hin.
  - apply HD.
  - intros c [d Hd]. pose proof (disk_ok_wf D M c HD ltac:(by eexists)) as Hc. apply rebuild_contains, elem_of_walk.
    exists (shard_prefix c), (cid_to_string c), d. split_and!; [by apply shard_prefix_name|by apply Hfiles|by apply cid_string_roundtrip].
  - intros c d. by rewrite lru_peek_new.
Qed.

Lemma sys_step_inv s ts M s' ts' :
  sys_inv s ts M -> sys_step (s, ts) (s', ts') -> quiet_tasks ts ->
  (forall k d, ts' !! k = Some (PutStart d) -> known d) -> exists M', sys_inv s' ts' M' /\ M ⊆ M'.
Proof.
  intros Hi Hst [Hex Hdel] Hnew. inversion Hst as [? ? t Ht|? ? k t io Hk| |? ? cap]; subst; clear Hst.
  - exists M. split; [|done]. split; try apply Hi.
    + intros c Hc. destruct (iv_bloom _ _ M Hi c Hc) as [?|(k & d & Hk & Hd)]; [by left|]. right. exists k, d.
      split; [by apply lookup_app_l_Some|done].
    + intros k u Hk. apply lookup_app_Some in Hk as [Hk|[Hle Hk]]; [by apply (iv_tasks _ _ M Hi k)|].
      apply list_lookup_singleton_Some in Hk as [Hz <-]. destruct t as [d| | | | | | | | | |c| | | | | |c| | |c| |]; try done; split; try done.
      split; [|done]. cbn. intros e [= <-]. apply (Hnew k d). rewrite lookup_app_r by done. by rewrite Hz.
    + intros k u d Hk Hu. apply lookup_app_Some in Hk as [Hk|[Hle Hk]]; [by apply (iv_listed _ _ M Hi k u)|].
      apply list_lookup_singleton_Some in Hk as [_ <-]. by destruct t.
  - pose proof (proj1 (Forall_lookup _ _) Hdel k t Hk) as Hd. destruct (iv_tasks _ _ M Hi k t Hk) as [_ Hw].
    assert (exists M', step_effect s t (store_step s t io).1 (store_step s t io).2 M M') as [M' He].
    { destruct (storing t) as [d|] eqn:Est; [|by apply (get_effect s ts M k)].
      replace (store_step s t io) with (put_step s t io) by (by destruct t). by apply (put_effect s ts M k t io d). }
    exists M'. split; [|apply He]. apply (effect_inv s ts M k t); try done. by apply step_wf.
  - exists M. split; [|done]. destruct Hi. by split.
  - exists M. split; [|done]. pose proof (reopen_repr (ss_disk s) M cap (iv_disk _ _ M Hi)) as Hr. split; cbn.
    + apply Hi.
    + apply Hi.
    + intros c Hc. left. exact (sr_bloom _ M Hr c Hc).
    + exact (sr_cache _ M Hr).
    + done.
    + done.
Qed.

Lemma orderly_inv a b M :
  sys_inv a.1 a.2 M -> rtc (orderly known) a b -> exists M', sys_inv b.1 b.2 M' /\ M ⊆ M'.
Proof.
  intros Hi Hr. revert M Hi. induction Hr as [a|a b c Hst _ IH]; intros M Hi; [by exists M|].
  destruct Hst as [Hst Hq Hk]. destruct a as [s ts], b as [s' ts'].
  destruct (sys_step_inv s ts M s' ts' Hi Hst Hq Hk) as (M1 & Hi1 & Hs1). destruct (IH M1 Hi1) as (M2 & Hi2 & Hs2).
  exists M2. split; [done|by etransitivity].
Qed.

Lemma fresh_inv cap : sys_inv (fresh_store cap) [] ∅.
Proof.
  split; cbn.
  - split; cbn; intros p i; by rewrite lookup_empty.
  - intros c d. by rewrite lookup_empty.
  - intros c [d Hd]. by rewrite lookup_empty in Hd.
  - intros c d. by rewrite lru_peek_new.
  - done.
  - done.
Qed.


(** A read of [c] that has not missed it yet will not. *)
Definition not_missed (c : Cid) (ts : list store_task) : Prop := forall k, ts !! k <> Some (GetDone c (Ok None)).

Lemma get_finds s ts M c d k t io :
  sys_inv s ts M -> M !! c = Some d -> probably_contains (ss_bloom s) c = true -> ts !! k = Some t -> t <> GetDone c (Ok None) ->
  (store_step s t io).2 <> GetDone c (Ok None).
Proof.
  intros Hi Hd Hb Hk Hne Heq. destruct (iv_tasks s ts M Hi k t Hk) as [Hg _].
  assert (exists c', t = GetBloom c' \/ t = GetOpen c') as [c' Ht].
  { destruct t as [| | | | | | | | |e r|c'|c'|c'|c' i acc|c' d'|c' r|c'|c'|c' b|c'|c'|c' r]; try (by exists c'; auto); exfalso; revert Heq Hne;
      cbn [store_step put_step get_step has_step del_step fst snd]; repeat case_match; simplify_eq/=; congruence. }
  destruct Ht as [-> | ->]; cbn [store_step get_step snd] in Heq.
  - destruct (probably_contains (ss_bloom s) c') eqn:E; [done|]. injection Heq as ->. congruence.
  - destruct io as [n|e]; [|done]. destruct (names (ss_disk s) !! shard_path c') as [i|] eqn:E; [done|]. injection Heq as ->.
    destruct (dk_files _ M (iv_disk s ts M Hi) c d Hd) as (j & Hj & _). congruence.
Qed.

Lemma orderly_finds a b M c d :
  sys_inv a.1 a.2 M -> M !! c = Some d -> probably_contains (ss_bloom a.1) c = true -> not_missed c a.2 ->
  orderly known a b -> exists M', sys_inv b.1 b.2 M' /\ M' !! c = Some d /\ probably_contains (ss_bloom b.1) c = true /\ not_missed c b.2.
Proof.
  intros Hi Hd Hb Hm [Hst Hq Hk]. destruct a as [s ts], b as [s' ts']. cbn in *.
  destruct (sys_step_inv s ts M s' ts' Hi Hst Hq Hk) as (M' & Hi' & Hsub).
  exists M'. split; [done|]. split; [by eapply lookup_weaken|].
  inversion Hst as [? ? t Ht|? ? k t io Hkt| |? ? cap]; subst; clear Hst.
  - split; [done|]. intros k Hk'. apply lookup_app_Some in Hk' as [Hk'|[_ Hk']]; [by apply (Hm k)|].
    by apply list_lookup_singleton_Some in Hk' as [_ ->].
  - split.
    + destruct (iv_bloom _ _ M' Hi' c) as [?|(j & e & Hj & He)]; [eexists; by eapply lookup_weaken|done|].
      destruct (decide (j = k)) as [->|Hne].
      * assert (store_step s t io = (((store_step s t io).1), PutBloom e)) as Heq.
        { rewrite list_lookup_insert_eq in Hj by (by eapply lookup_lt_Some). injection Hj as <-. by destruct (store_step s t io). }
        destruct t as [| | | |e'| | | | | | | | | | | | | | | | |]; cbn [store_step put_step get_step has_step del_step] in Heq |- *;
          repeat case_match; simplify_eq/=; done.
      * rewrite list_lookup_insert_ne in Hj by done.
        assert (probably_contains (ss_bloom s) c = true -> probably_contains (ss_bloom (store_step s t io).1) c = true) as Hmono; [|by apply Hmono].
        destruct t as [| | | | | | | | | | | | | | | | | | | | |]; cbn [store_step put_step get_step has_step del_step]; unfold ss_send;
          repeat case_match; simplify_eq/=; try done. intros ?. by apply bloom_set_mono.
    + intros j Hj. apply list_lookup_insert_Some in Hj as [(-> & Heq & _)|[_ Hj]]; [|by apply (Hm j)].
      apply (get_finds s ts M c d j t io Hi Hd Hb Hkt); [|by rewrite Heq]. intros ->. by apply (Hm j).
  - done.
  - split; [|by intros k]. destruct (iv_bloom _ _ M' Hi' c) as [?|(j & e & Hj & He)]; [eexists; by eapply lookup_weaken|done|done].
Qed.

Lemma run_finds a b M c d :
  rtc (orderly known) a b -> sys_inv a.1 a.2 M -> M !! c = Some d -> probably_contains (ss_bloom a.1) c = true -> not_missed c a.2 ->
  exists M', sys_inv b.1 b.2 M' /\ M' !! c = Some d /\ not_missed c b.2.
Proof.
  intros Hr. revert M. induction Hr as [a|a b b' Hst _ IH]; intros M Hi Hd Hb Hm; [by exists M|].
  destruct (orderly_finds a b M c d Hi Hd Hb Hm Hst) as (M1 & Hi1 & Hd1 & Hb1 & Hm1). by apply (IH M1).
Qed.


End Interleaved.

(** ** Any interleaving *)

Section AnyRun.
Context `{BL : Blake3Laws} `{HL : HexLaws} `{LL : LruLaws Cid (list Z)} `{BFL : BloomLaws Cid}.

Definition read_verified (t : store_task) : Prop :=
  match t with GetCache c d | GetDone c (Ok (Some d)) => cid_from_data d = c | _ => True end.

Definition ss_verified (s : SharedStore) : Prop := forall c d, lru_peek c (ss_cache s) = Some d -> cid_from_data d = c.

Lemma put_cache_verified s c d :
  ss_verified s -> cid_from_data d = c -> ss_verified (ss_with_cache s (lru_put c d (ss_cache s))).
Proof. intros Hs Hd c' d' [[-> ->]|[_ Hp]]%lru_put_inv; [done|by apply Hs]. Qed.

Lemma step_verified s t io :
  ss_verified s -> read_verified t -> ss_verified (store_step s t io).1 /\ read_verified (store_step s t io).2.
Proof.
  intros Hs Ht. destruct t as [d|d|d|d i off|d|d|d|d|d|d r|c|c|c|c i acc|c d|c r|c|c|c b|c|c|c r];
    cbn [store_step put_step get_step has_step del_step fst snd]; try done.
  - by destruct (probably_contains _ _).
  - by destruct (match io with IoGo _ => _ | IoFail _ => _ end).
  - destruct io; [|done]. by destruct (disk_create _ _).
  - destruct (drop off d); [done|]. by destruct io.
  - destruct io; [|done]. by destruct (disk_rename _ _ _).
  - split; [|done]. by apply put_cache_verified.
  - split; [|done]. unfold ss_send. by destruct (ss_sender s).
  - cbn [ss_cache ss_count]. pose proof (lru_get_peek c (ss_cache s)) as Hpk. pose proof (fun k' => lru_get_keeps c k' (ss_cache s)) as Hkeep.
    destruct (lru_get c (ss_cache s)) as [[d|] ca]; cbn in Hpk, Hkeep |- *; (split; [intros c' d'; cbn; rewrite Hkeep; apply Hs|]); [|done].
    by apply Hs.
  - by destruct (probably_contains _ _).
  - destruct io; [|done]. by destruct (names (ss_disk s) !! shard_path c).
  - destruct io; [|done]. destruct (drop _ _); [|done]. by case_bool_decide.
  - split; [by apply put_cache_verified|done].
  - by destruct (probably_contains _ _).
  - destruct io; [|done]. by destruct (disk_unlink _ _).
  - split; [|done]. intros c' d' [_ Hp]%lru_pop_inv. by apply Hs.
Qed.

(** C19: Whatever runs at the same time, deletions and competing writers included, and
    whatever the directory held at the start: the bytes a read returns hash to the
    CID that was asked for. *)
Theorem concurrent_reads_verified s0 cap s ts k c d :
  rtc sys_step (reopen s0 cap, []) (s, ts) -> ts !! k = Some (GetDone c (Ok (Some d))) -> cid_from_data d = c.
Proof.
  intros Hr Hk. assert (forall a b, rtc sys_step a b -> ss_verified a.1 /\ Forall read_verified a.2 -> ss_verified b.1 /\ Forall read_verified b.2) as Hrun.
  { induction 1 as [a|a b b' Hst _ IH]; [done|]. intros [Hs Ht]. apply IH. clear IH.
    destruct Hst as [s1 ts1 t Hst|s1 ts1 j t io Hj|s1 ts1|s1 ts1 cap1]; cbn in *.
    - split; [done|]. apply Forall_app_2; [done|]. apply Forall_singleton. by destruct t.
    - destruct (step_verified s1 t io Hs (proj1 (Forall_lookup _ _) Ht j t Hj)) as [Hs' Ht']. split; [done|]. by apply Forall_insert.
    - done.
    - split; [|by apply Forall_nil_2]. intros c' d'. cbn. by rewrite lru_peek_new. }
  destruct (Hrun _ _ Hr) as [_ Ht]; [split; [intros c' d'; cbn; by rewrite lru_peek_new|by apply Forall_nil_2]|].
  exact (proj1 (Forall_lookup _ _) Ht k _ Hk).
Qed.

(** ** Races *)

(** Some interleaving brings the tasks to [ts]. *)
Definition reaches (a : SharedStore * list store_task) (ts : list store_task) : Prop := exists s, rtc sys_step a (s, ts).

Lemma reaches_here s ts : reaches (s, ts) ts.
Proof. by exists s. Qed.

Lemma call_one s ts t us : starting t -> reaches (s, ts ++ [t]) us -> reaches (s, ts) us.
Proof. intros Ht [s' Hr]. exists s'. eapply rtc_l; [by apply (sys_spawn s ts t)|done]. Qed.

Lemma run_one s ts k t io s' t' us :
  ts !! k = Some t -> store_step s t io = (s', t') -> reaches (s', <[k := t']> ts) us -> reaches (s, ts) us.
Proof. intros Hk Heq [b Hr]. exists b. eapply rtc_l; [by apply (sys_run s ts k t io)|]. by rewrite Heq. Qed.

(** Up to the temporary file, when the object is not there. *)
Lemma put_begins s ts k d us :
  ts !! k = Some (PutStart d) -> names (ss_disk s) !! shard_path (cid_from_data d) = None ->
  reaches (ss_count s count_put, <[k := PutCreate d]> ts) us -> reaches (s, ts) us.
Proof.
  intros Hk Hn Hr. destruct (probably_contains (ss_bloom s) (cid_from_data d)) eqn:Eb.
  - apply (run_one s ts k (PutStart d) (IoGo 0) (ss_count s count_put) (PutStat d)); [done|cbn; by rewrite Eb|].
    apply (run_one _ _ k (PutStat d) (IoGo 0) (ss_count s count_put) (PutCreate d)).
    + rewrite list_lookup_insert_eq; [done|by eapply lookup_lt_Some].
    + cbn. unfold named. cbn. by rewrite Hn.
    + by rewrite list_insert_insert_eq.
  - apply (run_one s ts k (PutStart d) (IoGo 0) (ss_count s count_put) (PutCreate d)); [done|cbn; by rewrite Eb|done].
Qed.

(** The contents go out in one call. *)
Lemma put_writes s ts k d i us :
  d <> [] -> ts !! k = Some (PutWrite d i 0) ->
  reaches (ss_with_disk s (disk_write (ss_disk s) i 0 d), <[k := PutRename d]> ts) us -> reaches (s, ts) us.
Proof.
  intros Hd Hk Hr. pose proof (lookup_lt_Some _ _ _ Hk) as Hlt.
  apply (run_one s ts k _ (IoGo (length d)) (ss_with_disk s (disk_write (ss_disk s) i 0 d)) (PutWrite d i (0 + length d)) us Hk).
  - cbn [store_step put_step]. rewrite drop_0. destruct d as [|x d]; [done|]. by rewrite take_ge by (cbn; lia).
  - apply (run_one _ _ k (PutWrite d i (0 + length d)) (IoGo 0) (ss_with_disk s (disk_write (ss_disk s) i 0 d)) (PutRename d)).
    + by apply list_lookup_insert_eq.
    + cbn [store_step put_step]. by rewrite drop_ge by lia.
    + by rewrite list_insert_insert_eq.
Qed.

(** A read that is not answered by the cache, of a listed name over inode [i]. *)
Lemma get_opens s ts k c i us :
  ts !! k = Some (GetStart c) -> lru_peek c (ss_cache s) = None -> probably_contains (ss_bloom s) c = true ->
  names (ss_disk s) !! shard_path c = Some i ->
  (forall ca m, (forall c', lru_peek c' ca = lru_peek c' (ss_cache s)) ->
    reaches (mkShared (ss_disk s) ca (ss_bloom s) m (ss_sender s) (ss_events s), <[k := GetRead c i []]> ts) us) ->
  reaches (s, ts) us.
Proof.
  intros Hk Hn Hb Hi Hr. pose proof (lookup_lt_Some _ _ _ Hk) as Hlt.
  pose proof (lru_get_peek c (ss_cache s)) as Hpk. pose proof (fun k' => lru_get_keeps c k' (ss_cache s)) as Hkeep.
  destruct (lru_get c (ss_cache s)) as [o ca] eqn:Eg. cbn in Hpk, Hkeep. rewrite Hn in Hpk. subst o.
  eapply (run_one s ts k _ (IoGo 0) _ (GetBloom c) us Hk); [cbn; by rewrite Eg|].
  eapply (run_one _ _ k (GetBloom c) (IoGo 0) _ (GetOpen c)); [by apply list_lookup_insert_eq|cbn; by rewrite Hb|].
  rewrite list_insert_insert_eq. eapply (run_one _ _ k (GetOpen c) (IoGo 0) _ (GetRead c i [])); [by apply list_lookup_insert_eq|cbn; by rewrite Hi|].
  rewrite list_insert_insert_eq. by apply Hr.
Qed.

(** Two writers of one content share their temporary file: the second truncates the
    inode the first has just written, the first renames it into place, and a reader
    finds an empty object.  The first writer reports success, the second an error. *)
Theorem concurrent_writers_tear cap d :
  d <> [] -> bytes d -> cid_from_data [] <> cid_from_data d ->
  let c := cid_from_data d in
  reaches (fresh_store cap, [])
    [PutDone d (Ok c); PutDone d (Err ObjIoError); GetDone c (Err (IntegrityViolation c (cid_from_data [])))].
Proof.
  intros Hd Hby Hne c. pose proof (cid_from_data_wf d) as Hc. fold c in Hc. pose proof (shard_not_tmp c c Hc Hc) as Hp.
  apply (call_one _ _ (PutStart d) _ Hby), (call_one _ _ (PutStart d) _ Hby), (call_one _ _ (GetStart c) _ Hc). cbn [app].
  apply (put_begins _ _ 0 d); [done|by cbn; rewrite lookup_empty|]. cbn [insert list_insert].
  eapply (run_one _ _ 0 _ (IoGo 0)); [done|cbn; unfold disk_create; cbn; by rewrite lookup_empty|]. cbn [insert list_insert].
  apply (put_writes _ _ 0 d 0 _ Hd); [done|]. cbn [insert list_insert].
  apply (put_begins _ _ 1 d); [done|cbn; fold c; by rewrite lookup_insert_ne, lookup_empty|]. cbn [insert list_insert].
  fold c. set (tmp := tmp_path (shard_path c)) in *.
  eapply (run_one _ _ 1 _ (IoGo 0)); [done|cbn [store_step put_step]; fold c tmp; unfold disk_create; cbn; by rewrite lookup_insert_eq|].
  eapply (run_one _ _ 0 _ (IoGo 0)); [done|cbn [store_step put_step]; fold c tmp; unfold disk_rename; cbn; by rewrite lookup_insert_eq|].
  eapply (run_one _ _ 0 _ (IoGo 0)); [done|reflexivity|]. fold c. cbn [insert list_insert].
  apply (get_opens _ _ 2 c 0%nat); [done|apply lru_peek_new|apply bloom_set_check|apply lookup_insert_eq|]. intros ca m _. cbn.
  eapply (run_one _ _ 2 _ (IoGo 0)); [done|cbn; unfold contents; cbn; rewrite lookup_insert_eq; cbn; by rewrite bool_decide_false|].
  eapply (run_one _ _ 0 _ (IoGo 0)); [done|reflexivity|]. eapply (run_one _ _ 0 _ (IoGo 0)); [done|reflexivity|].
  cbn [insert list_insert]. apply (put_writes _ _ 1 d 0 _ Hd); [done|]. cbn [insert list_insert].
  eapply (run_one _ _ 1 _ (IoGo 0)); [done|cbn [store_step put_step]; fold c tmp; unfold disk_rename; cbn;
    rewrite lookup_insert_ne by done; by rewrite delete_insert_eq|].
  eapply (run_one _ _ 1 _ (IoGo 0)); [done|reflexivity|]. cbn [insert list_insert]. apply reaches_here.
Qed.

(** The contents come in in one call. *)
Lemma get_reads s ts k c i us :
  ts !! k = Some (GetRead c i []) -> cid_from_data (contents (ss_disk s) i) = c ->
  reaches (s, <[k := GetCache c (contents (ss_disk s) i)]> ts) us -> reaches (s, ts) us.
Proof.
  intros Hk Hc Hr. pose proof (lookup_lt_Some _ _ _ Hk) as Hlt. set (d := contents (ss_disk s) i) in *.
  destruct (decide (d = [])) as [Hd|Hd].
  - apply (run_one s ts k _ (IoGo 0) s (GetCache c d) us Hk); [|done].
    cbn [store_step get_step length]. rewrite drop_0. fold d. rewrite Hd. rewrite Hd in Hc. by rewrite bool_decide_true.
  - apply (run_one s ts k _ (IoGo (length d)) s (GetRead c i d) us Hk).
    + cbn [store_step get_step length app]. rewrite drop_0. fold d. destruct d as [|x l]; [done|]. by rewrite take_ge by (cbn; lia).
    + apply (run_one _ _ k (GetRead c i d) (IoGo 0) s (GetCache c d)); [by apply list_lookup_insert_eq| |by rewrite list_insert_insert_eq].
      cbn [store_step get_step]. fold d. rewrite drop_ge by done. by rewrite bool_decide_true.
Qed.

(** A read that has the bytes in hand while the object is deleted puts them into the
    cache afterwards: the store then says that the object is not there and returns
    it all the same. *)
Theorem deleted_object_returns s c i :
  cid_wf c -> lru_peek c (ss_cache s) = None -> probably_contains (ss_bloom s) c = true ->
  names (ss_disk s) !! shard_path c = Some i -> cid_from_data (contents (ss_disk s) i) = c ->
  let d := contents (ss_disk s) i in
  reaches (s, []) [GetDone c (Ok (Some d)); DelDone c (Ok true); HasDone c false; GetDone c (Ok (Some d))].
Proof.
  intros Hc Hn Hb Hi Hd d.
  apply (call_one _ _ (GetStart c) _ Hc), (call_one _ _ (DelStart c) _ Hc), (call_one _ _ (HasStart c) _ Hc), (call_one _ _ (GetStart c) _ Hc).
  cbn [app]. apply (get_opens _ _ 0 c i); [done..|]. intros ca m Hca. cbn [insert list_insert].
  apply (get_reads _ _ 0 c i); [done|done|]. cbn [insert list_insert ss_disk]. fold d.
  eapply (run_one _ _ 1 _ (IoGo 0)); [done|cbn; unfold disk_unlink; by rewrite Hi|]. eapply (run_one _ _ 1 _ (IoGo 0)); [done|reflexivity|].
  eapply (run_one _ _ 0 _ (IoGo 0)); [done|reflexivity|]. cbn [insert list_insert].
  eapply (run_one _ _ 2 _ (IoGo 0)); [done|cbn [store_step has_step ss_bloom ss_with_cache ss_with_disk]; by rewrite Hb|].
  eapply (run_one _ _ 2 _ (IoGo 0)); [done|cbn; unfold named; cbn; by rewrite lookup_delete_eq|]. cbn [insert list_insert].
  match goal with |- reaches (?S, _) _ => set (s1 := S) end.
  pose proof (lru_get_peek c (ss_cache s1)) as Hpk. rewrite (lru_put_eq c d _ : lru_peek c (ss_cache s1) = Some d) in Hpk.
  destruct (lru_get c (ss_cache s1)) as [o ca'] eqn:Eg. cbn in Hpk. subst o.
  eapply (run_one _ _ 3 _ (IoGo 0)); [done|cbn [store_step get_step ss_count ss_cache]; by rewrite Eg|]. apply reaches_here.
Qed.

End AnyRun.

(** ** Running alone *)

Section Alone.
Context `{BL : Blake3Laws} `{HL : HexLaws} `{LL : LruLaws Cid (list Z)} `{BFL : BloomLaws Cid}.

(** One task, with the answers its calls get. *)
Definition alone (s : SharedStore) (t : store_task) (ios : list io_answer) : SharedStore * store_task :=
  foldl (fun st io => store_step st.1 st.2 io) (s, t) ios.
#[local] Arguments alone : simpl never.

Lemma alone_cons s t io ios : alone s t (io :: ios) = alone (store_step s t io).1 (store_step s t io).2 ios.
Proof. unfold alone. cbn. by destruct (store_step s t io). Qed.

Lemma alone_put_done s d r ios : alone s (PutDone d r) ios = (s, PutDone d r).
Proof. induction ios as [|io ios IH]; [done|]. by rewrite alone_cons. Qed.

Lemma alone_get_done s c r ios : alone s (GetDone c r) ios = (s, GetDone c r).
Proof. induction ios as [|io ios IH]; [done|]. by rewrite alone_cons. Qed.

(** The name [p] of [D] is the only one of its inode, which holds [b]; the other files are those of [F]. *)
Record owns (D : Disk) (p : path) (i : nat) (b : list Z) (F : gmap path (list Z)) : Prop := {
  ow_name : names D !! p = Some i;
  ow_only q : names D !! q = Some i -> q = p;
  ow_bytes : contents D i = b;
  ow_files : disk_files D = <[p := b]> F;
}.

Lemma owns_create D M c : disk_ok D M -> cid_wf c ->
  owns (disk_create D (tmp_path (shard_path c))).1 (tmp_path (shard_path c)) (disk_create D (tmp_path (shard_path c))).2 [] (disk_files D).
Proof.
  intros Hok Hc. set (p := tmp_path (shard_path c)). unfold disk_create. destruct (names D !! p) as [i|] eqn:Ep; cbn.
  - split; cbn; [done|intros q Hq; by apply (dk_tmp D M Hok c q i)|unfold contents; cbn; by rewrite lookup_insert_eq|].
    apply map_eq. intros q. unfold disk_files. cbn. rewrite lookup_fmap. destruct (decide (q = p)) as [->|Hq].
    + rewrite Ep, lookup_insert_eq. cbn. unfold contents. cbn. by rewrite lookup_insert_eq.
    + rewrite lookup_insert_ne, lookup_fmap by done. destruct (names D !! q) as [j|] eqn:Eq; [|done]. cbn. unfold contents. cbn.
      rewrite lookup_insert_ne; [done|]. intros <-. apply Hq, (dk_tmp D M Hok c q i); done.
  - split; cbn; [apply lookup_insert_eq| |unfold contents; cbn; by rewrite lookup_insert_eq|].
    + intros q Hq. destruct (decide (q = p)) as [->|Hne]; [done|]. rewrite lookup_insert_ne in Hq by done.
      apply (dk_inode D M Hok) in Hq as [Hq _]. lia.
    + apply map_eq. intros q. unfold disk_files. cbn. rewrite lookup_fmap. destruct (decide (q = p)) as [->|Hq].
      * rewrite !lookup_insert_eq. cbn. unfold contents. cbn. by rewrite lookup_insert_eq.
      * rewrite !lookup_insert_ne, lookup_fmap by done. destruct (names D !! q) as [j|] eqn:Eq; [|done]. cbn. unfold contents. cbn.
        rewrite lookup_insert_ne; [done|]. intros <-. apply (dk_inode D M Hok) in Eq as [Eq _]. lia.
Qed.

Lemma owns_write D p i off b d F : owns D p i b F -> owns (disk_write D i off d) p i (pwrite off d b) F.
Proof.
  intros [Hn Ho Hb Hf]. split; cbn; [done|done|unfold contents; cbn; by rewrite lookup_insert_eq, Hb|].
  apply map_eq. intros q. unfold disk_files in *. cbn. rewrite lookup_fmap. destruct (decide (q = p)) as [->|Hq].
  - rewrite Hn, lookup_insert_eq. cbn. unfold contents at 1. cbn. by rewrite lookup_insert_eq, Hb.
  - rewrite lookup_insert_ne by done. rewrite <- (lookup_insert_ne F p q b), <- Hf, lookup_fmap by done.
    destruct (names D !! q) as [j|] eqn:Eq; [|done]. cbn. unfold contents. cbn. rewrite lookup_insert_ne; [done|]. intros <-. by apply Hq, Ho.
Qed.

Lemma owns_unlink D p i b F : owns D p i b F -> exists D', disk_unlink D p = Some D' /\ disk_files D' = delete p F.
Proof.
  intros [Hn Ho Hb Hf]. unfold disk_unlink. rewrite Hn. eexists. split; [done|].
  unfold disk_files in *. cbn. rewrite fmap_delete. change (contents (mkDisk _ (inodes D) _)) with (contents D).
  by rewrite Hf, delete_insert_eq.
Qed.

Lemma owns_rename D p q i b F : p <> q -> owns D p i b F -> exists D', disk_rename D p q = Some D' /\ disk_files D' = <[q := b]> (delete p F).
Proof.
  intros Hne [Hn Ho Hb Hf]. unfold disk_rename. rewrite Hn. eexists. split; [done|].
  unfold disk_files in *. cbn. rewrite fmap_insert, fmap_delete. change (contents (mkDisk _ (inodes D) _)) with (contents D).
  by rewrite Hf, Hb, delete_insert_eq.
Qed.

(** How the rest of a [put] ends once its bytes are written: the rename decides. *)
Lemma put_renames s d i F ios :
  owns (ss_disk s) (tmp_path (shard_path (cid_from_data d))) i d F -> (4 <= length ios)%nat ->
  let c := cid_from_data d in
  let dest := shard_path c in
  exists s' res, alone s (PutRename d) ios = (s', PutDone d res) /\
    (snapshot_of s' = mkStore (<[dest := d]> (delete (tmp_path dest) F)) (lru_put c d (ss_cache s)) (bloom_insert (ss_bloom s) c)
       (ss_metrics s) (ss_sender s) (if ss_sender s then ss_events s ++ [c] else ss_events s) /\ res = Ok c \/
     exists tmp_removed : bool, snapshot_of s' = with_files (snapshot_of s) (if tmp_removed then delete (tmp_path dest) F else <[tmp_path dest := d]> F) /\
       res = Err ObjIoError).
Proof.
  intros How Hlen c dest. pose proof (cid_from_data_wf d) as Hc. fold c in Hc. pose proof (shard_not_tmp c c Hc Hc) as Hp.
  destruct ios as [|io1 [|io2 [|io3 [|io4 ios]]]]; cbn in Hlen; try lia. rewrite alone_cons. cbn [store_step put_step]. fold c dest.
  destruct (owns_rename _ _ dest _ _ _ (not_eq_sym Hp) How) as (D & Hr & HF). destruct (owns_unlink _ _ _ _ _ How) as (D' & Hu & HF').
  fold c dest in Hr, Hu, HF, HF'. rewrite Hr. destruct io1 as [n|e]; cbn [fst snd]; rewrite !alone_cons; cbn [store_step put_step fst snd ss_disk]; fold c dest; rewrite ?Hu.
  - rewrite alone_put_done. eexists _, _. split; [done|]. left. split; [|done]. unfold snapshot_of, ss_send. cbn. rewrite <- HF. destruct (ss_sender s) eqn:Es; cbn; by rewrite ?Es.
  - rewrite alone_put_done. eexists _, _. split; [done|]. right. destruct io2 as [n2|e2]; cbn.
    + exists true. split; [|done]. unfold snapshot_of, with_files. cbn. by rewrite HF'.
    + exists false. split; [|done]. unfold snapshot_of, with_files. cbn. by rewrite (ow_files _ _ _ _ _ How).
Qed.

(** A write either stops at a failing call, leaving the bytes so far, or completes. *)
Lemma put_writes_all s d i F ios off :
  owns (ss_disk s) (tmp_path (shard_path (cid_from_data d))) i (take off d) F -> (off <= length d)%nat ->
  (length d - off + 5 <= length ios)%nat ->
  (exists s' e b, alone s (PutWrite d i off) ios = (s', PutDone d (Err (write_error e))) /\
     snapshot_of s' = with_files (snapshot_of s) (<[tmp_path (shard_path (cid_from_data d)) := b]> F)) \/
  exists D ios', alone s (PutWrite d i off) ios = alone (ss_with_disk s D) (PutRename d) ios' /\
    owns D (tmp_path (shard_path (cid_from_data d))) i d F /\ (4 <= length ios')%nat.
Proof.
  revert s off. induction ios as [|io ios IH]; intros s off How Hoff Hlen; cbn in Hlen; [lia|]. rewrite alone_cons. cbn [store_step put_step].
  destruct (drop off d) as [|x l] eqn:Ed.
  - right. exists (ss_disk s), ios. split; [by destruct s|]. split; [|lia].
    assert (length d <= off)%nat by (apply (f_equal length) in Ed; rewrite length_drop in Ed; cbn in Ed; lia). by rewrite take_ge in How by lia.
  - rewrite <- Ed. destruct io as [n|e]; cbn [fst snd].
    + pose proof (pwrite_next d off n) as Hpw. apply (f_equal length) in Ed as El. rewrite length_drop in El. cbn in El.
      assert (length (take (S n) (drop off d)) = Nat.min (S n) (length d - off)) as Ht by by rewrite length_take, length_drop.
      destruct (IH (ss_with_disk s (disk_write (ss_disk s) i off (take (S n) (drop off d)))) (off + length (take (S n) (drop off d)))%nat)
        as [(s' & e & b & Heq & Hsn)|(D & ios' & Heq & HD & Hl)]; [|lia|lia|left; by exists s', e, b|right; by exists D, ios'].
      cbn. rewrite <- Hpw by lia. by apply owns_write.
    + left. exists s, e, (take off d). split; [by rewrite alone_put_done|]. unfold with_files, snapshot_of. cbn. by rewrite (ow_files _ _ _ _ _ How).
Qed.

(** From the creation of the temporary on, for an object that is not found. *)
Lemma put_creates s d M ios :
  disk_ok (ss_disk s) M -> (length d + 6 <= length ios)%nat ->
  let c := cid_from_data d in
  let tmp := tmp_path (shard_path c) in
  exists w r s' res, alone s (PutCreate d) ios = (s', PutDone d res) /\
    (snapshot_of s', res) = match w with
      | WriteErr enospc left_over =>
          (match left_over with None => snapshot_of s | Some b => with_files (snapshot_of s) (<[tmp := b]> (disk_files (ss_disk s))) end,
           Err (if enospc then StoreFull else ObjIoError))
      | WriteOk => match r with
          | RenameErr tmp_removed => (with_files (snapshot_of s) (if tmp_removed then delete tmp (disk_files (ss_disk s)) else <[tmp := d]> (disk_files (ss_disk s))), Err ObjIoError)
          | RenameOk => (mkStore (<[shard_path c := d]> (delete tmp (disk_files (ss_disk s)))) (lru_put c d (ss_cache s)) (bloom_insert (ss_bloom s) c)
              (ss_metrics s) (ss_sender s) (if ss_sender s then ss_events s ++ [c] else ss_events s), Ok c)
          end
      end.
Proof.
  intros Hok Hlen c tmp. pose proof (owns_create _ M c Hok (cid_from_data_wf d)) as Hcr. fold tmp in Hcr.
  destruct ios as [|io ios]; cbn in Hlen; [lia|]. rewrite alone_cons. cbn [store_step put_step]. fold c tmp. destruct io as [n|e].
  - destruct (disk_create (ss_disk s) tmp) as [D i]. cbn [fst snd] in *.
    destruct (put_writes_all (ss_with_disk s D) d i (disk_files (ss_disk s)) ios 0) as [(s' & e & b & Heq & Hsn)|(D' & ios' & Heq & HD & Hl)];
      [done|lia|lia| |].
    + exists (WriteErr e (Some b)), RenameOk, s', (Err (write_error e)). split; [done|]. by rewrite Hsn.
    + destruct (put_renames (ss_with_disk (ss_with_disk s D) D') d i (disk_files (ss_disk s)) ios' HD Hl) as (s' & res & Heq' & [[Hsn ->]|(b & Hsn & ->)]).
      * exists WriteOk, RenameOk, s', (Ok c). split; [by rewrite Heq|]. by rewrite Hsn.
      * exists WriteOk, (RenameErr b), s', (Err ObjIoError). split; [by rewrite Heq|]. by rewrite Hsn.
  - exists (WriteErr e None), RenameOk, s, (Err (write_error e)). split; [apply alone_put_done|done].
Qed.

(** A [put] that runs alone ends within [length d + 8] accesses and is the atomic [put]
    for some outcome of the metadata call, the write and the rename: its pieces
    compose to the one-step operation. *)
Theorem put_alone_atomic s d M ios :
  disk_ok (ss_disk s) M -> (length d + 8 <= length ios)%nat ->
  exists st w r s' res, alone s (PutStart d) ios = (s', PutDone d res) /\ put (snapshot_of s) d st w r = (snapshot_of s', res).
Proof.
  intros Hok Hlen. destruct ios as [|io1 [|io2 ios]]; cbn in Hlen; try lia. rewrite alone_cons. cbn [store_step put_step fst snd].
  unfold put, with_metrics, snapshot_of, file_exists. cbn. set (c := cid_from_data d).
  assert (bool_decide (is_Some (disk_files (ss_disk s) !! shard_path c)) = named s (shard_path c)) as Hex.
  { unfold named, disk_files. apply bool_decide_ext. by rewrite lookup_fmap, fmap_is_Some. }
  destruct (probably_contains (ss_bloom s) c); cbn [andb].
  - rewrite alone_cons. cbn [store_step put_step fst snd]. fold c. destruct io2 as [n2|e2]; cycle 1.
    { exists ReadErr. cbn [andb]. destruct (put_creates (ss_count s count_put) d M ios) as (w & r & s' & res & Heq & Hsn); [done|lia|]. exists w, r, s', res. split; [done|]. exact (eq_sym Hsn). }
    exists ReadOk. rewrite Hex. change (named (ss_count s count_put) (shard_path c)) with (named s (shard_path c)). destruct (named s (shard_path c)).
    + exists WriteOk, RenameOk. eexists _, _. split; [apply alone_put_done|done].
    + destruct (put_creates (ss_count s count_put) d M ios) as (w & r & s' & res & Heq & Hsn); [done|lia|]. exists w, r, s', res. split; [done|]. exact (eq_sym Hsn).
  - exists ReadOk. destruct (put_creates (ss_count s count_put) d M (io2 :: ios)) as (w & r & s' & res & Heq & Hsn); [done|cbn; lia|]. exists w, r, s', res. split; [done|]. exact (eq_sym Hsn).
Qed.

Lemma get_reads_all s c i ios acc :
  (exists l, contents (ss_disk s) i = acc ++ l) -> (length (contents (ss_disk s) i) - length acc + 2 <= length ios)%nat ->
  let d := contents (ss_disk s) i in
  alone s (GetRead c i acc) ios = (s, GetDone c (Err ObjIoError)) \/
  alone s (GetRead c i acc) ios =
    (if bool_decide (cid_from_data d = c) then (ss_with_cache s (lru_put c d (ss_cache s)), GetDone c (Ok (Some d)))
     else (ss_count s count_violation, GetDone c (Err (IntegrityViolation c (cid_from_data d))))).
Proof.
  revert acc. induction ios as [|io ios IH]; intros acc [l Hl] Hlen d; cbn in Hlen; [lia|]. fold d in Hl, Hlen. rewrite alone_cons. cbn [store_step get_step].
  destruct io as [n|e]; [|left; apply alone_get_done]. fold d. rewrite Hl, drop_app_length. destruct l as [|x l].
  - right. rewrite app_nil_r in Hl. subst acc. rewrite app_nil_r. destruct ios as [|io' ios]; [cbn in Hlen; lia|]. case_bool_decide; cbn [fst snd].
    + rewrite alone_cons. apply alone_get_done.
    + apply alone_get_done.
  - cbn [fst snd]. destruct (IH (acc ++ take (S n) (x :: l))) as [He|He]; [| |by left|by right; rewrite He, <- Hl].
    + exists (drop (S n) (x :: l)). by rewrite <- app_assoc, take_drop.
    + fold d. rewrite length_app. rewrite Hl, length_app in *. cbn [take length] in *. lia.
Qed.

(** A [get] that runs alone ends within the length of the file and 5 accesses and is
    the atomic [get]. *)
Theorem get_alone_atomic s c ios :
  (forall i, names (ss_disk s) !! shard_path c = Some i -> (length (contents (ss_disk s) i) + 5 <= length ios)%nat) -> (3 <= length ios)%nat ->
  exists r s' res, alone s (GetStart c) ios = (s', GetDone c res) /\ get (snapshot_of s) c r = (snapshot_of s', res).
Proof.
  intros Hlen Hl3. destruct ios as [|io1 [|io2 [|io3 ios]]]; cbn in Hl3; try lia. rewrite alone_cons.
  unfold get, with_metrics, with_cache, snapshot_of. cbn [store_step get_step ss_count ss_cache cache]. 
  destruct (lru_get c (ss_cache s)) as [[bytes|] ca]; cbn [fst snd].
  - exists ReadOk. eexists _, _. split; [apply alone_get_done|done].
  - rewrite alone_cons. cbn [store_step get_step ss_count ss_with_cache ss_bloom fst snd obj_bloom].
    destruct (probably_contains (ss_bloom s) c) eqn:Eb; cbn [negb].
    + rewrite alone_cons. cbn [store_step get_step]. destruct io3 as [n|e]; [|exists ReadErr; eexists _, _; split; [apply alone_get_done|done]].
      cbn [ss_disk ss_count ss_with_cache]. unfold files, disk_files. rewrite lookup_fmap. destruct (names (ss_disk s) !! shard_path c) as [i|] eqn:Ei; cbn [fst snd fmap option_fmap option_map].
      * specialize (Hlen i eq_refl). cbn in Hlen.
        match goal with |- context [alone ?S _ _] => destruct (get_reads_all S c i ios []) as [He|He] end; cbn; [by eexists|lia| |].
        -- exists ReadErr. rewrite He. eexists _, _. split; done.
        -- exists ReadOk. rewrite He. cbn -[bool_decide]. destruct (bool_decide (cid_from_data (contents (ss_disk s) i) = c)); eexists _, _; split; done.
      * exists ReadOk. eexists _, _. split; [apply alone_get_done|done].
    + exists ReadOk. eexists _, _. split; [apply alone_get_done|done].
Qed.

End Alone.

(** ** Concrete runs *)

Section Runs.
Context `{BL : Blake3Laws} `{HL : HexLaws} `{LL : LruLaws Cid (list Z)} `{BFL : BloomLaws Cid}.

Lemma exclusive_one t : exclusive [t].
Proof. intros j k u v d e Hj Hk _ _ _. apply lookup_lt_Some in Hj, Hk. cbn in Hj, Hk. lia. Qed.

Lemma exclusive_idle ts t : Forall (fun u => storing u = None) ts -> exclusive (ts ++ [t]).
Proof.
  intros Hts j k u v d e Hj Hk Hu Hv _. apply lookup_app_Some in Hj as [Hj|[Hj1 Hj]]; [by rewrite (proj1 (Forall_lookup _ _) Hts j u Hj) in Hu|].
  apply lookup_app_Some in Hk as [Hk|[Hk1 Hk]]; [by rewrite (proj1 (Forall_lookup _ _) Hts k v Hk) in Hv|].
  apply list_lookup_singleton_Some in Hj as [Hj _], Hk as [Hk _]. lia.
Qed.

(** The last of a list of tasks runs while the others are done. *)
Lemma alone_orderly (known : list Z -> Prop) s ts t ios :
  Forall (fun u => storing u = None) ts -> Forall (fun u => deleting u = false) (ts ++ [t]) ->
  (forall k d, (ts ++ [t]) !! k = Some (PutStart d) -> known d) ->
  rtc (orderly known) (s, ts ++ [t]) ((alone s t ios).1, ts ++ [(alone s t ios).2]).
Proof.
  intros Hst. revert s t. induction ios as [|io ios IH]; intros s t Hdel Hk; [apply rtc_refl|]. rewrite alone_cons.
  assert ((ts ++ [t]) !! length ts = Some t) as Hl by (by rewrite list_lookup_middle).
  apply Forall_app in Hdel as Hd'. destruct Hd' as [Hd1 Hd2]. pose proof (Forall_inv Hd2) as Hd3. cbn in Hd3.
  assert (forall d, (store_step s t io).2 = PutStart d -> t = PutStart d) as Hpre.
  { intros d. destruct t; cbn [store_step put_step get_step has_step del_step]; repeat case_match; simplify_eq/=; done. }
  assert (deleting (store_step s t io).2 = false) as Hdel'.
  { destruct t; try done; cbn [store_step put_step get_step has_step]; repeat case_match; simplify_eq/=; done. }
  assert (forall k d, (ts ++ [(store_step s t io).2]) !! k = Some (PutStart d) -> known d) as Hk'.
  { intros k d Hkd. apply lookup_app_Some in Hkd as [Hkd|[_ Hkd]]; [apply (Hk k); by apply lookup_app_l_Some|].
    apply list_lookup_singleton_Some in Hkd as [_ Hkd]. apply (Hk (length ts)). rewrite Hl. f_equal. by apply Hpre. }
  assert (<[length ts := (store_step s t io).2]> (ts ++ [t]) = ts ++ [(store_step s t io).2]) as Hins.
  { by rewrite insert_app_r_alt, Nat.sub_diag. }
  eapply rtc_l.
  - split; [eapply (sys_run s (ts ++ [t]) (length ts) t io Hl)| |].
    + split; [by apply exclusive_idle|done].
    + cbn. rewrite Hins. exact Hk'.
  - cbn. rewrite Hins. apply IH; [by apply Forall_app_2; [|apply Forall_singleton]|done].
Qed.

End Runs.

Definition toy_disk : SharedStore := fresh_store 2.
Definition toy_go (n : nat) : list io_answer := replicate n (IoGo 1).
Definition toy_known (d : list Z) : Prop := d = [1; 2; 3].

Lemma toy_known_inj d e : toy_known d -> toy_known e -> cid_from_data d = cid_from_data e -> d = e.
Proof. congruence. Qed.

Definition toy_put : SharedStore := (alone toy_disk (PutStart [1; 2; 3]) (toy_go 11)).1.
Definition toy_get : SharedStore := (alone toy_put (GetStart demo_cid) (toy_go 8)).1.

Lemma toy_put_done : (alone toy_disk (PutStart [1; 2; 3]) (toy_go 11)).2 = PutDone [1; 2; 3] (Ok demo_cid).
Proof. vm_compute. reflexivity. Qed.

Lemma toy_get_done : (alone toy_put (GetStart demo_cid) (toy_go 8)).2 = GetDone demo_cid (Ok (Some [1; 2; 3])).
Proof. vm_compute. reflexivity. Qed.

Lemma toy_put_run : rtc (orderly toy_known) (toy_disk, []) (toy_put, [PutDone [1; 2; 3] (Ok demo_cid)]).
Proof.
  assert (forall k d, [PutStart [1; 2; 3]] !! k = Some (PutStart d) -> toy_known d) as Hk.
  { intros [|k] d; cbn; [by intros [= <-]|done]. }
  eapply rtc_l; [split; [apply (sys_spawn _ [] (PutStart [1; 2; 3])); by_compute|split; [by intros []|apply Forall_nil_2]|exact Hk]|].
  pose proof (alone_orderly toy_known toy_disk [] (PutStart [1; 2; 3]) (toy_go 11) (Forall_nil_2 _)) as Hr.
  rewrite toy_put_done in Hr. apply Hr; [by apply Forall_singleton|exact Hk].
Qed.

Lemma toy_get_run :
  rtc (orderly toy_known) (toy_put, [PutDone [1; 2; 3] (Ok demo_cid)])
    (toy_get, [PutDone [1; 2; 3] (Ok demo_cid); GetDone demo_cid (Ok (Some [1; 2; 3]))]).
Proof.
  assert (forall k d, [PutDone [1; 2; 3] (Ok demo_cid); GetStart demo_cid] !! k = Some (PutStart d) -> toy_known d) as Hk by by intros [|[|k]].
  assert (Forall (fun u => storing u = None) [PutDone [1; 2; 3] (Ok demo_cid)]) as Hst by by apply Forall_singleton.
  eapply rtc_l.
  - split; [apply (sys_spawn _ _ (GetStart demo_cid)); by_compute|split; [apply exclusive_one|by apply Forall_singleton]|exact Hk].
  - pose proof (alone_orderly toy_known toy_put [PutDone [1; 2; 3] (Ok demo_cid)] (GetStart demo_cid) (toy_go 8) Hst) as Hr.
    rewrite toy_get_done in Hr. apply Hr; [|exact Hk]. by repeat constructor.
Qed.

Lemma toy_runs : exists s M s',
  sys_inv toy_known s [PutDone [1; 2; 3] (Ok demo_cid)] M /\
  rtc (orderly toy_known) (toy_disk, []) (s, [PutDone [1; 2; 3] (Ok demo_cid)]) /\
  rtc (orderly toy_known) (s, [PutDone [1; 2; 3] (Ok demo_cid)]) (s', [PutDone [1; 2; 3] (Ok demo_cid); GetDone demo_cid (Ok (Some [1; 2; 3]))]).
Proof.
  generalize toy_get_run, toy_put_run. generalize toy_get, toy_put. intros s' s Hget Hput.
  destruct (orderly_inv toy_known toy_known_inj (toy_disk, []) (s, [PutDone [1; 2; 3] (Ok demo_cid)]) ∅ (fresh_inv toy_known 2) Hput) as (M & HM & _).
  by exists s, M, s'.
Qed.



Lemma concurrent_reads_verified_witness : cid_from_data [1; 2; 3] = demo_cid.
Proof.
  destruct toy_runs as (s & M & s' & _ & Hrun & Hrun').
  assert (forall a b, orderly toy_known a b -> sys_step a b) as Hsub by (by intros a b []).
  apply (concurrent_reads_verified (mkShared (mkDisk ∅ ∅ 0) (lru_new 0) bloom_empty store_metrics_default false []) 2 s'
    [PutDone [1; 2; 3] (Ok demo_cid); GetDone demo_cid (Ok (Some [1; 2; 3]))] 1 demo_cid [1; 2; 3]); [|reflexivity].
  etransitivity; [exact (rtc_subrel _ _ _ _ Hsub Hrun)|exact (rtc_subrel _ _ _ _ Hsub Hrun')].
Defined.

Lemma put_alone_atomic_witness :
  exists st w r s' res, alone toy_disk (PutStart [1; 2; 3]) (toy_go 11) = (s', PutDone [1; 2; 3] res) /\
    put (snapshot_of toy_disk) [1; 2; 3] st w r = (snapshot_of s', res).
Proof.
  apply (put_alone_atomic toy_disk [1; 2; 3] ∅ (toy_go 11)).
  - exact (iv_disk _ _ _ _ (fresh_inv toy_known 2)).
  - cbn. lia.
Defined.
