(* ===== verification/PageIndex.v ===== *)
(** * Page index of the CID-VFS (crates/craftec-vfs/src/page_index.rs)

    The page-number to CID map and its byte format: a little-endian count and
    36-byte entries sorted by page number.  The theorems show that the format
    round-trips, is canonical, and that truncated data is rejected. *)
From Stdlib Require Import ZArith Lia.
From stdpp Require Import base list list_numbers numbers strings gmap sorting.
From S2P Require Import Prelude Types Instances ObjStore.

Local Open Scope Z_scope.

(** ** Errors of the crate

    [StoreError] keeps the store's error ([None]: the CID was missing). *)
Inductive VfsError : Type :=
| PageNotFound (page : Z)
| IntegrityCheckFailed (page : Z) (expected actual : Cid)
| StoreError (e : option ObjError)
| IndexSerializationError (msg : string)
| CommitConflict
| InvalidPageSize (size : nat)
| NoRootCid
| VfsIo.

Abbreviation index := (gmap Z Cid) (only parsing).

Definition index_get (m : index) (page_num : Z) : option Cid := m !! page_num.
Definition index_set (m : index) (page_num : Z) (c : Cid) : index := <[page_num := c]> m.
Definition index_remove (m : index) (page_num : Z) : index := delete page_num m.
Definition page_count (m : index) : nat := size m.

(** [pairs.sort_by_key(|(k, _)| *k)] *)
Definition by_page (a b : Z * Cid) : Prop := a.1 <= b.1.
#[export] Instance by_page_dec a b : Decision (by_page a b).
Proof. unfold by_page. apply _. Defined.
#[export] Instance by_page_total : Total by_page.
Proof. intros a b. unfold by_page. lia. Qed.
#[export] Instance by_page_trans : Transitive by_page.
Proof. intros a b c. unfold by_page. lia. Qed.

Definition sorted_pairs (m : index) : list (Z * Cid) := merge_sort by_page (map_to_list m).

Definition entry_bytes (e : Z * Cid) : list Z := to_le_bytes 4 e.1 ++ e.2.

Definition serialize (m : index) : list Z :=
  to_le_bytes 4 (wrap 32 (Z.of_nat (size m))) ++ concat (map entry_bytes (sorted_pairs m)).

(** Entry [i] at offset [4 + i * 36]. *)
Definition read_entry (data : list Z) (i : nat) : Z * Cid :=
  let offset := (4 + i * 36)%nat in
  (from_le_bytes (slice data offset (offset + 4)), slice data (offset + 4) (offset + 36)).

Definition deserialize (data : list Z) : result index VfsError :=
  if (length data <? 4)%nat then
    Err (IndexSerializationError "page index too short to read entry count")
  else
    let count := Z.to_nat (from_le_bytes (slice data 0 4)) in
    if (length data <? 4 + count * 36)%nat then Err (IndexSerializationError "page index truncated")
    else Ok (foldl (fun m i => let e := read_entry data i in <[e.1 := e.2]> m) ∅ (seq 0 count)).

(** Page numbers are [u32] and CIDs 32 bytes; one page number stays unused, so
    that the count fits. *)
Definition index_wf (m : index) : Prop :=
  forall p c, m !! p = Some c -> 0 <= p < 2 ^ 32 - 1 /\ cid_wf c.

(** ** Layout *)

Definition entry_wf (e : Z * Cid) : Prop := fits 32 e.1 /\ cid_wf e.2.

Lemma sorted_pairs_perm m : sorted_pairs m ≡ₚ map_to_list m.
Proof. apply merge_sort_Permutation. Qed.

Lemma elem_of_sorted m p c : (p, c) ∈ sorted_pairs m <-> m !! p = Some c.
Proof. rewrite sorted_pairs_perm. apply elem_of_map_to_list. Qed.

Lemma sorted_pairs_wf m : index_wf m -> Forall entry_wf (sorted_pairs m).
Proof.
  intros Hm. apply list.Forall_forall. intros [p c] Hin. apply elem_of_sorted, Hm in Hin as [Hp Hc].
  split; [|done]. unfold fits. cbn. lia.
Qed.

Lemma length_sorted_pairs m : length (sorted_pairs m) = size m.
Proof. rewrite sorted_pairs_perm. apply length_map_to_list. Qed.

Lemma size_bound m : index_wf m -> Z.of_nat (size m) < 2 ^ 32.
Proof.
  intros Hm. rewrite <- length_map_to_list, <- (length_map fst).
  assert (map fst (map_to_list m) ⊆+ seqZ 0 (2 ^ 32 - 1)) as Hsub.
  { apply NoDup_submseteq; [apply NoDup_fst_map_to_list|]. intros p Hp.
    apply list_elem_of_fmap in Hp as ([p' c] & -> & Hp). apply elem_of_map_to_list, Hm in Hp as [? _].
    apply elem_of_seqZ. cbn. lia. }
  apply submseteq_length in Hsub. rewrite length_seqZ in Hsub. apply inj_le in Hsub.
  rewrite Z2Nat.id in Hsub by lia. lia.
Qed.

Lemma length_entry e : entry_wf e -> length (entry_bytes e) = 36%nat.
Proof. intros [_ [Hl _]]. unfold entry_bytes. by rewrite length_app, length_to_le_bytes, Hl. Qed.

Lemma length_entries l : Forall entry_wf l -> length (concat (map entry_bytes l)) = (length l * 36)%nat.
Proof.
  induction 1 as [|e l He Hl IH]; [done|]. cbn [map concat]. rewrite length_app, length_entry, IH by done. cbn. lia.
Qed.

Lemma length_serialize m : index_wf m -> length (serialize m) = (4 + size m * 36)%nat.
Proof.
  intros Hm. unfold serialize. rewrite length_app, length_to_le_bytes, length_entries by (by apply sorted_pairs_wf).
  by rewrite length_sorted_pairs.
Qed.

(** Reading entry [i] behind any four-byte header gives the [i]-th entry. *)
Lemma read_entry_at hdr l extra i e :
  length hdr = 4%nat -> Forall entry_wf l -> l !! i = Some e ->
  read_entry (hdr ++ concat (map entry_bytes l) ++ extra) i = e.
Proof.
  intros Hh Hl Hi. destruct (list_elem_of_split_length _ _ _ Hi) as (l1 & l2 & -> & ->).
  apply Forall_app in Hl as [Hl1 Hl2]. inversion Hl2 as [|? ? He _]; subst. destruct e as [p c].
  rewrite map_app, concat_app. cbn [map concat]. unfold read_entry, entry_bytes. cbn [fst snd].
  destruct He as [Hp [Hc _]]. cbn in Hp, Hc.
  replace (hdr ++ _ ++ extra) with ((hdr ++ concat (map entry_bytes l1)) ++ to_le_bytes 4 p ++
    (c ++ concat (map entry_bytes l2) ++ extra)) by (by rewrite <- !app_assoc).
  pose proof (length_entries l1 Hl1) as Hlen. f_equal.
  - rewrite slice_app_at; rewrite ?length_app, ?length_to_le_bytes, ?Hlen; try lia.
    by rewrite from_to_le_bytes, wrap_id.
  - rewrite app_assoc. apply slice_app_at; rewrite ?length_app, ?length_to_le_bytes, ?Hlen, ?Hc; unfold CID_SIZE; lia.
Qed.

(** Inserting the entries in order builds the map they list. *)
Lemma foldl_entries l (f : nat -> Z * Cid) m0 :
  (forall i e, l !! i = Some e -> f i = e) ->
  foldl (fun m i => <[(f i).1 := (f i).2]> m) m0 (seq 0 (length l))
  = foldl (fun (m : gmap Z Cid) e => <[e.1 := e.2]> m) m0 l.
Proof.
  intros Hf. assert (map f (seq 0 (length l)) = l) as Hl.
  { apply list_eq. intros i. rewrite list_lookup_fmap. destruct (decide (i < length l)%nat) as [Hi|Hi].
    - rewrite lookup_seq_lt by done. cbn. destruct (lookup_lt_is_Some_2 l i Hi) as [e He].
      by rewrite (Hf i e He).
    - by rewrite !lookup_ge_None_2 by (rewrite ?length_seq; lia). }
  transitivity (foldl (fun (m : gmap Z Cid) e => <[e.1 := e.2]> m) m0 (map f (seq 0 (length l)))); [|by rewrite Hl].
  generalize (seq 0 (length l)) as is_. intros is_. revert m0.
  induction is_ as [|i is_ IH]; intros m0; [done|]. cbn. apply IH.
Qed.

Lemma foldl_insert_lookup l (m0 : gmap Z Cid) p :
  NoDup (map fst l) ->
  foldl (fun m e => <[e.1 := e.2]> m) m0 l !! p =
  match List.find (fun e => bool_decide (e.1 = p)) l with Some e => Some e.2 | None => m0 !! p end.
Proof.
  revert m0. induction l as [|[q c] l IH]; intros m0 Hnd; [done|]. cbn in Hnd. inversion Hnd as [|? ? Hq Hnd']; subst.
  cbn. rewrite IH by done. destruct (bool_decide (q = p)) eqn:E; bool_to_prop.
  - subst. destruct (find _ l) as [[p' c']|] eqn:Ef; [|by rewrite lookup_insert_eq].
    apply find_some in Ef as [Hin Heq]. bool_to_prop. exfalso. apply Hq. apply list_elem_of_fmap.
    exists (p', c'). split; [done|]. by apply list_elem_of_In.
  - destruct (find _ l); [done|]. by rewrite lookup_insert_ne.
Qed.

Lemma foldl_sorted_pairs m : foldl (fun (m : gmap Z Cid) e => <[e.1 := e.2]> m) ∅ (sorted_pairs m) = m.
Proof.
  apply map_eq. intros p. rewrite foldl_insert_lookup.
  - destruct (find _ _) as [[q c]|] eqn:Ef.
    + apply find_some in Ef as [Hin Heq]. bool_to_prop. cbn in *. subst. symmetry.
      by apply elem_of_sorted, list_elem_of_In.
    + rewrite lookup_empty. destruct (m !! p) as [c|] eqn:Em; [|done]. exfalso.
      apply elem_of_sorted, list_elem_of_In in Em. eapply find_none in Ef; [|exact Em].
      cbn in Ef. by rewrite bool_decide_true in Ef.
  - rewrite sorted_pairs_perm. apply NoDup_fst_map_to_list.
Qed.

(** Decoding what [serialize] wrote, also with bytes behind it. *)
Lemma deserialize_serialize m extra : index_wf m -> deserialize (serialize m ++ extra) = Ok m.
Proof.
  intros Hm. pose proof (size_bound m Hm) as Hs. pose proof (length_serialize m Hm) as Hl.
  unfold deserialize. rewrite length_app, Hl.
  assert (from_le_bytes (slice (serialize m ++ extra) 0 4) = Z.of_nat (size m)) as Hcount.
  { unfold serialize, slice. rewrite drop_0, <- app_assoc.
    rewrite take_app_length' by (by rewrite length_to_le_bytes).
    rewrite from_to_le_bytes. rewrite !wrap_id; [done|unfold fits; lia|].
    rewrite wrap_id by (unfold fits; lia). unfold fits. lia. }
  rewrite Hcount, Nat2Z.id.
  destruct (Nat.ltb_spec (4 + size m * 36 + length extra) 4); [lia|].
  destruct (Nat.ltb_spec (4 + size m * 36 + length extra) (4 + size m * 36)); [lia|]. f_equal.
  rewrite <- length_sorted_pairs. etransitivity; [|apply foldl_sorted_pairs].
  apply (foldl_entries (sorted_pairs m) (read_entry (serialize m ++ extra))).
  intros i e Hi. unfold serialize. rewrite <- app_assoc. apply read_entry_at; [by rewrite length_to_le_bytes| |done].
  by apply sorted_pairs_wf.
Qed.

Lemma serialize_inj m m' : index_wf m -> index_wf m' -> serialize m = serialize m' -> m = m'.
Proof.
  intros Hm Hm' Heq. pose proof (deserialize_serialize m [] Hm) as Hd.
  rewrite Heq, deserialize_serialize in Hd by done. congruence.
Qed.

(** ** Properties *)

(** The serialised index decodes to the same map, whatever bytes follow it. *)
Theorem page_index_roundtrip m extra : index_wf m -> deserialize (serialize m ++ extra) = Ok m.
Proof. apply deserialize_serialize. Qed.

(** The format is canonical: equal bytes mean equal maps, and every strict prefix
    of a serialised index is rejected. *)
Theorem page_index_canonical m m' n :
  index_wf m -> index_wf m' ->
  (serialize m = serialize m' <-> m = m') /\
  ((n < length (serialize m))%nat -> is_ok (deserialize (take n (serialize m))) = false).
Proof.
  intros Hm Hm'. split; [split; [by apply serialize_inj|congruence]|]. intros Hn.
  pose proof (size_bound m Hm) as Hs. pose proof (length_serialize m Hm) as Hl.
  unfold deserialize. rewrite length_take, Nat.min_l by lia.
  destruct (Nat.ltb_spec n 4); [done|].
  assert (from_le_bytes (slice (take n (serialize m)) 0 4) = Z.of_nat (size m)) as ->.
  { unfold serialize, slice. rewrite drop_0, take_take, Nat.min_l by lia.
    rewrite take_app_length' by (by rewrite length_to_le_bytes).
    rewrite from_to_le_bytes. rewrite !wrap_id; [done|unfold fits; lia|].
    rewrite wrap_id by (unfold fits; lia). unfold fits. lia. }
  rewrite Nat2Z.id. destruct (Nat.ltb_spec n (4 + size m * 36)); [done|]. lia.
Qed.

Definition demo_index : index := {[ 1 := toy_hash [1]; 7 := toy_hash [7] ]}.

Lemma demo_index_wf : index_wf demo_index.
Proof.
  intros p c Hp. unfold demo_index in Hp. apply lookup_insert_Some in Hp as [[<- <-]|[_ Hp]]; [by_compute|].
  apply lookup_singleton_Some in Hp as [<- <-]. by_compute.
Qed.

Lemma page_index_roundtrip_witness : deserialize (serialize demo_index ++ [9; 9]) = Ok demo_index.
Proof. apply page_index_roundtrip, demo_index_wf. Defined.

Lemma page_index_canonical_witness : is_ok (deserialize (take 50 (serialize demo_index))) = false.
Proof.
  apply (page_index_canonical demo_index demo_index 50); [apply demo_index_wf|apply demo_index_wf|].
  vm_compute. lia.
Defined.
