(* ===== verification/Vfs.v ===== *)
(** * CID-VFS (crates/craftec-vfs/src/vfs.rs, page_cache.rs, snapshot.rs)

    Versioned database pages on a content-addressed store.  The components are
    modelled over any store that satisfies [ContentStoreLaws].  The VFS refines a
    pair of maps, committed and pending pages, as long as no commit fails half
    way; snapshots keep resolving to the data they pinned. *)
From Stdlib Require Import ZArith Lia.
From stdpp Require Import base list list_numbers numbers strings gmap.
From S2P Require Import Prelude Types Instances External ObjStore PageIndex.

Local Open Scope Z_scope.

Definition DEFAULT_PAGE_SIZE : nat := Z.to_nat 16384.
Definition DEFAULT_CAPACITY : nat := Z.to_nat 16384.

Section Vfs.
Context `{B3 : Blake3} `{LRU : Lru (Cid * Z) (list Z)}.
Context {St IO : Type} `{CS : !ContentStore St IO}.

(** ** Page cache *)

Record PageCache : Type := mkPageCache {
  pc_lru : lru (K := Cid * Z) (V := list Z);
  hits : Z;
  misses : Z;
}.

Definition pc_with_capacity (capacity : nat) : PageCache := mkPageCache (lru_new (Nat.max capacity 1)) 0 0.

Definition pc_get (pc : PageCache) (root : Cid) (page_num : Z) : PageCache * option (list Z) :=
  let '(result, c) := lru_get (root, page_num) (pc_lru pc) in
  (match result with
   | Some _ => mkPageCache c (wrap 64 (hits pc + 1)) (misses pc)
   | None => mkPageCache c (hits pc) (wrap 64 (misses pc + 1))
   end, result).

Definition pc_put (pc : PageCache) (root : Cid) (page_num : Z) (data : list Z) : PageCache :=
  mkPageCache (lru_put (root, page_num) data (pc_lru pc)) (hits pc) (misses pc).

Definition pc_invalidate (pc : PageCache) (root : Cid) (page_num : Z) : PageCache :=
  mkPageCache (lru_pop (root, page_num) (pc_lru pc)).2 (hits pc) (misses pc).

(** ** The VFS *)

Record CidVfs : Type := mkVfs {
  vstore : St;
  page_index : gmap Z Cid;
  index_root : option Cid;
  page_cache : PageCache;
  dirty_pages : gmap Z (list Z);
  current_root : option Cid;
  page_size : nat;
}.

Definition is_power_of_two (n : nat) : bool := bool_decide (Z.of_nat n = 2 ^ Z.log2 (Z.of_nat n)).

Definition vfs_new (store : St) (page_size : nat) : result CidVfs VfsError :=
  if negb ((512 <=? Z.of_nat page_size) && (Z.of_nat page_size <=? 65536)) || negb (is_power_of_two page_size)
  then Err (InvalidPageSize page_size)
  else Ok (mkVfs store ∅ None (pc_with_capacity DEFAULT_CAPACITY) ∅ None page_size).

Definition set_store (v : CidVfs) (s : St) : CidVfs :=
  mkVfs s (page_index v) (index_root v) (page_cache v) (dirty_pages v) (current_root v) (page_size v).
Definition set_cache (v : CidVfs) (pc : PageCache) : CidVfs :=
  mkVfs (vstore v) (page_index v) (index_root v) pc (dirty_pages v) (current_root v) (page_size v).
Definition set_index (v : CidVfs) (m : gmap Z Cid) : CidVfs :=
  mkVfs (vstore v) m (index_root v) (page_cache v) (dirty_pages v) (current_root v) (page_size v).
Definition set_dirty (v : CidVfs) (d : gmap Z (list Z)) : CidVfs :=
  mkVfs (vstore v) (page_index v) (index_root v) (page_cache v) d (current_root v) (page_size v).

Definition read_page (v : CidVfs) (page_num : Z) (io : IO) : CidVfs * result (list Z) VfsError :=
  let root := default (replicate 32 0) (current_root v) in
  let '(pc, cached) := pc_get (page_cache v) root page_num in
  let v := set_cache v pc in
  match cached with
  | Some data => (v, Ok data)
  | None =>
      match index_get (page_index v) page_num with
      | None => (v, Err (PageNotFound page_num))
      | Some c =>
          let '(s, bytes_opt) := cs_get (vstore v) c io in
          let v := set_store v s in
          match bytes_opt with
          | Err e => (v, Err (StoreError (Some e)))
          | Ok None => (v, Err (StoreError None))
          | Ok (Some data) =>
              let expected_cid := cid_from_data data in
              if negb (bool_decide (expected_cid = c)) then
                (v, Err (IntegrityCheckFailed page_num c expected_cid))
              else (set_cache v (pc_put (page_cache v) root page_num data), Ok data)
          end
      end
  end.

Definition write_page (v : CidVfs) (page_num : Z) (data : list Z) : CidVfs * result unit VfsError :=
  if negb (length data =? page_size v)%nat then (v, Err (InvalidPageSize (length data)))
  else (set_dirty v (<[page_num := data]> (dirty_pages v)), Ok tt).

(** The [for (page_num, page_bytes) in dirty] loop, in the map's iteration order,
    with the outcome of each store call. *)
Fixpoint store_pages (v : CidVfs) (dirty : list (Z * list Z)) (io : nat -> IO) : CidVfs * option VfsError :=
  match dirty with
  | [] => (v, None)
  | (page_num, page_bytes) :: dirty =>
      match cs_put (vstore v) page_bytes (io 0%nat) with
      | (s, Err e) => (set_store v s, Some (StoreError (Some e)))
      | (s, Ok c) => store_pages (set_index (set_store v s) (index_set (page_index v) page_num c)) dirty (fun i => io (S i))
      end
  end.

(** [commit]; [order] is the iteration order of the hash map. *)
Definition commit (v : CidVfs) (order : list (Z * list Z) -> list (Z * list Z)) (io : nat -> IO)
    : CidVfs * result Cid VfsError :=
  let dirty := dirty_pages v in
  let v := set_dirty v ∅ in
  if bool_decide (dirty = ∅) then
    (v, match current_root v with Some r => Ok r | None => Err NoRootCid end)
  else
    let entries := order (map_to_list dirty) in
    match store_pages v entries io with
    | (v, Some e) => (v, Err e)
    | (v, None) =>
        let serialised := serialize (page_index v) in
        match cs_put (vstore v) serialised (io (length entries)) with
        | (s, Err e) => (set_store v s, Err (StoreError (Some e)))
        | (s, Ok new_root) =>
            (mkVfs s (page_index v) (Some new_root) (page_cache v) (dirty_pages v) (Some new_root) (page_size v),
             Ok new_root)
        end
    end.

(** ** Snapshots *)

Record Snapshot : Type := mkSnapshot { snap_root : Cid; snap_entries : gmap Z Cid }.

Definition snapshot (v : CidVfs) : result Snapshot VfsError :=
  match current_root v with
  | None => Err NoRootCid
  | Some root => Ok (mkSnapshot root (page_index v))
  end.

Definition resolve_page (s : Snapshot) (page_num : Z) : option Cid := snap_entries s !! page_num.

(** ** Abstract specification *)

(** Committed pages, pending pages, the root, and every blob stored so far. *)
Record VfsSpec : Type := mkVfsSpec {
  committed : gmap Z (list Z);
  pending : gmap Z (list Z);
  spec_root : option Cid;
  blobs : list (list Z);
}.

Inductive vfs_op : Type :=
| VWrite (page_num : Z) (data : list Z)
| VRead (page_num : Z) (io : IO)
| VCommit (order : list (Z * list Z) -> list (Z * list Z)) (io : nat -> IO).

Inductive vfs_out : Type :=
| VDone
| VData (d : list Z)
| VRoot (c : Cid)
| VErr (e : VfsError).

Definition index_of (pages : gmap Z (list Z)) : gmap Z Cid := cid_from_data <$> pages.

Definition spec_exec (ps : nat) (A : VfsSpec) (op : vfs_op) : VfsSpec * vfs_out :=
  match op with
  | VWrite p d =>
      if (length d =? ps)%nat
      then (mkVfsSpec (committed A) (<[p := d]> (pending A)) (spec_root A) (blobs A), VDone)
      else (A, VErr (InvalidPageSize (length d)))
  | VRead p _ => (A, match committed A !! p with Some d => VData d | None => VErr (PageNotFound p) end)
  | VCommit _ _ =>
      if bool_decide (pending A = ∅) then
        (A, match spec_root A with Some r => VRoot r | None => VErr NoRootCid end)
      else
        let pages := pending A ∪ committed A in
        let idx := serialize (index_of pages) in
        (mkVfsSpec pages ∅ (Some (cid_from_data idx)) (idx :: map snd (map_to_list (pending A)) ++ blobs A),
         VRoot (cid_from_data idx))
  end.

Definition vfs_exec (v : CidVfs) (op : vfs_op) : CidVfs * vfs_out :=
  match op with
  | VWrite p d => match write_page v p d with (v', Ok _) => (v', VDone) | (v', Err e) => (v', VErr e) end
  | VRead p io => match read_page v p io with (v', Ok d) => (v', VData d) | (v', Err e) => (v', VErr e) end
  | VCommit order io => match commit v order io with (v', Ok r) => (v', VRoot r) | (v', Err e) => (v', VErr e) end
  end.

End Vfs.

(** ** Refinement *)

Section VfsFacts.
Context `{BL : Blake3Laws} `{LL : LruLaws (Cid * Z) (list Z)}.
Context {St IO : Type} {CS : ContentStore St IO} {CSL : ContentStoreLaws St IO}.

(** The digest does not collide on the given blobs. *)
Definition collision_free (B : list (list Z)) : Prop :=
  forall a b, a ∈ B -> b ∈ B -> cid_from_data a = cid_from_data b -> a = b.

Definition pages_wf (m : gmap Z (list Z)) : Prop :=
  forall p d, m !! p = Some d -> 0 <= p < 2 ^ 32 - 1 /\ bytes d.

Record vfs_repr (v : CidVfs) (A : VfsSpec) (M : gmap Cid (list Z)) : Prop := {
  vr_store : cs_repr (vstore v) M;
  vr_index : page_index v = index_of (committed A);
  vr_pages p d : committed A !! p = Some d -> M !! cid_from_data d = Some d;
  vr_dirty : dirty_pages v = pending A;
  vr_root : current_root v = spec_root A;
  vr_root_index r : spec_root A = Some r ->
    r = cid_from_data (serialize (page_index v)) /\ serialize (page_index v) ∈ blobs A;
  vr_no_root : spec_root A = None -> committed A = ∅ /\ forall k, lru_peek k (pc_lru (page_cache v)) = None;
  vr_cache r p d : lru_peek (r, p) (pc_lru (page_cache v)) = Some d ->
    M !! cid_from_data d = Some d /\
    exists I, index_wf I /\ serialize I ∈ blobs A /\ cid_from_data (serialize I) = r /\ I !! p = Some (cid_from_data d);
  vr_blobs c d : M !! c = Some d -> d ∈ blobs A;
  vr_committed_wf : pages_wf (committed A);
  vr_pending_wf : pages_wf (pending A);
}.

Lemma index_of_wf pages : pages_wf pages -> index_wf (index_of pages).
Proof.
  intros Hp p c Hc. unfold index_of in Hc. rewrite lookup_fmap in Hc. destruct (pages !! p) as [d|] eqn:E; [|done].
  cbn in Hc. inversion Hc; subst. apply Hp in E as [? _]. split; [done|apply cid_from_data_wf].
Qed.

Lemma pc_get_spec pc r p :
  (pc_get pc r p).2 = lru_peek (r, p) (pc_lru pc) /\
  forall k, lru_peek k (pc_lru (pc_get pc r p).1) = lru_peek k (pc_lru pc).
Proof.
  unfold pc_get. pose proof (lru_get_peek (r, p) (pc_lru pc)) as H1.
  pose proof (fun k => lru_get_keeps (r, p) k (pc_lru pc)) as H2.
  destruct (lru_get (r, p) (pc_lru pc)) as [o c]. cbn in *. split; [done|]. by destruct o.
Qed.

(** Only the recency order of the cache or the store's own state changed. *)
Lemma repr_ext v A M s pc :
  vfs_repr v A M -> cs_repr s M ->
  (forall r p d, lru_peek (r, p) (pc_lru pc) = Some d ->
     lru_peek (r, p) (pc_lru (page_cache v)) = Some d \/
     spec_root A = Some r /\ committed A !! p = Some d) ->
  vfs_repr (set_cache (set_store v s) pc) A M.
Proof.
  intros [] Hs Hpc. split; cbn; try done.
  - intros Hn. destruct (vr_no_root0 Hn) as [Hc Hk]. split; [done|]. intros [r p].
    destruct (lru_peek (r, p) (pc_lru pc)) as [d|] eqn:E; [|done].
    destruct (Hpc r p d E) as [E'|[E' _]]; [by rewrite Hk in E'|congruence].
  - intros r p d E. destruct (Hpc r p d E) as [E'|[Hr Hd]]; [by apply (vr_cache0 r)|].
    split; [by eapply vr_pages0|]. destruct (vr_root_index0 r Hr) as [-> Hin].
    exists (page_index v). rewrite vr_index0. split_and!; [by apply index_of_wf|by rewrite <- vr_index0|done|].
    unfold index_of. by rewrite lookup_fmap, Hd.
Qed.

(** What the cache holds for the current root is the committed page. *)
Lemma cached_is_committed v A M r p d :
  vfs_repr v A M -> collision_free (blobs A) -> spec_root A = Some r ->
  lru_peek (r, p) (pc_lru (page_cache v)) = Some d -> committed A !! p = Some d.
Proof.
  intros HR Hcf Hr Hp. destruct (vr_cache v A M HR r p d Hp) as (Hd & I & HI & Hin & HIr & HIp).
  destruct (vr_root_index v A M HR r Hr) as [Hroot Hin'].
  assert (I = page_index v) as ->.
  { apply serialize_inj; [done| |by apply Hcf; [done|done|congruence]].
    rewrite (vr_index v A M HR). apply index_of_wf, HR. }
  rewrite (vr_index v A M HR) in HIp. unfold index_of in HIp. rewrite lookup_fmap in HIp.
  destruct (committed A !! p) as [d'|] eqn:E; [|done]. cbn in HIp. inversion HIp as [Heq].
  apply (vr_pages v A M HR) in E. rewrite Heq in E. congruence.
Qed.

Lemma read_page_repr v A M p io :
  vfs_repr v A M -> collision_free (blobs A) ->
  match read_page v p io with
  | (v', Ok d) => committed A !! p = Some d /\ vfs_repr v' A M
  | (v', Err (PageNotFound q)) => q = p /\ committed A !! p = None /\ vfs_repr v' A M
  | (v', Err e) => (exists e', e = StoreError (Some e')) /\ vfs_repr v' A M
  end.
Proof.
  intros HR Hcf. unfold read_page. set (root := default _ _).
  destruct (pc_get_spec (page_cache v) root p) as [Hget Hkeep].
  destruct (pc_get (page_cache v) root p) as [pc cached]. cbn in Hget, Hkeep.
  assert (forall s, cs_repr s M -> vfs_repr (set_store (set_cache v pc) s) A M) as HR'.
  { intros s Hs. apply (repr_ext v A M s pc HR Hs). intros r q d. rewrite Hkeep. by left. }
  assert (set_cache v pc = set_store (set_cache v pc) (vstore v)) as Hself by (by destruct v).
  destruct cached as [d|].
  { symmetry in Hget. split; [|rewrite Hself; apply HR', HR].
    destruct (spec_root A) as [r|] eqn:Er.
    - subst root. rewrite (vr_root v A M HR), Er in Hget. by apply (cached_is_committed v A M r).
    - destruct (vr_no_root v A M HR Er) as [_ Hk]. by rewrite Hk in Hget. }
  unfold index_get. cbn [page_index set_cache]. rewrite (vr_index v A M HR). unfold index_of. rewrite lookup_fmap.
  destruct (committed A !! p) as [d|] eqn:Ec; cbn [fmap option_fmap option_map];
    [|split_and!; [done|done|rewrite Hself; apply HR', HR]].
  pose proof (cs_get_spec (vstore v) M (cid_from_data d) io (vr_store v A M HR) (cid_from_data_wf d)) as Hg.
  cbn [vstore set_cache]. destruct (cs_get (vstore v) (cid_from_data d) io) as [s [o|e]].
  2: { split; [by eexists|by apply HR']. }
  destruct Hg as [-> Hs]. rewrite (vr_pages v A M HR p d Ec), bool_decide_true by done. cbn [negb].
  split; [done|]. destruct (spec_root A) as [r|] eqn:Er.
  2: { destruct (vr_no_root v A M HR Er) as [He _]. rewrite He, lookup_empty in Ec. done. }
  apply (repr_ext v A M s); [done|done|]. cbn. intros r' q d' Hp.
  apply lru_put_inv in Hp as [[Hk ->]|[_ Hp]]; [|left; by rewrite <- Hkeep].
  inversion Hk; subst. right. subst root. rewrite (vr_root v A M HR), Er. done.
Qed.

(** ** Commit *)

Lemma spec_put_bound M d B :
  (forall c d, M !! c = Some d -> cid_from_data d = c) -> (forall c d, M !! c = Some d -> d ∈ B) ->
  collision_free B -> d ∈ B ->
  spec_put M d !! cid_from_data d = Some d /\ M ⊆ spec_put M d /\ forall c d', spec_put M d !! c = Some d' -> d' ∈ B.
Proof.
  intros Hh HB Hcf Hd. unfold spec_put. destruct (M !! cid_from_data d) as [d0|] eqn:E.
  - assert (d0 = d) as -> by (apply Hcf; eauto). done.
  - rewrite lookup_insert_eq. split_and!; [done|by apply insert_subseteq|].
    intros c d' Hc. apply lookup_insert_Some in Hc as [[_ <-]|[_ Hc]]; eauto.
Qed.

(** The loop over the dirty pages, when no store call fails. *)
Lemma store_pages_spec v M l io B :
  cs_repr (vstore v) M -> (forall c d, M !! c = Some d -> d ∈ B) -> collision_free B ->
  Forall (fun pd => pd.2 ∈ B /\ bytes pd.2) l ->
  match store_pages v l io with
  | (v', None) => exists M',
      v' = set_index (set_store v (vstore v'))
             (foldl (fun m e => <[e.1 := e.2]> m) (page_index v) (map (fun pd => (pd.1, cid_from_data pd.2)) l)) /\
      cs_repr (vstore v') M' /\ M ⊆ M' /\ (forall c d, M' !! c = Some d -> d ∈ B) /\
      (forall p d, (p, d) ∈ l -> M' !! cid_from_data d = Some d)
  | (v', Some e) => exists e', e = StoreError (Some e')
  end.
Proof.
  intros Hs HB Hcf Hl. revert v M io Hs HB. induction Hl as [|[p d] l [Hd Hb] Hl IH]; intros v M io Hs HB; cbn.
  { exists M. split_and!; try done; [by destruct v|]. intros p d Hin. by apply not_elem_of_nil in Hin. }
  cbn in Hd, Hb. pose proof (cs_put_spec (vstore v) M d (io 0%nat) Hs Hb) as Hp.
  destruct (cs_put (vstore v) d (io 0%nat)) as [s [c|e]]; [|by eexists]. destruct Hp as [-> Hs'].
  destruct (spec_put_bound M d B (fun c d => cs_repr_hash (vstore v) M c d Hs) HB Hcf Hd) as (Hbound & Hsub & HB').
  set (v1 := set_index _ _). specialize (IH v1 (spec_put M d) (fun i => io (S i)) Hs' HB').
  destruct (store_pages v1 l (fun i => io (S i))) as [v' [e|]]; [done|].
  destruct IH as (M' & Hv' & HM' & Hsub' & HB'' & Hall). exists M'. split_and!; try done.
  - by etransitivity.
  - intros p' d' [[= -> ->]|Hin]%elem_of_cons; [|by eapply Hall]. by eapply lookup_weaken.
Qed.

Lemma index_of_union (l : list (Z * list Z)) (new old : gmap Z (list Z)) :
  l ≡ₚ map_to_list new ->
  foldl (fun m e => <[e.1 := e.2]> m) (index_of old) (map (fun pd => (pd.1, cid_from_data pd.2)) l)
  = index_of (new ∪ old).
Proof.
  intros Hl. assert (NoDup (map fst (map (fun pd => (pd.1, cid_from_data pd.2)) l))) as Hnd.
  { rewrite map_map. cbn. change (NoDup l.*1). rewrite Hl. apply NoDup_fst_map_to_list. }
  apply map_eq. intros p. rewrite foldl_insert_lookup by done. unfold index_of.
  rewrite !lookup_fmap, lookup_union. destruct (find _ _) as [[q c]|] eqn:Ef.
  - apply find_some in Ef as [Hin Heq]. bool_to_prop. cbn in Heq. subst q.
    apply in_map_iff in Hin as ([q d] & [= -> <-] & Hin). apply list_elem_of_In in Hin.
    rewrite Hl in Hin. apply elem_of_map_to_list in Hin. rewrite Hin. cbn. by rewrite union_Some_l.
  - destruct (new !! p) as [d|] eqn:En; [|by rewrite (left_id_L None (∪))]. exfalso.
    apply elem_of_map_to_list in En. rewrite <- Hl in En. apply list_elem_of_In in En.
    apply (in_map (fun pd => (pd.1, cid_from_data pd.2))) in En. eapply find_none in Ef; [|exact En].
    cbn in Ef. by rewrite bool_decide_true in Ef.
Qed.

Lemma serialize_bytes m : index_wf m -> bytes (serialize m).
Proof.
  intros Hm. unfold serialize. apply bytes_app. split; [apply to_le_bytes_wf|].
  pose proof (sorted_pairs_wf m Hm) as Hw. induction Hw as [|e l [_ [_ Hb]] _ IH]; [by apply Forall_nil_2|].
  cbn [map concat]. apply bytes_app. split; [|done]. apply bytes_app. split; [apply to_le_bytes_wf|done].
Qed.

Lemma pages_wf_union m m' : pages_wf m -> pages_wf m' -> pages_wf (m ∪ m').
Proof.
  intros Hm Hm' p d Hd. apply lookup_union_Some_raw in Hd as [Hd|[_ Hd]]; [by apply Hm|by apply Hm'].
Qed.

Lemma pending_blobs (pend : gmap Z (list Z)) l idx B :
  pages_wf pend -> l ≡ₚ map_to_list pend ->
  Forall (fun pd => pd.2 ∈ idx :: map snd (map_to_list pend) ++ B /\ bytes pd.2) l.
Proof.
  intros Hwf ->. apply list.Forall_forall. intros [p d] Hin. apply elem_of_map_to_list in Hin as Hp. cbn. split.
  - apply elem_of_cons. right. apply elem_of_app. left. apply list_elem_of_fmap. by exists (p, d).
  - by apply Hwf in Hp as [_ ?].
Qed.

(** A commit that succeeds makes the pending pages part of the committed ones and
    names the result by the hash of its index; it fails only on a store error, or
    on an empty database. *)
Lemma commit_repr v A M order io :
  vfs_repr v A M -> (forall l, order l ≡ₚ l) ->
  let A' := (spec_exec (IO := IO) (page_size v) A (VCommit order io)).1 in
  let out := (spec_exec (IO := IO) (page_size v) A (VCommit order io)).2 in
  collision_free (blobs A') ->
  match commit v order io with
  | (v', Ok r) => out = VRoot r /\ exists M', vfs_repr v' A' M'
  | (v', Err e) => (exists e', e = StoreError (Some e')) \/ out = VErr e /\ vfs_repr v' A' M
  end.
Proof.
  intros HR Hord. cbn [spec_exec]. unfold commit. rewrite (vr_dirty v A M HR).
  case_bool_decide as Hempty; cbn [fst snd].
  { intros Hcf. cbn [current_root set_dirty].
    assert (vfs_repr (set_dirty v ∅) A M) as HR' by (destruct HR; split; cbn; try done; congruence).
    rewrite (vr_root v A M HR). destruct (spec_root A); [by split; [|exists M]|by right]. }
  set (pages := pending A ∪ committed A). set (idx := serialize (index_of pages)).
  cbn [blobs]. set (B := idx :: _). intros Hcf.
  assert (index_wf (index_of pages)) as Hwf by (apply index_of_wf, pages_wf_union; apply HR).
  assert (forall b, b ∈ blobs A -> b ∈ B) as HB by (intros; apply elem_of_cons; right; apply elem_of_app; by right).
  set (l := order _). assert (l ≡ₚ map_to_list (pending A)) as Hl by apply Hord.
  pose proof (pending_blobs (pending A) l idx (blobs A) (vr_pending_wf v A M HR) Hl) as Hok. fold B in Hok.
  pose proof (store_pages_spec (set_dirty v ∅) M l io B (vr_store v A M HR)) as Hsp.
  destruct (store_pages (set_dirty v ∅) l io) as [v1 [e|]].
  { left. apply Hsp; [by intros ? ? ?%(vr_blobs v A M HR)%HB|done|done]. }
  destruct Hsp as (M1 & Hv1 & Hs1 & Hsub & HB1 & Hpend); [by intros ? ? ?%(vr_blobs v A M HR)%HB|done|done|].
  cbn [page_index set_dirty] in Hv1. rewrite (vr_index v A M HR), (index_of_union l (pending A)) in Hv1 by done. fold pages in Hv1.
  assert (page_index v1 = index_of pages) as Hi1 by (by rewrite Hv1). rewrite Hi1. fold idx.
  pose proof (cs_put_spec (vstore v1) M1 idx (io (length l)) Hs1 (serialize_bytes _ Hwf)) as Hp.
  destruct (cs_put (vstore v1) idx (io (length l))) as [s [c|e]]; [|left; by eexists]. destruct Hp as [-> Hs2].
  split; [done|]. exists (spec_put M1 idx).
  destruct (spec_put_bound M1 idx B (fun c d => cs_repr_hash (vstore v1) M1 c d Hs1) HB1 Hcf) as (Hb1 & Hsub1 & HB2);
    [apply elem_of_cons; by left|].
  rewrite Hv1. split; cbn; try done.
  - intros p d Hd. eapply lookup_weaken; [|exact Hsub1].
    apply lookup_union_Some_raw in Hd as [Hd|[_ Hd]].
    + apply (Hpend p). rewrite Hl. by apply elem_of_map_to_list.
    + eapply lookup_weaken; [|exact Hsub]. by apply (vr_pages v A M HR p).
  - intros r [= <-]. split; [done|]. apply elem_of_cons. by left.
  - intros r p d Hpk. destruct (vr_cache v A M HR r p d Hpk) as (Hd & I & HI & Hin & Hr & HIp). split.
    + eapply lookup_weaken; [exact Hd|]. by etransitivity.
    + exists I. split_and!; [done|by apply HB|done|done].
  - apply pages_wf_union; apply HR.
Qed.

(** ** Runs *)

Definition is_store_error (o : vfs_out) : bool :=
  match o with VErr (StoreError _) => true | _ => false end.

(** Operations of a client: page numbers in range, bytes, and any iteration order. *)
Definition vfs_op_ok (op : vfs_op (IO := IO)) : Prop :=
  match op with
  | VWrite p d => 0 <= p < 2 ^ 32 - 1 /\ bytes d
  | VRead _ _ => True
  | VCommit order _ => forall l, order l ≡ₚ l
  end.

(** Run until the first commit the store fails; outputs in order. *)
Fixpoint vfs_run (v : CidVfs) (ops : list vfs_op) : list vfs_out :=
  match ops with
  | [] => []
  | op :: ops =>
      let '(v', out) := vfs_exec v op in
      match op with
      | VCommit _ _ => if is_store_error out then [out] else out :: vfs_run v' ops
      | _ => out :: vfs_run v' ops
      end
  end.

(** What the two maps answer, operation by operation. *)
Fixpoint vfs_spec_run (ps : nat) (A : VfsSpec) (ops : list vfs_op) : VfsSpec * list vfs_out :=
  match ops with
  | [] => (A, [])
  | op :: ops =>
      let '(A1, out) := spec_exec (IO := IO) ps A op in
      let '(A2, outs) := vfs_spec_run ps A1 ops in (A2, out :: outs)
  end.

(** The outputs agree, except where the store failed. *)
Inductive outs_agree : list vfs_out -> list vfs_out -> Prop :=
| agree_nil l : outs_agree [] l
| agree_cons o l l' : outs_agree l l' -> outs_agree (o :: l) (o :: l')
| agree_store_error o o' l l' : is_store_error o = true -> outs_agree l l' -> outs_agree (o :: l) (o' :: l').

Lemma spec_blobs_mono ps A op b : b ∈ blobs A -> b ∈ blobs (spec_exec (IO := IO) ps A op).1.
Proof.
  intros Hb. destruct op; cbn; repeat case_match; cbn; try done.
  apply elem_of_cons. right. apply elem_of_app. by right.
Qed.

Lemma spec_run_blobs_mono ps A ops b : b ∈ blobs A -> b ∈ blobs (vfs_spec_run ps A ops).1.
Proof.
  revert A. induction ops as [|op ops IH]; intros A Hb; [done|]. cbn.
  pose proof (spec_blobs_mono ps A op b Hb) as Hb1. destruct (spec_exec ps A op) as [A1 out]. cbn in Hb1.
  specialize (IH A1 Hb1). by destruct (vfs_spec_run ps A1 ops).
Qed.

Lemma collision_free_sub B B' : (forall b, b ∈ B -> b ∈ B') -> collision_free B' -> collision_free B.
Proof. intros Hs Hc a b Ha Hb. apply Hc; auto. Qed.

Lemma page_size_exec v op : page_size (vfs_exec v op).1 = page_size v.
Proof.
  assert (forall l io v, page_size (store_pages v l io).1 = page_size v) as Hsp.
  { induction l as [|[p d] l IH]; intros io v0; cbn; [done|].
    destruct (cs_put (vstore v0) d (io 0%nat)) as [s [c|e]]; cbn; [by rewrite IH|done]. }
  destruct op as [p d|p io|order io]; cbn.
  - unfold write_page. by destruct (negb _).
  - unfold read_page. repeat case_match; by simplify_eq.
  - unfold commit. case_bool_decide; [by destruct (current_root _)|]. cbn.
    pose proof (Hsp (order (map_to_list (dirty_pages v))) io (set_dirty v ∅)) as Hs.
    destruct (store_pages _ _ _) as [v1 [e|]]; cbn in *; [done|].
    by destruct (cs_put (vstore v1) _ _) as [s [c|e]].
Qed.

(** One operation. *)
Lemma vfs_exec_repr v A M op :
  vfs_repr v A M -> vfs_op_ok op -> let A' := (spec_exec (page_size v) A op).1 in
  collision_free (blobs A') ->
  ((vfs_exec v op).2 = (spec_exec (page_size v) A op).2 /\ exists M', vfs_repr (vfs_exec v op).1 A' M') \/
  (is_store_error (vfs_exec v op).2 = true /\ (match op with VCommit _ _ => True | _ => vfs_repr (vfs_exec v op).1 A' M end)).
Proof.
  intros HR Hop A' Hcf. subst A'. destruct op as [p d|p io|order io]; cbn [vfs_exec].
  - left. unfold write_page. cbn [spec_exec]. destruct (length d =? page_size v)%nat; cbn; [|by split; [|exists M]].
    split; [done|]. exists M. destruct HR. split; cbn; try done; [by rewrite vr_dirty0|].
    intros q d' Hq. apply lookup_insert_Some in Hq as [[<- <-]|[_ Hq]]; [done|by apply vr_pending_wf0 in Hq].
  - cbn [spec_exec fst snd] in *. pose proof (read_page_repr v A M p io HR Hcf) as Hr.
    destruct (read_page v p io) as [v' [d|e]]; cbn.
    + destruct Hr as [-> HR']. left. split; [done|by exists M].
    + destruct e; destruct Hr as [Hr1 Hr2]; try (destruct Hr1 as [e' ?]; simplify_eq; right; done).
      subst. destruct Hr2 as [-> HR']. left. split; [done|by exists M].
  - pose proof (commit_repr v A M order io HR Hop Hcf) as Hc.
    destruct (commit v order io) as [v' [r|e]]; cbn [fst snd] in *.
    + destruct Hc as [-> [M' HR']]. left. split; [done|by exists M'].
    + destruct Hc as [[e' ->]|[-> HR']]; [by right|left]. split; [done|by exists M].
Qed.

Lemma vfs_run_agrees v A M ops :
  vfs_repr v A M -> Forall vfs_op_ok ops ->
  collision_free (blobs (vfs_spec_run (page_size v) A ops).1) ->
  outs_agree (vfs_run v ops) (vfs_spec_run (page_size v) A ops).2.
Proof.
  intros HR Hops. revert v A M HR. induction Hops as [|op ops Hop Hops IH]; intros v A M HR Hcf; [constructor|].
  cbn [vfs_run vfs_spec_run] in *. pose proof (vfs_exec_repr v A M op HR Hop) as Hx. cbn zeta in Hx.
  pose proof (page_size_exec v op) as Hps.
  destruct (spec_exec (page_size v) A op) as [A1 out] eqn:Es. cbn [fst snd] in Hx.
  destruct (vfs_spec_run (page_size v) A1 ops) as [A2 outs] eqn:Er.
  assert (forall b, b ∈ blobs A1 -> b ∈ blobs A2) as Hmono.
  { intros b Hb. pose proof (spec_run_blobs_mono (page_size v) A1 ops b Hb) as Hm. by rewrite Er in Hm. }
  specialize (Hx (collision_free_sub _ _ Hmono Hcf)).
  destruct (vfs_exec v op) as [v' out'] eqn:Ev. cbn [fst snd] in *.
  assert (forall M', vfs_repr v' A1 M' -> outs_agree (vfs_run v' ops) outs) as Hnext.
  { intros M' HR'. specialize (IH v' A1 M' HR'). rewrite Hps, Er in IH. by apply IH. }
  destruct Hx as [[-> [M' HR']]|[He HR']].
  - assert (outs_agree (out :: vfs_run v' ops) (out :: outs)) by (constructor; by eapply Hnext).
    destruct op; try done. destruct (is_store_error out); [|done]. constructor. constructor.
  - destruct op; [apply agree_store_error; [done|by eapply Hnext]..|]. rewrite He.
    apply agree_store_error; [done|constructor].
Qed.

Lemma vfs_new_repr s ps v : cs_repr s ∅ -> vfs_new s ps = Ok v ->
  page_size v = ps /\ vfs_repr v (mkVfsSpec ∅ ∅ None []) ∅.
Proof.
  intros Hs. unfold vfs_new. destruct (_ || _); [done|]. intros [= <-]. split; [done|].
  assert (forall k, lru_peek k (lru_new (Nat.max DEFAULT_CAPACITY 1)) = None) as Hn by (intros; apply lru_peek_new).
  split; cbn; try done. intros r p d Hp. by rewrite Hn in Hp.
Qed.

(** ** Persistence across any outcome *)

(** What survives failed commits too. *)
Record vfs_safe (v : CidVfs) (M : gmap Cid (list Z)) : Prop := {
  vs_store : cs_repr (vstore v) M;
  vs_index : index_wf (page_index v);
  vs_dirty : pages_wf (dirty_pages v);
}.

(** Objects are only added, and every object is a byte string if all were. *)
Definition grows (M M' : gmap Cid (list Z)) : Prop :=
  M ⊆ M' /\ (map_Forall (fun _ => bytes) M -> map_Forall (fun _ => bytes) M').

#[export] Instance grows_preorder : PreOrder grows.
Proof. split; [done|]. intros M1 M2 M3 [H1 B1] [H2 B2]. split; [by etransitivity|auto]. Qed.

Lemma spec_put_mono M d : M ⊆ spec_put M d.
Proof. unfold spec_put. destruct (M !! cid_from_data d) eqn:E; [done|by apply insert_subseteq]. Qed.

Lemma spec_put_grows M d : bytes d -> grows M (spec_put M d).
Proof.
  intros Hd. split; [apply spec_put_mono|]. intros HM. unfold spec_put.
  destruct (M !! cid_from_data d); [done|by apply map_Forall_insert_2].
Qed.

Lemma put_grows s M d io : cs_repr s M -> bytes d -> exists M', cs_repr (cs_put s d io).1 M' /\ grows M M'.
Proof.
  intros Hs Hd. pose proof (cs_put_spec s M d io Hs Hd) as Hp. destruct (cs_put s d io) as [s' [c|e]].
  - destruct Hp as [_ Hp]. eexists. split; [exact Hp|by apply spec_put_grows].
  - by exists M.
Qed.

Lemma store_pages_safe v M l io :
  vfs_safe v M -> (forall p d, (p, d) ∈ l -> 0 <= p < 2 ^ 32 - 1 /\ bytes d) ->
  exists M', vfs_safe (store_pages v l io).1 M' /\ grows M M'.
Proof.
  revert v M io. induction l as [|[p d] l IH]; intros v M io Hv Hl; cbn; [by exists M|].
  destruct (Hl p d) as [Hp Hd]; [by apply elem_of_cons; left|].
  destruct Hv as [Hs Hi Hdi]. destruct (put_grows (vstore v) M d (io 0%nat) Hs Hd) as (M1 & Hs1 & Hsub).
  pose proof (cs_put_spec (vstore v) M d (io 0%nat) Hs Hd) as Hps.
  destruct (cs_put (vstore v) d (io 0%nat)) as [s [c|e]]; cbn in *; [|by exists M1].
  destruct Hps as [-> _]. edestruct (IH (set_index (set_store v s) (index_set (page_index v) p (cid_from_data d))) M1
    (fun i => io (S i))) as (M2 & Hv2 & Hsub2).
  - split; cbn; [done| |done]. intros q c Hq. unfold index_set in Hq. apply lookup_insert_Some in Hq as [[<- <-]|[_ Hq]]; [|by apply Hi].
    split; [done|apply cid_from_data_wf].
  - intros q d' Hin. apply Hl. apply elem_of_cons. by right.
  - exists M2. split; [done|by etransitivity].
Qed.

Lemma vfs_exec_safe v M op :
  vfs_safe v M -> vfs_op_ok op -> exists M', vfs_safe (vfs_exec v op).1 M' /\ grows M M'.
Proof.
  intros Hv Hop. destruct op as [p d|p io|order io]; cbn [vfs_exec].
  - exists M. split; [|done]. destruct Hv. unfold write_page. destruct (negb _); cbn; [by split|]. split; cbn; try done.
    intros q d' Hq. apply lookup_insert_Some in Hq as [[<- <-]|[_ Hq]]; [done|by apply vs_dirty0 in Hq].
  - exists M. split; [|done]. destruct Hv as [Hs Hi Hd]. unfold read_page.
    destruct (pc_get _ _ _) as [pc [d|]]; [by split|]. cbn. unfold index_get.
    destruct (page_index v !! p) as [c|] eqn:Ei; [|by split]. apply Hi in Ei as [_ Hc].
    pose proof (cs_get_spec (vstore v) M c io Hs Hc) as Hg.
    destruct (cs_get (vstore v) c io) as [s [[d|]|e]]; cbn; [|by destruct Hg; split|by split].
    destruct Hg as [_ Hg]. by destruct (negb _).
  - unfold commit. assert (vfs_safe (set_dirty v ∅) M) as Hv0 by (destruct Hv; by split).
    case_bool_decide; [exists M; by destruct (current_root _)|].
    set (l := order _). destruct (store_pages_safe (set_dirty v ∅) M l io Hv0) as (M1 & Hv1 & Hsub).
    { intros p d Hin. unfold l in Hin. rewrite (Hop _) in Hin. apply elem_of_map_to_list in Hin.
      by apply (vs_dirty v M Hv). }
    destruct (store_pages _ l io) as [v1 [e|]]; [by exists M1|]. cbn in Hv1. destruct Hv1 as [Hs1 Hi1 Hd1].
    destruct (put_grows (vstore v1) M1 (serialize (page_index v1)) (io (length l)) Hs1 (serialize_bytes _ Hi1))
      as (M2 & Hs2 & Hsub2).
    destruct (cs_put (vstore v1) _ _) as [s [c|e]]; exists M2; (split; [by split|by etransitivity]).
Qed.

Lemma vfs_execs_safe v M ops :
  vfs_safe v M -> Forall vfs_op_ok ops ->
  exists M', vfs_safe (foldl (fun v op => (vfs_exec v op).1) v ops) M' /\ grows M M'.
Proof.
  intros Hv Hops. revert v M Hv. induction Hops as [|op ops Hop Hops IH]; intros v M Hv; cbn; [by exists M|].
  destruct (vfs_exec_safe v M op Hv Hop) as (M1 & Hv1 & Hsub). destruct (IH _ M1 Hv1) as (M2 & Hv2 & Hsub2).
  exists M2. split; [done|by etransitivity].
Qed.

Lemma repr_safe v A M : vfs_repr v A M -> vfs_safe v M.
Proof.
  intros HR. split; [apply HR| |].
  - rewrite (vr_index v A M HR). apply index_of_wf, HR.
  - rewrite (vr_dirty v A M HR). apply HR.
Qed.

(** ** Properties *)


(** A snapshot pins its pages: after any further operations, failed commits
    included, each page number of the snapshot still resolves to a CID under which
    the store returns the contents committed when the snapshot was taken. *)
Theorem snapshot_pages_persist v A M sn ops p c io :
  vfs_repr v A M -> snapshot v = Ok sn -> Forall vfs_op_ok ops -> resolve_page sn p = Some c ->
  let v' := foldl (fun v op => (vfs_exec v op).1) v ops in
  exists d, committed A !! p = Some d /\ c = cid_from_data d /\
    match (cs_get (vstore v') c io).2 with Ok r => r = Some d | Err _ => True end.
Proof.
  intros HR Hsn Hops Hp. cbn zeta.
  assert (page_index v !! p = Some c) as Hc.
  { unfold snapshot in Hsn. destruct (current_root v); [|done]. by inversion Hsn; subst. }
  rewrite (vr_index v A M HR) in Hc. unfold index_of in Hc. rewrite lookup_fmap in Hc.
  destruct (committed A !! p) as [d|] eqn:Ed; [|done]. cbn in Hc. inversion Hc; subst.
  exists d. split_and!; try done.
  destruct (vfs_execs_safe v M ops (repr_safe v A M HR) Hops) as (M' & Hv' & Hsub).
  pose proof (cs_get_spec _ M' (cid_from_data d) io (vs_store _ M' Hv') (cid_from_data_wf d)) as Hg.
  destruct (cs_get _ (cid_from_data d) io) as [s' [r|e]]; [|done]. destruct Hg as [-> _].
  eapply lookup_weaken; [|exact (proj1 Hsub)]. by apply (vr_pages v A M HR p).
Qed.

End VfsFacts.

(** ** Concrete runs *)

Definition demo_page (b : Z) : list Z := replicate 512 b.
Abbreviation demo_store := (store_over ∅ 4).
Abbreviation io_ok := (fun _ : nat => (WriteOk, RenameOk, ReadOk)).

Definition demo_vfs : CidVfs (St := ObjStore) :=
  match vfs_new demo_store 512 with
  | Ok v => v
  | Err _ => mkVfs demo_store ∅ None (pc_with_capacity 1) ∅ None 0
  end.

Definition demo_vfs_ops : list (vfs_op (IO := write_outcome * rename_outcome * read_outcome)) :=
  [VWrite 1 (demo_page 7); VCommit id io_ok; VWrite 1 (demo_page 8); VRead 1 (WriteOk, RenameOk, ReadOk);
   VCommit (@rev _) io_ok; VRead 1 (WriteOk, RenameOk, ReadOk)].

#[export] Instance collision_free_dec B : Decision (collision_free B).
Proof.
  destruct (decide (Forall (fun a => Forall (fun b => cid_from_data a = cid_from_data b -> a = b) B) B))
    as [Hy|Hn]; [left|right].
  - intros a b Ha Hb. exact (proj1 (list.Forall_forall _ _) (proj1 (list.Forall_forall _ _) Hy a Ha) b Hb).
  - intros Hc. apply Hn, list.Forall_forall. intros a Ha. apply list.Forall_forall. intros b Hb. by apply Hc.
Defined.

Lemma demo_vfs_ops_ok : Forall vfs_op_ok demo_vfs_ops.
Proof.
  apply Forall_cons; split; [by_compute|]. apply Forall_cons; split; [intros l; reflexivity|].
  apply Forall_cons; split; [by_compute|]. apply Forall_cons; split; [exact I|].
  apply Forall_cons; split; [intros l; symmetry; apply Permutation_rev|].
  apply Forall_cons; split; [exact I|]. apply Forall_nil_2.
Qed.


(** The state after the first commit of the run above, and its page map. *)
Definition demo_vfs1 : CidVfs (St := ObjStore) :=
  foldl (fun v op => (vfs_exec v op).1) demo_vfs (take 2 demo_vfs_ops).
Definition demo_spec1 : VfsSpec := (vfs_spec_run 512 (mkVfsSpec ∅ ∅ None []) (take 2 demo_vfs_ops)).1.

Lemma demo_repr1 : exists M, vfs_repr demo_vfs1 demo_spec1 M.
Proof.
  assert (cs_repr (IO := write_outcome * rename_outcome * read_outcome) demo_store ∅) as Hs by apply new_repr.
  destruct (vfs_new_repr demo_store 512 demo_vfs Hs ltac:(vm_compute; reflexivity)) as [Hps HR].
  destruct (vfs_exec_repr demo_vfs (mkVfsSpec ∅ ∅ None []) ∅ (VWrite 1 (demo_page 7)) HR ltac:(by_compute))
    as [[_ [M1 HR1]]|[He _]]; [rewrite Hps; by_compute| |vm_compute in He; discriminate].
  rewrite Hps in HR1.
  destruct (vfs_exec_repr _ _ M1 (VCommit id io_ok) HR1 ltac:(intros l; reflexivity))
    as [[_ HR2]|[He _]]; [by_compute| |vm_compute in He; discriminate]. exact HR2.
Qed.

(** A commit whose index write fails: the page loop has already run. *)
Definition failing_commit : vfs_op :=
  VCommit id (fun i => if (i =? 1)%nat then (WriteErr true None, RenameOk, ReadOk) else (WriteOk, RenameOk, ReadOk)).

Lemma snapshot_pages_persist_witness :
  exists sn, snapshot demo_vfs1 = Ok sn /\
  (cs_get (vstore (foldl (fun v op => (vfs_exec v op).1) demo_vfs1 [VWrite 1 (demo_page 9); failing_commit]))
     (cid_from_data (demo_page 7)) (WriteOk, RenameOk, ReadOk)).2 = Ok (Some (demo_page 7)).
Proof.
  destruct demo_repr1 as [M HR].
  assert (exists sn, snapshot demo_vfs1 = Ok sn /\ resolve_page sn 1 = Some (cid_from_data (demo_page 7)))
    as (sn & Hsn & Hp) by (eexists; split; vm_compute; reflexivity).
  exists sn. split; [exact Hsn|].
  destruct (snapshot_pages_persist demo_vfs1 demo_spec1 M sn [VWrite 1 (demo_page 9); failing_commit] 1
    (cid_from_data (demo_page 7)) (WriteOk, RenameOk, ReadOk) HR Hsn) as (d & Hd & Hc & Hr).
  - apply Forall_cons; split; [by_compute|]. apply Forall_cons; split; [intros l; reflexivity|]. apply Forall_nil_2.
  - exact Hp.
  - vm_compute. reflexivity.
Defined.

(** A commit that fails after its page loop is not undone: the root is unchanged
    and the pending pages are gone, yet a read under the old root returns the
    uncommitted page. *)
Theorem failed_commit_exposes_pages :
  let v1 := (vfs_exec demo_vfs1 (VWrite 1 (demo_page 9))).1 in
  let v2 := (vfs_exec v1 failing_commit).1 in
  (vfs_exec v1 failing_commit).2 = VErr (StoreError (Some StoreFull)) /\
  current_root v2 = current_root demo_vfs1 /\ dirty_pages v2 = ∅ /\
  (vfs_exec v2 (VRead 1 (WriteOk, RenameOk, ReadOk))).2 = VData (demo_page 9) /\
  (vfs_exec demo_vfs1 (VRead 1 (WriteOk, RenameOk, ReadOk))).2 = VData (demo_page 7).
Proof. vm_compute. done. Qed.
