(* ===== verification/VfsConc.v ===== *)
(** * Concurrent use of the CID-VFS (crates/craftec-vfs/src/vfs.rs, snapshot.rs)

    Reads, writes, commits and snapshots split at every access to what they share: the
    store, the page index, the page cache, the buffered pages and the root.  Store
    calls are single steps here; their own interleaving is the subject of
    [StoreConc].  Every read returns what was written for its page, and the root names
    the index whenever no commit runs; but a read or a snapshot that overlaps a
    commit pairs the old root with new pages. *)
From Stdlib Require Import ZArith Lia.
From stdpp Require Import base list list_numbers numbers strings gmap relations.
From S2P Require Import Prelude Types Instances External ObjStore PageIndex Vfs.

Local Open Scope Z_scope.

Section Conc.
Context `{B3 : Blake3} `{LRU : Lru (Cid * Z) (list Z)}.
Context {St IO : Type} `{CS : !ContentStore St IO}.

(** Where an operation is, with what it holds in local variables. *)
Inductive vfs_task : Type :=
| ReadStart (p : Z)
| ReadLookup (p : Z) (root : Cid)
| ReadIndex (p : Z) (root : Cid)
| ReadFetch (p : Z) (root c : Cid)
| ReadCache (p : Z) (root : Cid) (d : list Z)
| ReadDone (p : Z) (r : result (list Z) VfsError)
| WriteStart (p : Z) (d : list Z)
| WriteDone (r : result unit VfsError)
| CommitStart
| CommitCheck
| CommitPages (todo : list (Z * list Z))
| CommitIndex (p : Z) (c : Cid) (todo : list (Z * list Z))
| CommitRoot (serialised : list Z)
| CommitSetRoot (root : Cid)
| CommitPublish (root : Cid)
| CommitDone (r : result Cid VfsError)
| SnapStart
| SnapEntries (root : Cid)
| SnapDone (r : result Snapshot VfsError).

Definition set_index_root (v : CidVfs (St := St)) (root : Cid) : CidVfs :=
  mkVfs (vstore v) (page_index v) (Some root) (page_cache v) (dirty_pages v) (current_root v) (page_size v).
Definition set_current_root (v : CidVfs (St := St)) (root : Cid) : CidVfs :=
  mkVfs (vstore v) (page_index v) (index_root v) (page_cache v) (dirty_pages v) (Some root) (page_size v).

(** One access of [read_page]. *)
Definition read_step (v : CidVfs (St := St)) (t : vfs_task) (io : IO) : CidVfs * vfs_task :=
  match t with
  | ReadStart p => (v, ReadLookup p (default (replicate 32 0) (current_root v)))
  | ReadLookup p root =>
      let '(pc, cached) := pc_get (page_cache v) root p in
      (set_cache v pc, match cached with Some d => ReadDone p (Ok d) | None => ReadIndex p root end)
  | ReadIndex p root =>
      (v, match index_get (page_index v) p with None => ReadDone p (Err (PageNotFound p)) | Some c => ReadFetch p root c end)
  | ReadFetch p root c =>
      let '(s, bytes_opt) := cs_get (vstore v) c io in
      (set_store v s,
       match bytes_opt with
       | Err e => ReadDone p (Err (StoreError (Some e)))
       | Ok None => ReadDone p (Err (StoreError None))
       | Ok (Some d) =>
           if negb (bool_decide (cid_from_data d = c)) then ReadDone p (Err (IntegrityCheckFailed p c (cid_from_data d)))
           else ReadCache p root d
       end)
  | ReadCache p root d => (set_cache v (pc_put (page_cache v) root p d), ReadDone p (Ok d))
  | t => (v, t)
  end.

(** One access of [commit]; [order] is the iteration order of the hash map. *)
Definition commit_step (v : CidVfs (St := St)) (t : vfs_task) (order : list (Z * list Z) -> list (Z * list Z)) (io : IO)
    : CidVfs * vfs_task :=
  match t with
  | CommitStart =>
      (set_dirty v ∅, if bool_decide (dirty_pages v = ∅) then CommitCheck else CommitPages (order (map_to_list (dirty_pages v))))
  | CommitCheck => (v, CommitDone (match current_root v with Some r => Ok r | None => Err NoRootCid end))
  | CommitPages ((p, d) :: todo) =>
      match cs_put (vstore v) d io with
      | (s, Err e) => (set_store v s, CommitDone (Err (StoreError (Some e))))
      | (s, Ok c) => (set_store v s, CommitIndex p c todo)
      end
  | CommitIndex p c todo => (set_index v (index_set (page_index v) p c), CommitPages todo)
  | CommitPages [] => (v, CommitRoot (serialize (page_index v)))
  | CommitRoot serialised =>
      match cs_put (vstore v) serialised io with
      | (s, Err e) => (set_store v s, CommitDone (Err (StoreError (Some e))))
      | (s, Ok root) => (set_store v s, CommitSetRoot root)
      end
  | CommitSetRoot root => (set_index_root v root, CommitPublish root)
  | CommitPublish root => (set_current_root v root, CommitDone (Ok root))
  | t => (v, t)
  end.

Definition snap_step (v : CidVfs (St := St)) (t : vfs_task) : CidVfs * vfs_task :=
  match t with
  | SnapStart => (v, match current_root v with None => SnapDone (Err NoRootCid) | Some r => SnapEntries r end)
  | SnapEntries r => (v, SnapDone (Ok (mkSnapshot r (page_index v))))
  | t => (v, t)
  end.

Definition vfs_step (v : CidVfs (St := St)) (t : vfs_task) (order : list (Z * list Z) -> list (Z * list Z)) (io : IO) : CidVfs * vfs_task :=
  match t with
  | ReadStart _ | ReadLookup _ _ | ReadIndex _ _ | ReadFetch _ _ _ | ReadCache _ _ _ | ReadDone _ _ => read_step v t io
  | WriteStart p d => let '(v, r) := write_page v p d in (v, WriteDone r)
  | WriteDone _ => (v, t)
  | SnapStart | SnapEntries _ | SnapDone _ => snap_step v t
  | _ => commit_step v t order io
  end.

(** ** Interleavings *)

(** Clients read any page, write pages of [W], commit and take snapshots. *)
Definition vfs_call (W : Z -> list Z -> Prop) (t : vfs_task) : Prop :=
  match t with
  | ReadStart _ | CommitStart | SnapStart => True
  | WriteStart p d => W p d
  | _ => False
  end.

(** What a task is about to put into the store. *)
Definition storing_blob (t : vfs_task) : option (list Z) :=
  match t with CommitPages ((_, d) :: _) | CommitRoot d => Some d | _ => None end.

(** [K] are the blobs that occur; the iteration order is any order. *)
Inductive vfs_sys (W : Z -> list Z -> Prop) (K : list Z -> Prop) : CidVfs * list vfs_task -> CidVfs * list vfs_task -> Prop :=
| vsys_call v ts t : vfs_call W t -> vfs_sys W K (v, ts) (v, ts ++ [t])
| vsys_run v ts k t order io : ts !! k = Some t -> (forall l, order l ≡ₚ l) -> (forall b, storing_blob t = Some b -> K b) ->
    vfs_sys W K (v, ts) ((vfs_step v t order io).1, <[k := (vfs_step v t order io).2]> ts).

(** One task, with the answers of the store. *)
Definition vfs_alone (v : CidVfs (St := St)) (t : vfs_task) (order : list (Z * list Z) -> list (Z * list Z)) (ios : list IO) : CidVfs * vfs_task :=
  foldl (fun st io => vfs_step st.1 st.2 order io) (v, t) ios.

(** A commit that holds pages or a root. *)
Definition committing (t : vfs_task) : bool :=
  match t with CommitPages _ | CommitIndex _ _ _ | CommitRoot _ | CommitSetRoot _ | CommitPublish _ => true | _ => false end.

Definition commit_failed (t : vfs_task) : bool := match t with CommitDone (Err (StoreError _)) => true | _ => false end.

(** Commits take turns. *)
Definition one_committer (ts : list vfs_task) : Prop :=
  forall j k t u, ts !! j = Some t -> ts !! k = Some u -> committing t = true -> committing u = true -> j = k.

End Conc.

(** ** What readers and snapshots see *)

Section Written.
Context `{BL : Blake3Laws} `{LL : LruLaws (Cid * Z) (list Z)}.
Context {St IO : Type} {CS : ContentStore St IO} {CSL : ContentStoreLaws St IO}.
Context (W : Z -> list Z -> Prop) (K : list Z -> Prop).
Context (HW : forall p d, W p d -> 0 <= p < 2 ^ 32 - 1 /\ bytes d).
Context (HK : forall a b, K a -> K b -> cid_from_data a = cid_from_data b -> a = b).

(** [c] is stored and holds a page written as [p]. *)
Definition written (M : gmap Cid (list Z)) (p : Z) (c : Cid) : Prop := exists d, M !! c = Some d /\ W p d.

Record pages_ok (v : CidVfs (St := St)) (M : gmap Cid (list Z)) : Prop := {
  pg_store : cs_repr (vstore v) M;
  pg_known c d : M !! c = Some d -> K d;
  pg_index p c : page_index v !! p = Some c -> written M p c;
  pg_cache r p d : lru_peek (r, p) (pc_lru (page_cache v)) = Some d -> W p d;
  pg_dirty p d : dirty_pages v !! p = Some d -> W p d;
}.

Definition vtask_ok (M : gmap Cid (list Z)) (t : vfs_task) : Prop :=
  match t with
  | ReadFetch p _ c => written M p c
  | ReadCache p _ d => W p d
  | ReadDone p (Ok d) => W p d
  | WriteStart p d => W p d
  | CommitPages todo => Forall (fun x => W x.1 x.2) todo
  | CommitIndex p c todo => written M p c /\ Forall (fun x => W x.1 x.2) todo
  | CommitRoot b => bytes b
  | SnapDone (Ok sn) => forall p c, resolve_page sn p = Some c -> written M p c
  | _ => True
  end.

Lemma written_mono M M' p c : M ⊆ M' -> written M p c -> written M' p c.
Proof. intros Hs (d & Hd & Hw). exists d. split; [by eapply lookup_weaken|done]. Qed.

Lemma vtask_mono M M' t : M ⊆ M' -> vtask_ok M t -> vtask_ok M' t.
Proof.
  intros Hs. pose proof (fun p c => written_mono M M' p c Hs) as Hm. destruct t as [| | | |p r d|p [d|e]| | | | | |p c todo| | | | | | |[sn|e]]; cbn; try done; auto.
  - intros [? ?]. auto.
Qed.

Lemma written_wf s M p c : cs_repr s M -> written M p c -> cid_wf c.
Proof. intros Hs (d & Hd & _). rewrite <- (cs_repr_hash s M c d Hs Hd). apply cid_from_data_wf. Qed.

Lemma index_serializes v M : pages_ok v M -> bytes (serialize (page_index v)).
Proof.
  intros Hv. apply serialize_bytes. intros p c Hc. pose proof (pg_index v M Hv p c Hc) as Hw.
  split; [|exact (written_wf (vstore v) M p c (pg_store v M Hv) Hw)]. destruct Hw as (d & _ & Hd). exact (proj1 (HW p d Hd)).
Qed.

(** A blob goes into the store. *)
Lemma put_known v M b io s r :
  pages_ok v M -> bytes b -> K b -> cs_put (vstore v) b io = (s, r) ->
  exists M', pages_ok (set_store v s) M' /\ M ⊆ M' /\ forall c, r = Ok c -> c = cid_from_data b /\ M' !! c = Some b.
Proof.
  intros Hv Hb HKb Heq. pose proof (cs_put_spec (vstore v) M b io (pg_store v M Hv) Hb) as Hp. rewrite Heq in Hp. destruct r as [c|e].
  - destruct Hp as [-> Hs]. exists (spec_put M b). pose proof (spec_put_mono M b) as Hsub. assert (spec_put M b !! cid_from_data b = Some b) as Hbd.
    { unfold spec_put. destruct (M !! cid_from_data b) as [d|] eqn:E; [|apply lookup_insert_eq].
      rewrite E. f_equal. apply HK; [by apply (pg_known v M Hv _ d E)|done|]. by apply (cs_repr_hash (vstore v) M _ d (pg_store v M Hv)). }
    split_and!; [|done|by intros c [= <-]]. split; cbn; [done| | |apply Hv|apply Hv].
    + intros c d. unfold spec_put. destruct (M !! cid_from_data b); [apply (pg_known v M Hv)|].
      intros [[_ <-]|[_ Hd]]%lookup_insert_Some; [done|by apply (pg_known v M Hv c)].
    + intros p c Hc. eapply written_mono; [exact Hsub|]. by apply (pg_index v M Hv).
  - exists M. split_and!; [|done|done]. split; cbn; [done|apply Hv|apply Hv|apply Hv|apply Hv].
Qed.

Lemma vstep_ok v M t order io :
  pages_ok v M -> vtask_ok M t -> (forall l, order l ≡ₚ l) -> (forall b, storing_blob t = Some b -> K b) ->
  exists M', pages_ok (vfs_step v t order io).1 M' /\ vtask_ok M' (vfs_step v t order io).2 /\ M ⊆ M'.
Proof.
  intros Hv Ht Hord Hb. destruct t as [p|p root|p root|p root c|p root d|p r|p d|r| | |[|[p d] todo]|p c todo|b|root|root|r| |root|r];
    cbn [vfs_step read_step commit_step snap_step]; try (exists M; split_and!; [done|done|done]).
  - destruct (pc_get_spec (page_cache v) root p) as [Hget Hkeep]. destruct (pc_get (page_cache v) root p) as [pc cached]. cbn in Hget, Hkeep.
    exists M. split_and!; [|destruct cached as [d|]; [by apply (pg_cache v M Hv root)|done]|done].
    split; cbn; [apply Hv|apply Hv|apply Hv| |apply Hv]. intros r q d. rewrite Hkeep. apply Hv.
  - exists M. split_and!; [done| |done]. unfold index_get. destruct (page_index v !! p) as [c|] eqn:E; [by apply (pg_index v M Hv)|done].
  - cbn in Ht. pose proof (cs_get_spec (vstore v) M c io (pg_store v M Hv) (written_wf _ M p c (pg_store v M Hv) Ht)) as Hg.
    destruct (cs_get (vstore v) c io) as [s [o|e]]; (exists M; split_and!; [|cbn|done]).
    + destruct Hg as [_ Hs]. split; cbn; [done|apply Hv|apply Hv|apply Hv|apply Hv].
    + destruct Hg as [-> _]. destruct Ht as (d & Hd & Hw). rewrite Hd. by destruct (negb _).
    + split; cbn; [done|apply Hv|apply Hv|apply Hv|apply Hv].
    + done.
  - exists M. split_and!; [|done|done]. split; cbn; [apply Hv|apply Hv|apply Hv| |apply Hv].
    intros r q e Hp. apply lru_put_inv in Hp as [[[= -> ->] ->]|[_ Hp]]; [done|by apply (pg_cache v M Hv r)].
  - unfold write_page. destruct (negb _); (exists M; split_and!; [|done|done]); [done|].
    split; cbn; [apply Hv|apply Hv|apply Hv|apply Hv|]. intros q e [[<- <-]|[_ Hq]]%lookup_insert_Some; [done|by apply (pg_dirty v M Hv)].
  - exists M. split_and!; [| |done].
    + split; cbn; [apply Hv|apply Hv|apply Hv|apply Hv|]. intros q e. by rewrite lookup_empty.
    + cbn. case_bool_decide; [done|]. cbn. apply Forall_forall. intros [q e]. rewrite Hord. intros Hin%elem_of_map_to_list. by apply (pg_dirty v M Hv).
  - exists M. split_and!; [done| |done]. by apply (index_serializes v M).
  - apply Forall_cons in Ht as [Hw Ht]. destruct (cs_put (vstore v) d io) as [s r] eqn:Ep.
    destruct (put_known v M d io s r Hv (proj2 (HW p d Hw)) (Hb d eq_refl) Ep) as (M' & Hv' & Hsub & Hr). exists M'.
    destruct r as [c|e]; split_and!; try done. cbn. destruct (Hr c eq_refl) as [-> Hc]. split; [by exists d|done].
  - destruct Ht as [Hc Ht]. exists M. split_and!; [|done|done]. split; cbn; [apply Hv|apply Hv| |apply Hv|apply Hv].
    unfold index_set. intros q e [[<- <-]|[_ Hq]]%lookup_insert_Some; [done|by apply (pg_index v M Hv)].
  - destruct (cs_put (vstore v) b io) as [s r] eqn:Ep. destruct (put_known v M b io s r Hv Ht (Hb b eq_refl) Ep) as (M' & Hv' & Hsub & _).
    exists M'. by destruct r; split_and!.
  - exists M. split_and!; [|done|done]. split; cbn; apply Hv.
  - exists M. split_and!; [|done|done]. split; cbn; apply Hv.
  - exists M. split_and!; [done|by destruct (current_root v)|done].
  - exists M. split_and!; [done| |done]. cbn. intros p c. apply (pg_index v M Hv).
Qed.

Lemma vrun_ok a b M :
  rtc (vfs_sys W K) a b -> pages_ok a.1 M -> Forall (vtask_ok M) a.2 -> exists M', pages_ok b.1 M' /\ Forall (vtask_ok M') b.2 /\ M ⊆ M'.
Proof.
  intros Hr. revert M. induction Hr as [a|a a1 b Hst _ IH]; intros M Hv Ht; [by exists M|].
  destruct Hst as [v ts t Hc|v ts k t order io Hk Hord Hb]; cbn in *.
  - apply IH; [done|]. apply Forall_app_2; [done|]. apply Forall_singleton. by destruct t.
  - destruct (vstep_ok v M t order io Hv (proj1 (Forall_lookup _ _) Ht k t Hk) Hord Hb) as (M1 & Hv1 & Ht1 & Hs1).
    destruct (IH M1 Hv1) as (M2 & Hv2 & Ht2 & Hs2); [|exists M2; split_and!; [done|done|by etransitivity]].
    apply Forall_insert; [|done]. eapply Forall_impl; [exact Ht|]. intros u. by apply vtask_mono.
Qed.

(** C8: However reads, writes, commits and snapshots interleave, and whichever store calls
    fail: a read of a page returns bytes that were written for that page, and every
    page a snapshot lists is stored and was written for its number. *)
Theorem concurrent_reads_return_written v M v' ts' :
  pages_ok v M -> rtc (vfs_sys W K) (v, []) (v', ts') ->
  (forall k p d, ts' !! k = Some (ReadDone p (Ok d)) -> W p d) /\
  exists M', M ⊆ M' /\ cs_repr (vstore v') M' /\
    forall k sn p c, ts' !! k = Some (SnapDone (Ok sn)) -> resolve_page sn p = Some c -> exists d, M' !! c = Some d /\ W p d.
Proof.
  intros Hv Hr. destruct (vrun_ok (v, []) (v', ts') M Hr Hv (Forall_nil_2 _)) as (M' & Hv' & Ht' & Hs). cbn in *.
  pose proof (proj1 (Forall_lookup _ _) Ht') as Hl. split; [intros k p d Hk; exact (Hl k _ Hk)|].
  exists M'. split_and!; [done|apply Hv'|]. intros k sn p c Hk. exact (Hl k _ Hk p c).
Qed.

(** *** The root names the index *)

Definition named (v : CidVfs (St := St)) : Prop := forall r, current_root v = Some r -> r = cid_from_data (serialize (page_index v)).

(** Steps of commits that take turns. *)
Definition vfs_turn (a b : CidVfs (St := St) * list vfs_task) : Prop := vfs_sys W K a b /\ one_committer a.2.

(** What a commit past its page loop holds. *)
Definition holds_root (v : CidVfs (St := St)) (t : vfs_task) : Prop :=
  match t with
  | CommitRoot b => b = serialize (page_index v)
  | CommitSetRoot r | CommitPublish r => r = cid_from_data (serialize (page_index v))
  | _ => True
  end.

Definition unsettled (t : vfs_task) : bool := committing t || commit_failed t.

Record root_ok (v : CidVfs (St := St)) (ts : list vfs_task) : Prop := {
  rk_task k t : ts !! k = Some t -> holds_root v t;
  rk_named : (exists k t, ts !! k = Some t /\ unsettled t = true) \/ named v;
}.

(** Only commits touch the index and the root. *)
Lemma other_step v t order io :
  committing t = false ->
  page_index (vfs_step v t order io).1 = page_index v /\ current_root (vfs_step v t order io).1 = current_root v /\
  holds_root v (vfs_step v t order io).2 /\ (commit_failed t = true -> (vfs_step v t order io).2 = t).
Proof.
  intros Hc. destruct t as [p|p root|p root|p root c|p root d|p r|p d|r| | |todo|p c todo|b|root|root|r| |root|r]; try done;
    cbn [vfs_step read_step commit_step snap_step]; try done.
  - by destruct (pc_get (page_cache v) root p) as [pc [d|]].
  - by destruct (index_get (page_index v) p).
  - destruct (cs_get (vstore v) c io) as [s [[d|]|e]]; try done. by destruct (negb _).
  - unfold write_page. by destruct (negb _).
  - by case_bool_decide.
  - cbn [fst snd]. by split_and!; [..|destruct (current_root v)|].
Qed.

(** A step of a commit: it stays a commit, fails, or publishes the root of the index. *)
Lemma committer_step v M t order io :
  pages_ok v M -> vtask_ok M t -> committing t = true -> holds_root v t ->
  let '(v', t') := vfs_step v t order io in
  holds_root v' t' /\ (unsettled t' = true \/ named v').
Proof.
  intros Hv Ht Hc Hh. destruct t as [| | | | | | | | | |[|[p d] todo]|p c todo|b|root|root|r| | |]; try done; cbn [vfs_step commit_step].
  - by split; [|left].
  - destruct (cs_put (vstore v) d io) as [s [c|e]]; by split; [|left].
  - by split; [|left].
  - pose proof (cs_put_spec (vstore v) M b io (pg_store v M Hv) Ht) as Hp. destruct (cs_put (vstore v) b io) as [s [c|e]]; [|by split; [|left]].
    split; [|by left]. cbn in *. destruct Hp as [-> _]. by rewrite Hh.
  - by split; [|left].
  - split; [done|]. right. intros r [= <-]. exact Hh.
Qed.

Lemma turn_ok v ts M v' ts' :
  vfs_turn (v, ts) (v', ts') -> pages_ok v M -> Forall (vtask_ok M) ts -> root_ok v ts -> root_ok v' ts'.
Proof.
  intros [Hst H1c] Hv Hts [Ht Hn]. cbn in H1c. inversion Hst as [? ? t Hc|? ? k t order io Hk Hord Hb]; subst; clear Hst.
  - split.
    + intros k u Hk. apply lookup_app_Some in Hk as [Hk|[_ Hk]]; [by apply (Ht k)|]. apply list_lookup_singleton_Some in Hk as [_ <-]. by destruct t.
    + destruct Hn as [(k & u & Hk & Hu)|Hn]; [|by right]. left. exists k, u. split; [by apply lookup_app_l_Some|done].
  - pose proof (lookup_lt_Some _ _ _ Hk) as Hlt. pose proof (proj1 (Forall_lookup _ _) Hts k t Hk) as Htk.
    destruct (committing t) eqn:Ec.
    + pose proof (committer_step v M t order io Hv Htk Ec (Ht k t Hk)) as Hcs. destruct (vfs_step v t order io) as [v1 t1]. destruct Hcs as [Hh Hu]. cbn. split.
      * intros j u Hj. apply list_lookup_insert_Some in Hj as [(-> & -> & _)|[Hne Hj]]; [done|].
        assert (committing u = false) as Hcu by (apply not_true_is_false; intros Hcu; apply Hne; by apply (H1c k j t u)). by destruct u.
      * destruct Hu as [Hu|Hu]; [|by right]. left. exists k, t1. by rewrite list_lookup_insert_eq.
    + destruct (other_step v t order io Ec) as (Hi & Hr & Hh & Hf). split.
      * intros j u Hj. assert (forall w, holds_root (vfs_step v t order io).1 w = holds_root v w) as Hsame by (intros []; cbn; by rewrite ?Hi).
        rewrite Hsame. apply list_lookup_insert_Some in Hj as [(-> & <- & _)|[_ Hj]]; [done|by apply (Ht j)].
      * destruct Hn as [(j & u & Hj & Hu)|Hn]; [|right; intros r; rewrite Hi, Hr; apply Hn]. left. destruct (decide (j = k)) as [->|Hne].
        -- assert (u = t) as -> by congruence. unfold unsettled in Hu. rewrite Ec in Hu. cbn in Hu. exists k, t. by rewrite list_lookup_insert_eq, (Hf Hu); [unfold unsettled; rewrite Ec|].
        -- exists j, u. by rewrite list_lookup_insert_ne.
Qed.

Lemma turns_ok a b M :
  rtc vfs_turn a b -> pages_ok a.1 M -> Forall (vtask_ok M) a.2 -> root_ok a.1 a.2 -> root_ok b.1 b.2.
Proof.
  intros Hr. revert M. induction Hr as [a|a a1 b Hst _ IH]; intros M Hv Ht Hk; [done|]. destruct a as [v ts], a1 as [v1 ts1].
  destruct (vrun_ok (v, ts) (v1, ts1) M (rtc_once _ _ (proj1 Hst)) Hv Ht) as (M1 & Hv1 & Ht1 & _). by apply (IH M1), (turn_ok v ts M).
Qed.

(** C22: The root is the hash of the index: if commits take turns and none has failed in the
    store, then whenever none is under way the published root names exactly the
    pages that readers resolve, so a snapshot taken then is the committed version. *)
Theorem quiet_root_names_index v M v' ts' :
  pages_ok v M -> named v -> rtc vfs_turn (v, []) (v', ts') -> Forall (fun t => unsettled t = false) ts' ->
  forall r, current_root v' = Some r -> r = cid_from_data (serialize (page_index v')).
Proof.
  intros Hv Hn Hr Hq. destruct (turns_ok (v, []) (v', ts') M Hr Hv (Forall_nil_2 _)) as [_ Hk]; [by split; [|right]|].
  cbn in Hk. destruct Hk as [(k & t & Hk & Ht)|Hk]; [|exact Hk]. by rewrite (proj1 (Forall_lookup _ _) Hq k t Hk) in Ht.
Qed.

End Written.

(** ** Running alone *)

Section AloneFacts.
Context `{B3 : Blake3} `{LRU : Lru (Cid * Z) (list Z)}.
Context {St IO : Type} {CS : ContentStore St IO}.

#[local] Arguments vfs_alone : simpl never.

Lemma valone_cons (v : CidVfs (St := St)) t order (io : IO) ios :
  vfs_alone v t order (io :: ios) = vfs_alone (vfs_step v t order io).1 (vfs_step v t order io).2 order ios.
Proof. unfold vfs_alone. cbn. by destruct (vfs_step v t order io). Qed.

Lemma valone_commit_done (v : CidVfs (St := St)) r order (ios : list IO) : vfs_alone v (CommitDone r) order ios = (v, CommitDone r).
Proof. induction ios as [|io ios IH]; [done|]. by rewrite valone_cons. Qed.

Lemma valone_read_done (v : CidVfs (St := St)) p r order (ios : list IO) : vfs_alone v (ReadDone p r) order ios = (v, ReadDone p r).
Proof. induction ios as [|io ios IH]; [done|]. by rewrite valone_cons. Qed.

(** The page loop: two accesses per page. *)
Lemma pages_alone todo : forall (v : CidVfs (St := St)) order (ios : list IO) (io : nat -> IO),
  (2 * length todo <= length ios)%nat -> (forall i, (i < length todo)%nat -> ios !! (2 * i)%nat = Some (io i)) ->
  match store_pages v todo io with
  | (v', None) => vfs_alone v (CommitPages todo) order ios = vfs_alone v' (CommitPages []) order (drop (2 * length todo) ios)
  | (v', Some e) => vfs_alone v (CommitPages todo) order ios = (v', CommitDone (Err e))
  end.
Proof.
  induction todo as [|[p d] todo IH]; intros v order ios io Hlen Hio; cbn [store_pages]; [by rewrite drop_0|].
  cbn [length] in Hlen. destruct ios as [|io0 [|io1 ios]]; cbn [length] in Hlen; try lia.
  assert (io 0%nat = io0) as -> by (specialize (Hio 0%nat ltac:(cbn; lia)); cbn in Hio; congruence).
  rewrite valone_cons. cbn [vfs_step commit_step]. destruct (cs_put (vstore v) d io0) as [s [c|e]]; cbn [fst snd]; [|apply valone_commit_done].
  rewrite valone_cons. cbn [vfs_step commit_step fst snd page_index set_store].
  specialize (IH (set_index (set_store v s) (index_set (page_index v) p c)) order ios (fun i => io (S i)) ltac:(lia)).
  replace (drop (2 * length ((p, d) :: todo)) (io0 :: io1 :: ios)) with (drop (2 * length todo) ios)
    by (cbn [length]; replace (2 * S (length todo))%nat with (S (S (2 * length todo))) by lia; done).
  apply IH. intros i Hi. specialize (Hio (S i) ltac:(cbn; lia)). by replace (2 * S i)%nat with (S (S (2 * i))) in Hio by lia.
Qed.

(** A commit that runs alone ends within [2 * size + 5] accesses and is the atomic
    [commit], with the same answers of the store. *)
Theorem commit_alone_atomic (v : CidVfs (St := St)) order (ios : list IO) :
  (forall l, order l ≡ₚ l) -> (2 * size (dirty_pages v) + 5 <= length ios)%nat ->
  exists io v' r, vfs_alone v CommitStart order ios = (v', CommitDone r) /\ commit v order io = (v', r).
Proof.
  intros Hord Hlen. destruct ios as [|io0 ios]; cbn [length] in Hlen; [lia|]. rewrite valone_cons. cbn [vfs_step commit_step fst snd]. unfold commit.
  set (n := size (dirty_pages v)) in *. set (io := fun i => default io0 (ios !! (if (i <? n)%nat then 2 * i else 2 * n + 1)%nat)). exists io.
  destruct (bool_decide (dirty_pages v = ∅)) eqn:Ed.
  - destruct ios as [|io1 ios]; [cbn in Hlen; lia|]. rewrite valone_cons. cbn [vfs_step commit_step fst snd]. eexists _, _. split; [apply valone_commit_done|done].
  - set (entries := order (map_to_list (dirty_pages v))). assert (length entries = n) as Hle by (unfold entries; by rewrite Hord, length_map_to_list).
    pose proof (pages_alone entries (set_dirty v ∅) order ios io) as Hp. rewrite Hle in Hp. specialize (Hp ltac:(lia)). rewrite Hle.
    assert (forall i, (i < n)%nat -> ios !! (2 * i)%nat = Some (io i)) as Hio.
    { intros i Hi. unfold io. destruct (Nat.ltb_spec i n); [|lia]. destruct (lookup_lt_is_Some_2 ios (2 * i)%nat ltac:(lia)) as [x Hx]. by rewrite Hx. }
    specialize (Hp Hio). destruct (store_pages (set_dirty v ∅) entries io) as [v1 [e|]]; [by eexists _, _|]. rewrite Hp. clear Hp.
    assert (ios !! (2 * n + 1)%nat = Some (io n)) as Hn.
    { unfold io. destruct (Nat.ltb_spec n n); [lia|]. destruct (lookup_lt_is_Some_2 ios (2 * n + 1)%nat ltac:(lia)) as [x Hx]. by rewrite Hx. }
    assert (4 <= length (drop (2 * n) ios))%nat as Hl by (rewrite length_drop; lia). rewrite <- (lookup_drop ios (2 * n) 1) in Hn.
    destruct (drop (2 * n) ios) as [|ioa [|iob [|ioc [|iod rest]]]]; cbn [length] in Hl; try lia. cbn in Hn. injection Hn as ->.
    rewrite valone_cons. cbn [vfs_step commit_step fst snd]. rewrite valone_cons. cbn [vfs_step commit_step fst snd].
    destruct (cs_put (vstore v1) (serialize (page_index v1)) (io n)) as [s [root|e]]; cbn [fst snd].
    + rewrite !valone_cons. cbn [vfs_step commit_step fst snd]. eexists _, _. split; [apply valone_commit_done|done].
    + eexists _, _. split; [apply valone_commit_done|done].
Qed.

(** A read that runs alone is the atomic [read_page]. *)
Theorem read_alone_atomic (v : CidVfs (St := St)) p order (io0 io1 io2 io io4 : IO) ios :
  exists v' r, vfs_alone v (ReadStart p) order (io0 :: io1 :: io2 :: io :: io4 :: ios) = (v', ReadDone p r) /\ read_page v p io = (v', r).
Proof.
  rewrite !valone_cons. cbn [vfs_step read_step fst snd]. unfold read_page. set (root := default _ _).
  destruct (pc_get (page_cache v) root p) as [pc [d|]]; cbn [vfs_step read_step fst snd]; [eexists _, _; split; [apply valone_read_done|done]|].
  cbn [page_index set_cache]. destruct (index_get (page_index v) p) as [c|]; cbn [vfs_step read_step fst snd]; [|eexists _, _; split; [apply valone_read_done|done]].
  cbn [vstore set_cache]. destruct (cs_get (vstore v) c io) as [s [[d|]|e]]; cbn [vfs_step read_step fst snd];
    [|eexists _, _; split; [apply valone_read_done|done]..].
  destruct (negb _); cbn [vfs_step read_step fst snd]; eexists _, _; (split; [apply valone_read_done|done]).
Qed.

End AloneFacts.

(** ** Overlaps *)

Abbreviation obj_io := (write_outcome * rename_outcome * read_outcome)%type.
Abbreviation always_ok := (WriteOk, RenameOk, ReadOk).

(** Tasks run in the order of [ks], with a store that never fails. *)
Definition sched_one (st : CidVfs (St := ObjStore) * list vfs_task) (k : nat) : CidVfs * list vfs_task :=
  match st.2 !! k with
  | Some t => let '(v, t) := vfs_step (IO := obj_io) st.1 t id always_ok in (v, <[k := t]> st.2)
  | None => st
  end.
Definition sched (v : CidVfs (St := ObjStore)) (ts : list vfs_task) (ks : list nat) : CidVfs * list vfs_task := foldl sched_one (v, ts) ks.

Definition blobs_ok (K : list Z -> Prop) (ts : list vfs_task) (k : nat) : Prop :=
  match ts !! k with Some t => match storing_blob t with Some b => K b | None => True end | None => True end.

Lemma sched_one_sys W (K : list Z -> Prop) st k : blobs_ok K st.2 k -> rtc (vfs_sys (IO := obj_io) W K) st (sched_one st k).
Proof.
  unfold blobs_ok, sched_one. destruct st as [v ts]. cbn. destruct (ts !! k) as [t|] eqn:E; [|done]. intros Hb.
  pose proof (vsys_run (IO := obj_io) W K v ts k t id always_ok E (fun l => reflexivity l)) as Hs.
  destruct (vfs_step v t id always_ok) as [v' t']. apply rtc_once, Hs. intros b Hsb. by rewrite Hsb in Hb.
Qed.

Fixpoint sched_blobs (K : list Z -> Prop) (st : CidVfs (St := ObjStore) * list vfs_task) (ks : list nat) : Prop :=
  match ks with [] => True | k :: ks => blobs_ok K st.2 k /\ sched_blobs K (sched_one st k) ks end.

Lemma sched_sys W (K : list Z -> Prop) v ts ks :
  Forall (vfs_call W) ts -> sched_blobs K (v, ts) ks -> rtc (vfs_sys (IO := obj_io) W K) (v, []) (sched v ts ks).
Proof.
  intros Hc Hb. assert (rtc (vfs_sys (IO := obj_io) W K) (v, []) (v, ts)) as Hr.
  { clear Hb. change (v, ts) with (v, [] ++ ts). generalize (@nil vfs_task) as us. induction Hc as [|t ts Ht _ IH]; intros us; [by rewrite app_nil_r|].
    eapply rtc_l; [by apply (vsys_call W K v us t)|]. replace (us ++ t :: ts) with ((us ++ [t]) ++ ts) by (by rewrite <- app_assoc). apply IH. }
  etransitivity; [exact Hr|]. clear Hr Hc. unfold sched. revert Hb. generalize (v, ts) as st. clear v ts.
  induction ks as [|k ks IH]; intros st Hb; [done|]. destruct Hb as [Hb Hbs]. etransitivity; [by apply sched_one_sys|by apply IH].
Qed.

Definition any_blob (b : list Z) : Prop := True.
Definition any_page (p : Z) (d : list Z) : Prop := True.

Lemma any_blobs st ks : sched_blobs any_blob st ks.
Proof.
  revert st. induction ks as [|k ks IH]; intros st; [done|]. split; [|apply IH]. unfold blobs_ok. destruct (st.2 !! k) as [t|]; [|done].
  by destruct (storing_blob t).
Qed.

Lemma reach_tasks {A B} (R : relation (A * B)) (a x : A * B) b : rtc R a x -> x.2 = b -> rtc R a (x.1, b).
Proof. destruct x. by intros Hr <-. Qed.

(** A read that overlaps a commit caches the new page under the old root.  When a later
    commit restores the old contents, and with them the old root, reads
    return the page of the version in between. *)
Theorem overlapping_read_poisons_cache :
  exists v r, rtc (vfs_sys (IO := obj_io) any_page any_blob) (demo_vfs1, [])
    (v, [WriteDone (Ok tt); CommitDone (Ok r); ReadDone 1 (Ok (demo_page 8)); WriteDone (Ok tt);
         CommitDone (Ok (default [] (current_root demo_vfs1))); ReadDone 1 (Ok (demo_page 8))]) /\
    current_root v = current_root demo_vfs1 /\ page_index v !! 1 = Some (cid_from_data (demo_page 7)).
Proof.
  set (calls := [WriteStart 1 (demo_page 8); CommitStart; ReadStart 1; WriteStart 1 (demo_page 7); CommitStart; ReadStart 1]).
  set (ks := [0; 1; 1; 1; 2; 2; 2; 2; 2; 1; 1; 1; 1; 3; 4; 4; 4; 4; 4; 4; 4; 5; 5]%nat).
  assert (Forall (vfs_call any_page) calls) as Hc by (repeat constructor).
  exists (sched demo_vfs1 calls ks).1, (match (sched demo_vfs1 calls ks).2 !! 1%nat with Some (CommitDone (Ok r)) => r | _ => [] end).
  split; [|split; vm_compute; reflexivity].
  pose proof (sched_sys any_page any_blob demo_vfs1 calls ks Hc (any_blobs _ _)) as Hr.
  eapply reach_tasks; [exact Hr|]. vm_compute. reflexivity.
Qed.

(** A snapshot taken during a commit pairs the old root with pages of the new version. *)
Theorem overlapping_snapshot_torn :
  exists v sn, rtc (vfs_sys (IO := obj_io) any_page any_blob) (demo_vfs1, [])
    (v, [WriteDone (Ok tt); WriteDone (Ok tt); CommitIndex 1 (cid_from_data (demo_page 8)) []; SnapDone (Ok sn)]) /\
    Some (snap_root sn) = current_root demo_vfs1 /\ resolve_page sn 1 = Some (cid_from_data (demo_page 7)) /\
    resolve_page sn 2 = Some (cid_from_data (demo_page 9)).
Proof.
  set (calls := [WriteStart 1 (demo_page 8); WriteStart 2 (demo_page 9); CommitStart; SnapStart]). set (ks := [0; 1; 2; 2; 2; 2; 3; 3]%nat).
  assert (Forall (vfs_call any_page) calls) as Hc by (repeat constructor).
  exists (sched demo_vfs1 calls ks).1, (match (sched demo_vfs1 calls ks).2 !! 3%nat with Some (SnapDone (Ok sn)) => sn | _ => mkSnapshot [] ∅ end).
  split; [|split_and!; vm_compute; reflexivity].
  pose proof (sched_sys any_page any_blob demo_vfs1 calls ks Hc (any_blobs _ _)) as Hr.
  eapply reach_tasks; [exact Hr|]. vm_compute. reflexivity.
Qed.

(** ** A concrete run: write, commit, read and snapshot *)

Definition run_blobs : list (list Z) := [demo_page 7; serialize {[1 := cid_from_data (demo_page 7)]}].
Definition run_known (b : list Z) : Prop := bool_decide (b ∈ run_blobs) = true.
Definition run_pages (p : Z) (d : list Z) : Prop := (p, d) = (1, demo_page 7).
Definition run_calls : list vfs_task := [WriteStart 1 (demo_page 7); CommitStart; ReadStart 1; SnapStart].
Definition run_order : list nat := [0; 1; 1; 1; 1; 1; 1; 1; 2; 2; 2; 2; 2; 3; 3]%nat.

Lemma run_pages_wf p d : run_pages p d -> 0 <= p < 2 ^ 32 - 1 /\ bytes d.
Proof. intros [= -> ->]. split; [lia|by_compute]. Qed.

Lemma run_known_inj a b : run_known a -> run_known b -> cid_from_data a = cid_from_data b -> a = b.
Proof.
  assert (collision_free run_blobs) as Hcf by by_compute. unfold run_known. intros Ha%bool_decide_eq_true Hb%bool_decide_eq_true. by apply Hcf.
Qed.

Lemma run_pages_ok : pages_ok (IO := obj_io) run_pages run_known demo_vfs ∅.
Proof.
  split; cbn.
  - apply new_repr.
  - intros c d. by rewrite lookup_empty.
  - intros p c. change (page_index demo_vfs) with (∅ : gmap Z Cid). by rewrite lookup_empty.
  - intros r p d Hp. pose proof (lru_peek_new (K := Cid * Z) (V := list Z) (Nat.max DEFAULT_CAPACITY 1) (r, p)) as Hn.
    change (lru_peek (r, p) (lru_new (Nat.max DEFAULT_CAPACITY 1)) = Some d) in Hp. congruence.
  - intros p d. change (dirty_pages demo_vfs) with (∅ : gmap Z (list Z)). by rewrite lookup_empty.
Qed.

Lemma run_sched : rtc (vfs_sys (IO := obj_io) run_pages run_known) (demo_vfs, []) (sched demo_vfs run_calls run_order).
Proof.
  apply sched_sys; [repeat constructor|]. vm_compute. repeat split.
Qed.

Lemma concurrent_reads_return_written_witness : run_pages 1 (demo_page 7).
Proof.
  assert (exists v sn, rtc (vfs_sys (IO := obj_io) run_pages run_known) (demo_vfs, [])
    (v, [WriteDone (Ok tt); CommitDone (Ok (cid_from_data (serialize {[1 := cid_from_data (demo_page 7)]}))); ReadDone 1 (Ok (demo_page 7)); SnapDone (Ok sn)]))
    as (v & sn & Hr).
  { exists (sched demo_vfs run_calls run_order).1, (match (sched demo_vfs run_calls run_order).2 !! 3%nat with Some (SnapDone (Ok sn)) => sn | _ => mkSnapshot [] ∅ end).
    eapply reach_tasks; [exact run_sched|]. vm_compute. reflexivity. }
  exact (proj1 (concurrent_reads_return_written (IO := obj_io) run_pages run_known run_pages_wf run_known_inj demo_vfs ∅ v _ run_pages_ok Hr) 2%nat 1 (demo_page 7) eq_refl).
Defined.

(** A commit beside a finished write. *)
Fixpoint alone_blobs (K : list Z -> Prop) (v : CidVfs (St := ObjStore)) (t : vfs_task) (n : nat) : Prop :=
  match n with
  | 0%nat => True
  | S n => match storing_blob t with Some b => K b | None => True end /\
      alone_blobs K (vfs_step (IO := obj_io) v t id always_ok).1 (vfs_step (IO := obj_io) v t id always_ok).2 n
  end.

Lemma alone_turns W K u v t n :
  committing u = false -> alone_blobs K v t n ->
  let '(v', t') := vfs_alone (IO := obj_io) v t id (replicate n always_ok) in rtc (vfs_turn (IO := obj_io) W K) (v, [u; t]) (v', [u; t']).
Proof.
  intros Hu. revert v t. induction n as [|n IH]; intros v t Hb; [apply rtc_refl|]. destruct Hb as [Hb Hbs]. cbn [replicate]. rewrite valone_cons.
  specialize (IH _ _ Hbs). destruct (vfs_alone _ _ _ _) as [v' t']. eapply rtc_l; [|exact IH]. split.
  - apply (vsys_run W K v [u; t] 1 t id always_ok); [done|done|]. intros b Hs. by rewrite Hs in Hb.
  - cbn. intros [|[|j]] [|[|k]] x y; cbn; try done; intros [= <-] [= <-]; congruence.
Qed.

Definition run_dirty : CidVfs (St := ObjStore) := (write_page demo_vfs 1 (demo_page 7)).1.

Lemma quiet_root_names_index_witness :
  exists v' : CidVfs (St := ObjStore), current_root v' = Some (cid_from_data (serialize {[1 := cid_from_data (demo_page 7)]})) /\
    forall r, current_root v' = Some r -> r = cid_from_data (serialize (page_index v')).
Proof.
  assert (rtc (vfs_turn (IO := obj_io) run_pages run_known) (demo_vfs, []) (run_dirty, [WriteDone (Ok tt); CommitStart])) as Hw.
  { assert (forall ts, Forall (fun t => committing t = false) ts -> one_committer ts) as Hone.
    { intros ts Hts j k x y Hj Hk Hx. by rewrite (proj1 (Forall_lookup _ _) Hts j x Hj) in Hx. }
    eapply rtc_l; [split; [apply (vsys_call _ _ demo_vfs [] (WriteStart 1 (demo_page 7))); reflexivity|by apply Hone]|].
    eapply rtc_l; [split; [apply (vsys_run _ _ demo_vfs [WriteStart 1 (demo_page 7)] 0 (WriteStart 1 (demo_page 7)) id always_ok); done|apply Hone; repeat constructor]|].
    apply rtc_once. split; [|apply Hone; repeat constructor]. by apply (vsys_call run_pages run_known run_dirty [WriteDone (Ok tt)] CommitStart). }
  assert (alone_blobs run_known run_dirty CommitStart 7) as Hb by (vm_compute; repeat split).
  pose proof (alone_turns run_pages run_known (WriteDone (Ok tt)) run_dirty CommitStart 7 eq_refl Hb) as Hc.
  assert ((vfs_alone (IO := obj_io) run_dirty CommitStart id (replicate 7 always_ok)).2 = CommitDone (Ok (cid_from_data (serialize {[1 := cid_from_data (demo_page 7)]})))
    /\ current_root (vfs_alone (IO := obj_io) run_dirty CommitStart id (replicate 7 always_ok)).1 = Some (cid_from_data (serialize {[1 := cid_from_data (demo_page 7)]})))
    as [Hd Hroot] by (split; vm_compute; reflexivity).
  destruct (vfs_alone run_dirty CommitStart id (replicate 7 always_ok)) as [v' t']. cbn in Hd, Hroot. exists v'. split; [exact Hroot|].
  apply (quiet_root_names_index (IO := obj_io) run_pages run_known run_pages_wf run_known_inj demo_vfs ∅ v' [WriteDone (Ok tt); t'] run_pages_ok).
  - intros r Hr. vm_compute in Hr. discriminate.
  - etransitivity; [exact Hw|exact Hc].
  - rewrite Hd. repeat constructor.
Defined.

Lemma commit_alone_atomic_witness :
  exists io v' r, vfs_alone (IO := obj_io) (write_page demo_vfs 1 (demo_page 7)).1 CommitStart id (replicate 7 always_ok) = (v', CommitDone r) /\
    commit (write_page demo_vfs 1 (demo_page 7)).1 id io = (v', r).
Proof. apply (commit_alone_atomic (write_page demo_vfs 1 (demo_page 7)).1 id (replicate 7 always_ok)); [done|]. vm_compute. lia. Defined.
