(* ===== verification/Swim.v ===== *)
(** * SWIM membership (crates/craftec-net/src/swim.rs)

    The membership table, the handling of SWIM messages with piggybacked gossip,
    the protocol tick and the probe cycle.  The table is a map; a handler is a function
    on the whole state, the tick is split where it reads or writes the table, and
    [swim_step] interleaves messages, the parts of ticks and the phases of concurrent
    probes in any order. *)
From Stdlib Require Import ZArith Lia.
From stdpp Require Import base list list_numbers numbers strings gmap relations sorting.
From S2P Require Import Prelude Types Wire.

Local Open Scope Z_scope.

(** Times are in milliseconds. *)
Definition DEFAULT_SUSPECT_TIMEOUT : Z := 5000.
Definition DEFAULT_PROTOCOL_PERIOD : Z := 500.
Definition INDIRECT_PROBE_K : nat := 3.

(** [adaptive_piggyback_count] on a 64-bit [usize]: [usize::BITS - leading_zeros
    - 1] is the position of the top bit. *)
Definition adaptive_piggyback_count (n : Z) : Z :=
  if n <=? 16 then 4
  else
    let log2 := Z.log2 n in
    let ceil_log2 := if 2 ^ Z.log2 n =? n then log2 else log2 + 1 in
    Z.max ceil_log2 4.

(** ** State *)

Inductive MemberState : Type :=
| Alive (incarnation : Z)
| Suspect (incarnation since : Z)
| Dead (incarnation : Z).

Definition member_inc (m : MemberState) : Z :=
  match m with Alive i => i | Suspect i _ => i | Dead i => i end.

Inductive swim_event : Type :=
| PeerConnected (node_id : NodeId)
| PeerDisconnected (node_id : NodeId).

Record Swim : Type := mkSwim {
  members : gmap NodeId MemberState;
  incarnation : Z;
  local_id : NodeId;
  suspect_timeout : Z;
  protocol_period : Z;
  probe_index : Z;
  probe_nonce : Z;
  pending_probes : gset Z;
  tick_count : Z;
  swim_sender : bool;
  swim_events : list swim_event;
}.

Definition swim_new (local : NodeId) : Swim :=
  mkSwim ∅ 0 local DEFAULT_SUSPECT_TIMEOUT DEFAULT_PROTOCOL_PERIOD 0 0 ∅ 0 false [].

Definition set_members (s : Swim) (m : gmap NodeId MemberState) : Swim :=
  mkSwim m (incarnation s) (local_id s) (suspect_timeout s) (protocol_period s) (probe_index s)
    (probe_nonce s) (pending_probes s) (tick_count s) (swim_sender s) (swim_events s).
Definition set_incarnation (s : Swim) (i : Z) : Swim :=
  mkSwim (members s) i (local_id s) (suspect_timeout s) (protocol_period s) (probe_index s)
    (probe_nonce s) (pending_probes s) (tick_count s) (swim_sender s) (swim_events s).
Definition set_probe (s : Swim) (idx nonce tick : Z) : Swim :=
  mkSwim (members s) (incarnation s) (local_id s) (suspect_timeout s) (protocol_period s) idx
    nonce (pending_probes s) tick (swim_sender s) (swim_events s).
Definition set_pending (s : Swim) (p : gset Z) : Swim :=
  mkSwim (members s) (incarnation s) (local_id s) (suspect_timeout s) (protocol_period s) (probe_index s)
    (probe_nonce s) p (tick_count s) (swim_sender s) (swim_events s).
Definition swim_set_event_sender (s : Swim) : Swim :=
  mkSwim (members s) (incarnation s) (local_id s) (suspect_timeout s) (protocol_period s) (probe_index s)
    (probe_nonce s) (pending_probes s) (tick_count s) true (swim_events s).
Definition send_event (s : Swim) (e : swim_event) : Swim :=
  if swim_sender s then
    mkSwim (members s) (incarnation s) (local_id s) (suspect_timeout s) (protocol_period s) (probe_index s)
      (probe_nonce s) (pending_probes s) (tick_count s) (swim_sender s) (swim_events s ++ [e])
  else s.

(** ** Accessors *)

Definition is_alive_state (m : MemberState) : bool := match m with Alive _ => true | _ => false end.

(** The iteration order of the concurrent map is unspecified; [map_to_list] stands
    for it and no theorem below depends on it. *)
Definition alive_members (s : Swim) : list NodeId :=
  omap (fun e => if is_alive_state e.2 then Some e.1 else None) (map_to_list (members s)).
Definition alive_count (s : Swim) : nat := length (alive_members s).
Definition is_alive (s : Swim) (node_id : NodeId) : bool :=
  match members s !! node_id with Some (Alive _) => true | _ => false end.
Definition last_known_incarnation (s : Swim) (node_id : NodeId) : Z :=
  match members s !! node_id with Some m => member_inc m | None => 0 end.

(** ** State transitions *)

Definition mark_alive (s : Swim) (node_id : NodeId) (inc : Z) : Swim :=
  if bool_decide (node_id = local_id s) then s
  else match members s !! node_id with
  | Some state =>
      let dominated := match state with
        | Alive i => inc <=? i
        | Suspect i _ => inc <? i
        | Dead i => inc <=? i
        end in
      if negb dominated then set_members s (<[node_id := Alive inc]> (members s)) else s
  | None =>
      send_event (set_members s (<[node_id := Alive inc]> (members s))) (PeerConnected node_id)
  end.

Definition mark_suspect (s : Swim) (node_id : NodeId) (inc now : Z) : Swim :=
  if bool_decide (node_id = local_id s) then set_incarnation s (wrap 64 (incarnation s + 1))
  else match members s !! node_id with
  | Some state =>
      let should_update := match state with
        | Alive i => i <=? inc
        | Suspect i _ => i <? inc
        | Dead _ => false
        end in
      if should_update then set_members s (<[node_id := Suspect inc now]> (members s)) else s
  | None => set_members s (<[node_id := Suspect inc now]> (members s))
  end.

Definition mark_dead (s : Swim) (node_id : NodeId) (inc : Z) : Swim :=
  if bool_decide (node_id = local_id s) then s
  else
    let was_connected := match members s !! node_id with
      | Some (Alive _) | Some (Suspect _ _) => true
      | _ => false
      end in
    let s' := match members s !! node_id with
      | Some (Dead i) => if i <? inc then set_members s (<[node_id := Dead inc]> (members s)) else s
      | _ => set_members s (<[node_id := Dead inc]> (members s))
      end in
    if was_connected then send_event s' (PeerDisconnected node_id) else s'.

(** ** Probes *)

Definition register_probe (s : Swim) : Swim * Z :=
  let nonce := probe_nonce s in
  (set_pending (set_probe s (probe_index s) (wrap 64 (nonce + 1)) (tick_count s)) ({[ nonce ]} ∪ pending_probes s), nonce).

Definition resolve_probe (s : Swim) (nonce inc : Z) : Swim * bool :=
  if bool_decide (nonce ∈ pending_probes s)
  then (set_pending s (pending_probes s ∖ {[ nonce ]}), true)
  else (s, false).

(** ** Messages *)

Fixpoint handle_message (s : Swim) (now : Z) (msg : WireMessage) {struct msg} : Swim * list WireMessage :=
  match msg with
  | SwimJoin node_id _ =>
      let s := mark_alive s node_id 0 in
      (s, [SwimAlive (local_id s) (incarnation s)])
  | SwimAlive node_id inc => (mark_alive s node_id inc, [msg])
  | SwimSuspect node_id inc _ => (mark_suspect s node_id inc now, [msg])
  | SwimDead node_id inc _ => (mark_dead s node_id inc, [msg])
  | SwimPing from nonce piggyback =>
      let '(s, responses) :=
        (fix go (s : Swim) (l : list WireMessage) : Swim * list WireMessage :=
           match l with
           | [] => (s, [])
           | m :: l =>
               let '(s, sub) := handle_message s now m in
               let '(s, rest) := go s l in (s, sub ++ rest)
           end) s piggyback in
      (s, responses ++ [SwimPingAck (local_id s) nonce (incarnation s)])
  | SwimPingAck from nonce inc =>
      let s := mark_alive s from inc in
      ((resolve_probe s nonce inc).1, [])
  | _ => (s, [])
  end.

(** The loop over piggybacked messages. *)
Fixpoint handle_messages (s : Swim) (now : Z) (l : list WireMessage) : Swim * list WireMessage :=
  match l with
  | [] => (s, [])
  | m :: l =>
      let '(s, sub) := handle_message s now m in
      let '(s, rest) := handle_messages s now l in (s, sub ++ rest)
  end.

(** ** Protocol tick *)

Definition expired (s : Swim) (now : Z) : list (NodeId * Z) :=
  omap (fun e => match e.2 with
    | Suspect inc since => if suspect_timeout s <=? Z.max 0 (now - since) then Some (e.1, inc) else None
    | _ => None end) (map_to_list (members s)).

Definition gossip_rank (m : MemberState) : Z := match m with Alive _ => 0 | Suspect _ _ => 1 | Dead _ => 2 end.
Definition by_rank (a b : NodeId * MemberState) : Prop := gossip_rank a.2 <= gossip_rank b.2.
#[export] Instance by_rank_dec a b : Decision (by_rank a b).
Proof. unfold by_rank. apply _. Defined.

Definition gossip_msg (local : NodeId) (e : NodeId * MemberState) : WireMessage :=
  match e.2 with
  | Alive inc => SwimAlive e.1 inc
  | Suspect inc _ => SwimSuspect e.1 inc local
  | Dead inc => SwimDead e.1 inc local
  end.

Definition collect_gossip_msgs (s : Swim) (limit : nat) : list WireMessage :=
  map (gossip_msg (local_id s)) (take limit (merge_sort by_rank (map_to_list (members s)))).

(** Where [protocol_tick] stands between its passes over the table, which other tasks
    may change meanwhile: before the scan for expired suspects, with suspects left to
    mark dead, with a target chosen and no gossip collected yet, or at its end. *)
Inductive tick_pc : Type :=
| TickScan
| TickExpire (newly_dead : list (NodeId * Z))
| TickGossip (target : NodeId) (alive_len : nat)
| TickDone (probes : list (NodeId * WireMessage)).

(** Step 2 of the tick: the alive members are read and the target is picked. *)
Definition tick_select (s : Swim) : Swim * tick_pc :=
  let alive := alive_members s in
  let alive_len := length alive in
  let s := set_probe s (probe_index s) (probe_nonce s) (wrap 64 (tick_count s + 1)) in
  match alive with
  | [] => (s, TickDone [])
  | _ :: _ =>
      let idx := Z.to_nat (probe_index s `mod` Z.of_nat alive_len) in
      let target := default [] (alive !! idx) in
      (set_probe s (wrap 64 (probe_index s + 1)) (probe_nonce s) (tick_count s), TickGossip target alive_len)
  end.

(** Step 3: the table is read again for the gossip. *)
Definition tick_gossip (s : Swim) (target : NodeId) (alive_len : nat) : Swim * list (NodeId * WireMessage) :=
  let gossip_count := Z.to_nat (adaptive_piggyback_count (Z.of_nat alive_len)) in
  let piggyback := collect_gossip_msgs s gossip_count in
  let nonce := probe_nonce s in
  let s := set_probe s (probe_index s) (wrap 64 (nonce + 1)) (tick_count s) in
  (s, [(target, SwimPing (local_id s) nonce piggyback)]).

Definition tick_step (s : Swim) (now : Z) (pc : tick_pc) : Swim * tick_pc :=
  match pc with
  | TickScan => (s, TickExpire (expired s now))
  | TickExpire (nd :: todo) => (mark_dead s nd.1 nd.2, TickExpire todo)
  | TickExpire [] => tick_select s
  | TickGossip target alive_len => let '(s, probes) := tick_gossip s target alive_len in (s, TickDone probes)
  | TickDone probes => (s, TickDone probes)
  end.

(** A tick nothing interrupts. *)
Definition protocol_tick (s : Swim) (now : Z) : Swim * list (NodeId * WireMessage) :=
  let newly_dead := expired s now in
  let s := foldl (fun s nd => mark_dead s nd.1 nd.2) s newly_dead in
  match tick_select s with
  | (s, TickGossip target alive_len) => tick_gossip s target alive_len
  | (s, _) => (s, [])
  end.

(** ** Probe cycle: the phases of [probe_with_ack] between its suspension points *)

(** Registering the ping's nonce before it is sent. *)
Definition probe_begin (s : Swim) (nonce : Z) : Swim := set_pending s ({[ nonce ]} ∪ pending_probes s).

(** The send failed: forget the nonce and suspect the target. *)
Definition probe_send_failed (s : Swim) (target : NodeId) (nonce now : Z) : Swim :=
  let s := set_pending s (pending_probes s ∖ {[ nonce ]}) in
  mark_suspect s target (last_known_incarnation s target) now.

(** No direct ack: suspect at once without delegates, else send them a new ping. *)
Definition probe_direct_timeout (s : Swim) (target : NodeId) (delegates : list NodeId) (now : Z) : Swim :=
  match delegates with
  | [] => mark_suspect s target (last_known_incarnation s target) now
  | _ :: _ => (register_probe s).1
  end.

Definition probe_indirect_timeout (s : Swim) (target : NodeId) (now : Z) : Swim :=
  mark_suspect s target (last_known_incarnation s target) now.

(** [random_alive_excluding]: any [count] of the other alive members. *)
Definition delegates_ok (s : Swim) (target : NodeId) (ds : list NodeId) : Prop :=
  exists perm, perm ≡ₚ List.filter (fun id => negb (bool_decide (id = target))) (alive_members s) /\
    ds = take INDIRECT_PROBE_K perm.

(** ** Interleavings *)

(** Every claim [msg] makes that a node is alive, piggybacked ones included,
    satisfies [C]. *)
Fixpoint claims_ok (C : NodeId -> Z -> Prop) (msg : WireMessage) : Prop :=
  match msg with
  | SwimJoin n _ => C n 0
  | SwimAlive n i => C n i
  | SwimPingAck n _ i => C n i
  | SwimPing _ _ pb => (fix all (l : list WireMessage) : Prop :=
      match l with [] => True | m :: l => claims_ok C m /\ all l end) pb
  | _ => True
  end.

Inductive swim_step (C : NodeId -> Z -> Prop) (s : Swim) : Swim -> Prop :=
| step_message now msg : claims_ok C msg -> swim_step C s (handle_message s now msg).1
| step_tick now pc : swim_step C s (tick_step s now pc).1
| step_probe_begin nonce : swim_step C s (probe_begin s nonce)
| step_send_failed target nonce now : swim_step C s (probe_send_failed s target nonce now)
| step_direct_timeout target ds now : delegates_ok s target ds -> swim_step C s (probe_direct_timeout s target ds now)
| step_indirect_timeout target now : swim_step C s (probe_indirect_timeout s target now)
| step_set_sender : swim_step C s (swim_set_event_sender s).

(** ** Every step is a sequence of basic updates *)

Inductive swim_basic (C : NodeId -> Z -> Prop) (s : Swim) : Swim -> Prop :=
| basic_alive n i : C n i -> swim_basic C s (mark_alive s n i)
| basic_suspect n i now : swim_basic C s (mark_suspect s n i now)
| basic_dead n i : swim_basic C s (mark_dead s n i)
| basic_probe idx nonce tick : swim_basic C s (set_probe s idx nonce tick)
| basic_pending p : swim_basic C s (set_pending s p)
| basic_sender : swim_basic C s (swim_set_event_sender s).

Lemma WireMessage_nested_ind (P : WireMessage -> Prop) :
  (forall m, (forall from nonce pb, m = SwimPing from nonce pb -> Forall P pb) -> P m) -> forall m, P m.
Proof.
  intros HP. fix IH 1. intros m. apply HP. intros from nonce pb Heq.
  destruct m as [| | | | | | | | | | |from' nonce' pb'|]; try discriminate. injection Heq as _ _ <-.
  induction pb' as [|m' pb' IHl]; constructor; [apply IH|apply IHl].
Qed.

Lemma handle_ping s now from nonce pb :
  handle_message s now (SwimPing from nonce pb)
  = let '(s', r) := handle_messages s now pb in (s', r ++ [SwimPingAck (local_id s') nonce (incarnation s')]).
Proof.
  cbn [handle_message].
  enough (forall l s, (fix go (s : Swim) (l : list WireMessage) : Swim * list WireMessage :=
     match l with
     | [] => (s, [])
     | m :: l => let '(s, sub) := handle_message s now m in let '(s, rest) := go s l in (s, sub ++ rest)
     end) s l = handle_messages s now l) as -> by done.
  induction l as [|m l IH]; intros s'; [done|]. cbn [handle_messages].
  destruct (handle_message s' now m) as [s1 sub]. by rewrite IH.
Qed.

Lemma claims_ping C from nonce pb : claims_ok C (SwimPing from nonce pb) -> Forall (claims_ok C) pb.
Proof. cbn. induction pb as [|m pb IH]; [constructor|]. intros [? ?]. constructor; auto. Qed.

Section Basic.
Context (C : NodeId -> Z -> Prop).
Abbreviation basics := (rtc (swim_basic C)).

Lemma handle_basics msg : claims_ok C msg -> forall s now, basics s (handle_message s now msg).1.
Proof.
  induction msg as [msg IH] using WireMessage_nested_ind. intros Hc s now.
  destruct msg as [| | | | | |n port|n i|n i f|n i f| |f nonce pb|f nonce i]; try apply rtc_refl.
  1, 2, 3, 4: apply rtc_once; by constructor.
  - rewrite handle_ping. apply claims_ping in Hc. specialize (IH _ _ _ eq_refl).
    assert (basics s (handle_messages s now pb).1) as Hb.
    { clear f nonce. revert s. induction Hc as [|m pb Hm Hc IHl]; intros s; [apply rtc_refl|]. cbn [handle_messages].
      inversion IH as [|? ? Hm' IH']; subst. specialize (Hm' Hm s now).
      destruct (handle_message s now m) as [s1 sub]. specialize (IHl IH' s1).
      destruct (handle_messages s1 now pb) as [s2 rest]. by etransitivity. }
    by destruct (handle_messages s now pb).
  - cbn. eapply rtc_l; [by apply (basic_alive C s f i)|]. unfold resolve_probe.
    destruct (bool_decide _); cbn; [apply rtc_once; constructor|apply rtc_refl].
Qed.

Lemma mark_deads_basics l s : basics s (foldl (fun s nd => mark_dead s nd.1 nd.2) s l).
Proof. revert s. induction l as [|x l IH]; intros s; [apply rtc_refl|]. cbn. eapply rtc_l; [constructor|apply IH]. Qed.

Lemma step_basics s s' : swim_step C s s' -> basics s s'.
Proof.
  intros [now msg Hc|now pc|nonce|t nonce now|t ds now Hd|t now|].
  - by apply handle_basics.
  - destruct pc as [|[|nd todo]|target n|out]; cbn [tick_step]; try apply rtc_refl.
    + unfold tick_select. destruct (alive_members s); cbn [fst]; [apply rtc_once, basic_probe|].
      do 2 (eapply rtc_r; [|apply basic_probe]). apply rtc_refl.
    + apply rtc_once. constructor.
    + apply rtc_once, basic_probe.
  - apply rtc_once. constructor.
  - eapply rtc_l; [apply (basic_pending C)|]. apply rtc_once. constructor.
  - destruct ds; [apply rtc_once; constructor|]. cbn. eapply rtc_l; [apply basic_probe|]. apply rtc_once, basic_pending.
  - apply rtc_once. constructor.
  - apply rtc_once. constructor.
Qed.

Lemma steps_basics s s' : rtc (swim_step C) s s' -> basics s s'.
Proof. induction 1 as [|s s1 s2 Hs _ IH]; [apply rtc_refl|]. etransitivity; [by apply step_basics|done]. Qed.

End Basic.

(** ** The members after a basic update *)

Lemma send_event_members s e : members (send_event s e) = members s.
Proof. unfold send_event. by destruct (swim_sender s). Qed.
Lemma send_event_local s e : local_id (send_event s e) = local_id s.
Proof. unfold send_event. by destruct (swim_sender s). Qed.

(** A transition touches only its node, never the local one. *)
Lemma mark_alive_members s n i k :
  members (mark_alive s n i) !! k = members s !! k \/
  k = n /\ k <> local_id s /\ members (mark_alive s n i) !! k = Some (Alive i).
Proof.
  unfold mark_alive. case_bool_decide; [by left|].
  destruct (decide (k = n)) as [->|Hne].
  - destruct (members s !! n) as [st|] eqn:E.
    + destruct (negb _); [right; cbn; by rewrite lookup_insert_eq|left; done].
    + right. rewrite send_event_members. cbn. by rewrite lookup_insert_eq.
  - left. destruct (members s !! n) as [st|]; [destruct (negb _); [|done]|rewrite send_event_members];
      cbn; by rewrite lookup_insert_ne.
Qed.

Lemma mark_suspect_members s n i now k :
  members (mark_suspect s n i now) !! k = members s !! k \/
  k = n /\ k <> local_id s /\ members (mark_suspect s n i now) !! k = Some (Suspect i now).
Proof.
  unfold mark_suspect. case_bool_decide; [by left|].
  destruct (decide (k = n)) as [->|Hne].
  - destruct (members s !! n) as [st|] eqn:E; [|right; cbn; by rewrite lookup_insert_eq].
    destruct (match st with Alive _ => _ | Suspect _ _ => _ | Dead _ => _ end); [right; cbn; by rewrite lookup_insert_eq|left; done].
  - left. destruct (members s !! n) as [st|]; [destruct (match st with Alive _ => _ | Suspect _ _ => _ | Dead _ => _ end); [|done]|];
      cbn; by rewrite lookup_insert_ne.
Qed.

Lemma mark_dead_members s n i k :
  members (mark_dead s n i) !! k = members s !! k \/
  k = n /\ k <> local_id s /\ members (mark_dead s n i) !! k = Some (Dead i).
Proof.
  unfold mark_dead. case_bool_decide; [by left|].
  set (s' := match members s !! n with
    | Some (Dead j) => if j <? i then set_members s (<[n := Dead i]> (members s)) else s
    | _ => set_members s (<[n := Dead i]> (members s)) end).
  assert (members s' !! k = members s !! k \/ k = n /\ k <> local_id s /\ members s' !! k = Some (Dead i)) as Hs'.
  { destruct (decide (k = n)) as [->|Hne]; subst s'.
    - destruct (members s !! n) as [[| |j]|] eqn:E;
        [right|right|destruct (j <? i); [right|by left]|right]; cbn; by rewrite lookup_insert_eq.
    - left. destruct (members s !! n) as [[| |j]|]; [| |destruct (j <? i); [|done]|]; cbn; by rewrite lookup_insert_ne. }
  destruct (match members s !! n with Some (Alive _) | Some (Suspect _ _) => true | _ => false end);
    rewrite ?send_event_members; done.
Qed.

Lemma basic_local C s s' : swim_basic C s s' -> local_id s' = local_id s.
Proof.
  intros [n i _|n i now|n i|idx nonce tick|p|]; try done.
  - unfold mark_alive. case_bool_decide; [done|]. destruct (members s !! n); [by destruct (negb _)|].
    by rewrite send_event_local.
  - unfold mark_suspect. case_bool_decide; [done|]. destruct (members s !! n); [|done].
    by destruct (match _ with Alive _ => _ | Suspect _ _ => _ | Dead _ => _ end).
  - unfold mark_dead. case_bool_decide; [done|].
    destruct (members s !! n) as [[| |j]|]; rewrite ?send_event_local; [done|done|by destruct (j <? i)|done].
Qed.

(** ** Dead members *)

Lemma mark_alive_dead s n i j : members s !! n = Some (Dead j) -> i <= j -> mark_alive s n i = s.
Proof.
  intros Hm Hi. unfold mark_alive. case_bool_decide; [done|]. rewrite Hm.
  by replace (i <=? j) with true by (symmetry; by apply Z.leb_le).
Qed.

Lemma mark_suspect_dead s n i now j : members s !! n = Some (Dead j) -> members (mark_suspect s n i now) = members s.
Proof. intros Hm. unfold mark_suspect. case_bool_decide; [done|]. by rewrite Hm. Qed.

Lemma mark_dead_dead s n i j :
  members s !! n = Some (Dead j) -> exists j', j <= j' /\ members (mark_dead s n i) !! n = Some (Dead j').
Proof.
  intros Hm. unfold mark_dead. case_bool_decide; [exists j; split; [lia|done]|]. rewrite Hm.
  destruct (j <? i) eqn:E; bool_to_prop; [exists i|exists j; split; [lia|done]].
  split; [lia|]. cbn. by rewrite lookup_insert_eq.
Qed.

Lemma basic_dead_stays C s s' n j :
  (forall i, C n i -> i <= j) -> swim_basic C s s' -> members s !! n = Some (Dead j) ->
  exists j', j <= j' /\ members s' !! n = Some (Dead j').
Proof.
  intros HC Hb Hm. destruct Hb as [k i Hc|k i now|k i|idx nonce tick|p|]; try (exists j; split; [lia|done]).
  - exists j. split; [lia|]. destruct (decide (n = k)) as [->|Hne].
    + rewrite (mark_alive_dead s k i j); [done|done|by apply HC].
    + destruct (mark_alive_members s k i n) as [->|[? _]]; done.
  - exists j. split; [lia|]. destruct (decide (n = k)) as [->|Hne].
    + by rewrite (mark_suspect_dead s k i now j).
    + destruct (mark_suspect_members s k i now n) as [->|[? _]]; done.
  - destruct (decide (n = k)) as [->|Hne]; [by apply mark_dead_dead|]. exists j. split; [lia|].
    destruct (mark_dead_members s k i n) as [->|[? _]]; done.
Qed.

(** ** Properties *)

(** However messages, ticks and probes interleave, the local node never appears in
    its own membership table and keeps its identity. *)
Theorem local_never_member C s0 local s :
  s0 = swim_new local -> rtc (swim_step C) s0 s -> local_id s = local /\ members s !! local = None.
Proof.
  intros -> Hs%steps_basics. assert (local_id (swim_new local) = local /\ members (swim_new local) !! local = None) as H0 by done.
  revert H0. induction Hs as [s|s s1 s2 Hb _ IH]; [done|]. intros [Hl Hm]. apply IH.
  pose proof (basic_local C s s1 Hb) as Hl1. split; [congruence|].
  destruct Hb as [n i _|n i now|n i|idx nonce tick|p|]; try done.
  - destruct (mark_alive_members s n i local) as [->|(_ & ? & _)]; [done|congruence].
  - destruct (mark_suspect_members s n i now local) as [->|(_ & ? & _)]; [done|congruence].
  - destruct (mark_dead_members s n i local) as [->|(_ & ? & _)]; [done|congruence].
Qed.

Lemma basics_dead_stays C s s' n j :
  (forall i, C n i -> i <= j) -> rtc (swim_basic C) s s' -> members s !! n = Some (Dead j) ->
  exists j', j <= j' /\ members s' !! n = Some (Dead j').
Proof.
  intros HC Hs. revert j HC. induction Hs as [s|s s1 s2 Hb _ IH]; intros j HC Hm.
  - exists j. split; [lia|done].
  - destruct (basic_dead_stays C s s1 n j HC Hb Hm) as (j1 & Hj1 & Hm1).
    destruct (IH j1) as (j2 & Hj2 & Hm2); [intros i Hi; specialize (HC i Hi); lia|done|].
    exists j2. split; [lia|done].
Qed.

(** A dead member stays dead, whatever is suspected, declared or probed, until the
    node claims to be alive with a higher incarnation. *)
Theorem dead_until_higher_incarnation C s s' n j :
  members s !! n = Some (Dead j) -> (forall i, C n i -> i <= j) -> rtc (swim_step C) s s' ->
  exists j', j <= j' /\ members s' !! n = Some (Dead j').
Proof. intros Hm HC Hs%steps_basics. by apply (basics_dead_stays C s). Qed.

(** ** Expiry of suspects *)

Lemma mark_deads_local l s : local_id (foldl (fun s nd => mark_dead s nd.1 nd.2) s l) = local_id s.
Proof.
  revert s. induction l as [|x l IH]; intros s; [done|]. cbn. rewrite IH.
  apply (basic_local (fun _ _ => True)). constructor.
Qed.

Lemma mark_dead_suspect s n i since :
  n <> local_id s -> members s !! n = Some (Suspect i since) -> members (mark_dead s n i) = <[n := Dead i]> (members s).
Proof.
  intros Hn Hm. unfold mark_dead. rewrite bool_decide_false by done. rewrite Hm. by rewrite send_event_members.
Qed.

Lemma mark_deads_lookup l s n :
  NoDup (map fst l) ->
  (forall k i, (k, i) ∈ l -> k <> local_id s /\ exists since, members s !! k = Some (Suspect i since)) ->
  let m := members (foldl (fun s nd => mark_dead s nd.1 nd.2) s l) in
  (forall i, (n, i) ∈ l -> m !! n = Some (Dead i)) /\ (n ∉ map fst l -> m !! n = members s !! n).
Proof.
  cbn zeta. revert s. induction l as [|[k i] l IH]; intros s Hnd Hl.
  { split; [intros i Hi; by apply not_elem_of_nil in Hi|done]. }
  cbn in Hnd. inversion Hnd as [|? ? Hk Hnd']; subst. cbn [foldl fst snd map].
  destruct (Hl k i) as (Hkl & since & Hm); [by apply elem_of_cons; left|].
  pose proof (mark_dead_suspect s k i since Hkl Hm) as Hmem.
  destruct (IH (mark_dead s k i) Hnd') as [IH1 IH2].
  { intros k' i' Hin. destruct (Hl k' i') as (Hk' & since' & Hm'); [by apply elem_of_cons; right|].
    rewrite Hmem. rewrite (basic_local (fun _ _ => True) s) by constructor. split; [done|]. exists since'.
    rewrite lookup_insert_ne; [done|]. intros ->. apply Hk. apply list_elem_of_fmap. by exists (k', i'). }
  split.
  - intros i' [[= -> ->]|Hin]%elem_of_cons; [|by apply IH1]. rewrite IH2 by done. rewrite Hmem. by rewrite lookup_insert_eq.
  - intros Hn. rewrite IH2 by (intros ?; apply Hn; by apply elem_of_cons; right). rewrite Hmem.
    rewrite lookup_insert_ne; [done|]. intros ->. apply Hn. by apply elem_of_cons; left.
Qed.

(** What a member becomes when a tick at [now] expires suspicions. *)
Definition expire (timeout now : Z) (m : MemberState) : MemberState :=
  match m with
  | Suspect i since => if timeout <=? Z.max 0 (now - since) then Dead i else m
  | _ => m
  end.

Lemma elem_of_expired s now n i :
  (n, i) ∈ expired s now <->
  exists since, members s !! n = Some (Suspect i since) /\ suspect_timeout s <= Z.max 0 (now - since).
Proof.
  unfold expired. rewrite list_elem_of_omap. split.
  - intros ([k m] & Hin & Hf). apply elem_of_map_to_list in Hin. cbn in Hf. destruct m as [|j since|]; try done.
    destruct (_ <=? _) eqn:E; [|done]. bool_to_prop. simplify_eq. by exists since.
  - intros (since & Hm & Ht). exists (n, Suspect i since). split; [by apply elem_of_map_to_list|]. cbn.
    by replace (suspect_timeout s <=? _) with true by (symmetry; by apply Z.leb_le).
Qed.

Lemma expired_nodup s now : NoDup (map fst (expired s now)).
Proof.
  unfold expired. pose proof (NoDup_fst_map_to_list (members s)) as Hnd.
  induction (map_to_list (members s)) as [|[k m] l IH]; [constructor|]. cbn in *.
  inversion Hnd as [|? ? Hk Hnd']; subst. specialize (IH Hnd').
  destruct m as [|j since|]; try done. destruct (_ <=? _); [|done]. cbn. constructor; [|done].
  intros Hin. apply Hk. apply list_elem_of_fmap in Hin as ([k' i] & -> & Hin).
  apply list_elem_of_omap in Hin as ([k2 m2] & Hin & Hf). cbn in *.
  apply list_elem_of_fmap. exists (k2, m2). split; [|done]. destruct m2; try done.
  destruct (_ <=? _); [|done]. by simplify_eq.
Qed.

Lemma expire_members s now :
  members s !! local_id s = None ->
  members (foldl (fun s nd => mark_dead s nd.1 nd.2) s (expired s now)) = expire (suspect_timeout s) now <$> members s.
Proof.
  intros Hloc. apply map_eq. intros n. rewrite lookup_fmap.
  destruct (mark_deads_lookup (expired s now) s n (expired_nodup s now)) as [H1 H2].
  { intros k i Hin. apply elem_of_expired in Hin as (since & Hm & _). split; [congruence|by exists since]. }
  destruct (decide (n ∈ map fst (expired s now))) as [Hin|Hn].
  - apply list_elem_of_fmap in Hin as ([k i] & -> & Hin). rewrite (H1 i Hin). cbn.
    apply elem_of_expired in Hin as (since & -> & Ht). cbn.
    by replace (suspect_timeout s <=? _) with true by (symmetry; by apply Z.leb_le).
  - rewrite (H2 Hn). destruct (members s !! n) as [[i|i since|i]|] eqn:Em; try done. cbn.
    destruct (_ <=? _) eqn:E; [|done]. bool_to_prop. exfalso. apply Hn. apply list_elem_of_fmap.
    exists (n, i). split; [done|]. apply elem_of_expired. by exists since.
Qed.

Lemma elem_of_alive s n : n ∈ alive_members s <-> is_alive s n = true.
Proof.
  unfold alive_members, is_alive. rewrite list_elem_of_omap. split.
  - intros ([k m] & Hin & Hf). apply elem_of_map_to_list in Hin. cbn in Hf. destruct m; cbn in Hf; try done.
    simplify_eq. by rewrite Hin.
  - destruct (members s !! n) as [[i| |]|] eqn:E; try done. intros _. exists (n, Alive i).
    split; [by apply elem_of_map_to_list|done].
Qed.

(** A tick turns exactly the suspects past the timeout into dead members and leaves
    every other member alone; it then pings one alive member, if there is one, with
    a fresh nonce and at most [adaptive_piggyback_count] SWIM updates. *)
Theorem protocol_tick_spec s now :
  members s !! local_id s = None ->
  let '(s', out) := protocol_tick s now in
  members s' = expire (suspect_timeout s) now <$> members s /\
  match out with
  | [] => forall n, is_alive s' n = false
  | [(target, SwimPing from nonce piggyback)] =>
      is_alive s' target = true /\ from = local_id s /\
      nonce = probe_nonce s /\ probe_nonce s' = wrap 64 (nonce + 1) /\
      Z.of_nat (length piggyback) <= adaptive_piggyback_count (Z.of_nat (alive_count s')) /\
      Forall (fun m => is_swim m = true) piggyback
  | _ => False
  end.
Proof.
  intros Hloc. pose proof (expire_members s now Hloc) as Hm. pose proof (mark_deads_local (expired s now) s) as Hl.
  assert (forall l s, probe_nonce (foldl (fun s nd => mark_dead s nd.1 nd.2) s l) = probe_nonce s) as Hn.
  { induction l as [|x l IH]; intros s0; [done|]. cbn. rewrite IH. unfold mark_dead, send_event.
    repeat case_match; done. }
  specialize (Hn (expired s now) s). unfold protocol_tick. cbv zeta. set (s1 := foldl _ _ _) in *. unfold tick_select, tick_gossip.
  destruct (alive_members s1) as [|a l] eqn:Ea.
  - split; [done|]. intros n. change (is_alive s1 n = false). destruct (is_alive s1 n) eqn:E; [|done].
    apply elem_of_alive in E. rewrite Ea in E. by apply not_elem_of_nil in E.
  - split; [done|]. set (al := a :: l) in *.
    set (idx := Z.to_nat _). assert (idx < length al)%nat as Hidx.
    { subst idx. pose proof (Z.mod_pos_bound (probe_index s1) (Z.of_nat (length al)) ltac:(cbn; lia)). cbn [probe_index set_probe]. lia. }
    destruct (lookup_lt_is_Some_2 al idx Hidx) as [t Ht]. rewrite Ht. cbn [default]. split_and!; try done.
    + change (is_alive s1 t = true). apply elem_of_alive. rewrite Ea. by eapply list_elem_of_lookup_2.
    + unfold collect_gossip_msgs. rewrite length_map, length_take. unfold alive_count.
      change (alive_members (set_probe _ _ _ _)) with (alive_members s1). rewrite Ea. fold al.
      assert (0 <= adaptive_piggyback_count (Z.of_nat (length al))) by (unfold adaptive_piggyback_count; case_match; lia).
      lia.
    + apply Forall_fmap, list.Forall_forall. intros [k m] _. by destruct m.
Qed.

(** Its parts in a row are the tick as a whole. *)
Definition tick_edge (now : Z) (x y : Swim * tick_pc) : Prop := y = tick_step x.1 now x.2.

Lemma tick_expires now l s : rtc (tick_edge now) (s, TickExpire l) (foldl (fun s nd => mark_dead s nd.1 nd.2) s l, TickExpire []).
Proof. revert s. induction l as [|x l IH]; intros s; [apply rtc_refl|]. cbn [foldl]. eapply rtc_l; [reflexivity|apply IH]. Qed.

Theorem tick_undisturbed s now :
  rtc (tick_edge now) (s, TickScan) ((protocol_tick s now).1, TickDone (protocol_tick s now).2).
Proof.
  eapply rtc_l; [reflexivity|]. cbn [fst snd tick_step]. etransitivity; [apply tick_expires|]. unfold protocol_tick. cbv zeta. set (s1 := foldl _ _ _).
  eapply rtc_l; [reflexivity|]. cbn [fst snd tick_step]. unfold tick_select. destruct (alive_members s1); [apply rtc_refl|]. by apply rtc_once.
Qed.

(** A target that is alive when the gossip is collected is not told of suspicions of
    itself: only one that comes to be suspected after it was chosen is. *)
Theorem alive_target_not_told s t limit inc from : is_alive s t = true -> SwimSuspect t inc from ∉ collect_gossip_msgs s limit.
Proof.
  intros Ha Hin. unfold collect_gossip_msgs in Hin. apply list_elem_of_fmap in Hin as ([k st] & Hm & Hin).
  assert ((k, st) ∈ merge_sort by_rank (map_to_list (members s))) as Hk.
  { apply list_elem_of_lookup in Hin as [i Hi]. rewrite lookup_take_Some in Hi. destruct Hi as [Hi _]. by eapply list_elem_of_lookup_2. }
  rewrite merge_sort_Permutation in Hk. apply elem_of_map_to_list in Hk. unfold gossip_msg in Hm. cbn in Hm.
  destruct st as [i|i since|i]; try done. injection Hm as -> -> ->. unfold is_alive in Ha. by rewrite Hk in Ha.
Qed.

Theorem target_told_in_a_race :
  let s := (handle_message (swim_new [0]) 0 (SwimAlive [1] 0)).1 in
  let '(s, pc) := tick_step s 10 (TickExpire []) in
  let s := probe_send_failed s [1] 0 10 in
  pc = TickGossip [1] 1 /\ (tick_step s 10 pc).2 = TickDone [([1], SwimPing [0] 0 [SwimSuspect [1] 0 [0]])].
Proof. by vm_compute. Qed.

(** The piggyback count is the larger of 4 and [ceil(log2 n)]. *)
Theorem adaptive_piggyback_count_spec n :
  1 <= n -> let c := adaptive_piggyback_count n in
  4 <= c /\ n <= 2 ^ c /\ (c = 4 \/ 2 ^ (c - 1) < n).
Proof.
  intros Hn. cbn zeta. unfold adaptive_piggyback_count. destruct (n <=? 16) eqn:E; bool_to_prop.
  - split_and!; [lia| |by left]. change (2 ^ 4) with 16. lia.
  - pose proof (Z.log2_spec n ltac:(lia)) as [Hlo Hhi]. rewrite Z.pow_succ_r in Hhi by apply Z.log2_nonneg.
    assert (4 <= Z.log2 n) by (apply Z.log2_le_pow2; lia).
    destruct (2 ^ Z.log2 n =? n) eqn:Ep; bool_to_prop.
    + rewrite Z.max_l by lia. split_and!; [lia|lia|]. right. rewrite <- Ep at 2.
      apply Z.pow_lt_mono_r; lia.
    + rewrite Z.max_l by lia. split_and!; [lia| |right].
      * rewrite Z.pow_add_r by lia. lia.
      * replace (Z.log2 n + 1 - 1) with (Z.log2 n) by lia. lia.
Qed.

(** Gossip at equal incarnations does not converge: two nodes that hear the same
    [SwimAlive] and [SwimSuspect] in opposite orders end in different states. *)
Theorem equal_incarnation_order_matters :
  let s := (handle_message (swim_new [0]) 0 (SwimAlive [1] 3)).1 in
  is_alive (handle_messages s 0 [SwimSuspect [1] 3 [2]; SwimAlive [1] 3]).1 [1] = true /\
  is_alive (handle_messages s 0 [SwimAlive [1] 3; SwimSuspect [1] 3 [2]]).1 [1] = false.
Proof. by vm_compute. Qed.

(** A stale death notice is accepted over a newer incarnation, and the table then
    forgets how far the node's counter had come. *)
Theorem stale_dead_lowers_incarnation :
  let s := (handle_messages (swim_new [0]) 0 [SwimAlive [1] 9; SwimDead [1] 0 [2]]).1 in
  members s !! [1] = Some (Dead 0).
Proof. by vm_compute. Qed.

(** Refuting a suspicion adds one to the node's own counter, whatever incarnation
    was suspected: a node that restarted at 0 does not clear a suspicion of
    incarnation 5 with the refutation it sends next. *)
Theorem refutation_can_be_dominated :
  let self := (handle_message (swim_new [1]) 0 (SwimSuspect [1] 5 [2])).1 in
  let peer := (handle_messages (swim_new [0]) 0 [SwimSuspect [1] 5 [2]; SwimAlive [1] (incarnation self)]).1 in
  incarnation self = 1 /\ is_alive peer [1] = false.
Proof. by vm_compute. Qed.

(** ** Concrete runs *)

Definition demo_swim : Swim :=
  (handle_messages (swim_new [0]) 10 [SwimJoin [1] 9000; SwimSuspect [2] 4 [1]; SwimDead [3] 7 [1]]).1.

Lemma local_never_member_witness : members demo_swim !! [0] = None.
Proof.
  apply (local_never_member (fun _ _ => True) (swim_new [0]) [0] demo_swim); [reflexivity|].
  apply (rtc_l _ _ (handle_message (swim_new [0]) 10 (SwimJoin [1] 9000)).1); [by apply step_message|].
  apply (rtc_l _ _ (handle_messages (swim_new [0]) 10 [SwimJoin [1] 9000; SwimSuspect [2] 4 [1]]).1);
    [by apply (step_message _ _ 10 (SwimSuspect [2] 4 [1]))|].
  apply rtc_once. by apply (step_message _ _ 10 (SwimDead [3] 7 [1])).
Defined.

Lemma dead_until_higher_incarnation_witness :
  exists j', 7 <= j' /\ members (tick_step (handle_message demo_swim 20 (SwimAlive [3] 7)).1 9000 (TickExpire [([2], 4)])).1 !! [3] = Some (Dead j').
Proof.
  apply (dead_until_higher_incarnation (fun n i => i <= 7) demo_swim _ [3] 7).
  - vm_compute. reflexivity.
  - intros i Hi. exact Hi.
  - apply (rtc_l _ _ (handle_message demo_swim 20 (SwimAlive [3] 7)).1); [apply step_message; cbn; lia|].
    apply rtc_once, step_tick.
Defined.

Lemma protocol_tick_spec_witness :
  members (protocol_tick demo_swim 5010).1 = expire 5000 5010 <$> members demo_swim.
Proof.
  pose proof (protocol_tick_spec demo_swim 5010 ltac:(vm_compute; reflexivity)) as H.
  destruct (protocol_tick demo_swim 5010) as [s' out]. exact (proj1 H).
Defined.

Lemma adaptive_piggyback_count_spec_witness : 1000 <= 2 ^ adaptive_piggyback_count 1000.
Proof. apply (adaptive_piggyback_count_spec 1000). lia. Defined.
