(* ===== verification/Health.v ===== *)
(** * Health scanning (crates/craftec-health/src/tracker.rs, scanner.rs)

    Who holds how many coded pieces of what, and the cursor-driven scan that turns
    missing redundancy into repair requests.  The theorems show the tracker keeps
    one record per holder, that the scan reaches every eligible CID within
    [total / batch] cycles, and what a request means. *)
From Stdlib Require Import ZArith Lia.
From stdpp Require Import base list list_numbers numbers strings gmap sorting.
From S2P Require Import Prelude Types F64 Encoder Wire.

Local Open Scope Z_scope.

(** ** Byte order: [Ord] on [[u8; 32]] *)

Fixpoint lex_cmp (a b : list Z) : comparison :=
  match a, b with
  | [], [] => Eq
  | [], _ :: _ => Lt
  | _ :: _, [] => Gt
  | x :: a, y :: b => match Z.compare x y with Eq => lex_cmp a b | c => c end
  end.

Definition lex_le (a b : list Z) : Prop := lex_cmp a b <> Gt.
#[export] Instance lex_le_dec a b : Decision (lex_le a b).
Proof. unfold lex_le. destruct (lex_cmp a b); [left|left|right]; congruence. Defined.

Lemma lex_cmp_eq a b : lex_cmp a b = Eq <-> a = b.
Proof.
  revert b. induction a as [|x a IH]; intros [|y b]; cbn; try done.
  destruct (Z.compare_spec x y) as [->|Hl|Hl].
  - rewrite IH. split; congruence.
  - split; [done|]. intros [= -> _]. lia.
  - split; [done|]. intros [= -> _]. lia.
Qed.

Lemma lex_cmp_antisym a b : lex_cmp b a = CompOpp (lex_cmp a b).
Proof.
  revert b. induction a as [|x a IH]; intros [|y b]; cbn; try done.
  rewrite Z.compare_antisym. destruct (x ?= y); cbn; [apply IH|done|done].
Qed.

Lemma lex_cmp_trans a b c : lex_cmp a b <> Gt -> lex_cmp b c <> Gt -> lex_cmp a c <> Gt.
Proof.
  revert b c. induction a as [|x a IH]; intros [|y b] [|z c]; cbn; try done.
  destruct (Z.compare_spec x y), (Z.compare_spec y z), (Z.compare_spec x z); subst; try done; try lia; apply IH.
Qed.

#[export] Instance lex_le_total : Total lex_le.
Proof.
  intros a b. unfold lex_le. rewrite (lex_cmp_antisym a b). destruct (lex_cmp a b); cbn; [left|left|right]; done.
Qed.
#[export] Instance lex_le_trans : Transitive lex_le.
Proof. intros a b c. apply lex_cmp_trans. Qed.
#[export] Instance lex_le_antisym : AntiSymm (=) lex_le.
Proof.
  intros a b. unfold lex_le. rewrite (lex_cmp_antisym a b). destruct (lex_cmp a b) eqn:E; cbn; try done.
  intros _ _. by apply lex_cmp_eq.
Qed.

(** ** Tracker *)

Record PieceHolder : Type := mkHolder { holder_node : NodeId; holder_count : Z; last_seen : Z }.

Record PieceTracker : Type := mkTracker {
  availability : gmap Cid (list PieceHolder);
  k_values : gmap Cid Z;
}.

Definition tracker_new : PieceTracker := mkTracker ∅ ∅.

(** Update the record of [h]'s node in place, or append it. *)
Fixpoint upsert (h : PieceHolder) (l : list PieceHolder) : list PieceHolder :=
  match l with
  | [] => [h]
  | e :: l =>
      if bool_decide (holder_node e = holder_node h)
      then mkHolder (holder_node e) (Z.max (holder_count e) (holder_count h)) (last_seen h) :: l
      else e :: upsert h l
  end.

Definition get_holders (t : PieceTracker) (c : Cid) : list PieceHolder := default [] (availability t !! c).

Definition record_piece (t : PieceTracker) (c : Cid) (h : PieceHolder) : PieceTracker :=
  mkTracker (<[c := upsert h (get_holders t c)]> (availability t)) (k_values t).

(** [.map(|h| h.piece_count).sum()] on [u32], in a release build: the sum wraps. *)
Definition available_count (t : PieceTracker) (c : Cid) : Z :=
  foldl (fun acc h => wrap 32 (acc + holder_count h)) 0 (get_holders t c).

(** The same in a build with overflow checks: the sum panics. *)
Definition available_count_checked (t : PieceTracker) (c : Cid) : outcome Z :=
  foldl (fun acc h => match acc with
    | Panicked => Panicked
    | Returned n => if n + holder_count h <? 2 ^ 32 then Returned (n + holder_count h) else Panicked
    end) (Returned 0) (get_holders t c).

Definition local_piece_count (t : PieceTracker) (c : Cid) (n : NodeId) : Z :=
  match List.find (fun h => bool_decide (holder_node h = n)) (get_holders t c) with
  | Some h => holder_count h
  | None => 0
  end.

Definition holders_with_count (t : PieceTracker) (c : Cid) : list (NodeId * Z) :=
  map (fun h => (holder_node h, holder_count h)) (get_holders t c).

Definition holder_nodes (t : PieceTracker) (c : Cid) : list NodeId := map holder_node (get_holders t c).

Definition record_k (t : PieceTracker) (c : Cid) (k : Z) : PieceTracker :=
  match k_values t !! c with
  | Some _ => t
  | None => mkTracker (availability t) (<[c := k]> (k_values t))
  end.

Definition get_k (t : PieceTracker) (c : Cid) : option Z := k_values t !! c.

(** [availability.retain]: keep the holders [f] accepts, drop emptied CIDs. *)
Definition retain_holders (f : PieceHolder -> bool) (m : gmap Cid (list PieceHolder)) : gmap Cid (list PieceHolder) :=
  omap (fun l => match List.filter f l with [] => None | l' => Some l' end) m.

Definition tracker_remove_node (t : PieceTracker) (n : NodeId) : PieceTracker :=
  let keep h := negb (bool_decide (holder_node h = n)) in
  let av := retain_holders keep (availability t) in
  let emptied := filter (fun cl : Cid * list PieceHolder => List.filter keep cl.2 = []) (availability t) in
  mkTracker av (k_values t ∖ ((fun _ => 0) <$> emptied)).

Definition tracker_prune_stale (t : PieceTracker) (now max_age : Z) : PieceTracker * nat :=
  let cutoff := now - max_age in
  let keep h := cutoff <? last_seen h in
  (mkTracker (retain_holders keep (availability t)) (k_values t),
   sum_list (map (fun cl => (length cl.2 - length (List.filter keep cl.2))%nat) (map_to_list (availability t)))).

Definition cid_count (t : PieceTracker) : nat := size (availability t).

Definition sorted_cids (t : PieceTracker) : list Cid :=
  merge_sort lex_le (map fst (map_to_list (availability t))).

(** ** Repair requests *)

Inductive RepairRequest : Type :=
| Critical (c : Cid) (available k : Z)
| Normal (c : Cid) (available target : Z).

Definition request_cid (r : RepairRequest) : Cid := match r with Critical c _ _ => c | Normal c _ _ => c end.
Definition severity (r : RepairRequest) : string := match r with Critical _ _ _ => "critical" | Normal _ _ _ => "normal" end.
Definition target_count (r : RepairRequest) : Z := match r with Critical _ _ k => k | Normal _ _ t => t end.
Definition request_available (r : RepairRequest) : Z := match r with Critical _ a _ => a | Normal _ a _ => a end.

(** ** Scanner *)

Definition DEFAULT_K : Z := 32.

Definition target_piece_count (k : Z) : Z :=
  let k := Z.max k 1 in
  let factor := f64_ceil_as_u 32 (f64_add f64_2 (f64_div f64_16 (f64_of_Z k))) in
  wrap 32 (k * factor).

Record HealthScanner : Type := mkScanner {
  scan_percent : f64;
  cycle_interval : Z;
  scan_node : NodeId;
  last_scan_index : nat;
}.

Definition scanner_new (cycle_interval : Z) (n : NodeId) : HealthScanner := mkScanner f64_0_01 cycle_interval n 0.

Definition with_scan_percent (s : HealthScanner) (percent : f64) : HealthScanner :=
  mkScanner (f64_clamp percent f64_epsilon f64_1) (cycle_interval s) (scan_node s) (last_scan_index s).

Definition evaluate_cid (t : PieceTracker) (c : Cid) : option RepairRequest :=
  let available := available_count t c in
  let k := default DEFAULT_K (get_k t c) in
  let target := target_piece_count k in
  if available <? k then Some (Critical c available k)
  else if available <? target then Some (Normal c available target)
  else None.

Definition eligible_cids (t : PieceTracker) (n : NodeId) : list Cid :=
  List.filter (fun c => 2 <=? local_piece_count t c n) (sorted_cids t).

Definition batch_size (percent : f64) (total : nat) : nat :=
  Nat.max (Z.to_nat (f64_ceil_as_u 64 (f64_mul (f64_of_Z (Z.of_nat total)) percent))) 1.

(** The CIDs one cycle looks at, and the cursor it leaves. *)
Definition scan_window (cids : list Cid) (cursor batch : nat) : list Cid * nat :=
  let total := length cids in
  let start := (cursor mod total)%nat in
  let end_ := Nat.min (start + batch) total in
  let wrapped := if (total <? start + batch)%nat
    then take (Nat.min (start + batch - total) total) cids else [] in
  (slice cids start end_ ++ wrapped, ((start + batch) mod total)%nat).

Definition scan_cycle (s : HealthScanner) (t : PieceTracker) : HealthScanner * list RepairRequest :=
  let all_cids := sorted_cids t in
  match all_cids with
  | [] => (s, [])
  | _ :: _ =>
      let eligible := eligible_cids t (scan_node s) in
      match eligible with
      | [] => (s, [])
      | _ :: _ =>
          let '(batch, cursor) := scan_window eligible (last_scan_index s) (batch_size (scan_percent s) (length eligible)) in
          (mkScanner (scan_percent s) (cycle_interval s) (scan_node s) cursor, omap (evaluate_cid t) batch)
      end
  end.

(** [n] cycles while the tracker does not change: the requests of each. *)
Fixpoint scan_cycles (n : nat) (s : HealthScanner) (t : PieceTracker) : list (list RepairRequest) :=
  match n with
  | O => []
  | S n => let '(s', out) := scan_cycle s t in out :: scan_cycles n s' t
  end.

(** ** Tracker facts *)

Lemma upsert_nodes h l :
  map holder_node (upsert h l) = map holder_node l \/ map holder_node (upsert h l) = map holder_node l ++ [holder_node h].
Proof.
  induction l as [|e l IH]; [by right|]. cbn. destruct (bool_decide _) eqn:E; bool_to_prop; cbn; [by left|].
  destruct IH as [-> | ->]; auto.
Qed.

Lemma upsert_nodup h l : NoDup (map holder_node l) -> NoDup (map holder_node (upsert h l)).
Proof.
  induction l as [|e l IH]; cbn; [intros _; apply NoDup_singleton|]. intros Hnd. inversion Hnd as [|? ? Hn Hnd']; subst.
  destruct (bool_decide _) eqn:E; bool_to_prop; cbn; [by constructor|]. constructor; [|by apply IH].
  destruct (upsert_nodes h l) as [-> | ->]; [done|]. intros [?|Hs]%elem_of_app; [done|].
  by apply list_elem_of_singleton in Hs.
Qed.

Definition find_node (n : NodeId) (l : list PieceHolder) : option PieceHolder :=
  List.find (fun h => bool_decide (holder_node h = n)) l.

Lemma find_upsert h l n :
  find_node n (upsert h l) =
  if bool_decide (n = holder_node h) then
    Some (mkHolder n (match find_node n l with Some e => Z.max (holder_count e) (holder_count h) | None => holder_count h end) (last_seen h))
  else find_node n l.
Proof.
  unfold find_node. induction l as [|e l IH]; cbn.
  - destruct (bool_decide (holder_node h = n)) eqn:E; bool_to_prop.
    + subst. rewrite bool_decide_true by done. by destruct h.
    + by rewrite bool_decide_false by congruence.
  - destruct (bool_decide (holder_node e = holder_node h)) eqn:E; bool_to_prop; cbn.
    + rewrite E. destruct (bool_decide (holder_node h = n)) eqn:En; bool_to_prop.
      * subst. by rewrite bool_decide_true.
      * by rewrite bool_decide_false by congruence.
    + destruct (bool_decide (holder_node e = n)) eqn:En; bool_to_prop; [|done].
      rewrite bool_decide_false; congruence.
Qed.

(** One record per node, and no empty entries. *)
Definition tracker_wf (t : PieceTracker) : Prop :=
  forall c l, availability t !! c = Some l -> l <> [] /\ NoDup (map holder_node l).

Lemma filter_nodup {A B} (f : A -> B) (p : A -> bool) l : NoDup (map f l) -> NoDup (map f (List.filter p l)).
Proof.
  induction l as [|x l IH]; [done|]. cbn. intros Hnd. inversion Hnd as [|? ? Hn Hnd']; subst.
  destruct (p x); [|by apply IH]. cbn. constructor; [|by apply IH]. intros Hin. apply Hn.
  apply list_elem_of_In, in_map_iff in Hin as (y & <- & Hy). apply filter_In in Hy as [Hy _].
  apply list_elem_of_In, in_map_iff. eauto.
Qed.

Lemma retain_lookup f m c l :
  retain_holders f m !! c = Some l <-> exists l0, m !! c = Some l0 /\ l = List.filter f l0 /\ l <> [].
Proof.
  unfold retain_holders. rewrite lookup_omap. destruct (m !! c) as [l0|]; cbn; [|split; [done|by intros (? & ? & _)]].
  split.
  - destruct (List.filter f l0) eqn:E; [done|]. intros [= <-]. exists l0. by rewrite E.
  - intros (l1 & [= <-] & -> & Hn). by destruct (List.filter f l0).
Qed.

Lemma retain_wf f m k : tracker_wf (mkTracker m k) -> forall k', tracker_wf (mkTracker (retain_holders f m) k').
Proof.
  intros Hw k' c l Hl. apply retain_lookup in Hl as (l0 & Hl0 & -> & Hn). split; [done|].
  apply filter_nodup. by apply (Hw c l0).
Qed.

Inductive tracker_op : Type :=
| TRecord (c : Cid) (h : PieceHolder)
| TRecordK (c : Cid) (k : Z)
| TRemoveNode (n : NodeId)
| TPrune (now max_age : Z).

Definition tracker_exec (t : PieceTracker) (op : tracker_op) : PieceTracker :=
  match op with
  | TRecord c h => record_piece t c h
  | TRecordK c k => record_k t c k
  | TRemoveNode n => tracker_remove_node t n
  | TPrune now age => (tracker_prune_stale t now age).1
  end.

Lemma tracker_exec_wf t op : tracker_wf t -> tracker_wf (tracker_exec t op).
Proof.
  intros Hw. destruct op as [c h|c k|n|now age]; cbn.
  - intros c' l Hl. cbn in Hl. apply lookup_insert_Some in Hl as [[<- <-]|[_ Hl]]; [|by apply (Hw c')].
    split; [|apply upsert_nodup].
    + destruct (get_holders t c); cbn; [done|]. by destruct (bool_decide _).
    + unfold get_holders. destruct (availability t !! c) as [l|] eqn:E; cbn; [|constructor]. by apply (Hw c l).
  - unfold record_k. by destruct (k_values t !! c).
  - apply (retain_wf _ _ (k_values t)). intros c l. apply Hw.
  - apply (retain_wf _ _ (k_values t)). intros c l. apply Hw.
Qed.

(** ** Coverage of the scan *)

Lemma slice_elem {A} (l : list A) a b i x : (a <= i < b)%nat -> l !! i = Some x -> x ∈ slice l a b.
Proof.
  intros Hi Hx. unfold slice. apply list_elem_of_lookup_2 with (i - a)%nat.
  rewrite lookup_take_lt by lia. rewrite lookup_drop. by replace (a + (i - a))%nat with i by lia.
Qed.

(** One cycle looks at the [batch] positions after the cursor, modulo the list. *)
Lemma scan_window_covers cids cursor batch j c :
  (j < batch)%nat -> cids !! ((cursor + j) mod length cids)%nat = Some c ->
  c ∈ (scan_window cids cursor batch).1.
Proof.
  intros Hj Hc. pose proof (lookup_lt_Some _ _ _ Hc) as Hlt. unfold scan_window. cbn [fst].
  set (total := length cids) in *. assert (total <> 0)%nat as Ht by lia.
  set (start := (cursor mod total)%nat). pose proof (Nat.mod_upper_bound cursor total Ht) as Hs. fold start in Hs.
  assert (((cursor + j) mod total) = ((start + j) mod total))%nat as Hm
    by (subst start; by rewrite Nat.Div0.add_mod_idemp_l).
  rewrite Hm in Hc. apply elem_of_app. destruct (Nat.lt_ge_cases (start + j) total) as [Hsj|Hsj].
  - left. rewrite Nat.mod_small in Hc by done. apply (slice_elem _ _ _ (start + j)); [lia|done].
  - right. destruct (Nat.ltb_spec total (start + batch)); [|lia].
    apply list_elem_of_lookup_2 with ((start + j) mod total)%nat. rewrite lookup_take_lt; [done|].
    assert ((start + j) mod total <= start + j - total)%nat.
    { replace (start + j)%nat with ((start + j - total) + 1 * total)%nat at 1 by lia.
      rewrite Nat.Div0.mod_add. apply Nat.Div0.mod_le. }
    pose proof (Nat.mod_upper_bound (start + j) total Ht). lia.
Qed.

Lemma scan_cycle_window s t :
  eligible_cids t (scan_node s) <> [] ->
  let e := eligible_cids t (scan_node s) in
  let w := scan_window e (last_scan_index s) (batch_size (scan_percent s) (length e)) in
  scan_cycle s t = (mkScanner (scan_percent s) (cycle_interval s) (scan_node s) w.2, omap (evaluate_cid t) w.1).
Proof.
  intros He. cbn zeta. unfold scan_cycle. destruct (sorted_cids t) as [|c l] eqn:E.
  { unfold eligible_cids in He. by rewrite E in He. }
  destruct (eligible_cids t (scan_node s)) as [|c' l'] eqn:E'; [done|].
  by destruct (scan_window _ _ _).
Qed.

Lemma scan_cycles_cover n s t j c r :
  let e := eligible_cids t (scan_node s) in
  (j < n * batch_size (scan_percent s) (length e))%nat ->
  e !! ((last_scan_index s + j) mod length e)%nat = Some c -> evaluate_cid t c = Some r ->
  exists out, out ∈ scan_cycles n s t /\ r ∈ out.
Proof.
  cbn zeta. revert s j. induction n as [|n IH]; intros s j Hj Hc Hr; [lia|].
  set (e := eligible_cids t (scan_node s)) in *. set (b := batch_size (scan_percent s) (length e)) in *.
  assert (e <> []) as He by (intros He; rewrite He in Hc; done).
  cbn [scan_cycles]. rewrite (scan_cycle_window s t He). fold e b.
  destruct (Nat.lt_ge_cases j b) as [Hjb|Hjb].
  - eexists. split; [apply list_elem_of_here|]. apply list_elem_of_omap. exists c. split; [|done].
    by apply (scan_window_covers e (last_scan_index s) b j).
  - set (s' := mkScanner _ _ _ _). destruct (IH s' (j - b)%nat) as (out & Hout & Hin).
    + cbn [scan_node scan_percent s']. fold e b. lia.
    + cbn [scan_node last_scan_index s' scan_window snd]. fold e. rewrite Nat.Div0.add_mod_idemp_l.
      replace ((last_scan_index s mod length e + b + (j - b)))%nat with ((last_scan_index s mod length e) + j)%nat by lia.
      by rewrite Nat.Div0.add_mod_idemp_l.
    + done.
    + exists out. split; [|done]. apply list_elem_of_further. exact Hout.
Qed.

(** ** Properties *)

(** Recording a holder raises its own count to the maximum seen and refreshes it,
    and leaves every other node and CID alone; all tracker operations keep one
    record per node and no empty entries. *)
Theorem tracker_records ops c h n c' :
  let t := foldl tracker_exec tracker_new ops in
  tracker_wf t /\
  local_piece_count (record_piece t c h) c' n =
    (if bool_decide (c' = c /\ n = holder_node h)
     then (match find_node n (get_holders t c) with
           | Some e => Z.max (holder_count e) (holder_count h) | None => holder_count h end)
     else local_piece_count t c' n).
Proof.
  cbn zeta. split.
  - assert (tracker_wf tracker_new) as H0 by (intros c0 l0 Hl0; cbn in Hl0; by rewrite lookup_empty in Hl0).
    revert H0. generalize tracker_new. induction ops as [|op ops IH]; intros t Ht; [done|]. cbn.
    by apply IH, tracker_exec_wf.
  - set (t := foldl _ _ _). unfold local_piece_count, record_piece, get_holders at 1. cbn.
    destruct (decide (c' = c)) as [->|Hne].
    + rewrite lookup_insert_eq. cbn. fold (get_holders t c).
      change (find _ (upsert h (get_holders t c))) with (find_node n (upsert h (get_holders t c))).
      rewrite find_upsert. destruct (bool_decide (n = holder_node h)) eqn:E; bool_to_prop.
      * by rewrite bool_decide_true by done.
      * by rewrite bool_decide_false by (by intros [_ ?]).
    + rewrite lookup_insert_ne by done. rewrite bool_decide_false by (by intros [? _]). done.
Qed.

(** *** Both builds *)

(** As long as the pieces of a CID number less than [2 ^ 32], both builds count them
    exactly; beyond that the checked build panics. *)
Theorem available_count_builds t c :
  Forall (fun h => 0 <= holder_count h) (get_holders t c) ->
  let total := foldr (fun h acc => holder_count h + acc) 0 (get_holders t c) in
  if total <? 2 ^ 32 then available_count t c = total /\ available_count_checked t c = Returned total
  else available_count_checked t c = Panicked.
Proof.
  cbn zeta. unfold available_count, available_count_checked. generalize (get_holders t c) as l. intros l Hl.
  set (step := fun (acc : outcome Z) h => match acc with Panicked => Panicked | Returned n => _ end).
  assert (forall l, foldl step Panicked l = Panicked) as Hpan by (intros l0; by induction l0).
  enough (forall a, 0 <= a < 2 ^ 32 -> let total := foldr (fun h acc => holder_count h + acc) 0 l in
    if a + total <? 2 ^ 32 then foldl (fun acc h => wrap 32 (acc + holder_count h)) a l = a + total /\ foldl step (Returned a) l = Returned (a + total)
    else foldl step (Returned a) l = Panicked) as Hgen by (exact (Hgen 0 ltac:(lia))).
  cbn zeta. induction Hl as [|h l Hh Hl IH]; intros a Ha; cbn [foldl foldr].
  - rewrite Z.add_0_r. by destruct (Z.ltb_spec a (2 ^ 32)); [|lia].
  - assert (0 <= foldr (fun h acc => holder_count h + acc) 0 l) as Hpos by (clear -Hl; induction Hl; cbn; lia).
    unfold step at 2 4. destruct (Z.ltb_spec (a + holder_count h) (2 ^ 32)) as [Hlt|Hge].
    + rewrite wrap_id by (unfold fits; lia). rewrite Z.add_assoc. apply IH. lia.
    + destruct (Z.ltb_spec (a + (holder_count h + foldr (fun h acc => holder_count h + acc) 0 l)) (2 ^ 32)); [lia|]. apply Hpan.
Qed.

(** C40: The scan is complete: while the tracker does not change, [n] cycles with
    [n * batch >= total] report every eligible CID that needs repair, from any
    cursor position. *)
Theorem scan_covers_all_eligible n s t c r :
  let e := eligible_cids t (scan_node s) in
  c ∈ e -> evaluate_cid t c = Some r ->
  (length e <= n * batch_size (scan_percent s) (length e))%nat ->
  exists out, out ∈ scan_cycles n s t /\ r ∈ out.
Proof.
  cbn zeta. set (e := eligible_cids t (scan_node s)). intros [i Hi]%list_elem_of_lookup_1 Hr Hn.
  pose proof (lookup_lt_Some _ _ _ Hi) as Hlt. assert (length e <> 0)%nat as H0 by lia.
  set (start := (last_scan_index s mod length e)%nat).
  pose proof (Nat.mod_upper_bound (last_scan_index s) (length e) H0) as Hs. fold start in Hs.
  set (j := if decide (start <= i)%nat then (i - start)%nat else (i + length e - start)%nat).
  apply (scan_cycles_cover n s t j c r); fold e.
  - subst j. destruct (decide _); lia.
  - rewrite <- Nat.Div0.add_mod_idemp_l. fold start. subst j. destruct (decide (start <= i)%nat).
    + replace (start + (i - start))%nat with i by lia. by rewrite Nat.mod_small.
    + replace (start + (i + length e - start))%nat with (i + 1 * length e)%nat by lia.
      by rewrite Nat.Div0.mod_add, Nat.mod_small.
  - done.
Qed.

(** A request is [Critical] exactly below [k] pieces and [Normal] from [k] up to
    the target; at the target there is none. *)
Theorem evaluate_cid_spec t c :
  let available := available_count t c in
  let k := default DEFAULT_K (get_k t c) in
  match evaluate_cid t c with
  | Some (Critical c' a k') => c' = c /\ a = available /\ k' = k /\ available < k
  | Some (Normal c' a target) => c' = c /\ a = available /\ target = target_piece_count k /\ k <= available < target
  | None => k <= available /\ target_piece_count k <= available
  end.
Proof.
  cbn zeta. unfold evaluate_cid. set (a := available_count t c). set (k := default _ _).
  destruct (Z.ltb_spec a k); [done|]. destruct (Z.ltb_spec a (target_piece_count k)); split_and!; try done; lia.
Qed.

(** The scanner's target is above what the encoder emits: content encoded at the
    default [k] with every piece in place is still reported for repair. *)
Theorem fresh_content_flagged c n :
  let t := record_k (record_piece tracker_new c (mkHolder n (target_n 32) 0)) c 32 in
  evaluate_cid t c = Some (Normal c 80 96).
Proof.
  cbn zeta. unfold record_k, record_piece, evaluate_cid, available_count, get_k, get_holders.
  cbn [availability k_values tracker_new]. rewrite !lookup_empty. cbn [availability k_values].
  rewrite !lookup_insert_eq. by vm_compute.
Qed.

(** Pruning forgets the holders of a CID but not its [k]: the first value recorded
    stays in force when the CID is announced again with another one. *)
Theorem prune_keeps_stale_k c n :
  let t := record_k (record_piece tracker_new c (mkHolder n 3 0)) c 8 in
  let t' := (tracker_prune_stale t 100 10).1 in
  get_holders t' c = [] /\ get_k (record_k t' c 32) c = Some 8.
Proof.
  assert (record_k (record_piece tracker_new c (mkHolder n 3 0)) c 8
    = mkTracker (<[c := [mkHolder n 3 0]]> ∅) (<[c := 8]> ∅)) as ->.
  { unfold record_k, record_piece, get_holders. cbn [availability k_values tracker_new]. by rewrite !lookup_empty. }
  split.
  - unfold get_holders. cbn [tracker_prune_stale fst availability]. unfold retain_holders.
    rewrite lookup_omap, lookup_insert_eq. by vm_compute.
  - unfold record_k, get_k. cbn [tracker_prune_stale fst k_values]. rewrite !lookup_insert_eq. cbn [k_values].
    apply lookup_insert_eq.
Qed.

(** ** Concrete runs *)

Definition demo_tracker : PieceTracker :=
  foldl tracker_exec tracker_new
    [TRecord [1] (mkHolder [7] 2 0); TRecord [2] (mkHolder [7] 40 0); TRecord [2] (mkHolder [8] 80 0);
     TRecord [3] (mkHolder [7] 5 0); TRecord [1] (mkHolder [9] 1 0)].

Lemma scan_covers_all_eligible_witness :
  exists out, out ∈ scan_cycles 3 (scanner_new 300 [7]) demo_tracker /\ Critical [3] 5 32 ∈ out.
Proof.
  apply (scan_covers_all_eligible 3 (scanner_new 300 [7]) demo_tracker [3]).
  - apply list_elem_of_In. vm_compute. tauto.
  - vm_compute. reflexivity.
  - vm_compute. lia.
Defined.
