(* ===== verification/Repair.v ===== *)
(** * Repair (crates/craftec-health/src/coordinator.rs, repair.rs,
    crates/craftec-node/src/piece_store.rs)

    Electing the nodes that repair a CID, recoding a fresh piece from local ones
    and choosing who receives it.  The executor is modelled over the store
    interface and the [PieceCidLookup] interface of the health crate.  The theorems
    show that nodes with the same view elect the same repairers and that a piece a
    repair sends out is as valid as the pieces it was made from. *)
From Stdlib Require Import ZArith Lia SpecFloat.
From stdpp Require Import base list list_numbers numbers strings gmap sorting.
From S2P Require Import Prelude Gf256 Linear Types Instances External Hommac F64 Encoder Recoder Engine ObjStore Wire Health.

Local Open Scope Z_scope.

(** ** Coordinator election *)

Record NodeRanking : Type := mkRanking {
  rank_node : NodeId;
  uptime_secs : Z;
  reputation_score : f64;
}.

Definition then_with (a b : comparison) : comparison := match a with Eq => b | _ => a end.

(** Higher uptime, then higher reputation, then lower node id. *)
Definition rank_cmp (a b : NodeRanking) : comparison :=
  then_with (Z.compare (uptime_secs b) (uptime_secs a))
    (then_with (default Eq (f64_partial_cmp (reputation_score b) (reputation_score a)))
       (lex_cmp (rank_node a) (rank_node b))).

Definition rank_le (a b : NodeRanking) : Prop := rank_cmp a b <> Gt.
#[export] Instance rank_le_dec a b : Decision (rank_le a b).
Proof. unfold rank_le. destruct (rank_cmp a b); [left|left|right]; congruence. Defined.

(** [Iterator::min_by]: the first minimum. *)
Fixpoint min_by (best : NodeRanking) (l : list NodeRanking) : NodeRanking :=
  match l with
  | [] => best
  | x :: l => min_by (match rank_cmp best x with Gt => x | _ => best end) l
  end.

Definition select_coordinator (providers : list NodeRanking) : option NodeId :=
  match providers with
  | [] => None
  | x :: l => Some (rank_node (min_by x l))
  end.

Definition rank_providers (providers : list NodeRanking) : list NodeId :=
  map rank_node (merge_sort rank_le providers).

(** ** Piece index *)

(** The lookup the health crate asks of the node. *)
Class PieceCidLookup (L : Type) : Type := { piece_cids : L -> Cid -> option (list Cid) }.

Record CodedPieceIndex : Type := mkPieceIndexMap {
  piece_map : gmap Cid (list Cid);
  piece_set : gset Cid;
}.

Definition piece_index_new : CodedPieceIndex := mkPieceIndexMap ∅ ∅.
Definition piece_index_insert (i : CodedPieceIndex) (content : Cid) (pcids : list Cid) : CodedPieceIndex :=
  mkPieceIndexMap (<[content := pcids]> (piece_map i)) (piece_set i).
Definition mark_piece_cid (i : CodedPieceIndex) (c : Cid) : CodedPieceIndex :=
  mkPieceIndexMap (piece_map i) ({[ c ]} ∪ piece_set i).
Definition is_piece_cid (i : CodedPieceIndex) (c : Cid) : bool := bool_decide (c ∈ piece_set i).

#[export] Instance coded_piece_lookup : PieceCidLookup CodedPieceIndex :=
  {| piece_cids i c := piece_map i !! c |}.

(** ** Executor *)

Inductive HealthError : Type :=
| HealthInsufficientPieces (c : Cid) (k available : Z)
| RepairFailed (c : Cid) (reason : string)
| CoordinatorElectionFailed (msg : string)
| ScanFailed (msg : string)
| HealthNetworkError (msg : string).

Section Executor.
Context `{B3 : Blake3} {St IO L : Type} {CS : ContentStore St IO} {PL : PieceCidLookup L}.
Context {PC : Postcard CodedPiece}.

(** The loop of [load_local_pieces]: read piece CIDs in order until two pieces
    are loaded, skipping those that are missing, unreadable or malformed. *)
Fixpoint load_loop (s : St) (io : nat -> IO) (pcids : list Cid) (pieces : list CodedPiece) : St * list CodedPiece :=
  match pcids with
  | [] => (s, pieces)
  | pcid :: pcids =>
      if (2 <=? length pieces)%nat then (s, pieces)
      else
        let '(s, r) := cs_get s pcid (io 0%nat) in
        let pieces := match r with
          | Ok (Some b) => match from_bytes b with Some p => pieces ++ [p] | None => pieces end
          | _ => pieces
          end in
        load_loop s (fun i => io (S i)) pcids pieces
  end.

Definition load_local_pieces (s : St) (lookup : L) (c : Cid) (io : nat -> IO) : St * result (list CodedPiece) HealthError :=
  match piece_cids lookup c with
  | None => (s, Err (HealthInsufficientPieces c 2 0))
  | Some pcids =>
      let '(s, pieces) := load_loop s io pcids [] in
      if (length pieces <? 2)%nat then (s, Err (HealthInsufficientPieces c 2 (Z.of_nat (length pieces))))
      else (s, Ok pieces)
  end.

(** [choose(&mut rng)]: the element at a random index, [None] on an empty list. *)
Definition choose (rng : nat) (l : list NodeId) : option NodeId :=
  match l with [] => None | _ => l !! (rng mod length l)%nat end.

Definition select_distribution_target (t : PieceTracker) (alive_peers : list NodeId) (self : NodeId) (c : Cid) (rng : nat)
    : result NodeId HealthError :=
  let holder_counts := holders_with_count t c in
  let holder_ids := map fst holder_counts in
  let one_piece_peers := map fst (List.filter (fun nc =>
    (nc.2 =? 1) && bool_decide (nc.1 ∈ alive_peers) && negb (bool_decide (nc.1 = self))) holder_counts) in
  match choose rng one_piece_peers with
  | Some target => Ok target
  | None =>
      let zero_piece_peers := List.filter (fun id =>
        negb (bool_decide (id ∈ holder_ids)) && negb (bool_decide (id = self))) alive_peers in
      match choose rng zero_piece_peers with
      | Some target => Ok target
      | None =>
          match choose rng (List.filter (fun id => negb (bool_decide (id = self))) alive_peers) with
          | Some target => Ok target
          | None => Err (RepairFailed c "no candidate peers available for distribution")
          end
      end
  end.

Definition repair_rankings (t : PieceTracker) (alive : list NodeId) (self : NodeId) (c : Cid) : list NodeRanking :=
  map (fun h => mkRanking (holder_node h) 0 f64_0_5)
    (List.filter (fun h => bool_decide (holder_node h ∈ alive) || bool_decide (holder_node h = self))
      (List.filter (fun h => 2 <=? local_piece_count t c (holder_node h)) (get_holders t c))).

Definition elected_nodes (t : PieceTracker) (alive : list NodeId) (self : NodeId) (c : Cid) (deficit : Z) : list NodeId :=
  let ranked := rank_providers (repair_rankings t alive self c) in
  take (Nat.min (length ranked) (Z.to_nat deficit)) ranked.

Record RepairState : Type := mkRepair {
  rep_store : St;
  rep_metrics : RlncMetrics;
  next_request_id : Z;
}.

(** [execute_repair]: the new state, the message sent and the result.  [draws] are
    the recoder's random draws, [rng] the random index of the target and [send_ok]
    the outcome of the send. *)
Definition execute_repair (r : RepairState) (t : PieceTracker) (alive : list NodeId) (self : NodeId) (lookup : L)
    (req : RepairRequest) (io : nat -> IO) (draws : nat -> Z * Z) (rng : nat) (send_ok : bool)
    : RepairState * option (NodeId * WireMessage) * result unit HealthError :=
  let c := request_cid req in
  let deficit := Z.max 0 (target_count req - request_available req) in
  if deficit =? 0 then (r, None, Ok tt)
  else
    match repair_rankings t alive self c with
    | [] => (r, None, Ok tt)
    | _ :: _ =>
        if negb (bool_decide (self ∈ elected_nodes t alive self c deficit)) then (r, None, Ok tt)
        else
          let '(s, loaded) := load_local_pieces (rep_store r) lookup c io in
          let r := mkRepair s (rep_metrics r) (next_request_id r) in
          match loaded with
          | Err e => (r, None, Err e)
          | Ok pieces =>
              let '(m, recoded) := engine_recode (rep_metrics r) pieces (map draws (seq 0 (length pieces))) in
              let r := mkRepair (rep_store r) m (next_request_id r) in
              match recoded with
              | Err _ => (r, None, Err (RepairFailed c "RLNC recode failed"))
              | Ok p =>
                  match select_distribution_target t alive self c rng with
                  | Err e => (r, None, Err e)
                  | Ok target =>
                      let msg := PieceResponse [p] (next_request_id r) in
                      let r := mkRepair (rep_store r) (rep_metrics r) (wrap 64 (next_request_id r + 1)) in
                      if send_ok then (r, Some (target, msg), Ok tt)
                      else (r, None, Err (RepairFailed c "piece distribution failed"))
                  end
              end
          end
    end.

End Executor.

(** ** Ranking *)

Lemma SFcompare_antisym x y : SFcompare y x = option_map CompOpp (SFcompare x y).
Proof.
  destruct x as [sx|sx| |sx mx ex], y as [sy|sy| |sy my ey]; cbn; try done;
    try (by destruct sx); try (by destruct sy); try (by destruct sx, sy).
  rewrite (Z.compare_antisym ex ey).
  assert (Pos.compare_cont Eq my mx = CompOpp (Pos.compare_cont Eq mx my)) as -> by (by rewrite Pos.compare_cont_antisym).
  destruct sx, sy; cbn; try done; destruct (ex ?= ey); cbn; try done; by destruct (Pos.compare_cont Eq mx my).
Qed.

Lemma then_with_opp a b : CompOpp (then_with a b) = then_with (CompOpp a) (CompOpp b).
Proof. by destruct a. Qed.

Lemma rank_cmp_antisym a b : rank_cmp b a = CompOpp (rank_cmp a b).
Proof.
  unfold rank_cmp. rewrite !then_with_opp, <- Z.compare_antisym, <- lex_cmp_antisym. do 2 f_equal.
  unfold f64_partial_cmp. rewrite (SFcompare_antisym (reputation_score b) (reputation_score a)).
  by destruct (SFcompare _ _) as [[]|].
Qed.

#[export] Instance rank_le_total : Total rank_le.
Proof.
  intros a b. unfold rank_le. rewrite (rank_cmp_antisym a b). destruct (rank_cmp a b); cbn; [left|left|right]; done.
Qed.

(** Rankings that differ only in the node, as the executor builds them. *)
Definition flat (l : list NodeRanking) : Prop :=
  Forall (fun r => uptime_secs r = 0 /\ reputation_score r = f64_0_5) l.

Lemma rank_le_flat a b :
  uptime_secs a = 0 /\ reputation_score a = f64_0_5 -> uptime_secs b = 0 /\ reputation_score b = f64_0_5 ->
  rank_le a b <-> lex_le (rank_node a) (rank_node b).
Proof. intros [Ha Ha'] [Hb Hb']. unfold rank_le, rank_cmp. rewrite Ha, Ha', Hb, Hb'. by vm_compute. Qed.

Lemma flat_perm l l' : l ≡ₚ l' -> flat l -> flat l'.
Proof. intros Hp. unfold flat. by rewrite Hp. Qed.

Lemma rank_providers_sorted l : flat l -> Sorted lex_le (rank_providers l).
Proof.
  intros Hf. unfold rank_providers. pose proof (Sorted_merge_sort rank_le l) as Hs.
  assert (flat (merge_sort rank_le l)) as Hf' by (eapply flat_perm; [symmetry; apply merge_sort_Permutation|done]).
  induction Hs as [|a l' Hs IH Hhd]; cbn; [constructor|]. inversion Hf' as [|? ? Ha Hl']; subst.
  constructor; [by apply IH|]. destruct Hhd as [|b l'' Hab]; cbn; constructor.
  inversion Hl' as [|? ? Hb _]; subst. by apply rank_le_flat.
Qed.

Lemma rank_providers_perm l : rank_providers l ≡ₚ map rank_node l.
Proof. unfold rank_providers. apply Permutation_map, merge_sort_Permutation. Qed.

Lemma rank_providers_unique l l' : flat l -> flat l' -> l ≡ₚ l' -> rank_providers l = rank_providers l'.
Proof.
  intros Hf Hf' Hp. apply (Sorted_unique lex_le); [by apply rank_providers_sorted..|].
  rewrite !rank_providers_perm. by rewrite Hp.
Qed.

(** The rankings the executor gives to a list of nodes. *)
Definition flat_rankings (nodes : list NodeId) : list NodeRanking := map (fun n => mkRanking n 0 f64_0_5) nodes.

Lemma flat_rankings_flat l : flat (flat_rankings l).
Proof. by apply Forall_fmap, list.Forall_forall. Qed.

Lemma rank_nodes_flat l : map rank_node (flat_rankings l) = l.
Proof. unfold flat_rankings. rewrite map_map. apply map_id. Qed.

Lemma lex_le_refl a : lex_le a a.
Proof. unfold lex_le. by rewrite (proj2 (lex_cmp_eq _ _) eq_refl). Qed.

(** Keeping the better of two. *)
Lemma better_le b x :
  let b' := match rank_cmp b x with Gt => x | _ => b end in rank_le b' b /\ rank_le b' x /\ (b' = b \/ b' = x).
Proof.
  cbn zeta. pose proof (rank_cmp_antisym b x) as Has.
  assert (forall a, rank_le a a) as Hrefl.
  { intros a Hgt. pose proof (rank_cmp_antisym a a) as Hh. by rewrite Hgt in Hh. }
  unfold rank_le in *. destruct (rank_cmp b x) eqn:E; split_and!; auto; try congruence; by rewrite Has.
Qed.

(** [min_by] returns a least element of what it has seen. *)
Lemma min_by_least l b :
  uptime_secs b = 0 /\ reputation_score b = f64_0_5 ->
  rank_node (min_by b (flat_rankings l)) ∈ rank_node b :: l /\
  Forall (lex_le (rank_node (min_by b (flat_rankings l)))) (rank_node b :: l).
Proof.
  revert b. induction l as [|x l IH]; intros b Hb; cbn [flat_rankings map min_by].
  { split; [apply list_elem_of_here|]. apply Forall_singleton, lex_le_refl. }
  fold (flat_rankings l). set (x' := mkRanking x 0 f64_0_5). pose proof (better_le b x') as Hbet. cbn zeta in Hbet.
  set (b' := match rank_cmp b x' with Gt => x' | _ => b end) in *. destruct Hbet as (H1 & H2 & H3).
  assert (uptime_secs b' = 0 /\ reputation_score b' = f64_0_5) as Hb' by (by destruct H3 as [-> | ->]).
  apply rank_le_flat in H1; [|done|done]. apply rank_le_flat in H2; [|done|done].
  destruct (IH b' Hb') as [IH1 IH2]. inversion IH2 as [|? ? IHb IHl]; subst. split.
  - apply elem_of_cons in IH1 as [->|?]; [destruct H3 as [-> | ->]|].
    + apply list_elem_of_here.
    + apply list_elem_of_further, list_elem_of_here.
    + by apply list_elem_of_further, list_elem_of_further.
  - constructor; [by etransitivity|]. constructor; [by etransitivity|done].
Qed.

Lemma sorted_head w h R : Sorted lex_le (h :: R) -> w ∈ h :: R -> Forall (lex_le w) (h :: R) -> w = h.
Proof.
  intros Hs Hin Hall. apply (anti_symm lex_le); [by inversion Hall|].
  apply Sorted_StronglySorted in Hs; [|apply _]. inversion Hs as [|? ? _ HR]; subst.
  apply elem_of_cons in Hin as [->|Hin]; [apply lex_le_refl|]. by apply (proj1 (list.Forall_forall _ _) HR).
Qed.

Lemma select_is_head nodes :
  select_coordinator (flat_rankings nodes) = head (rank_providers (flat_rankings nodes)).
Proof.
  destruct nodes as [|n nodes]; [done|].
  pose proof (rank_providers_sorted _ (flat_rankings_flat (n :: nodes))) as Hs.
  pose proof (rank_providers_perm (flat_rankings (n :: nodes))) as Hperm. rewrite rank_nodes_flat in Hperm.
  destruct (min_by_least nodes (mkRanking n 0 f64_0_5)) as [Hin Hall]; [done|]. cbn [rank_node] in Hin, Hall.
  cbn [flat_rankings map select_coordinator]. fold (flat_rankings nodes). fold (flat_rankings (n :: nodes)) in *.
  change (mkRanking n 0 f64_0_5 :: flat_rankings nodes) with (flat_rankings (n :: nodes)).
  rewrite <- Hperm in Hin, Hall. destruct (rank_providers _) as [|h R]; [by apply not_elem_of_nil in Hin|].
  cbn. f_equal. by apply (sorted_head _ h R).
Qed.

(** On the rankings the executor builds, the election does not depend on the order
    in which a node lists the holders: nodes with the same holders compute the same
    ranking, the coordinator is its head, and a deficit of [d] elects [d] of them
    or all. *)
Theorem election_agreement nodes nodes' (deficit : nat) :
  nodes ≡ₚ nodes' ->
  rank_providers (flat_rankings nodes) = rank_providers (flat_rankings nodes') /\
  select_coordinator (flat_rankings nodes) = head (rank_providers (flat_rankings nodes)) /\
  length (take deficit (rank_providers (flat_rankings nodes))) = Nat.min deficit (length nodes).
Proof.
  intros Hp. split_and!.
  - apply rank_providers_unique; [apply flat_rankings_flat..|]. by apply Permutation_map.
  - apply select_is_head.
  - rewrite length_take, rank_providers_perm. by rewrite rank_nodes_flat.
Qed.

Lemma election_agreement_witness :
  rank_providers (flat_rankings [[3]; [1]; [2]]) = rank_providers (flat_rankings [[2]; [3]; [1]]).
Proof.
  apply (election_agreement [[3]; [1]; [2]] [[2]; [3]; [1]] 2).
  apply (Permutation_trans (l' := [[3]; [2]; [1]])); [apply perm_skip, perm_swap|apply perm_swap].
Defined.

(** ** Validity of repairs *)

Lemma choose_elem rng l x : choose rng l = Some x -> x ∈ l.
Proof. destruct l; [done|]. apply list_elem_of_lookup_2. Qed.

Lemma target_alive t alive self c rng target :
  select_distribution_target t alive self c rng = Ok target -> target ∈ alive /\ target <> self.
Proof.
  unfold select_distribution_target. destruct (choose rng (map fst _)) as [x|] eqn:E1.
  { intros [= <-]. apply choose_elem, list_elem_of_In, in_map_iff in E1 as ([n k] & <- & Hin).
    apply filter_In in Hin as [_ Hf]. bool_to_prop. cbn in *. split; [done|].
    destruct (bool_decide (n = self)) eqn:E; [done|]. by bool_to_prop. }
  destruct (choose rng (List.filter _ alive)) as [x|] eqn:E2.
  { intros [= <-]. apply choose_elem, list_elem_of_In, filter_In in E2 as [Hin Hf]. apply list_elem_of_In in Hin.
    apply andb_true_iff in Hf as [_ Hf]. split; [done|].
    destruct (bool_decide (x = self)) eqn:E; [done|]. by bool_to_prop. }
  destruct (choose rng (List.filter (fun id => negb (bool_decide (id = self))) alive)) as [x|] eqn:E3; [|done].
  intros [= <-]. apply choose_elem, list_elem_of_In, filter_In in E3 as [Hin Hf]. apply list_elem_of_In in Hin.
  split; [done|]. destruct (bool_decide (x = self)) eqn:E; [done|]. by bool_to_prop.
Qed.

Section RepairFacts.
Context `{BL : Blake3Laws} {St IO L : Type} {CS : ContentStore St IO} {CSL : ContentStoreLaws St IO}.
Context {PL : PieceCidLookup L} {PC : Postcard CodedPiece}.

(** Every piece a list of piece CIDs can decode to satisfies [P]. *)
Definition local_pieces_ok (M : gmap Cid (list Z)) (P : CodedPiece -> Prop) (pcids : list Cid) : Prop :=
  Forall (fun pc => cid_wf pc /\ forall b p, M !! pc = Some b -> from_bytes b = Some p -> P p) pcids.

Lemma load_loop_ok s M P io pcids pieces :
  cs_repr s M -> local_pieces_ok M P pcids -> Forall P pieces -> Forall P (load_loop s io pcids pieces).2.
Proof.
  intros Hs Hl. revert s io pieces Hs. induction Hl as [|pc pcids [Hwf Hpc] Hl IH]; intros s io pieces Hs Hp; cbn [load_loop]; [done|].
  destruct (2 <=? length pieces)%nat; [done|].
  pose proof (cs_get_spec s M pc (io 0%nat) Hs Hwf) as Hg. destruct (cs_get s pc (io 0%nat)) as [s' [o|e]].
  - destruct Hg as [-> Hs']. apply IH; [done|]. destruct (M !! pc) as [b|] eqn:E; [|done].
    destruct (from_bytes b) as [p|] eqn:Ep; [|done]. apply Forall_app_2; [done|]. apply Forall_singleton. by apply (Hpc b).
  - by apply IH.
Qed.

Lemma load_loop_repr s M io pcids pieces :
  cs_repr s M -> Forall cid_wf pcids -> cs_repr (load_loop s io pcids pieces).1 M.
Proof.
  intros Hs Hl. revert s io pieces Hs. induction Hl as [|pc pcids Hwf Hl IH]; intros s io pieces Hs; cbn [load_loop]; [done|].
  destruct (2 <=? length pieces)%nat; [done|].
  pose proof (cs_get_spec s M pc (io 0%nat) Hs Hwf) as Hg. destruct (cs_get s pc (io 0%nat)) as [s' [o|e]]; apply IH; [by destruct Hg|done].
Qed.

(** A repair only reads the store. *)
Lemma execute_repair_repr (r : RepairState) t alive self (lookup : L) req io draws rng send_ok M :
  cs_repr (rep_store r) M ->
  (forall pcids, piece_cids lookup (request_cid req) = Some pcids -> Forall cid_wf pcids) ->
  cs_repr (rep_store (execute_repair r t alive self lookup req io draws rng send_ok).1.1) M.
Proof.
  intros Hs Hwf. unfold execute_repair. destruct (_ =? 0); [done|]. destruct (repair_rankings _ _ _ _); [done|].
  destruct (negb _); [done|]. unfold load_local_pieces. destruct (piece_cids _ _) as [pcids|]; [|done].
  pose proof (load_loop_repr (rep_store r) M io pcids [] Hs (Hwf pcids eq_refl)) as Hl.
  destruct (load_loop _ _ _ _) as [s pieces]. cbn [fst] in Hl. destruct (_ <? 2)%nat; [done|].
  destruct (engine_recode _ _ _) as [m [p|e]]; [|done]. cbn.
  destruct (select_distribution_target _ _ _ _ _); [|done]. by destruct send_ok.
Qed.

(** A piece that the store of [M] holds. *)
Definition held_piece (M : gmap Cid (list Z)) (p : CodedPiece) : Prop := exists pc b, M !! pc = Some b /\ from_bytes b = Some p.

(** [q] is the sum of two pieces, each with a coefficient that is not zero. *)
Definition mixes (k n : nat) (q p1 p2 : CodedPiece) : Prop :=
  exists s1 s2, 1 <= s1 <= 255 /\ 1 <= s2 <= 255 /\
    coding_vector q = combine k [coding_vector p1; coding_vector p2] [s1; s2] /\ data q = combine n [data p1; data p2] [s1; s2].

Lemma load_loop_length s io pcids pieces : (length pieces <= 2)%nat -> (length (load_loop s io pcids pieces).2 <= 2)%nat.
Proof.
  revert s io pieces. induction pcids as [|pc pcids IH]; intros s io pieces Hl; cbn [load_loop]; [done|].
  destruct (2 <=? length pieces)%nat eqn:E; [done|]. apply Nat.leb_gt in E. destruct (cs_get s pc (io 0%nat)) as [s' [[b|]|e]]; apply IH; try done.
  destruct (from_bytes b); [|done]. rewrite length_app. cbn. lia.
Qed.

(** Recoding two pieces. *)
Lemma recode_mixes X n p1 p2 (draws : nat -> Z * Z) r :
  Forall (vec n) X -> codes_for X n p1 -> (forall i, draw_ok (draws i)) -> recode [p1; p2] (map draws (seq 0 2)) = Ok r -> mixes (length X) n r p1 p2.
Proof.
  intros HX Hp Hd Hr. pose proof (recode_cases [p1; p2] (map draws (seq 0 2))) as Hc. rewrite Hr in Hc. destruct Hc as (_ & _ & p0 & [= <-] & ->).
  destruct (codes_vecs X n p1 HX Hp) as [[Hk _] [Hn _]]. destruct (draw_coeff_byte _ (Hd 0%nat)) as [Hb0 Hz0]. destruct (draw_coeff_byte _ (Hd 1%nat)) as [Hb1 Hz1].
  unfold is_byte in *. exists (draw_coeff (draws 0%nat)), (draw_coeff (draws 1%nat)). cbn [coding_vector data CodedPiece_new seq map]. rewrite Hk, Hn. split_and!; [lia..|done|done].
Qed.

(** Repair keeps pieces valid: if the local pieces of a CID code for [X] and carry
    their tags, then whatever a repair sends is a single piece that codes for [X],
    mixes two local pieces and passes both integrity checks; it goes to an alive peer
    other than the sender, and only an elected node sends. *)
Theorem repair_sends_valid_piece (r : RepairState) t alive self (lookup : L) req io draws rng send_ok r' target msg res X n M :
  Forall (vec n) X -> (forall i, draw_ok (draws i)) -> cs_repr (rep_store r) M ->
  (forall pcids, piece_cids lookup (request_cid req) = Some pcids ->
     local_pieces_ok M (fun p => codes_for X n p /\ tagged p) pcids) ->
  execute_repair r t alive self lookup req io draws rng send_ok = (r', Some (target, msg), res) ->
  res = Ok tt /\ target ∈ alive /\ target <> self /\
  self ∈ elected_nodes t alive self (request_cid req) (target_count req - request_available req) /\
  exists p p1 p2, msg = PieceResponse [p] (next_request_id r) /\
    codes_for X n p /\ verify_mac p = true /\ verify_piece_id p = true /\
    held_piece M p1 /\ held_piece M p2 /\ codes_for X n p1 /\ codes_for X n p2 /\ mixes (length X) n p p1 p2.
Proof.
  intros HX Hd Hs Hlocal. unfold execute_repair. set (c := request_cid req) in *.
  destruct (_ =? 0) eqn:Edef; [done|]. bool_to_prop. rewrite Z.max_r by lia.
  destruct (repair_rankings t alive self c) as [|rk rks]; [done|].
  destruct (bool_decide (self ∈ _)) eqn:Eel; cbn [negb]; [|done]. bool_to_prop.
  unfold load_local_pieces. destruct (piece_cids lookup c) as [pcids|] eqn:El; [|done].
  assert (local_pieces_ok M (fun p => (codes_for X n p /\ tagged p) /\ held_piece M p) pcids) as Hl.
  { eapply Forall_impl; [exact (Hlocal pcids eq_refl)|]. intros pc [Hwf Hpc]. split; [done|]. intros b p Hb Hp. split; [by apply (Hpc b)|by exists pc, b]. }
  pose proof (load_loop_ok (rep_store r) M _ io pcids [] Hs Hl (Forall_nil_2 _)) as Hps.
  pose proof (load_loop_length (rep_store r) io pcids [] ltac:(cbn; lia)) as Hlen.
  destruct (load_loop (rep_store r) io pcids []) as [s pieces]. cbn [snd] in Hps, Hlen.
  destruct (length pieces <? 2)%nat eqn:E2; [done|]. apply Nat.ltb_ge in E2. destruct pieces as [|p1 [|p2 [|p3 pieces]]]; cbn in E2, Hlen; try lia.
  unfold engine_recode. destruct (recode [p1; p2] _) as [p|e] eqn:Er; [|done]. cbn [rep_store rep_metrics next_request_id].
  destruct (select_distribution_target t alive self c rng) as [tg|e] eqn:Et; [|done].
  destruct send_ok; [|done]. intros [= <- <- <- <-]. apply target_alive in Et as [? ?]. split_and!; try done.
  assert (Forall draw_ok (map draws (seq 0 2))) as Hds by (apply Forall_map, Forall_true; exact Hd).
  apply Forall_and in Hps as [[Hcodes Htag]%Forall_and Hheld]. exists p, p1, p2.
  pose proof (Forall_inv Hcodes) as Hc1. pose proof (Forall_inv (Forall_inv_tail Hcodes)) as Hc2. split_and!; try done.
  - by eapply (recode_codes X n [p1; p2]).
  - apply tagged_verifies. apply (recode_tagged (length X) n [p1; p2] (map draws (seq 0 2))); try done.
    eapply Forall_mono; [|exact Hcodes]. intros q. by apply codes_vecs.
  - by eapply recode_piece_id.
  - exact (Forall_inv Hheld).
  - exact (Forall_inv (Forall_inv_tail Hheld)).
  - by apply (recode_mixes X n p1 p2 draws).
Qed.

End RepairFacts.

(** ** Concrete run *)

Definition demo_p (i : nat) : CodedPiece := default (mkPiece [] [] [] [] []) (demo_pieces !! i).

#[export] Instance demo_postcard_piece : Postcard CodedPiece := {|
  to_allocvec _ := None;
  from_bytes b := match b with [0] => Some (demo_p 0) | [1] => Some (demo_p 1) | _ => None end |}.

Definition demo_repair_store : ObjStore := (put (put (store_over ∅ 4) [0] ReadOk WriteOk RenameOk).1 [1] ReadOk WriteOk RenameOk).1.
Definition demo_repair_map : gmap Cid (list Z) := spec_put (spec_put ∅ [0]) [1].
Definition demo_repair : RepairState := mkRepair demo_repair_store metrics_default 5.
Definition demo_lookup : CodedPieceIndex :=
  piece_index_insert piece_index_new (enc_cid demo_encoder) [cid_from_data [9]; cid_from_data [0]; cid_from_data [1]].
Definition demo_holders : PieceTracker :=
  foldl tracker_exec tracker_new
    [TRecord (enc_cid demo_encoder) (mkHolder [7] 2 0); TRecord (enc_cid demo_encoder) (mkHolder [9] 1 0)].
Definition demo_request : RepairRequest := Critical (enc_cid demo_encoder) 2 3.
Definition demo_draws (i : nat) : Z * Z := match i with O => (3, 1) | _ => (0, 8) end.
Lemma demo_draws_ok i : draw_ok (demo_draws i).
Proof. destruct i; split; unfold is_byte; cbn; lia. Qed.
Definition demo_execute :=
  execute_repair demo_repair demo_holders [[9]] [7] demo_lookup demo_request
    (fun _ => (WriteOk, RenameOk, ReadOk)) demo_draws 0 true.

Lemma demo_repair_repr : store_repr demo_repair_store demo_repair_map.
Proof.
  pose proof (put_repr (store_over ∅ 4) ∅ [0] WriteOk RenameOk (new_repr 4)) as H1.
  destruct (put (store_over ∅ 4) [0] ReadOk WriteOk RenameOk) as [s1 r1] eqn:E1.
  unfold demo_repair_store. rewrite E1. destruct r1 as [c1|e1]; [|destruct H1 as [Hn _]; exfalso; by apply Hn].
  destruct H1 as [_ H1]. cbn [fst]. pose proof (put_repr s1 _ [1] WriteOk RenameOk H1) as H2.
  destruct (put s1 [1] ReadOk WriteOk RenameOk) as [s2 [c2|e2]]; [by destruct H2|destruct H2 as [Hn _]; exfalso; by apply Hn].
Qed.

Lemma demo_p_ok i : (i < 3)%nat ->
  codes_for (original_pieces demo_encoder) 2 (demo_p i) /\ tagged (demo_p i).
Proof.
  intros Hi. assert (Forall (vec 2) (original_pieces demo_encoder)) as HX by by_compute.
  assert (circulates demo_encoder (demo_p i)) as Hc.
  { apply demo_pieces_circulate. unfold demo_p. destruct (lookup_lt_is_Some_2 demo_pieces i Hi) as [p Hp].
    rewrite Hp. by eapply list_elem_of_lookup_2. }
  split; [by apply (circulates_codes demo_encoder)|by apply (circulates_tagged demo_encoder)].
Qed.

Lemma demo_local_ok : local_pieces_ok demo_repair_map
  (fun p => codes_for (original_pieces demo_encoder) 2 p /\ tagged p)
  [cid_from_data [9]; cid_from_data [0]; cid_from_data [1]].
Proof.
  assert (forall d o, demo_repair_map !! cid_from_data d = o -> forall b, demo_repair_map !! cid_from_data d = Some b -> o = Some b)
    as Heq by congruence.
  repeat (apply Forall_cons; split; [split; [by_compute|]|]); [..|apply Forall_nil_2]; intros b p Hb Hp.
  - apply (Heq [9] None ltac:(vm_compute; reflexivity)) in Hb. done.
  - apply (Heq [0] (Some [0]) ltac:(vm_compute; reflexivity)) in Hb as [= <-].
    assert (demo_p 0 = p) as <- by (change (Some (demo_p 0) = Some p) in Hp; congruence). apply demo_p_ok. lia.
  - apply (Heq [1] (Some [1]) ltac:(vm_compute; reflexivity)) in Hb as [= <-].
    assert (demo_p 1 = p) as <- by (change (Some (demo_p 1) = Some p) in Hp; congruence). apply demo_p_ok. lia.
Qed.

Lemma demo_execute_sends : (match demo_execute.1.2 with Some _ => true | None => false end) = true.
Proof. vm_compute. reflexivity. Qed.

Lemma repair_sends_valid_piece_witness :
  exists p, demo_execute.1.2 = Some ([9], PieceResponse [p] 5) /\ verify_mac p = true /\ verify_piece_id p = true.
Proof.
  pose proof demo_execute_sends as Hsend.
  destruct demo_execute as [[r' [[target msg]|]] res] eqn:E; cbn in Hsend; [|discriminate Hsend]. clear Hsend.
  destruct (repair_sends_valid_piece demo_repair demo_holders [[9]] [7] demo_lookup demo_request
    (fun _ => (WriteOk, RenameOk, ReadOk)) demo_draws 0 true r' target msg res
    (original_pieces demo_encoder) 2 demo_repair_map) as (_ & Ht & _ & _ & p & p1 & p2 & Hmsg & _ & Hmac & Hid & _).
  - by_compute.
  - exact demo_draws_ok.
  - apply demo_repair_repr.
  - intros pcids Hp. assert (pcids = [cid_from_data [9]; cid_from_data [0]; cid_from_data [1]]) as -> by
      (vm_compute in Hp; vm_compute; congruence). apply demo_local_ok.
  - exact E.
  - exists p. apply list_elem_of_singleton in Ht. cbn. rewrite Ht, Hmsg. split; [reflexivity|split; assumption].
Defined.
