(* ===== verification/Sql.v ===== *)
(** * CraftSQL (crates/craftec-sql/src/database.rs, commit.rs, rpc_write.rs, schema.rs)

    The single-writer SQL database on the CID-VFS.  [libsql] and Ed25519 are
    parameters.  A mutation runs in libsql, its database file is cut into pages,
    written through the VFS and committed; signed writes from other nodes are
    checked for signature, ownership and expected root first.  Tasks that handle
    signed writes interleave between the checks and the locked execution. *)
From Stdlib Require Import ZArith Lia Ascii.
From stdpp Require Import base list list_numbers numbers strings gmap relations.
From S2P Require Import Prelude Types Instances F64 External ObjStore PageIndex Wire Vfs.

Local Open Scope Z_scope.

(** ** External code *)

(** [ed25519_dalek]: parsing a verifying key and verifying a signature. *)
Class Ed25519 : Type := {
  verifying_key_ok : NodeId -> bool;
  ed_verify : NodeId -> list Z -> list Z -> bool;
}.

(** [libsql::Value] *)
Inductive LibsqlValue : Type :=
| LvNull
| LvInteger (i : Z)
| LvReal (x : f64)
| LvText (s : list Z)
| LvBlob (b : list Z).

(** [libsql]: an open database, the bytes of its file, a statement that returns
    rows and one that does not. *)
Class Libsql : Type := {
  sqldb : Type;
  sql_open : option sqldb;
  sql_file : sqldb -> list Z;
  sql_execute : sqldb -> list Z -> sqldb * option string;
  sql_query : sqldb -> list Z -> sqldb * result (list (list LibsqlValue)) string;
}.

(** A string literal as its UTF-8 bytes. *)
Fixpoint utf8 (s : string) : list Z :=
  match s with
  | EmptyString => []
  | String c s => Z.of_nat (nat_of_ascii c) :: utf8 s
  end.

(** ** Data *)

Inductive SqlError : Type :=
| UnauthorizedWriter (writer owner : NodeId)
| InvalidSignature (writer : NodeId)
| CasConflict (expected actual : Cid)
| SqlVfsError (e : VfsError)
| SqlSyntaxError (msg : string)
| MigrationFailed (cause : option SqlError)
| NotInitialised
| AlreadyExists (owner : NodeId)
| SqlSerializationError (msg : string)
| LibsqlError (msg : string)
| SqlIo.

Inductive ColumnValue : Type :=
| ColNull
| ColInteger (i : Z)
| ColReal (x : f64)
| ColText (s : list Z)
| ColBlob (b : list Z).

Definition libsql_value_to_column (v : LibsqlValue) : ColumnValue :=
  match v with
  | LvNull => ColNull
  | LvInteger n => ColInteger n
  | LvReal r => ColReal r
  | LvText s => ColText s
  | LvBlob b => ColBlob b
  end.

Record SignedWrite : Type := mkSigned {
  sw_writer : NodeId;
  sw_sql : list Z;
  sw_expected_root : option Cid;
  sw_signature : list Z;
}.

Record CommitContext : Type := mkCtx {
  ctx_writer : NodeId;
  ctx_sql : list Z;
  ctx_expected_root : option Cid;
}.

(** ** Commit checks *)

Definition check_cas (ctx : CommitContext) (current_root : option Cid) : result unit SqlError :=
  match ctx_expected_root ctx, current_root with
  | Some expected, Some current =>
      if negb (bool_decide (expected = current)) then Err (CasConflict expected current) else Ok tt
  | _, _ => Ok tt
  end.

Definition check_ownership (ctx : CommitContext) (owner : NodeId) : result unit SqlError :=
  if negb (bool_decide (ctx_writer ctx = owner)) then Err (UnauthorizedWriter (ctx_writer ctx) owner)
  else Ok tt.

(** ** Signatures *)

Definition build_signed_payload (writer : NodeId) (sql : list Z) (root : option Cid) : list Z :=
  to_le_bytes 4 (wrap 32 (Z.of_nat (length writer))) ++ writer ++
  to_le_bytes 4 (wrap 32 (Z.of_nat (length sql))) ++ sql ++
  match root with
  | None => [0]
  | Some c => 1 :: c
  end.

(** Leading characters of Unicode [White_Space], in UTF-8. *)
Definition trim_one (s : list Z) : option (list Z) :=
  match s with
  | b :: s1 =>
      if ((9 <=? b) && (b <=? 13)) || (b =? 32) then Some s1
      else match s1 with
      | b1 :: s2 =>
          if (b =? 194) && ((b1 =? 133) || (b1 =? 160)) then Some s2
          else match s2 with
          | b2 :: s3 =>
              if ((b =? 225) && (b1 =? 154) && (b2 =? 128)) ||
                 ((b =? 226) && (b1 =? 128) &&
                    (((128 <=? b2) && (b2 <=? 138)) || (b2 =? 168) || (b2 =? 169) || (b2 =? 175))) ||
                 ((b =? 226) && (b1 =? 129) && (b2 =? 159)) ||
                 ((b =? 227) && (b1 =? 128) && (b2 =? 128))
              then Some s3 else None
          | [] => None
          end
      | [] => None
      end
  | [] => None
  end.

Fixpoint trim_start_loop (fuel : nat) (s : list Z) : list Z :=
  match fuel, trim_one s with
  | S fuel, Some s => trim_start_loop fuel s
  | _, _ => s
  end.

(** [s.trim().is_empty()]: nothing is left once the leading white space is gone;
    each round removes a byte at least, so [length s] rounds are enough. *)
Definition trimmed_is_empty (s : list Z) : bool := (length (trim_start_loop (length s) s) =? 0)%nat.

Definition validate_migration_sql (migration_sql : list Z) : result unit SqlError :=
  if trimmed_is_empty migration_sql then Err (MigrationFailed None) else Ok tt.

Section Sql.
Context `{B3 : Blake3} `{LRU : Lru (Cid * Z) (list Z)} `{ED : Ed25519} `{LS : Libsql}.
Context {St IO : Type} `{CS : !ContentStore St IO}.
Local Abbreviation Vfs := (CidVfs (St := St)) (only parsing).

(** [identity::verify] *)
Definition verify (msg sig : list Z) (node_id : NodeId) : bool :=
  if verifying_key_ok node_id then ed_verify node_id msg sig else false.

Definition verify_signature (msg : SignedWrite) : result unit SqlError :=
  let signed_payload := build_signed_payload (sw_writer msg) (sw_sql msg) (sw_expected_root msg) in
  if negb (verify signed_payload (sw_signature msg) (sw_writer msg)) then Err (InvalidSignature (sw_writer msg))
  else Ok tt.

(** ** The database *)

Record CraftDatabase : Type := mkDb {
  db_id : Cid;
  owner : NodeId;
  db_vfs : Vfs;
  root_cid : Cid;
  libsql_db : sqldb;
  db_has_sender : bool;
  page_committed : list (Cid * Z * Cid);
}.

Definition with_libsql (db : CraftDatabase) (l : sqldb) : CraftDatabase :=
  mkDb (db_id db) (owner db) (db_vfs db) (root_cid db) l (db_has_sender db) (page_committed db).
Definition with_vfs (db : CraftDatabase) (v : Vfs) : CraftDatabase :=
  mkDb (db_id db) (owner db) v (root_cid db) (libsql_db db) (db_has_sender db) (page_committed db).

Definition db_set_event_sender (db : CraftDatabase) : CraftDatabase :=
  mkDb (db_id db) (owner db) (db_vfs db) (root_cid db) (libsql_db db) true (page_committed db).

(** What the environment contributes to one synchronisation: whether the database
    file could be read, the hash map's iteration order, the store's outcomes. *)
Record sync_io : Type := mkSync {
  read_ok : bool;
  sync_order : list (Z * list Z) -> list (Z * list Z);
  sync_store_io : nat -> IO;
}.

(** [page[..chunk.len()].copy_from_slice(chunk)] on a zeroed page. *)
Definition pad_page (page_size : nat) (chunk : list Z) : list Z :=
  chunk ++ replicate (page_size - length chunk) 0.

Fixpoint write_pages (v : Vfs) (i : Z) (pages : list (list Z)) : Vfs * result unit VfsError :=
  match pages with
  | [] => (v, Ok tt)
  | chunk :: pages =>
      match write_page v (wrap 32 i) (pad_page (page_size v) chunk) with
      | (v, Err e) => (v, Err e)
      | (v, Ok _) => write_pages v (i + 1) pages
      end
  end.

Definition sync_pages_to_vfs (file : list Z) (v : Vfs) (x : sync_io) : Vfs * result Cid SqlError :=
  if negb (read_ok x) then (v, Err SqlIo)
  else
    match write_pages v 0 (chunks (page_size v) file) with
    | (v, Err e) => (v, Err (SqlVfsError e))
    | (v, Ok _) =>
        match commit v (sync_order x) (sync_store_io x) with
        | (v, Err e) => (v, Err (SqlVfsError e))
        | (v, Ok root) => (v, Ok root)
        end
    end.

(** The statements [create] runs, with those sent through [query] marked. *)
Definition setup_statements : list (bool * list Z) :=
  [(true, utf8 "PRAGMA page_size = 16384"); (true, utf8 "PRAGMA journal_mode = DELETE");
   (true, utf8 "PRAGMA busy_timeout = 5000");
   (false, utf8 "CREATE TABLE IF NOT EXISTS _craftec_meta (key TEXT PRIMARY KEY, value TEXT)");
   (false, utf8 "INSERT OR REPLACE INTO _craftec_meta VALUES ('version', '1')");
   (true, utf8 "PRAGMA busy_timeout = 5000")].

Fixpoint run_setup (l : sqldb) (stmts : list (bool * list Z)) : result sqldb SqlError :=
  match stmts with
  | [] => Ok l
  | (true, s) :: stmts =>
      match sql_query l s with
      | (_, Err msg) => Err (LibsqlError msg)
      | (l, Ok _) => run_setup l stmts
      end
  | (false, s) :: stmts =>
      match sql_execute l s with
      | (_, Some msg) => Err (LibsqlError msg)
      | (l, None) => run_setup l stmts
      end
  end.

(** [create]; [dir_ok] is the outcome of [create_dir_all]. *)
Definition db_create (owner : NodeId) (v : Vfs) (dir_ok : bool) (x : sync_io) : result CraftDatabase SqlError :=
  let db_id := cid_from_data owner in
  if negb dir_ok then Err SqlIo
  else match sql_open with
  | None => Err (LibsqlError "open")
  | Some l =>
      match run_setup l setup_statements with
      | Err e => Err e
      | Ok l =>
          match sync_pages_to_vfs (sql_file l) v x with
          | (_, Err e) => Err e
          | (v, Ok root) => Ok (mkDb db_id owner v root l false [])
          end
      end
  end.

Definition execute (db : CraftDatabase) (sql : list Z) (writer : NodeId) (x : sync_io)
    : CraftDatabase * result unit SqlError :=
  match check_ownership (mkCtx writer sql None) (owner db) with
  | Err e => (db, Err e)
  | Ok _ =>
      match sql_execute (libsql_db db) sql with
      | (l, Some msg) => (with_libsql db l, Err (SqlSyntaxError msg))
      | (l, None) =>
          match sync_pages_to_vfs (sql_file l) (db_vfs db) x with
          | (v, Err e) => (with_vfs (with_libsql db l) v, Err e)
          | (v, Ok new_root) =>
              (mkDb (db_id db) (owner db) v new_root l (db_has_sender db)
                 (if db_has_sender db then page_committed db ++ [(db_id db, 0, new_root)] else page_committed db),
               Ok tt)
          end
      end
  end.

Definition query (db : CraftDatabase) (sql : list Z) : CraftDatabase * result (list (list ColumnValue)) SqlError :=
  match snapshot (db_vfs db) with
  | Err e => (db, Err (SqlVfsError e))
  | Ok _ =>
      match sql_query (libsql_db db) sql with
      | (l, Err msg) => (with_libsql db l, Err (SqlSyntaxError msg))
      | (l, Ok rows) => (with_libsql db l, Ok (map (map libsql_value_to_column) rows))
      end
  end.

Definition migrate (db : CraftDatabase) (who : NodeId) (migration_sql : list Z) (x : sync_io)
    : CraftDatabase * result unit SqlError :=
  match validate_migration_sql migration_sql with
  | Err e => (db, Err e)
  | Ok _ =>
      match execute db migration_sql who x with
      | (db, Err (UnauthorizedWriter w o)) => (db, Err (UnauthorizedWriter w o))
      | (db, Err other) => (db, Err (MigrationFailed (Some other)))
      | (db, Ok _) => (db, Ok tt)
      end
  end.

(** ** Signed writes *)

(** Steps 1 to 3 of [handle_signed_write]. *)
Definition write_checks (db : CraftDatabase) (msg : SignedWrite) : result unit SqlError :=
  match verify_signature msg with
  | Err e => Err e
  | Ok _ =>
      let ctx := mkCtx (sw_writer msg) (sw_sql msg) (sw_expected_root msg) in
      match check_ownership ctx (owner db) with
      | Err e => Err e
      | Ok _ => check_cas ctx (Some (root_cid db))
      end
  end.

Definition handle_signed_write (db : CraftDatabase) (msg : SignedWrite) (x : sync_io)
    : CraftDatabase * result Cid SqlError :=
  match write_checks db msg with
  | Err e => (db, Err e)
  | Ok _ =>
      match execute db (sw_sql msg) (sw_writer msg) x with
      | (db, Err e) => (db, Err e)
      | (db, Ok _) => (db, Ok (root_cid db))
      end
  end.

(** ** Interleaved handlers

    The checks read the root under a read lock, the execution holds the write
    connection's mutex, and the returned root is read after its release. *)

Inductive write_pc : Type :=
| WStart
| WChecked
| WExecuted
| WDone (r : result Cid SqlError).

Record RpcWrites : Type := mkRpc {
  rpc_db : CraftDatabase;
  rpc_tasks : list (SignedWrite * write_pc);
}.

Inductive rpc_step : RpcWrites -> RpcWrites -> Prop :=
| rpc_check s i msg :
    rpc_tasks s !! i = Some (msg, WStart) ->
    rpc_step s (mkRpc (rpc_db s) (<[i := (msg, match write_checks (rpc_db s) msg with
                                               | Ok _ => WChecked
                                               | Err e => WDone (Err e)
                                               end)]> (rpc_tasks s)))
| rpc_execute s i msg x :
    rpc_tasks s !! i = Some (msg, WChecked) ->
    rpc_step s (mkRpc (execute (rpc_db s) (sw_sql msg) (sw_writer msg) x).1
                  (<[i := (msg, match (execute (rpc_db s) (sw_sql msg) (sw_writer msg) x).2 with
                                | Ok _ => WExecuted
                                | Err e => WDone (Err e)
                                end)]> (rpc_tasks s)))
| rpc_return s i msg :
    rpc_tasks s !! i = Some (msg, WExecuted) ->
    rpc_step s (mkRpc (rpc_db s) (<[i := (msg, WDone (Ok (root_cid (rpc_db s))))]> (rpc_tasks s))).

End Sql.

(** ** Pages of a file *)

(** The whole file as VFS pages, the last one padded. *)
Definition file_pages (ps : nat) (file : list Z) : list (list Z) := map (pad_page ps) (chunks ps file).

Fixpoint put_pages (m : gmap Z (list Z)) (i : Z) (pages : list (list Z)) : gmap Z (list Z) :=
  match pages with
  | [] => m
  | page :: pages => put_pages (<[i := page]> m) (i + 1) pages
  end.

Lemma put_pages_lookup m i pages k :
  put_pages m i pages !! k =
  if bool_decide (i <= k < i + Z.of_nat (length pages)) then pages !! Z.to_nat (k - i) else m !! k.
Proof.
  revert m i. induction pages as [|page pages IH]; intros m i; cbn [put_pages length].
  { by rewrite bool_decide_false by lia. }
  rewrite IH. destruct (decide (k = i)) as [->|Hne].
  - rewrite bool_decide_false, bool_decide_true by lia. by rewrite Z.sub_diag, lookup_insert_eq.
  - rewrite lookup_insert_ne by done. repeat case_bool_decide; try lia; [|done].
    replace (Z.to_nat (k - i)) with (S (Z.to_nat (k - (i + 1)))) by lia. done.
Qed.

Lemma chunks_aux_sizes {A} fuel n (l : list A) :
  Forall (fun c => (length c <= n)%nat) (chunks_aux fuel n l).
Proof.
  revert l. induction fuel as [|fuel IH]; intros [|x l]; cbn [chunks_aux]; try apply Forall_nil_2.
  apply Forall_cons. split; [rewrite length_take; lia|apply IH].
Qed.

Lemma length_chunks_aux {A} fuel n (l : list A) :
  (0 < n)%nat -> (length l <= fuel)%nat -> (length l <= n * length (chunks_aux fuel n l))%nat /\
  (n * length (chunks_aux fuel n l) < length l + n)%nat.
Proof.
  intros Hn. revert l. induction fuel as [|fuel IH]; intros [|x l] Hl; cbn [chunks_aux length]; try (cbn in *; lia).
  destruct (IH (drop n (x :: l))) as [H1 H2]; [rewrite length_drop; cbn in *; lia|].
  rewrite length_drop in H1, H2. cbn [length] in *. destruct (length (chunks_aux _ _ _)) as [|m]; nia.
Qed.

Lemma pad_page_length ps c : (length c <= ps)%nat -> length (pad_page ps c) = ps.
Proof. intros. unfold pad_page. rewrite length_app, length_replicate. lia. Qed.

Lemma file_pages_aux fuel ps file :
  (0 < ps)%nat -> (length file <= fuel)%nat ->
  take (length file) (concat (map (pad_page ps) (chunks_aux fuel ps file))) = file.
Proof.
  intros Hps. revert file. induction fuel as [|fuel IH]; intros [|b file] Hf; try done; [cbn in Hf; lia|].
  cbn [chunks_aux map concat]. set (l := b :: file) in *. unfold pad_page at 1. rewrite length_take.
  destruct (decide (length l <= ps)%nat).
  - rewrite (take_ge l ps), drop_ge by lia. rewrite Nat.min_r by lia.
    assert (chunks_aux fuel ps (@nil Z) = []) as -> by (by destruct fuel). cbn. by rewrite app_nil_r, take_app_length.
  - rewrite Nat.min_l, Nat.sub_diag, app_nil_r by lia. rewrite take_app, take_take, length_take.
    rewrite Nat.min_r, (Nat.min_l ps (length l)) by lia.
    replace (length l - ps)%nat with (length (drop ps l)) by (rewrite length_drop; lia).
    rewrite IH by (rewrite length_drop; subst l; cbn in *; lia). apply take_drop.
Qed.

(** Putting the pages together gives the file back. *)
Lemma file_pages_concat ps file : (0 < ps)%nat -> take (length file) (concat (file_pages ps file)) = file.
Proof. intros. by apply file_pages_aux. Qed.

Lemma bytes_pad ps c : bytes c -> bytes (pad_page ps c).
Proof. intros. apply bytes_app. split; [done|apply bytes_replicate]. Qed.

Lemma file_pages_wf ps file :
  bytes file -> Forall (fun page => length page = ps /\ bytes page) (file_pages ps file).
Proof.
  intros Hf. apply Forall_map.
  pose proof (chunks_bytes ps file Hf) as Hb.
  pose proof (chunks_aux_sizes (length file) ps file) as Hs. fold (chunks ps file) in Hs.
  induction Hs as [|c l Hc Hs IH]; [by apply Forall_nil_2|]. apply Forall_cons in Hb as [Hb1 Hb2].
  apply Forall_cons. split; [|by apply IH]. cbn. split; [by apply pad_page_length|by apply bytes_pad].
Qed.

(** ** Execution against the VFS's contract *)

Section SqlFacts.
Context `{BL : Blake3Laws} `{LL : LruLaws (Cid * Z) (list Z)} `{ED : Ed25519} `{LS : Libsql}.
Context {St IO : Type} {CS : ContentStore St IO} {CSL : ContentStoreLaws St IO}.

(** The pages pending once the file is written, and the state once committed. *)
Definition written (ps : nat) (A : VfsSpec) (file : list Z) : VfsSpec :=
  mkVfsSpec (committed A) (put_pages (pending A) 0 (file_pages ps file)) (spec_root A) (blobs A).

Definition published (ps : nat) (A : VfsSpec) (file : list Z) : VfsSpec :=
  (spec_exec (IO := unit) ps (written ps A file) (VCommit id (fun _ => tt))).1.

Lemma write_pages_repr v A M i pages :
  vfs_repr v A M -> 0 <= i -> i + Z.of_nat (length pages) <= 2 ^ 32 - 1 ->
  Forall (fun c => bytes c /\ (length c <= page_size v)%nat) pages ->
  exists v', write_pages v i pages = (v', Ok tt) /\ page_size v' = page_size v /\
    vfs_repr v' (mkVfsSpec (committed A) (put_pages (pending A) i (map (pad_page (page_size v)) pages))
                   (spec_root A) (blobs A)) M.
Proof.
  intros HR Hi Hn Hp. revert v A i HR Hi Hn Hp. induction pages as [|c pages IH]; intros v A i HR Hi Hn Hp.
  { exists v. split_and!; [done|done|]. by destruct A. }
  apply Forall_cons in Hp as [[Hb Hl] Hp]. cbn [length] in Hn. cbn [write_pages map put_pages].
  unfold write_page. rewrite pad_page_length, Nat.eqb_refl by done. cbn [negb].
  rewrite wrap_id by (unfold fits; lia).
  set (v1 := set_dirty _ _). set (A1 := mkVfsSpec (committed A) (<[i := pad_page (page_size v) c]> (pending A)) (spec_root A) (blobs A)).
  assert (vfs_repr v1 A1 M) as HR1.
  { pose proof (vr_pending_wf v A M HR) as Hw. pose proof (vr_dirty v A M HR) as Hd.
    destruct HR; split; cbn; try done; [by rewrite Hd|].
    intros q d Hq. apply lookup_insert_Some in Hq as [[<- <-]|[_ Hq]]; [|by apply Hw in Hq].
    split; [lia|by apply bytes_pad]. }
  apply (IH v1 A1 (i + 1) HR1); [lia|lia|done].
Qed.

(** The file's pages are what the commit makes readable. *)
Lemma published_pages ps A file i page :
  file_pages ps file !! i = Some page -> committed (published ps A file) !! Z.of_nat i = Some page.
Proof.
  intros Hi. pose proof (lookup_lt_Some _ _ _ Hi) as Hlt. unfold published. cbn [spec_exec written pending].
  assert (put_pages (pending A) 0 (file_pages ps file) !! Z.of_nat i = Some page) as Hp.
  { rewrite put_pages_lookup, bool_decide_true by lia. by rewrite Z.sub_0_r, Nat2Z.id. }
  case_bool_decide as He; [by rewrite He, lookup_empty in Hp|]. cbn. by rewrite (lookup_union_Some_l _ _ _ _ Hp).
Qed.

(** Other pages are left as they were. *)
Lemma published_rest ps A file p :
  Z.of_nat (length (file_pages ps file)) <= p -> pending A !! p = None -> committed (published ps A file) !! p = committed A !! p.
Proof.
  intros Hp Hn. unfold published. cbn [spec_exec written pending]. case_bool_decide; [by cbn; destruct (spec_root A)|]. cbn.
  apply lookup_union_r. rewrite put_pages_lookup, bool_decide_false by lia. done.
Qed.

Lemma chunks_bounds ps (file : list Z) :
  (0 < ps)%nat -> Z.of_nat (length file) <= Z.of_nat ps * (2 ^ 32 - 2) ->
  Z.of_nat (length (chunks ps file)) <= 2 ^ 32 - 1.
Proof.
  intros Hps Hl. destruct (length_chunks_aux (length file) ps file Hps (le_n _)) as [_ Hc].
  fold (chunks ps file) in Hc. nia.
Qed.

(** [sync_pages_to_vfs] publishes the file, or fails because the file could not be
    read, the store failed, or there was nothing to commit. *)
Lemma sync_pages_repr v A M file x :
  vfs_repr v A M -> (0 < page_size v)%nat -> bytes file ->
  Z.of_nat (length file) <= Z.of_nat (page_size v) * (2 ^ 32 - 2) ->
  (forall l, sync_order x l ≡ₚ l) -> collision_free (blobs (published (page_size v) A file)) ->
  match sync_pages_to_vfs file v x with
  | (v', Ok root) =>
      spec_root (published (page_size v) A file) = Some root /\
      exists M', vfs_repr v' (published (page_size v) A file) M'
  | (v', Err SqlIo) => read_ok x = false /\ v' = v
  | (v', Err e) => (exists e', e = SqlVfsError (StoreError (Some e'))) \/
      e = SqlVfsError NoRootCid /\ file = [] /\ pending A = ∅ /\ spec_root A = None
  end.
Proof.
  intros HR Hps Hb Hl Hord Hcf. unfold sync_pages_to_vfs. destruct (read_ok x) eqn:Er; [|done]. cbn [negb].
  pose proof (chunks_bounds (page_size v) file Hps Hl) as Hn.
  destruct (write_pages_repr v A M 0 (chunks (page_size v) file) HR) as (v1 & -> & Hps1 & HR1); [lia|lia| |].
  { apply Forall_and. split; [|apply chunks_aux_sizes]. apply (Forall_mono (fun c => bytes (pad_page (page_size v) c))).
    { intros c Hc. by apply bytes_app in Hc as [? _]. }
    apply (Forall_map (pad_page (page_size v)) bytes). eapply Forall_mono; [|by apply file_pages_wf]. by intros ? []. }
  pose proof (commit_repr v1 (written (page_size v) A file) M (sync_order x) (sync_store_io x) HR1 Hord) as Hc.
  rewrite Hps1 in Hc. specialize (Hc Hcf). destruct (commit v1 _ _) as [v2 [root|e]].
  - destruct Hc as [Hout HR2]. split; [|exact HR2]. unfold published.
    cbn [spec_exec] in Hout |- *. destruct (bool_decide _); cbn in *; [|by inversion Hout].
    destruct (spec_root A); by inversion Hout.
  - destruct Hc as [[e' ->]|[Hout _]]; [left; by eexists|]. right. cbn [spec_exec] in Hout.
    case_bool_decide as He; [|done]. cbn in Hout, He. destruct (spec_root A); inversion Hout; subst.
    assert (file = []) as ->.
    { destruct file as [|b file]; [done|]. exfalso.
      assert (exists page, file_pages (page_size v) (b :: file) !! 0%nat = Some page) as [page Hp].
      { eexists. unfold file_pages. rewrite list_lookup_fmap. done. }
      assert (put_pages (pending A) 0 (file_pages (page_size v) (b :: file)) !! 0 = Some page) as Hq.
      { rewrite put_pages_lookup, bool_decide_true; [done|]. split; [lia|]. by apply lookup_lt_Some in Hp; lia. }
      by rewrite He in Hq. }
    done.
Qed.

(** ** Persistence *)

(** A database file that libsql can produce: bytes, within SQLite's page limit. *)
Definition file_ok (ps : nat) (file : list Z) : Prop :=
  bytes file /\ Z.of_nat (length file) <= Z.of_nat ps * (2 ^ 32 - 2).

Lemma write_pages_safe v M i pages :
  vfs_safe v M -> 0 <= i -> i + Z.of_nat (length pages) <= 2 ^ 32 - 1 -> Forall bytes pages ->
  vfs_safe (write_pages v i pages).1 M.
Proof.
  intros Hv Hi Hn Hp. revert v i Hv Hi Hn. induction Hp as [|c pages Hc _ IH]; intros v i Hv Hi Hn; [done|].
  cbn [length] in Hn. cbn [write_pages]. unfold write_page. destruct (negb _); [done|]. apply IH; [|lia|lia].
  rewrite wrap_id by (unfold fits; lia). destruct Hv as [Hs Hix Hd]. split; cbn; try done.
  intros q d Hq. apply lookup_insert_Some in Hq as [[<- <-]|[_ Hq]]; [|by apply Hd in Hq].
  split; [lia|by apply bytes_pad].
Qed.

Lemma sync_pages_safe v M file x :
  vfs_safe v M -> (0 < page_size v)%nat -> file_ok (page_size v) file -> (forall l, sync_order x l ≡ₚ l) ->
  exists M', vfs_safe (sync_pages_to_vfs file v x).1 M' /\ grows M M'.
Proof.
  intros Hv Hps [Hb Hlen] Hord. unfold sync_pages_to_vfs. destruct (read_ok x); cbn [negb]; [|by exists M].
  pose proof (chunks_bounds (page_size v) file Hps Hlen) as Hcl.
  assert (vfs_safe (write_pages v 0 (chunks (page_size v) file)).1 M) as Hw.
  { apply write_pages_safe; [done|done|lia|by apply chunks_bytes]. }
  destruct (write_pages v 0 _) as [v1 [[]|e]]; cbn [fst] in *; [|by exists M].
  destruct (vfs_exec_safe v1 M (VCommit (sync_order x) (sync_store_io x)) Hw Hord) as (M' & HM & Hsub).
  cbn [vfs_exec] in HM. exists M'. split; [|done]. by destruct (commit v1 _ _) as [v2 [root|e]].
Qed.

(** Executing a statement never loses a stored object, whatever fails. *)
Lemma execute_safe (db : CraftDatabase (St := St)) M sql writer x :
  vfs_safe (db_vfs db) M -> (0 < page_size (db_vfs db))%nat -> (forall l, file_ok (page_size (db_vfs db)) (sql_file l)) ->
  (forall l, sync_order x l ≡ₚ l) ->
  exists M', vfs_safe (db_vfs (execute db sql writer x).1) M' /\ grows M M'.
Proof.
  intros Hv Hps Hf Hord. unfold execute. destruct (check_ownership _ _); [|by exists M].
  destruct (sql_execute (libsql_db db) sql) as [l [msg|]]; [by exists M|].
  destruct (sync_pages_safe (db_vfs db) M (sql_file l) x Hv Hps (Hf l) Hord) as (M' & HM & Hsub).
  exists M'. split; [|done]. by destruct (sync_pages_to_vfs _ _ _) as [v [root|e]].
Qed.

(** ** Properties *)

(** C13: [execute] on every branch: a stranger's statement is refused and changes
    nothing; a statement libsql rejects leaves the pages and the root alone; after a
    successful one the root names a page map whose first pages, as many as the file
    needs, put together begin with libsql's whole database file, while pages past them
    stay as they were, so that a file that shrank leaves its old last pages behind;
    every other failure is an unreadable file, a failed store, or an empty file over
    an empty database. *)
Theorem execute_publishes_file db A M sql writer x :
  vfs_repr (db_vfs db) A M -> (0 < page_size (db_vfs db))%nat -> (forall l, sync_order x l ≡ₚ l) ->
  let l := (sql_execute (libsql_db db) sql).1 in
  let file := sql_file l in
  let A' := published (page_size (db_vfs db)) A file in
  bytes file -> Z.of_nat (length file) <= Z.of_nat (page_size (db_vfs db)) * (2 ^ 32 - 2) ->
  collision_free (blobs A') ->
  match execute db sql writer x with
  | (db', Ok _) =>
      writer = owner db /\ libsql_db db' = l /\ spec_root A' = Some (root_cid db') /\
      (exists M', vfs_repr (db_vfs db') A' M') /\
      exists pages, take (length file) (concat pages) = file /\ length pages = length (chunks (page_size (db_vfs db)) file) /\
        (forall i page, pages !! i = Some page -> committed A' !! Z.of_nat i = Some page) /\
        (forall p, Z.of_nat (length pages) <= p -> pending A !! p = None -> committed A' !! p = committed A !! p)
  | (db', Err (UnauthorizedWriter w o)) => w = writer /\ o = owner db /\ w <> o /\ db' = db
  | (db', Err (SqlSyntaxError msg)) =>
      writer = owner db /\ (sql_execute (libsql_db db) sql).2 = Some msg /\ db' = with_libsql db l
  | (db', Err e) =>
      root_cid db' = root_cid db /\
      (e = SqlIo /\ read_ok x = false \/ (exists e', e = SqlVfsError (StoreError (Some e'))) \/
       e = SqlVfsError NoRootCid /\ file = [])
  end.
Proof.
  intros HR Hps Hord. cbn zeta. unfold execute, check_ownership. cbn [ctx_writer].
  case_bool_decide as Hw; cbn [negb]; [|done].
  destruct (sql_execute (libsql_db db) sql) as [l [msg|]]; cbn [fst snd]; [done|].
  intros Hb Hl Hcf. pose proof (sync_pages_repr (db_vfs db) A M (sql_file l) x HR Hps Hb Hl Hord Hcf) as Hs.
  destruct (sync_pages_to_vfs (sql_file l) (db_vfs db) x) as [v [root|e]].
  - destruct Hs as [Hroot HR']. cbn. split_and!; try done. exists (file_pages (page_size (db_vfs db)) (sql_file l)).
    split_and!; [by apply file_pages_concat|apply length_map|intros i page; apply published_pages|intros p; apply published_rest].
  - destruct e; try (exfalso; by destruct Hs as [[e' [=]]|([=] & _)]); cbn; (split; [done|]).
    + right. destruct Hs as [He|(He & Hf & _)]; [by left|by right].
    + left. by destruct Hs.
Qed.

(** An owner's execution never fails as a stranger's, an unsigned or a stale write. *)
Lemma execute_error db sql writer x db' e :
  writer = owner db -> execute db sql writer x = (db', Err e) ->
  match e with UnauthorizedWriter _ _ | InvalidSignature _ | CasConflict _ _ => False | _ => True end.
Proof.
  intros ->. unfold execute, check_ownership, sync_pages_to_vfs. cbn [ctx_writer]. rewrite bool_decide_true by done.
  cbn [negb]. repeat case_match; intros; by simplify_eq.
Qed.


(** ** Interleaved writes *)

Definition authorised (o : NodeId) (msg : SignedWrite) : Prop :=
  sw_writer msg = o /\
  verify (build_signed_payload o (sw_sql msg) (sw_expected_root msg)) (sw_signature msg) o = true.

(** Running the messages of [log], in order. *)
Definition run_writes (db : CraftDatabase (St := St)) (log : list (nat * SignedWrite * sync_io (IO := IO))) : CraftDatabase :=
  foldl (fun db m => (execute db (sw_sql m.1.2) (sw_writer m.1.2) m.2).1) db log.

(** The database is the result of running [log], whose entries are distinct tasks
    past their checks; accepted tasks are authorised, and answered ones ran. *)
Record rpc_inv (db0 : CraftDatabase (St := St)) (msgs : list SignedWrite) (s : RpcWrites)
    (log : list (nat * SignedWrite * sync_io (IO := IO))) : Prop := {
  ri_db : rpc_db s = run_writes db0 log;
  ri_owner : owner (rpc_db s) = owner db0;
  ri_msgs : map fst (rpc_tasks s) = msgs;
  ri_nodup : NoDup (map (fun m => m.1.1) log);
  ri_log i msg x : (i, msg, x) ∈ log -> msgs !! i = Some msg /\ authorised (owner db0) msg /\
    exists pc, rpc_tasks s !! i = Some (msg, pc) /\ pc <> WStart /\ pc <> WChecked;
  ri_checked i msg pc : rpc_tasks s !! i = Some (msg, pc) ->
    match pc with
    | WChecked => authorised (owner db0) msg
    | WExecuted | WDone (Ok _) => exists x, (i, msg, x) ∈ log
    | _ => True
    end;
}.

Lemma execute_owner db sql writer x : owner (execute db sql writer x).1 = owner db.
Proof. unfold execute. repeat case_match; by simplify_eq. Qed.

Lemma write_checks_authorised (db : CraftDatabase (St := St)) msg : write_checks db msg = Ok tt -> authorised (owner db) msg.
Proof.
  unfold write_checks, verify_signature, check_ownership, authorised. cbn zeta. cbn [ctx_writer].
  destruct (verify _ _ _) eqn:Ev; cbn [negb]; [|done]. case_bool_decide as Hw; cbn [negb]; [|done].
  intros _. by rewrite <- Hw.
Qed.

Lemma map_fst_insert (tasks : list (SignedWrite * write_pc)) i msg pc pc' :
  tasks !! i = Some (msg, pc) -> map fst (<[i := (msg, pc')]> tasks) = map fst tasks.
Proof.
  intros Hi. change (map fst) with (fmap (M := list) (@fst SignedWrite write_pc)). rewrite list_fmap_insert.
  apply list_insert_id. by rewrite list_lookup_fmap, Hi.
Qed.

(** Moving one task on keeps the log's entries past their checks. *)
Lemma log_survives db0 msgs s log i msg pc pc' j m x :
  rpc_inv db0 msgs s log -> rpc_tasks s !! i = Some (msg, pc) -> pc' <> WStart -> pc' <> WChecked ->
  (j, m, x) ∈ log ->
  msgs !! j = Some m /\ authorised (owner db0) m /\
  exists pc, <[i := (msg, pc')]> (rpc_tasks s) !! j = Some (m, pc) /\ pc <> WStart /\ pc <> WChecked.
Proof.
  intros HI Hi H1 H2 Hj. destruct (ri_log _ _ _ _ HI j m x Hj) as (Hm & Ha & pc0 & Hpc & Hn1 & Hn2).
  split_and!; [done|done|]. destruct (decide (i = j)) as [<-|Hne].
  - rewrite list_lookup_insert_eq by by eapply lookup_lt_Some. exists pc'. rewrite Hi in Hpc. by simplify_eq.
  - rewrite list_lookup_insert_ne by done. by exists pc0.
Qed.

Lemma rpc_step_inv db0 msgs s s' log :
  rpc_inv db0 msgs s log -> rpc_step s s' -> exists log', rpc_inv db0 msgs s' log'.
Proof.
  intros HI Hstep. destruct Hstep as [s i msg Hi|s i msg x Hi|s i msg Hi];
    pose proof (lookup_lt_Some _ _ _ Hi) as Hlt; pose proof HI as [Hdb Ho Hms Hnd Hlog Hch].
  - set (pc' := match _ with Ok _ => _ | Err _ => _ end).
    assert (pc' = WChecked /\ authorised (owner db0) msg \/ exists e, pc' = WDone (Err e)) as Hpc'.
    { subst pc'. destruct (write_checks _ _) as [[]|e] eqn:E; [left|by right; exists e].
      split; [done|]. rewrite <- Ho. by apply write_checks_authorised. }
    exists log. split; cbn; try done; [by erewrite map_fst_insert| |].
    + intros j m x Hj. destruct (decide (i = j)) as [<-|Hne].
      * destruct (Hlog i m x Hj) as (_ & _ & pc & Hpc & Hn & _). rewrite Hi in Hpc. by simplify_eq.
      * rewrite list_lookup_insert_ne by done. by apply (Hlog j m x).
    + intros j m pc Hj. destruct (decide (i = j)) as [<-|Hne].
      * rewrite list_lookup_insert_eq in Hj by done. simplify_eq.
        destruct Hpc' as [[-> Ha]|[e ->]]; done.
      * rewrite list_lookup_insert_ne in Hj by done. by apply (Hch j).
  - set (pc' := match _ with Ok _ => _ | Err _ => _ end).
    assert (pc' <> WStart /\ pc' <> WChecked) as [Hp1 Hp2] by (subst pc'; by destruct (execute _ _ _ _).2).
    clearbody pc'.
    exists (log ++ [(i, msg, x)]). split; cbn; [| |by erewrite map_fst_insert| | |].
    + unfold run_writes. rewrite foldl_app. cbn. by fold (run_writes db0 log); rewrite <- Hdb.
    + by rewrite execute_owner.
    + rewrite map_app. apply NoDup_app. split_and!; [done| |apply NoDup_singleton]. cbn.
      intros j Hj ->%list_elem_of_singleton. apply list_elem_of_fmap in Hj as ([[j m] y] & -> & Hj). cbn in *.
      destruct (Hlog j m y Hj) as (_ & _ & pc & Hpc & _ & Hn). rewrite Hi in Hpc. by simplify_eq.
    + intros j m y [Hj|Hj]%elem_of_app; [by eapply log_survives|].
      apply list_elem_of_singleton in Hj. inversion Hj; subst.
      split_and!; [by rewrite list_lookup_fmap, Hi|by apply (Hch i msg WChecked)|].
      exists pc'. by rewrite list_lookup_insert_eq by done.
    + intros j m pc Hj. destruct (decide (i = j)) as [<-|Hne].
      * rewrite list_lookup_insert_eq in Hj by done. simplify_eq.
        destruct pc as [| | |[|]]; try done; exists x; apply elem_of_app; right; by apply list_elem_of_singleton.
      * rewrite list_lookup_insert_ne in Hj by done. specialize (Hch j m pc Hj).
        destruct pc as [| | |[|]]; try done; destruct Hch as [y Hy]; exists y; apply elem_of_app; by left.
  - exists log. split; cbn; try done; [by erewrite map_fst_insert|by intros; eapply log_survives|].
    intros j m pc Hj. destruct (decide (i = j)) as [<-|Hne].
    + rewrite list_lookup_insert_eq in Hj by done. simplify_eq. by apply (Hch i m WExecuted).
    + rewrite list_lookup_insert_ne in Hj by done. by apply (Hch j).
Qed.

(** C14: However the handlers of a batch of messages interleave, the database is the
    result of running, one after another, statements of distinct messages that
    the owner signed, and every message answered with a root is among them. *)
Theorem signed_writes_authorised db0 msgs s :
  rtc rpc_step (mkRpc db0 (map (fun m => (m, WStart)) msgs)) s ->
  exists log : list (nat * SignedWrite * sync_io (IO := IO)),
    rpc_db s = run_writes db0 log /\ NoDup (map (fun m => m.1.1) log) /\
    (forall i msg x, (i, msg, x) ∈ log -> msgs !! i = Some msg /\ authorised (owner db0) msg) /\
    (forall i msg r, rpc_tasks s !! i = Some (msg, WDone (Ok r)) -> exists x, (i, msg, x) ∈ log).
Proof.
  intros Hrtc. assert (exists log, rpc_inv db0 msgs s log) as [log [Hdb _ _ Hnd Hlog Hch]].
  { assert (rpc_inv db0 msgs (mkRpc db0 (map (fun m => (m, WStart)) msgs)) []) as Hinit.
    { split; cbn; try done; [by rewrite map_map, map_id|by apply NoDup_nil|by intros ? ? ? ?%not_elem_of_nil|].
      intros i msg pc Hi. apply list_lookup_fmap_Some in Hi as (? & ? & ?). by simplify_eq. }
    revert Hinit. generalize (@nil (nat * SignedWrite * sync_io (IO := IO))).
    induction Hrtc as [s|s1 s2 s3 Hs _ IH]; intros log HI; [by exists log|].
    destruct (rpc_step_inv db0 msgs s1 s2 log HI Hs) as [log' HI']. by eapply IH. }
  exists log. split_and!; [done|done| |].
  - intros i msg x Hi. by destruct (Hlog i msg x Hi) as (? & ? & _).
  - intros i msg r Hi. by apply (Hch i msg (WDone (Ok r))).
Qed.

End SqlFacts.

(** The signed payload determines the writer, the statement and the expected
    root, so a signature cannot be moved to another request. *)
Theorem build_signed_payload_inj w1 s1 r1 w2 s2 r2 :
  length w1 = 32%nat -> length w2 = 32%nat ->
  Z.of_nat (length s1) < 2 ^ 32 -> Z.of_nat (length s2) < 2 ^ 32 ->
  build_signed_payload w1 s1 r1 = build_signed_payload w2 s2 r2 ->
  w1 = w2 /\ s1 = s2 /\ r1 = r2.
Proof.
  intros Hw1 Hw2 Hs1 Hs2 Heq. unfold build_signed_payload in Heq. rewrite Hw1, Hw2 in Heq.
  apply app_inj_1 in Heq as [_ Heq]; [|done]. apply app_inj_1 in Heq as [-> Heq]; [|congruence].
  apply app_inj_1 in Heq as [Hlen Heq]; [|by rewrite !length_to_le_bytes].
  apply (f_equal from_le_bytes) in Hlen. rewrite !from_to_le_bytes in Hlen.
  change (8 * Z.of_nat 4) with 32 in Hlen.
  rewrite !(wrap_id 32 (Z.of_nat _)) in Hlen by (unfold fits; lia).
  apply app_inj_1 in Heq as [-> Heq]; [|lia]. destruct r1, r2; by simplify_eq.
Qed.

Lemma build_signed_payload_inj_witness :
  build_signed_payload (replicate 32 1) (utf8 "A") None <> build_signed_payload (replicate 32 1) (utf8 "B") None.
Proof.
  intros Heq.
  destruct (build_signed_payload_inj (replicate 32 1) (utf8 "A") None (replicate 32 1) (utf8 "B") None) as (_ & Hs & _);
    [done|done|done|done|exact Heq|]. discriminate.
Defined.

(** ** Concrete runs *)

(** A toy engine whose statements are the new contents of the file, and a toy
    signature scheme in which the signature is the payload itself. *)
#[local] Instance toy_libsql : Libsql := {|
  sqldb := list Z; sql_open := Some []; sql_file := id;
  sql_execute db sql := match sql with [] => (db, Some "empty statement"%string) | _ => (sql, None) end;
  sql_query db _ := (db, Ok [[LvBlob db]]);
|}.
#[local] Instance toy_ed25519 : Ed25519 := {|
  verifying_key_ok _ := true; ed_verify _ msg sig := bool_decide (msg = sig);
|}.

Abbreviation sync_ok := (mkSync true id io_ok).
Definition demo_owner : NodeId := replicate 32 1.
Definition demo_signed (sql : list Z) (root : option Cid) : SignedWrite :=
  mkSigned demo_owner sql root (build_signed_payload demo_owner sql root).

Definition demo_db : CraftDatabase (St := ObjStore) :=
  match db_create demo_owner demo_vfs true sync_ok with
  | Ok db => db
  | Err _ => mkDb [] [] demo_vfs [] [] false []
  end.

Definition demo_db0 : CraftDatabase (St := ObjStore) := mkDb [] demo_owner demo_vfs [] [] false [].
Definition demo_file : list Z := replicate 512 7 ++ replicate 188 8.

(** The page map after a 700-byte file is written to an empty database. *)
Lemma execute_publishes_file_witness :
  let db' := (execute demo_db0 demo_file demo_owner sync_ok).1 in
  (execute demo_db0 demo_file demo_owner sync_ok).2 = Ok tt /\
  exists A' pages, spec_root A' = Some (root_cid db') /\ take 700 (concat pages) = demo_file /\
    (exists M', vfs_repr (IO := write_outcome * rename_outcome * read_outcome) (db_vfs db') A' M') /\
    forall i page, pages !! i = Some page -> committed A' !! Z.of_nat i = Some page.
Proof.
  assert (cs_repr (IO := write_outcome * rename_outcome * read_outcome) demo_store ∅) as Hs by apply new_repr.
  destruct (vfs_new_repr demo_store 512 demo_vfs Hs ltac:(vm_compute; reflexivity)) as [Hps HR].
  assert (is_ok (execute demo_db0 demo_file demo_owner sync_ok).2 = true) as Hok by (vm_compute; reflexivity).
  pose proof (execute_publishes_file demo_db0 (mkVfsSpec ∅ ∅ None []) ∅ demo_file demo_owner sync_ok HR) as Hx.
  change (page_size (db_vfs demo_db0)) with (page_size demo_vfs) in Hx. rewrite Hps in Hx.
  specialize (Hx ltac:(lia) ltac:(intros; done) ltac:(by_compute) ltac:(by_compute) ltac:(by_compute)).
  destruct (execute demo_db0 demo_file demo_owner sync_ok) as [db' [[]|e]]; [|done].
  destruct Hx as (_ & _ & Hroot & HM & pages & Hcat & _ & Hp & _). split; [done|]. eexists _, pages. split_and!; done.
Defined.

Definition demo_rpc : RpcWrites (St := ObjStore) :=
  let m1 := demo_signed [7] (Some (root_cid demo_db)) in
  let m2 := demo_signed [8] (Some (root_cid demo_db)) in
  mkRpc demo_db (map (fun m => (m, WStart)) [m1; m2]).

(** Both handlers check before either executes. *)
Definition demo_rpc_end : RpcWrites (St := ObjStore) :=
  let m1 := demo_signed [7] (Some (root_cid demo_db)) in
  let m2 := demo_signed [8] (Some (root_cid demo_db)) in
  let db1 := (execute demo_db [7] demo_owner sync_ok).1 in
  let db2 := (execute db1 [8] demo_owner sync_ok).1 in
  mkRpc db2 [(m1, WDone (Ok (root_cid db2))); (m2, WDone (Ok (root_cid db2)))].

Lemma demo_rpc_run : rtc rpc_step demo_rpc demo_rpc_end.
Proof.
  eapply rtc_l; [eapply (rpc_check _ 0%nat); reflexivity|]. eapply rtc_l; [eapply (rpc_check _ 1%nat); reflexivity|].
  replace (write_checks _ _) with (@Ok unit SqlError tt) by (vm_compute; reflexivity).
  cbn [rpc_db rpc_tasks demo_rpc map insert list_insert].
  replace (write_checks _ _) with (@Ok unit SqlError tt) by (vm_compute; reflexivity).
  eapply rtc_l; [eapply (rpc_execute _ 0%nat _ sync_ok); reflexivity|].
  cbn [rpc_db rpc_tasks demo_rpc map insert list_insert].
  replace (execute _ _ _ _).2 with (@Ok unit SqlError tt) by (vm_compute; reflexivity).
  eapply rtc_l; [eapply (rpc_execute _ 1%nat _ sync_ok); reflexivity|].
  cbn [rpc_db rpc_tasks demo_rpc map insert list_insert].
  replace (execute _ _ _ _).2 with (@Ok unit SqlError tt) by (vm_compute; reflexivity).
  eapply rtc_l; [eapply (rpc_return _ 0%nat); reflexivity|]. eapply rtc_l; [eapply (rpc_return _ 1%nat); reflexivity|].
  apply rtc_refl.
Qed.

Lemma signed_writes_authorised_witness :
  exists log : list (nat * SignedWrite * sync_io (IO := write_outcome * rename_outcome * read_outcome)),
    rpc_db demo_rpc_end = run_writes demo_db log /\
    forall i msg x, (i, msg, x) ∈ log -> authorised (owner demo_db) msg.
Proof.
  destruct (signed_writes_authorised demo_db
    [demo_signed [7] (Some (root_cid demo_db)); demo_signed [8] (Some (root_cid demo_db))] demo_rpc_end demo_rpc_run)
    as (log & Hdb & _ & Hl & _).
  exists log. split; [exact Hdb|]. intros i msg x Hi. exact (proj2 (Hl i msg x Hi)).
Defined.

(** The expected root is checked before the write lock is taken: two writes that
    name the same root can both succeed, the second over a root it never named. *)
Theorem cas_checked_outside_lock :
  exists s m1 m2 r1 r2,
    rtc rpc_step demo_rpc s /\ rpc_tasks s = [(m1, WDone (Ok r1)); (m2, WDone (Ok r2))] /\
    sw_expected_root m1 = Some (root_cid demo_db) /\ sw_expected_root m2 = Some (root_cid demo_db) /\
    root_cid demo_db <> root_cid (execute demo_db (sw_sql m1) demo_owner sync_ok).1.
Proof.
  do 5 eexists. split_and!; [exact demo_rpc_run|reflexivity|reflexivity|reflexivity|]. by_compute.
Qed.

(** Handled one after the other, the second of the two is refused. *)
Example cas_sequential_conflict :
  let '(db1, r1) := handle_signed_write demo_db (demo_signed [7] (Some (root_cid demo_db))) sync_ok in
  r1 = Ok (root_cid db1) /\
  (handle_signed_write db1 (demo_signed [8] (Some (root_cid demo_db))) sync_ok).2 =
    Err (CasConflict (root_cid demo_db) (root_cid db1)).
Proof. vm_compute. done. Qed.

(** Pages past the end of a file that shrank stay committed. *)
Theorem shrunk_file_keeps_pages :
  let db1 := (execute demo_db0 demo_file demo_owner sync_ok).1 in
  let db2 := (execute db1 [9] demo_owner sync_ok).1 in
  sql_file (libsql_db db2) = [9] /\ page_count (page_index (db_vfs db2)) = 2%nat /\
  (read_page (db_vfs db2) 1 (WriteOk, RenameOk, ReadOk)).2 = Ok (pad_page 512 (replicate 188 8)).
Proof. vm_compute. done. Qed.
