(* ===== verification/Keys.v ===== *)
(** * Identity, key file and configuration

    crates/craftec-types/src/identity.rs and config.rs, crates/craftec-crypto/src/sign.rs,
    and the configuration part of crates/craftec-node/src/main.rs.  Ed25519 signing
    and serde's JSON are parameters.  The files involved are a map from names to
    contents; every file operation takes its outcome from the environment. *)
From Stdlib Require Import ZArith Lia Ascii.
From stdpp Require Import base list list_numbers numbers strings gmap.
From S2P Require Import Prelude Types Instances F64 External ObjStore PageIndex Wire Vfs Sql.

Local Open Scope Z_scope.

(** ** External code *)

(** [ed25519_dalek]'s signing half, on the 32 secret bytes. *)
Class Ed25519Signing : Type := {
  ed_public : list Z -> NodeId;
  ed_sign : list Z -> list Z -> list Z;
}.

Class Ed25519Laws `{Ed25519} `{Ed25519Signing} : Prop := {
  ed_public_length sk : length (ed_public sk) = 32%nat;
  ed_public_bytes sk : bytes (ed_public sk);
  ed_public_ok sk : verifying_key_ok (ed_public sk) = true;
  ed_sign_verifies sk msg : ed_verify (ed_public sk) msg (ed_sign sk msg) = true;
}.

(** ** Files *)

(** A directory of named files. *)
Abbreviation dir := (gmap string (list Z)).

(** A read and a write as the file system answers them. *)
Record file_io : Type := mkFileIo {
  fi_stat_ok : bool;
  fi_read_ok : bool;
  fi_mkdir_ok : bool;
  fi_write_ok : bool;
}.

(** [std::str::from_utf8(..).is_ok()] *)
Definition utf8_cont (b : Z) : bool := (128 <=? b) && (b <=? 191).
Definition utf8_second3 (b0 b1 : Z) : bool :=
  if b0 =? 224 then (160 <=? b1) && (b1 <=? 191)
  else if b0 =? 237 then (128 <=? b1) && (b1 <=? 159)
  else utf8_cont b1.
Definition utf8_second4 (b0 b1 : Z) : bool :=
  if b0 =? 240 then (144 <=? b1) && (b1 <=? 191)
  else if b0 =? 244 then (128 <=? b1) && (b1 <=? 143)
  else utf8_cont b1.

Fixpoint utf8_valid (s : list Z) : bool :=
  match s with
  | [] => true
  | b0 :: s1 =>
      if b0 <? 128 then utf8_valid s1
      else if (194 <=? b0) && (b0 <=? 223) then
        match s1 with b1 :: s2 => utf8_cont b1 && utf8_valid s2 | _ => false end
      else if (224 <=? b0) && (b0 <=? 239) then
        match s1 with b1 :: b2 :: s3 => utf8_second3 b0 b1 && utf8_cont b2 && utf8_valid s3 | _ => false end
      else if (240 <=? b0) && (b0 <=? 244) then
        match s1 with
        | b1 :: b2 :: b3 :: s4 => utf8_second4 b0 b1 && utf8_cont b2 && utf8_cont b3 && utf8_valid s4
        | _ => false
        end
      else false
  end.

(** ** Keypairs *)

Definition node_id_from_slice (b : list Z) : result NodeId CraftecError :=
  if negb (length b =? 32)%nat then Err (IdentityError "NodeId must be 32 bytes") else Ok b.

(** [path.exists()]: a metadata call that fails reads as an absent file. *)
Definition file_seen (fs : dir) (name : string) (io : file_io) : option (list Z) := if fi_stat_ok io then fs !! name else None.

Record NodeKeypair : Type := mkKeypair { signing_key : list Z }.

Section Keys.
Context `{HX : Hex} `{ED : Ed25519} `{ES : Ed25519Signing}.

Definition node_id_to_string (n : NodeId) : string := hex_encode n.

(** [generate]; [entropy] are the 32 bytes of the OS generator. *)
Definition keypair_generate (entropy : list Z) : NodeKeypair := mkKeypair entropy.
Definition from_secret_bytes (b : list Z) : NodeKeypair := mkKeypair b.
Definition to_secret_bytes (kp : NodeKeypair) : list Z := signing_key kp.
Definition keypair_node_id (kp : NodeKeypair) : NodeId := ed_public (signing_key kp).
Definition keypair_sign (kp : NodeKeypair) (msg : list Z) : list Z := ed_sign (signing_key kp) msg.

(** ** The key store *)

Record KeyStoreFile : Type := mkKeyStore {
  ks_keypair : NodeKeypair;
  ks_key_path : string;
}.

Definition KEY_FILE : string := "node.key".

Definition keystore_new (fs : dir) (entropy : list Z) (io : file_io) : dir * result KeyStoreFile CraftecError :=
  match file_seen fs KEY_FILE io with
  | Some bytes =>
      if negb (fi_read_ok io) then (fs, Err (IoError "read"))
      else if negb (length bytes =? 32)%nat then (fs, Err (IdentityError "node.key must be 32 bytes"))
      else (fs, Ok (mkKeyStore (from_secret_bytes bytes) KEY_FILE))
  | None =>
      if negb (fi_mkdir_ok io) then (fs, Err (IoError "create_dir_all"))
      else
        let kp := keypair_generate entropy in
        if negb (fi_write_ok io) then (fs, Err (IoError "write"))
        else (<[KEY_FILE := to_secret_bytes kp]> fs, Ok (mkKeyStore kp KEY_FILE))
  end.

Definition keystore_sign (ks : KeyStoreFile) (msg : list Z) : list Z := keypair_sign (ks_keypair ks) msg.
Definition keystore_verify (ks : KeyStoreFile) (msg sig : list Z) (pubkey : NodeId) : bool := verify msg sig pubkey.
Definition keystore_node_id (ks : KeyStoreFile) : NodeId := keypair_node_id (ks_keypair ks).

End Keys.

(** ** Configuration *)

Record NodeConfig : Type := mkConfig {
  data_dir : string;
  listen_port : Z;
  bootstrap_peers : list string;
  cfg_max_connections : nat;
  max_disk_usage_bytes : Z;
  health_scan_cycle_secs : Z;
  rlnc_k : Z;
  cfg_page_size : nat;
  log_level : string;
}.

Definition config_default : NodeConfig :=
  mkConfig "data" 4433 [] 256 (10 * 1024 * 1024 * 1024) 300 32 (Z.to_nat 16384) "info".

(** [serde_json] on [NodeConfig]. *)
Class JsonConfig : Type := {
  config_to_json : NodeConfig -> option (list Z);
  config_from_json : list Z -> option NodeConfig;
}.

Class JsonConfigLaws `{JsonConfig} : Prop := {
  config_from_to_json c b : config_to_json c = Some b -> config_from_json b = Some c;
  config_json_utf8 c b : config_to_json c = Some b -> utf8_valid b = true;
}.

Section Config.
Context `{JC : JsonConfig}.

Definition config_load (fs : dir) (path : string) (io : file_io) : result NodeConfig CraftecError :=
  match fs !! path with
  | None => Err (IoError "read")
  | Some content =>
      if negb (fi_read_ok io) then Err (IoError "read")
      else if negb (utf8_valid content) then Err (IoError "stream did not contain valid UTF-8")
      else match config_from_json content with
      | None => Err (SerializationError "failed to parse config JSON")
      | Some cfg => Ok cfg
      end
  end.

Definition config_save (fs : dir) (cfg : NodeConfig) (path : string) (io : file_io) : dir * result unit CraftecError :=
  if negb (fi_mkdir_ok io) then (fs, Err (IoError "create_dir_all"))
  else match config_to_json cfg with
  | None => (fs, Err (SerializationError "failed to serialize config"))
  | Some json =>
      if negb (fi_write_ok io) then (fs, Err (IoError "write")) else (<[path := json]> fs, Ok tt)
  end.

Definition CONFIG_FILE : string := "craftec.json".

Definition load_or_create_config (fs : dir) (io : file_io) : dir * result NodeConfig CraftecError :=
  match file_seen fs CONFIG_FILE io with
  | Some _ => (fs, config_load fs CONFIG_FILE io)
  | None =>
      let config := config_default in
      match config_save fs config CONFIG_FILE io with
      | (fs, Err e) => (fs, Err e)
      | (fs, Ok _) => (fs, Ok config)
      end
  end.

End Config.

(** ** Environment overrides *)

(** [str::parse] for an unsigned integer of [w] bits: an optional plus sign and at
    least one digit, in range. *)
Fixpoint parse_digits (acc : Z) (s : string) : option Z :=
  match s with
  | EmptyString => Some acc
  | String c s =>
      let d := Z.of_nat (nat_of_ascii c) - 48 in
      if (0 <=? d) && (d <=? 9) then parse_digits (10 * acc + d) s else None
  end.

Definition parse_uint (w : Z) (s : string) : option Z :=
  let body := match s with
    | String c s' => if Ascii.eqb c "+"%char then s' else s
    | EmptyString => s
    end in
  match body with
  | EmptyString => None
  | _ =>
      match parse_digits 0 body with
      | Some v => if v <? 2 ^ w then Some v else None
      | None => None
      end
  end.

(** The length of a UTF-8 character from its first byte. *)
Definition char_len (b : Z) : nat :=
  if b <? 128 then 1 else if b <? 224 then 2 else if b <? 240 then 3 else 4.

(** [str::trim_end]; a round consumes a character, so the string's length is fuel
    enough. *)
Fixpoint trim_end_loop (fuel : nat) (s : list Z) : list Z :=
  match fuel with
  | O => []
  | S fuel =>
      if trimmed_is_empty s then []
      else match s with
      | [] => []
      | b :: _ => take (char_len b) s ++ trim_end_loop fuel (drop (char_len b) s)
      end
  end.

Definition trim (s : list Z) : list Z :=
  let s := trim_start_loop (length s) s in trim_end_loop (length s) s.

(** [str::split] at a comma. *)
Fixpoint split_commas (s : list Z) : list (list Z) :=
  match s with
  | [] => [[]]
  | b :: s =>
      if b =? 44 then [] :: split_commas s
      else match split_commas s with
      | part :: parts => (b :: part) :: parts
      | [] => [[b]]
      end
  end.

(** A string from its bytes. *)
Fixpoint of_utf8 (b : list Z) : string :=
  match b with
  | [] => EmptyString
  | x :: b => String (ascii_of_nat (Z.to_nat x)) (of_utf8 b)
  end.

Definition parse_peers (peers_str : string) : list string :=
  map of_utf8 (List.filter (fun s => negb (length s =? 0)%nat) (map trim (split_commas (utf8 peers_str)))).

(** [env] is [std::env::var]. *)
Definition apply_env_overrides (env : string -> option string) (config : NodeConfig) : NodeConfig :=
  let config := match env "CRAFTEC_DATA_DIR" with
    | Some d => mkConfig d (listen_port config) (bootstrap_peers config) (cfg_max_connections config)
                  (max_disk_usage_bytes config) (health_scan_cycle_secs config) (rlnc_k config) (cfg_page_size config) (log_level config)
    | None => config
    end in
  let config := match env "CRAFTEC_LISTEN_PORT" with
    | Some port_str =>
        match parse_uint 16 port_str with
        | Some port => mkConfig (data_dir config) port (bootstrap_peers config) (cfg_max_connections config)
            (max_disk_usage_bytes config) (health_scan_cycle_secs config) (rlnc_k config) (cfg_page_size config) (log_level config)
        | None => config
        end
    | None => config
    end in
  let config := match env "CRAFTEC_BOOTSTRAP_PEERS" with
    | Some peers_str => mkConfig (data_dir config) (listen_port config) (parse_peers peers_str) (cfg_max_connections config)
        (max_disk_usage_bytes config) (health_scan_cycle_secs config) (rlnc_k config) (cfg_page_size config) (log_level config)
    | None => config
    end in
  match env "CRAFTEC_HEALTH_SCAN_CYCLE_SECS" with
  | Some val =>
      match parse_uint 64 val with
      | Some secs => mkConfig (data_dir config) (listen_port config) (bootstrap_peers config) (cfg_max_connections config)
          (max_disk_usage_bytes config) secs (rlnc_k config) (cfg_page_size config) (log_level config)
      | None => config
      end
  | None => config
  end.

(** ** Facts *)

Lemma utf8_of_utf8 b : bytes b -> utf8 (of_utf8 b) = b.
Proof.
  unfold bytes, is_byte. induction 1 as [|x b Hx _ IH]; [done|]. cbn [of_utf8 utf8]. rewrite IH. f_equal.
  rewrite nat_ascii_embedding by lia. lia.
Qed.

Section KeyFacts.
Context `{HX : Hex} `{EL : Ed25519Laws}.

(** [verify] accepts exactly what it should of a keypair's own signatures. *)
Lemma keypair_sign_verifies kp msg : verify msg (keypair_sign kp msg) (keypair_node_id kp) = true.
Proof. unfold verify, keypair_sign, keypair_node_id. by rewrite ed_public_ok, ed_sign_verifies. Qed.

Lemma keypair_node_id_wf kp : length (keypair_node_id kp) = 32%nat /\ bytes (keypair_node_id kp).
Proof. split; [apply ed_public_length|apply ed_public_bytes]. Qed.

(** The identity is stable: once a key store has opened, the key file holds its
    secret bytes, and every later opening of the directory that can see and read the
    file finds the same keypair, leaves the directory alone, and signs messages that
    verify under the same node id. *)
Theorem keystore_reopens fs entropy io fs' ks entropy' io' :
  length entropy = 32%nat -> keystore_new fs entropy io = (fs', Ok ks) -> fi_stat_ok io' = true -> fi_read_ok io' = true ->
  fs' !! KEY_FILE = Some (to_secret_bytes (ks_keypair ks)) /\
  keystore_new fs' entropy' io' = (fs', Ok ks) /\
  forall msg, keystore_verify ks msg (keystore_sign ks msg) (keystore_node_id ks) = true.
Proof.
  intros He Hnew Hst Hio. assert (fs' !! KEY_FILE = Some (to_secret_bytes (ks_keypair ks)) /\ ks_key_path ks = KEY_FILE /\
    length (to_secret_bytes (ks_keypair ks)) = 32%nat) as (Hf & Hp & Hl).
  { revert Hnew. unfold keystore_new, file_seen. destruct (if fi_stat_ok io then fs !! KEY_FILE else None) as [b|] eqn:E.
    - destruct (fi_read_ok io); [|done]. destruct (length b =? 32)%nat eqn:Hb; [|done]. bool_to_prop. intros [= <- <-]. by destruct (fi_stat_ok io).
    - destruct (fi_mkdir_ok io); [|done]. destruct (fi_write_ok io); [|done]. intros [= <- <-]. by rewrite lookup_insert_eq. }
  split_and!; [done| |intros msg; apply keypair_sign_verifies].
  unfold keystore_new, file_seen. rewrite Hst, Hf, Hio, Hl. cbn. by destruct ks as [[sk] p]; cbn in *; subst p.
Qed.

(** A key file of the wrong length that is seen is refused, and nothing overwrites it. *)
Theorem bad_key_file_kept fs entropy io b :
  fs !! KEY_FILE = Some b -> length b <> 32%nat -> fi_stat_ok io = true ->
  exists e, keystore_new fs entropy io = (fs, Err e).
Proof.
  intros Hf Hl Hst. unfold keystore_new, file_seen. rewrite Hst, Hf. destruct (fi_read_ok io); [|by eexists].
  destruct (length b =? 32)%nat eqn:E; bool_to_prop; [done|by eexists].
Qed.

(** A metadata call that fails costs the node its identity: the key file is there and
    well-formed, and it is overwritten with a new key. *)
Theorem unseen_key_replaced fs b entropy io :
  fs !! KEY_FILE = Some b -> fi_stat_ok io = false -> fi_mkdir_ok io = true -> fi_write_ok io = true ->
  exists ks, keystore_new fs entropy io = (<[KEY_FILE := entropy]> fs, Ok ks) /\ keystore_node_id ks = ed_public entropy.
Proof. intros _ Hst Hmk Hw. unfold keystore_new, file_seen. rewrite Hst, Hmk, Hw. by eexists. Qed.

End KeyFacts.

Section ConfigFacts.
Context `{JL : JsonConfigLaws}.

(** What is saved is what is loaded; a first start writes the defaults and every
    later one reads them back. *)
Theorem config_roundtrip fs cfg path io fs' io' :
  config_save fs cfg path io = (fs', Ok tt) -> fi_read_ok io' = true ->
  config_load fs' path io' = Ok cfg /\ (forall p, p <> path -> fs' !! p = fs !! p).
Proof.
  unfold config_save. destruct (fi_mkdir_ok io); [|done]. cbn [negb]. destruct (config_to_json cfg) as [json|] eqn:E; [|done].
  destruct (fi_write_ok io); [|done]. intros [= <-] Hr. split.
  - unfold config_load. by rewrite lookup_insert_eq, Hr, (config_json_utf8 cfg json), (config_from_to_json cfg json).
  - intros p Hp. by rewrite lookup_insert_ne.
Qed.

Lemma first_start_config fs io fs' cfg io' :
  fs !! CONFIG_FILE = None -> load_or_create_config fs io = (fs', Ok cfg) -> fi_stat_ok io' = true -> fi_read_ok io' = true ->
  cfg = config_default /\ load_or_create_config fs' io' = (fs', Ok cfg).
Proof.
  intros Hf. unfold load_or_create_config at 1, file_seen at 1. rewrite Hf. assert ((if fi_stat_ok io then None else None) = (None : option (list Z))) as -> by (by destruct (fi_stat_ok io)). destruct (config_save fs config_default CONFIG_FILE io) as [fs1 [[]|e]] eqn:Es; [|done].
  intros [= <- <-] Hst Hr. split; [done|]. destruct (config_roundtrip fs config_default CONFIG_FILE io fs1 io' Es Hr) as [Hl _].
  unfold load_or_create_config, file_seen. rewrite Hl, Hst. destruct (fs1 !! CONFIG_FILE) eqn:E; [done|]. by unfold config_load in Hl; rewrite E in Hl.
Qed.

End ConfigFacts.

(** Only the four variables matter, each for its own field; a port that does not
    parse leaves the configured one. *)
Theorem overrides_spec env c :
  let c' := apply_env_overrides env c in
  data_dir c' = default (data_dir c) (env "CRAFTEC_DATA_DIR") /\
  listen_port c' = default (listen_port c) (env "CRAFTEC_LISTEN_PORT" ≫= parse_uint 16) /\
  bootstrap_peers c' = default (bootstrap_peers c) (parse_peers <$> env "CRAFTEC_BOOTSTRAP_PEERS") /\
  health_scan_cycle_secs c' = default (health_scan_cycle_secs c) (env "CRAFTEC_HEALTH_SCAN_CYCLE_SECS" ≫= parse_uint 64) /\
  cfg_max_connections c' = cfg_max_connections c /\ max_disk_usage_bytes c' = max_disk_usage_bytes c /\
  rlnc_k c' = rlnc_k c /\ cfg_page_size c' = cfg_page_size c /\ log_level c' = log_level c.
Proof.
  unfold apply_env_overrides. cbn zeta. destruct c as [dir port peers mc disk secs k psz lvl].
  destruct (env "CRAFTEC_DATA_DIR"), (env "CRAFTEC_LISTEN_PORT") as [p|], (env "CRAFTEC_BOOTSTRAP_PEERS"),
    (env "CRAFTEC_HEALTH_SCAN_CYCLE_SECS") as [v|]; cbn;
    repeat match goal with |- context [parse_uint ?w ?s] => destruct (parse_uint w s) end; done.
Qed.

(** ** Decimal numbers *)

Lemma parse_digits_range acc s v : 0 <= acc -> parse_digits acc s = Some v -> acc <= v.
Proof.
  revert acc. induction s as [|c s IH]; intros acc Ha; cbn; [intros [= <-]; lia|].
  destruct ((0 <=? _) && (_ <=? 9)) eqn:E; [|done]. apply andb_true_iff in E as [E1 E2]. bool_to_prop.
  intros Hv. apply IH in Hv; lia.
Qed.

(** Whatever is accepted fits the type. *)
Theorem parse_uint_fits w s v : 0 <= w -> parse_uint w s = Some v -> fits w v.
Proof.
  intros Hw. unfold parse_uint. set (body := match s with String c s' => if Ascii.eqb c "+" then s' else s | EmptyString => s end).
  destruct body as [|c b] eqn:E; [done|]. destruct (parse_digits 0 (String c b)) as [n|] eqn:En; [|done].
  apply parse_digits_range in En; [|lia]. destruct (n <? 2 ^ w) eqn:El; [|done]. bool_to_prop. intros [= <-]. by split.
Qed.
