(* ===== verification/Dht.v ===== *)
(** * Provider table (crates/craftec-net/src/dht.rs)

    The in-memory table from CIDs to timestamped provider records.  It refines a
    finite map from (CID, node) pairs to the time of the last announcement. *)
From Stdlib Require Import ZArith Lia.
From stdpp Require Import base list list_numbers numbers gmap.
From S2P Require Import Prelude Types Instances Wire.

Local Open Scope Z_scope.

Record ProviderRecord : Type := mkRecord {
  prov_node : NodeId;
  announced_at : Z;
}.

(** [DashMap<Cid, Vec<ProviderRecord>>]; instants are milliseconds. *)
Abbreviation DhtProviders := (gmap Cid (list ProviderRecord)).

Definition dht_new : DhtProviders := ∅.

(** [records.iter_mut().find(..)] refreshed, or the record pushed. *)
Fixpoint refresh (n : NodeId) (now : Z) (records : list ProviderRecord) : list ProviderRecord :=
  match records with
  | [] => [mkRecord n now]
  | r :: records =>
      if bool_decide (prov_node r = n) then mkRecord (prov_node r) now :: records
      else r :: refresh n now records
  end.

Definition announce_provider (d : DhtProviders) (c : Cid) (n : NodeId) (now : Z) : DhtProviders :=
  match d !! c with
  | Some records => <[c := refresh n now records]> d
  | None => <[c := [mkRecord n now]]> d
  end.

Definition get_providers (d : DhtProviders) (c : Cid) : list NodeId :=
  match d !! c with
  | Some records => map prov_node records
  | None => []
  end.

Definition other_node (n : NodeId) (r : ProviderRecord) : bool := negb (bool_decide (prov_node r = n)).

Definition remove_provider (d : DhtProviders) (c : Cid) (n : NodeId) : DhtProviders :=
  let d := match d !! c with
           | Some records => <[c := List.filter (other_node n) records]> d
           | None => d
           end in
  match d !! c with
  | Some [] => delete c d
  | _ => d
  end.

(** [retain] of the records, then of the non-empty entries. *)
Definition retain_records (keep : ProviderRecord -> bool) (d : DhtProviders) : DhtProviders :=
  omap (fun records => match List.filter keep records with [] => None | rs => Some rs end) d.

Definition dht_remove_node (d : DhtProviders) (n : NodeId) : DhtProviders := retain_records (other_node n) d.

(** [now.duration_since(announced_at) < ttl]; [duration_since] saturates at zero. *)
Definition fresh_record (now ttl : Z) (r : ProviderRecord) : bool := Z.max 0 (now - announced_at r) <? ttl.

Definition sum_entries (f : list ProviderRecord -> nat) (d : DhtProviders) : nat :=
  map_fold (fun _ records acc => (f records + acc)%nat) 0%nat d.

Definition dht_prune_stale (d : DhtProviders) (now ttl : Z) : DhtProviders * nat :=
  (retain_records (fresh_record now ttl) d,
   sum_entries (fun records => (length records - length (List.filter (fresh_record now ttl) records))%nat) d).

Definition dht_cid_count (d : DhtProviders) : nat := size d.
Definition provider_count (d : DhtProviders) : nat := sum_entries length d.

(** ** Abstract specification *)

Abbreviation Announcements := (gmap (Cid * NodeId) Z).

Inductive dht_op : Type :=
| Announce (c : Cid) (n : NodeId) (now : Z)
| RemoveProvider (c : Cid) (n : NodeId)
| RemoveNode (n : NodeId)
| Prune (now ttl : Z).

Definition dht_exec (d : DhtProviders) (op : dht_op) : DhtProviders :=
  match op with
  | Announce c n now => announce_provider d c n now
  | RemoveProvider c n => remove_provider d c n
  | RemoveNode n => dht_remove_node d n
  | Prune now ttl => (dht_prune_stale d now ttl).1
  end.

Definition dht_spec (R : Announcements) (op : dht_op) : Announcements :=
  match op with
  | Announce c n now => <[(c, n) := now]> R
  | RemoveProvider c n => delete (c, n) R
  | RemoveNode n => filter (fun kv => kv.1.2 <> n) R
  | Prune now ttl => filter (fun kv => Z.max 0 (now - kv.2) < ttl) R
  end.

(** The records are the announcements, each pair once, with no empty entry. *)
Record dht_repr (d : DhtProviders) (R : Announcements) : Prop := {
  dr_records c n t : mkRecord n t ∈ default [] (d !! c) <-> R !! (c, n) = Some t;
  dr_nodup c : NoDup (map prov_node (default [] (d !! c)));
  dr_nonempty c : d !! c <> Some [];
}.

(** ** Record lists *)

Lemma refresh_elem n now l m t :
  NoDup (map prov_node l) ->
  mkRecord m t ∈ refresh n now l <-> (m = n /\ t = now) \/ (m <> n /\ mkRecord m t ∈ l).
Proof.
  induction l as [|[m' t'] l IH]; cbn; intros Hnd.
  { rewrite list_elem_of_singleton. split; [intros [= -> ->]; by left|]. intros [[-> ->]|[_ ?%not_elem_of_nil]]; done. }
  apply NoDup_cons in Hnd as [Hn Hnd]. case_bool_decide as E; cbn in E; [subst m'|]; rewrite !elem_of_cons.
  - split.
    + intros [[= -> ->]|Hl]; [by left|]. destruct (decide (m = n)) as [->|]; [|by right; auto].
      destruct Hn. apply list_elem_of_fmap. by exists (mkRecord n t).
    + intros [[-> ->]|[Hne [[= -> ->]|Hl]]]; [by left|done|by right].
  - rewrite IH by done. split.
    + intros [[= -> ->]|[[-> ->]|[Hne Hl]]]; [right; auto|by left|right; auto].
    + intros [[-> ->]|[Hne [[= -> ->]|Hl]]]; [by right; left|by left|right; right; done].
Qed.

Lemma refresh_nodes n now l :
  map prov_node (refresh n now l) = map prov_node l ++ (if bool_decide (n ∈ map prov_node l) then [] else [n]).
Proof.
  induction l as [|r l IH]; cbn; [done|]. destruct (bool_decide (prov_node r = n)) eqn:E; bool_to_prop; cbn.
  - rewrite bool_decide_true by (subst; apply elem_of_cons; by left). by rewrite app_nil_r.
  - rewrite IH. f_equal. f_equal. erewrite bool_decide_ext; [done|]. rewrite elem_of_cons. naive_solver.
Qed.

Lemma refresh_nodup n now l : NoDup (map prov_node l) -> NoDup (map prov_node (refresh n now l)).
Proof.
  intros Hnd. rewrite refresh_nodes. case_bool_decide as Hin; [by rewrite app_nil_r|].
  apply NoDup_app. split_and!; [done| |apply NoDup_singleton]. by intros x Hx ->%list_elem_of_singleton.
Qed.

Lemma filter_elem {A} (f : A -> bool) l x : x ∈ List.filter f l <-> x ∈ l /\ f x = true.
Proof. rewrite !list_elem_of_In. apply filter_In. Qed.

Lemma records_filter_nodup f l : NoDup (map prov_node l) -> NoDup (map prov_node (List.filter f l)).
Proof.
  induction l as [|r l IH]; cbn; intros Hnd; [done|]. apply NoDup_cons in Hnd as [Hn Hnd].
  destruct (f r); cbn; [|by apply IH]. apply NoDup_cons. split; [|by apply IH].
  intros (x & Hx & Hin)%list_elem_of_fmap. apply Hn, list_elem_of_fmap. exists x.
  by apply filter_elem in Hin as [? _].
Qed.

Lemma retain_records_lookup keep d c : default [] (retain_records keep d !! c) = List.filter keep (default [] (d !! c)).
Proof.
  unfold retain_records. rewrite lookup_omap. destruct (d !! c) as [l|]; [|done]. cbn. by destruct (List.filter keep l).
Qed.

Lemma retain_repr keep d R R' :
  dht_repr d R ->
  (forall c n t, R' !! (c, n) = Some t <-> R !! (c, n) = Some t /\ keep (mkRecord n t) = true) ->
  dht_repr (retain_records keep d) R'.
Proof.
  intros [Hrec Hnd Hne] HR'. split.
  - intros c n t. by rewrite retain_records_lookup, filter_elem, Hrec, HR'.
  - intros c. rewrite retain_records_lookup. by apply records_filter_nodup.
  - intros c. unfold retain_records. rewrite lookup_omap. destruct (d !! c) as [l|]; [|done]. cbn.
    by destruct (List.filter keep l).
Qed.

Lemma announce_repr d R c n now : dht_repr d R -> dht_repr (announce_provider d c n now) (<[(c, n) := now]> R).
Proof.
  intros [Hrec Hnd Hne].
  assert (announce_provider d c n now = <[c := refresh n now (default [] (d !! c))]> d) as ->
    by (unfold announce_provider; by destruct (d !! c)).
  split.
  - intros c' m t. destruct (decide (c' = c)) as [->|Hc].
    + rewrite lookup_insert_eq. cbn [from_option id]. rewrite refresh_elem, Hrec by done.
      destruct (decide (m = n)) as [->|Hm].
      * rewrite lookup_insert_eq. naive_solver.
      * rewrite lookup_insert_ne by congruence. naive_solver.
    + rewrite lookup_insert_ne by done. rewrite Hrec, lookup_insert_ne by congruence. done.
  - intros c'. destruct (decide (c' = c)) as [->|Hc].
    + rewrite lookup_insert_eq. by apply refresh_nodup.
    + by rewrite lookup_insert_ne.
  - intros c'. destruct (decide (c' = c)) as [->|Hc].
    + rewrite lookup_insert_eq. by destruct (default [] (d !! c)) as [|r l]; cbn; [|case_bool_decide].
    + by rewrite lookup_insert_ne.
Qed.

Lemma remove_provider_repr d R c n : dht_repr d R -> dht_repr (remove_provider d c n) (delete (c, n) R).
Proof.
  intros [Hrec Hnd Hne].
  assert (forall c', default [] (remove_provider d c n !! c') =
    if bool_decide (c' = c) then List.filter (other_node n) (default [] (d !! c)) else default [] (d !! c')) as Hl.
  { intros c'. unfold remove_provider. destruct (d !! c) as [l|] eqn:E; [|rewrite E]; cycle 1.
    { case_bool_decide as Hc; [subst; by rewrite E|done]. }
    rewrite lookup_insert_eq. cbn [from_option id]. case_bool_decide as Hc; [subst c'|].
    - destruct (List.filter (other_node n) l); [by rewrite lookup_delete_eq|by rewrite lookup_insert_eq].
    - destruct (List.filter (other_node n) l); by rewrite ?lookup_delete_ne, lookup_insert_ne by done. }
  split.
  - intros c' m t. rewrite Hl. case_bool_decide as Hc; [subst c'|].
    + rewrite filter_elem, Hrec. unfold other_node. cbn. destruct (decide (m = n)) as [->|Hm].
      * rewrite lookup_delete_eq, bool_decide_true by done. naive_solver.
      * rewrite lookup_delete_ne by congruence. rewrite bool_decide_false by done. naive_solver.
    + rewrite Hrec, lookup_delete_ne by congruence. done.
  - intros c'. rewrite Hl. case_bool_decide; [by apply records_filter_nodup|done].
  - intros c'. unfold remove_provider. destruct (d !! c) as [l|] eqn:E.
    + rewrite lookup_insert_eq. destruct (List.filter (other_node n) l) eqn:Ef; destruct (decide (c' = c)) as [->|Hc];
        rewrite ?lookup_delete_eq, ?lookup_delete_ne, ?lookup_insert_eq, ?lookup_insert_ne by done; done.
    + by rewrite E.
Qed.

Lemma dht_exec_repr d R op : dht_repr d R -> dht_repr (dht_exec d op) (dht_spec R op).
Proof.
  intros Hr. destruct op as [c n now|c n|n|now ttl]; cbn [dht_exec dht_spec].
  - by apply announce_repr.
  - by apply remove_provider_repr.
  - apply (retain_repr _ d R); [done|]. intros c m t. rewrite map_lookup_filter_Some. unfold other_node. cbn.
    case_bool_decide; naive_solver.
  - apply (retain_repr _ d R); [done|]. intros c m t. rewrite map_lookup_filter_Some. unfold fresh_record. cbn.
    by rewrite Z.ltb_lt.
Qed.

(** ** Counts *)

Lemma sum_entries_insert f d c l :
  d !! c = None -> sum_entries f (<[c := l]> d) = (f l + sum_entries f d)%nat.
Proof.
  intros Hc. unfold sum_entries. rewrite map_fold_insert_L; [done| |done]. intros. lia.
Qed.

Lemma filter_length_le {A} (f : A -> bool) l : (length (List.filter f l) <= length l)%nat.
Proof. induction l as [|x l IH]; cbn; [lia|]. destruct (f x); cbn; lia. Qed.

(** What [retain] drops and what it keeps add up. *)
Lemma retain_count keep d :
  (provider_count (retain_records keep d) +
   sum_entries (fun l => (length l - length (List.filter keep l))%nat) d = provider_count d)%nat.
Proof.
  unfold provider_count. induction d as [|c l d Hc IH] using map_ind.
  { unfold retain_records. by rewrite omap_empty. }
  rewrite !sum_entries_insert by done. pose proof (filter_length_le keep l) as Hle.
  assert (retain_records keep d !! c = None) as Hn by (unfold retain_records; by rewrite lookup_omap, Hc).
  unfold retain_records in *. destruct (List.filter keep l) as [|r rs] eqn:E.
  - rewrite omap_insert_None by (by rewrite E). rewrite delete_id by done. cbn in *. lia.
  - rewrite (omap_insert_Some _ _ _ _ (r :: rs)) by (by rewrite E). rewrite sum_entries_insert by done. cbn in *. lia.
Qed.

(** ** Properties *)

(** After any sequence of announcements, removals and expiries, the providers of a
    CID are exactly the nodes whose announcement survives, each listed once; a CID
    is counted exactly when it has a provider. *)
Theorem dht_refines_announcements ops :
  let d := foldl dht_exec dht_new ops in
  let R := foldl dht_spec ∅ ops in
  (forall c, NoDup (get_providers d c)) /\
  (forall c n, n ∈ get_providers d c <-> exists t, R !! (c, n) = Some t) /\
  (forall c, is_Some (d !! c) <-> exists n t, R !! (c, n) = Some t).
Proof.
  cbn zeta. assert (dht_repr (foldl dht_exec dht_new ops) (foldl dht_spec ∅ ops)) as [Hrec Hnd Hne].
  { assert (dht_repr dht_new ∅) as H0.
    { split; unfold dht_new; intros; rewrite ?lookup_empty; [|apply NoDup_nil_2|done]. cbn.
      split; [by intros ?%not_elem_of_nil|done]. }
    revert H0. generalize dht_new, (∅ : Announcements).
    induction ops as [|op ops IH]; intros d R Hr; [done|]. cbn. by apply IH, dht_exec_repr. }
  set (d := foldl dht_exec dht_new ops) in *. set (R := foldl dht_spec ∅ ops) in *.
  assert (forall c, get_providers d c = map prov_node (default [] (d !! c))) as Hg
    by (intros c; unfold get_providers; by destruct (d !! c)).
  split_and!.
  - intros c. by rewrite Hg.
  - intros c n. rewrite Hg, list_elem_of_fmap. split.
    + intros ([m t] & -> & Hin). exists t. by apply Hrec.
    + intros [t Ht]. exists (mkRecord n t). by rewrite Hrec.
  - intros c. split.
    + intros [l Hl]. destruct l as [|[n t] l]; [by destruct (Hne c)|]. exists n, t. apply Hrec. rewrite Hl. cbn.
      apply elem_of_cons. by left.
    + intros (n & t & Ht). apply Hrec in Ht. destruct (d !! c) as [l|]; [by eexists|]. by apply not_elem_of_nil in Ht.
Qed.

(** Expiry reports exactly the records it drops. *)
Theorem dht_prune_count d now ttl :
  ((dht_prune_stale d now ttl).2 + provider_count (dht_prune_stale d now ttl).1 = provider_count d)%nat.
Proof. unfold dht_prune_stale. cbn. rewrite Nat.add_comm. apply retain_count. Qed.

(** A concrete table: a refreshed announcement outlives the expiry of an older one. *)
Example dht_run :
  let d := foldl dht_exec dht_new
    [Announce [1] [10] 0; Announce [1] [11] 50; Announce [1] [10] 90; Announce [2] [11] 50; Prune 100 20] in
  get_providers d [1] = [[10]] /\ get_providers d [2] = [] /\ dht_cid_count d = 1%nat /\ provider_count d = 1%nat.
Proof. vm_compute. done. Qed.
