(* ===== verification/DhtConc.v ===== *)
(** * Concurrent use of the provider table (crates/craftec-net/src/dht.rs)

    Announcements arrive on tasks of their own while the dispatch loop removes dead
    nodes and the pruner expires records.  The table is a sharded map: an access to one
    entry holds the lock of its shard, and an iteration takes the shards one after
    the other.  However the accesses of the calls interleave, the table holds exactly
    the announcements that were not removed since, and a removal that has finished has
    removed everything it was called for. *)
From Stdlib Require Import ZArith Lia.
From stdpp Require Import base list list_numbers numbers gmap.
From S2P Require Import Prelude Types Instances Wire Dht.

Local Open Scope Z_scope.

(** [dashmap]: which shard holds a key. *)
Class DashMap (K : Type) := { dm_shards : nat; dm_shard : K -> nat }.
Class DashMapLaws (K : Type) `{DM : DashMap K} : Prop := { dm_shard_lt k : (dm_shard k < dm_shards)%nat }.

(** Where a call is, with what it holds in local variables. *)
Inductive dht_task : Type :=
| AnnounceCall (c : Cid) (n : NodeId)
| RemoveCall (c : Cid) (n : NodeId)
| RemoveEmpty (c : Cid)
| NodeShard (n : NodeId) (i : nat)
| PruneCall (ttl : Z)
| PruneKeys (now ttl : Z) (i : nat) (cids : list Cid)
| PruneEntries (now ttl : Z) (cids : list Cid) (pruned : nat)
| PruneEmpty (i : nat) (pruned : nat)
| CallDone
| PruneDone (pruned : nat).

(** What an access does to the announcements. *)
Inductive dht_event : Type :=
| Announced (c : Cid) (n : NodeId) (now : Z)
| Dropped (c : Cid) (n : NodeId)
| DroppedInShard (i : nat) (n : NodeId)
| Expired (c : Cid) (now ttl : Z)
| Nothing.

Section Concurrent.
Context `{DM : DashMap Cid}.

(** [retain] on one shard: the records of its entries, then its empty entries. *)
Definition retain_shard (i : nat) (keep : ProviderRecord -> bool) (d : DhtProviders) : DhtProviders :=
  map_imap (fun c records =>
    if bool_decide (dm_shard c = i) then match List.filter keep records with [] => None | rs => Some rs end
    else Some records) d.

Definition shard_keys (i : nat) (d : DhtProviders) : list Cid :=
  List.filter (fun c => bool_decide (dm_shard c = i)) (map fst (map_to_list d)).

(** [get_mut(cid)] and [retain] on the records. *)
Definition retain_entry (c : Cid) (keep : ProviderRecord -> bool) (d : DhtProviders) : DhtProviders :=
  alter (List.filter keep) c d.

Definition drop_empty (c : Cid) (d : DhtProviders) : DhtProviders :=
  match d !! c with Some [] => delete c d | _ => d end.

Definition entry_length (c : Cid) (d : DhtProviders) : nat := length (default [] (d !! c)).

(** One access of a call; [clock] is the time at which it happens. *)
Definition dht_access (d : DhtProviders) (t : dht_task) (clock : Z) : DhtProviders * dht_task * dht_event :=
  match t with
  | AnnounceCall c n => (announce_provider d c n clock, CallDone, Announced c n clock)
  | RemoveCall c n => (retain_entry c (other_node n) d, RemoveEmpty c, Dropped c n)
  | RemoveEmpty c => (drop_empty c d, CallDone, Nothing)
  | NodeShard n i =>
      if (i <? dm_shards)%nat then (retain_shard i (other_node n) d, NodeShard n (S i), DroppedInShard i n)
      else (d, CallDone, Nothing)
  | PruneCall ttl => (d, PruneKeys clock ttl 0 [], Nothing)
  | PruneKeys now ttl i cids =>
      if (i <? dm_shards)%nat then (d, PruneKeys now ttl (S i) (cids ++ shard_keys i d), Nothing)
      else (d, PruneEntries now ttl cids 0, Nothing)
  | PruneEntries now ttl (c :: cids) pruned =>
      let d' := retain_entry c (fresh_record now ttl) d in
      (d', PruneEntries now ttl cids (pruned + (entry_length c d - entry_length c d'))%nat, Expired c now ttl)
  | PruneEntries now ttl [] pruned => (d, PruneEmpty 0 pruned, Nothing)
  | PruneEmpty i pruned =>
      if (i <? dm_shards)%nat then (retain_shard i (fun _ => true) d, PruneEmpty (S i) pruned, Nothing)
      else (d, PruneDone pruned, Nothing)
  | t => (d, t, Nothing)
  end.

(** The table, the calls in progress, and the events so far. *)
Record DhtRun : Type := mkDhtRun { dn_table : DhtProviders; dn_tasks : list dht_task; dn_log : list dht_event }.

Definition call_begins (t : dht_task) : bool :=
  match t with AnnounceCall _ _ | RemoveCall _ _ | NodeShard _ 0 | PruneCall _ => true | _ => false end.

Inductive dht_step : DhtRun -> DhtRun -> Prop :=
| dht_call d ts log t : call_begins t = true -> dht_step (mkDhtRun d ts log) (mkDhtRun d (ts ++ [t]) log)
| dht_go d ts log i t clock d' t' e :
    ts !! i = Some t -> dht_access d t clock = (d', t', e) ->
    dht_step (mkDhtRun d ts log) (mkDhtRun d' (<[i := t']> ts) (log ++ [e])).

Definition dht_start : DhtRun := mkDhtRun dht_new [] [].

Definition event_spec (R : Announcements) (e : dht_event) : Announcements :=
  match e with
  | Announced c n now => <[(c, n) := now]> R
  | Dropped c n => delete (c, n) R
  | DroppedInShard i n => filter (fun kv => ~ (dm_shard kv.1.1 = i /\ kv.1.2 = n)) R
  | Expired c now ttl => filter (fun kv => ~ (kv.1.1 = c /\ ~ Z.max 0 (now - kv.2) < ttl)) R
  | Nothing => R
  end.

Definition call_over (t : dht_task) : bool := match t with CallDone | PruneDone _ => true | _ => false end.

(** ** The entries *)

Abbreviation records_of d c := (default [] (d !! c)) (only parsing).

Lemma retain_shard_records (i : nat) (keep : ProviderRecord -> bool) (d : DhtProviders) (c : Cid) :
  records_of (retain_shard i keep d) c = if bool_decide (dm_shard c = i) then List.filter keep (records_of d c) else records_of d c.
Proof.
  unfold retain_shard. rewrite map_lookup_imap. destruct (d !! c) as [l|]; cbn; [|by case_bool_decide].
  case_bool_decide; [|done]. by destruct (List.filter keep l).
Qed.

Lemma retain_entry_records (c : Cid) (keep : ProviderRecord -> bool) (d : DhtProviders) (c' : Cid) :
  records_of (retain_entry c keep d) c' = if bool_decide (c' = c) then List.filter keep (records_of d c') else records_of d c'.
Proof.
  unfold retain_entry. case_bool_decide as E; [subst; rewrite lookup_alter_eq; by destruct (d !! c)|by rewrite lookup_alter_ne].
Qed.

Lemma drop_empty_records (c : Cid) (d : DhtProviders) (c' : Cid) : records_of (drop_empty c d) c' = records_of d c'.
Proof.
  unfold drop_empty. destruct (d !! c) as [[|r l]|] eqn:E; [|done|done].
  destruct (decide (c' = c)) as [->|Hne]; [by rewrite lookup_delete_eq, E|by rewrite lookup_delete_ne].
Qed.

Lemma announce_records (d : DhtProviders) (c : Cid) (n : NodeId) (now : Z) (c' : Cid) :
  records_of (announce_provider d c n now) c' = if bool_decide (c' = c) then refresh n now (records_of d c) else records_of d c'.
Proof.
  assert (announce_provider d c n now = <[c := refresh n now (default [] (d !! c))]> d) as -> by (unfold announce_provider; by destruct (d !! c)).
  case_bool_decide as E; [subst; by rewrite lookup_insert_eq|by rewrite lookup_insert_ne].
Qed.

(** The records are the announcements, each node once per entry. *)
Definition holds (d : DhtProviders) (R : Announcements) : Prop :=
  forall c, NoDup (map prov_node (records_of d c)) /\ forall n t, mkRecord n t ∈ records_of d c <-> R !! (c, n) = Some t.

(** An access that filters some entries. *)
Lemma holds_filter (d d' : DhtProviders) R R' (at_c : Cid -> bool) (keep : ProviderRecord -> bool) :
  holds d R -> (forall c, records_of d' c = if at_c c then List.filter keep (records_of d c) else records_of d c) ->
  (forall c n t, R' !! (c, n) = Some t <-> R !! (c, n) = Some t /\ (at_c c = true -> keep (mkRecord n t) = true)) -> holds d' R'.
Proof.
  intros Hh Hd HR c. destruct (Hh c) as [Hnd Hrec]. rewrite Hd. destruct (at_c c) eqn:E.
  - split; [by apply records_filter_nodup|]. intros n t. rewrite filter_elem, Hrec, HR, E. naive_solver.
  - split; [done|]. intros n t. rewrite Hrec, HR, E. naive_solver.
Qed.

Lemma holds_same (d d' : DhtProviders) R : holds d R -> (forall c, records_of d' c = records_of d c) -> holds d' R.
Proof. intros Hh Hd c. rewrite Hd. apply Hh. Qed.

Lemma other_node_true n m t : other_node n (mkRecord m t) = true <-> m <> n.
Proof. unfold other_node. cbn. case_bool_decide; naive_solver. Qed.

Lemma fresh_record_true now ttl n t : fresh_record now ttl (mkRecord n t) = true <-> Z.max 0 (now - t) < ttl.
Proof. unfold fresh_record. cbn. apply Z.ltb_lt. Qed.

Lemma filter_all {A} (l : list A) : List.filter (fun _ => true) l = l.
Proof. induction l as [|x l IH]; [done|]. cbn. by rewrite IH. Qed.

Lemma access_holds (d : DhtProviders) t clock d' t' e R :
  holds d R -> dht_access d t clock = (d', t', e) -> holds d' (event_spec R e).
Proof.
  intros Hh. destruct t as [c n|c n|c|n i|ttl|now ttl i cids|now ttl [|c cids] k|i k| |k]; cbn [dht_access]; try (by intros [= <- <- <-]).
  - intros [= <- <- <-]. intros c'. rewrite announce_records. cbn [event_spec]. destruct (Hh c') as [Hnd Hrec]. case_bool_decide as E; [subst c'|].
    + split; [by apply refresh_nodup|]. intros m t. rewrite refresh_elem, Hrec by done.
      destruct (decide (m = n)) as [->|Hm]; [rewrite lookup_insert_eq|rewrite lookup_insert_ne by congruence]; naive_solver.
    + split; [done|]. intros m t. rewrite lookup_insert_ne by congruence. apply Hrec.
  - intros [= <- <- <-]. eapply (holds_filter d _ R _ (fun c' => bool_decide (c' = c)) (other_node n)); [done|apply retain_entry_records|].
    intros c' m t. cbn [event_spec]. rewrite lookup_delete_Some, bool_decide_eq_true, other_node_true. destruct (decide (c' = c)), (decide (m = n)); naive_solver.
  - intros [= <- <- <-]. eapply holds_same; [done|]. intros c'. apply drop_empty_records.
  - destruct (i <? dm_shards)%nat; intros [= <- <- <-]; [|done].
    eapply (holds_filter d _ R _ (fun c => bool_decide (dm_shard c = i)) (other_node n)); [done|apply retain_shard_records|].
    intros c m t. cbn [event_spec]. rewrite map_lookup_filter_Some, bool_decide_eq_true, other_node_true. cbn. naive_solver.
  - destruct (i <? dm_shards)%nat; by intros [= <- <- <-].
  - intros [= <- <- <-]. eapply (holds_filter d _ R _ (fun c' => bool_decide (c' = c)) (fresh_record now ttl)); [done|apply retain_entry_records|].
    intros c' m t. cbn [event_spec]. rewrite map_lookup_filter_Some, bool_decide_eq_true, fresh_record_true. cbn.
    destruct (decide (Z.max 0 (now - t) < ttl)); naive_solver.
  - destruct (i <? dm_shards)%nat; intros [= <- <- <-]; [|done]. eapply holds_same; [done|]. intros c. rewrite retain_shard_records, filter_all. by case_bool_decide.
Qed.

(** ** Empty entries *)

(** The call will drop the entry of [c] if it is empty. *)
Definition cleans (t : dht_task) (c : Cid) : Prop :=
  match t with
  | RemoveEmpty c' => c' = c
  | PruneEntries _ _ _ _ => True
  | PruneEmpty i _ => (i <= dm_shard c)%nat
  | _ => False
  end.

Definition covered (d : DhtProviders) (ts : list dht_task) : Prop :=
  forall c, d !! c = Some [] -> exists i t, ts !! i = Some t /\ cleans t c.

Lemma retain_shard_empty (i : nat) (keep : ProviderRecord -> bool) (d : DhtProviders) (c : Cid) :
  retain_shard i keep d !! c = Some [] -> d !! c = Some [] /\ dm_shard c <> i.
Proof.
  unfold retain_shard. rewrite map_lookup_imap. destruct (d !! c) as [l|]; [|done]. cbn. case_bool_decide; [|by intros [= ->]].
  by destruct (List.filter keep l).
Qed.

Lemma retain_entry_empty (c : Cid) (keep : ProviderRecord -> bool) (d : DhtProviders) (c' : Cid) :
  retain_entry c keep d !! c' = Some [] -> c' = c \/ d !! c' = Some [].
Proof. unfold retain_entry. destruct (decide (c' = c)) as [->|]; [by left|]. rewrite lookup_alter_ne by done. by right. Qed.

Lemma drop_empty_empty (c : Cid) (d : DhtProviders) (c' : Cid) : drop_empty c d !! c' = Some [] -> d !! c' = Some [] /\ c' <> c.
Proof.
  unfold drop_empty. destruct (decide (c' = c)) as [->|Hne].
  - destruct (d !! c) as [[|r l]|] eqn:E; [by rewrite lookup_delete_eq|congruence..].
  - destruct (d !! c) as [[|r l]|]; by rewrite ?lookup_delete_ne.
Qed.

Lemma announce_empty (d : DhtProviders) (c : Cid) n now (c' : Cid) : announce_provider d c n now !! c' = Some [] -> d !! c' = Some [].
Proof.
  unfold announce_provider. destruct (decide (c' = c)) as [->|Hne]; [|by destruct (d !! c); rewrite lookup_insert_ne].
  destruct (d !! c) as [[|r l]|]; rewrite lookup_insert_eq; cbn; [done| |done]. by case_bool_decide.
Qed.

Context `{DML : !DashMapLaws Cid}.

(** An access leaves no empty entry behind that nobody will drop. *)
Lemma access_empty (d : DhtProviders) t clock d' t' e c :
  dht_access d t clock = (d', t', e) -> d' !! c = Some [] -> cleans t' c \/ (d !! c = Some [] /\ (cleans t c -> cleans t' c)).
Proof.
  intros Ha Hc. revert Ha. pose proof (dm_shard_lt c) as Hlt.
  destruct t as [c' n|c' n|c'|n i|ttl|now ttl i cids|now ttl [|c' cids] k|i k| |k]; cbn [dht_access]; try (intros [= <- <- <-]; by right).
  - intros [= <- <- <-]. right. split; [by eapply announce_empty|done].
  - intros [= <- <- <-]. apply retain_entry_empty in Hc as [->|Hc]; [by left|by right].
  - intros [= <- <- <-]. apply drop_empty_empty in Hc as [Hc Hne]. right. split; [done|]. by intros ->.
  - destruct (i <? dm_shards)%nat; intros [= <- <- <-]; [|by right]. apply retain_shard_empty in Hc as [Hc _]. by right.
  - destruct (i <? dm_shards)%nat; intros [= <- <- <-]; by right.
  - intros [= <- <- <-]. left. cbn. lia.
  - intros [= <- <- <-]. by left.
  - destruct (i <? dm_shards)%nat eqn:Ei; intros [= <- <- <-]; cbn.
    + apply retain_shard_empty in Hc as [Hc Hne]. right. split; [done|lia].
    + apply Nat.ltb_ge in Ei. right. split; [done|lia].
Qed.

Record run_ok (r : DhtRun) : Prop := {
  ro_holds : holds (dn_table r) (foldl event_spec ∅ (dn_log r));
  ro_covered : covered (dn_table r) (dn_tasks r);
}.

Lemma dht_step_ok r r' : run_ok r -> dht_step r r' -> run_ok r'.
Proof.
  intros [Hh Hc] Hst. destruct Hst as [d ts log t Ht|d ts log i t clock d' t' e Hi Ha]; cbn in *; split; cbn.
  - done.
  - intros c Hd. destruct (Hc c Hd) as (i & t0 & Hi & Ht0). exists i, t0. split; [by apply lookup_app_l_Some|done].
  - rewrite foldl_app. cbn. by eapply access_holds.
  - intros c Hd. pose proof (lookup_lt_Some _ _ _ Hi) as Hlt.
    destruct (access_empty d t clock d' t' e c Ha Hd) as [Hcl|[Hd0 Hcl]].
    + exists i, t'. split; [by apply list_lookup_insert_eq|done].
    + destruct (Hc c Hd0) as (j & t0 & Hj & Ht0). destruct (decide (j = i)) as [->|Hne].
      * assert (t0 = t) as -> by congruence. exists i, t'. split; [by apply list_lookup_insert_eq|by apply Hcl].
      * exists j, t0. split; [by rewrite list_lookup_insert_ne|done].
Qed.

Lemma dht_reachable r : rtc dht_step dht_start r -> run_ok r.
Proof.
  assert (run_ok dht_start) as H0.
  { split; cbn; unfold dht_new.
    - intros c. rewrite lookup_empty. split; [apply NoDup_nil_2|]. intros n t. rewrite lookup_empty. by split; [intros ?%not_elem_of_nil|].
    - intros c. by rewrite lookup_empty. }
  revert H0. generalize dht_start as r0. intros r0 H0 Hr. revert H0. induction Hr as [|r1 r2 r3 Hs _ IH]; intros H0; [done|].
  by eapply IH, dht_step_ok.
Qed.

(** ** Removals *)

(** What a call of [remove_node] or [prune_stale] has to remove. *)
Inductive removal : Type :=
| OfNode (n : NodeId)
| OfStale (now ttl : Z).

Definition removed (x : removal) (r : ProviderRecord) : Prop :=
  match x with
  | OfNode n => prov_node r = n
  | OfStale now ttl => ~ Z.max 0 (now - announced_at r) < ttl
  end.

Definition removal_start (x : removal) : dht_task :=
  match x with OfNode n => NodeShard n 0 | OfStale now ttl => PruneKeys now ttl 0 [] end.

Definition free_of (x : removal) (d : DhtProviders) (c : Cid) : Prop := forall r, r ∈ records_of d c -> ~ removed x r.

(** No such record is announced. *)
Definition not_announced (x : removal) (e : dht_event) : Prop :=
  match e with Announced _ n now => ~ removed x (mkRecord n now) | _ => True end.

Definition dht_step_without (x : removal) (r r' : DhtRun) : Prop :=
  dht_step r r' /\ Forall (not_announced x) (drop (length (dn_log r)) (dn_log r')).

Lemma free_filter (x : removal) (d d' : DhtProviders) (c : Cid) (keep : ProviderRecord -> bool) (b : bool) :
  records_of d' c = (if b then List.filter keep (records_of d c) else records_of d c) -> free_of x d c -> free_of x d' c.
Proof.
  intros Hd Hf r. rewrite Hd. destruct b; [|apply Hf]. intros [Hr _]%filter_elem. by apply Hf.
Qed.

Lemma refresh_member n now l r : r ∈ refresh n now l -> r = mkRecord n now \/ r ∈ l.
Proof.
  induction l as [|r' l IH]; cbn; [intros ->%list_elem_of_singleton; by left|]. case_bool_decide as E.
  - intros [->|Hr]%elem_of_cons; [left; by rewrite E|right; by apply list_elem_of_further].
  - intros [->|Hr]%elem_of_cons; [right; by left|]. destruct (IH Hr) as [->|Hl]; [by left|right; by right].
Qed.

Lemma access_free (x : removal) (d : DhtProviders) t clock d' t' e c :
  dht_access d t clock = (d', t', e) -> not_announced x e -> free_of x d c -> free_of x d' c.
Proof.
  destruct t as [c' n|c' n|c'|n i|ttl|now ttl i cids|now ttl [|c' cids] k|i k| |k]; cbn [dht_access]; try (by intros [= <- <- <-]).
  - intros [= <- <- <-] He Hf r. rewrite announce_records. case_bool_decide; [|apply Hf]. subst. intros [->|Hr]%refresh_member; [done|by apply Hf].
  - intros [= <- <- <-] _. eapply free_filter. apply retain_entry_records.
  - intros [= <- <- <-] _ Hf r. rewrite drop_empty_records. apply Hf.
  - destruct (i <? dm_shards)%nat; intros [= <- <- <-] _; [|done]. eapply free_filter. apply retain_shard_records.
  - destruct (i <? dm_shards)%nat; by intros [= <- <- <-].
  - intros [= <- <- <-] _. eapply free_filter. apply retain_entry_records.
  - destruct (i <? dm_shards)%nat; intros [= <- <- <-] _; [|done]. eapply free_filter. apply retain_shard_records.
Qed.

(** How far the call is. *)
Definition progress (x : removal) (t : dht_task) (d : DhtProviders) : Prop :=
  match x, t with
  | OfNode n, NodeShard m i => m = n /\ forall c, (dm_shard c < i)%nat -> free_of x d c
  | OfStale now ttl, PruneKeys now' ttl' i cids => now' = now /\ ttl' = ttl /\ forall c, (dm_shard c < i)%nat -> free_of x d c \/ c ∈ cids
  | OfStale now ttl, PruneEntries now' ttl' cids _ => now' = now /\ ttl' = ttl /\ forall c, free_of x d c \/ c ∈ cids
  | OfNode _, CallDone | OfStale _ _, PruneEmpty _ _ | OfStale _ _, PruneDone _ => forall c, free_of x d c
  | _, _ => False
  end.

(** Other calls do not undo it. *)
Lemma progress_mono (x : removal) (t : dht_task) (d d' : DhtProviders) : (forall c, free_of x d c -> free_of x d' c) -> progress x t d -> progress x t d'.
Proof. intros Hf. destruct x, t; cbn; naive_solver. Qed.

Lemma shard_keys_elem (i : nat) (d : DhtProviders) c : c ∈ shard_keys i d <-> dm_shard c = i /\ is_Some (d !! c).
Proof.
  unfold shard_keys. rewrite filter_elem, bool_decide_eq_true, list_elem_of_fmap. split.
  - intros [([c' l] & -> & Hl) Hs]. split; [done|]. apply elem_of_map_to_list in Hl. by exists l.
  - intros [Hs [l Hl]]. split; [|done]. exists (c, l). split; [done|by apply elem_of_map_to_list].
Qed.

Lemma filtered_free (x : removal) (d d' : DhtProviders) (c : Cid) (keep : ProviderRecord -> bool) :
  (forall r, keep r = true -> ~ removed x r) -> records_of d' c = List.filter keep (records_of d c) -> free_of x d' c.
Proof. intros Hk Hd r. rewrite Hd. intros [_ Hr]%filter_elem. by apply Hk. Qed.

Lemma progress_access (x : removal) (d : DhtProviders) t clock d' t' e :
  dht_access d t clock = (d', t', e) -> not_announced x e -> progress x t d -> progress x t' d'.
Proof.
  intros Ha He Hp. pose proof (fun c => access_free x d t clock d' t' e c Ha He) as Hf. revert Ha.
  destruct x as [n|now ttl], t as [c' m|c' m|c'|m i|ttl'|now' ttl' i cids|now' ttl' [|c' cids] k|i k| |k]; cbn [progress] in Hp; try done; cbn [dht_access].
  - destruct Hp as [-> Hp]. destruct (i <? dm_shards)%nat eqn:Ei; intros [= <- <- <-].
    + split; [done|]. intros c Hc. destruct (decide (dm_shard c = i)) as [Hs|Hs]; [|apply Hf, Hp; lia].
      apply (filtered_free _ d _ c (other_node n)); [intros [m t] Hm; by apply other_node_true in Hm|]. by rewrite retain_shard_records, bool_decide_true.
    + intros c. apply Hp. apply Nat.ltb_ge in Ei. pose proof (dm_shard_lt c). lia.
  - by intros [= <- <- <-].
  - destruct Hp as (-> & -> & Hp). destruct (i <? dm_shards)%nat eqn:Ei; intros [= <- <- <-]; (split; [done|split; [done|]]).
    + intros c Hc. rewrite elem_of_app, shard_keys_elem. destruct (decide (dm_shard c = i)) as [Hs|Hs]; [|destruct (Hp c ltac:(lia)); auto].
      destruct (d !! c) as [l|] eqn:E; [by right; right|]. left. intros r. rewrite E. by intros ?%not_elem_of_nil.
    + intros c. apply Hp. apply Nat.ltb_ge in Ei. pose proof (dm_shard_lt c). lia.
  - destruct Hp as (-> & -> & Hp). intros [= <- <- <-] c. destruct (Hp c) as [?|?%not_elem_of_nil]; done.
  - destruct Hp as (-> & -> & Hp). intros [= <- <- <-]. split; [done|split; [done|]]. intros c. destruct (decide (c = c')) as [->|Hne].
    + left. apply (filtered_free _ d _ c' (fresh_record now ttl)); [intros [m t] Hm; apply fresh_record_true in Hm; cbn; lia|].
      by rewrite retain_entry_records, bool_decide_true.
    + destruct (Hp c) as [Hc|[->|Hc]%elem_of_cons]; [left; by apply Hf|done|by right].
  - destruct (i <? dm_shards)%nat; intros [= <- <- <-] c; apply Hf, Hp.
  - by intros [= <- <- <-].
Qed.

Lemma progress_step x r r' i t :
  dht_step_without x r r' -> dn_tasks r !! i = Some t -> progress x t (dn_table r) ->
  exists t', dn_tasks r' !! i = Some t' /\ progress x t' (dn_table r').
Proof.
  intros [Hst Hlog] Hi Hp. destruct Hst as [d ts log t0 Ht|d ts log j t0 clock d' t' e Hj Ha]; cbn in *.
  - exists t. split; [by apply lookup_app_l_Some|done].
  - rewrite drop_app_length in Hlog. apply Forall_cons in Hlog as [Hlog _]. destruct (decide (i = j)) as [->|Hne].
    + assert (t0 = t) as -> by congruence. exists t'. split; [apply list_lookup_insert_eq; by eapply lookup_lt_Some|]. exact (progress_access x d t clock d' t' e Ha Hlog Hp).
    + exists t. split; [by rewrite list_lookup_insert_ne|]. eapply progress_mono; [|done]. intros c. exact (access_free x d t0 clock d' t' e c Ha Hlog).
Qed.

(** ** Properties *)

(** C28: In every interleaving of announcements, removals and expiries, access by access, the
    providers of a CID are exactly the nodes whose announcement survives the
    removals that came after it, each listed once; when no call is in progress a
    CID has an entry exactly when it has a provider. *)
Theorem concurrent_table_refines_announcements r :
  rtc dht_step dht_start r ->
  let R := foldl event_spec ∅ (dn_log r) in
  (forall c, NoDup (get_providers (dn_table r) c)) /\
  (forall c n, n ∈ get_providers (dn_table r) c <-> exists t, R !! (c, n) = Some t) /\
  (forallb call_over (dn_tasks r) = true -> forall c, is_Some (dn_table r !! c) <-> exists n t, R !! (c, n) = Some t).
Proof.
  intros Hr. cbn zeta. destruct (dht_reachable r Hr) as [Hh Hc]. set (R := foldl event_spec ∅ (dn_log r)) in *.
  assert (forall c, get_providers (dn_table r) c = map prov_node (default [] (dn_table r !! c))) as Hg
    by (intros c; unfold get_providers; by destruct (dn_table r !! c)).
  split_and!.
  - intros c. rewrite Hg. apply Hh.
  - intros c n. rewrite Hg, list_elem_of_fmap. split.
    + intros ([m t] & -> & Hin). exists t. by apply Hh.
    + intros [t Ht]. exists (mkRecord n t). split; [done|]. by apply Hh.
  - intros Hover c. split.
    + intros [[|[n t] l] Hl].
      * destruct (Hc c Hl) as (i & t & Hi & Ht). apply list_elem_of_lookup_2 in Hi. rewrite forallb_forall in Hover.
        apply list_elem_of_In, Hover in Hi. by destruct t.
      * exists n, t. apply Hh. rewrite Hl. by left.
    + intros (n & t & Ht). apply Hh in Ht. destruct (dn_table r !! c) as [l|]; [by eexists|]. by apply not_elem_of_nil in Ht.
Qed.

(** C21: A call of [remove_node] or [prune_stale] that has finished has removed what it was
    called for, whatever other calls did between its accesses: unless the node announced
    itself again meanwhile it is listed nowhere, and unless a record was announced with
    a time that old no record is left that was stale when the expiry read the clock. *)
Theorem removals_complete x r1 r2 i t :
  dn_tasks r1 !! i = Some (removal_start x) -> rtc (dht_step_without x) r1 r2 -> dn_tasks r2 !! i = Some t -> call_over t = true ->
  forall c p, p ∈ default [] (dn_table r2 !! c) -> ~ removed x p.
Proof.
  intros H1 Hr H2 Ho. assert (exists t0, dn_tasks r1 !! i = Some t0 /\ progress x t0 (dn_table r1)) as Hp.
  { exists (removal_start x). split; [done|]. destruct x; cbn; split_and!; try done; intros; lia. }
  clear H1. induction Hr as [r|r1 r r2 Hs _ IH].
  - destruct Hp as (t0 & Ht0 & Hp). assert (t0 = t) as -> by congruence. destruct x, t; try done; exact Hp.
  - apply IH; [done|]. destruct Hp as (t0 & Ht0 & Hp). by eapply progress_step.
Qed.

(** *** Calls that run alone *)

(** [k] accesses of one call. *)
Fixpoint alone (k : nat) (d : DhtProviders) (t : dht_task) (clock : Z) : DhtProviders * dht_task :=
  match k with
  | O => (d, t)
  | S k => let '(d, t, _) := dht_access d t clock in alone k d t clock
  end.

Theorem remove_provider_alone d c n clock : alone 2 d (RemoveCall c n) clock = (remove_provider d c n, CallDone).
Proof.
  cbn. f_equal. unfold remove_provider, drop_empty, retain_entry. destruct (d !! c) as [l|] eqn:E.
  - assert (alter (List.filter (other_node n)) c d = <[c := List.filter (other_node n) l]> d) as ->; [|done].
    apply map_eq. intros c'. destruct (decide (c' = c)) as [->|Hne].
    + by rewrite lookup_alter_eq, lookup_insert_eq, E.
    + by rewrite lookup_alter_ne, lookup_insert_ne by done.
  - rewrite alter_id by (intros x Hx; congruence). by rewrite E.
Qed.

Lemma node_shards_alone (n : NodeId) (clock : Z) (k : nat) (d : DhtProviders) (i : nat) :
  (i + k <= dm_shards)%nat ->
  exists d', alone k d (NodeShard n i) clock = (d', NodeShard n (i + k)) /\
    forall c, d' !! c = if bool_decide (i <= dm_shard c < i + k)%nat then dht_remove_node d n !! c else d !! c.
Proof.
  revert d i. induction k as [|k IH]; intros d i Hk.
  { exists d. rewrite Nat.add_0_r. split; [done|]. intros c. rewrite bool_decide_false by lia. done. }
  cbn [alone dht_access]. assert ((i <? dm_shards)%nat = true) as -> by (apply Nat.ltb_lt; lia).
  destruct (IH (retain_shard i (other_node n) d) (S i) ltac:(lia)) as (d' & Hd' & Hl). exists d'. split; [by rewrite Hd', Nat.add_succ_r|].
  intros c. rewrite Hl. unfold dht_remove_node, retain_records. rewrite !lookup_omap. unfold retain_shard. rewrite map_lookup_imap.
  destruct (d !! c) as [l|]; cbn; [|by repeat case_bool_decide].
  destruct (decide (dm_shard c = i)) as [He|He]; repeat case_bool_decide; try lia; try done.
Qed.

(** Alone, a removal of a node is the removal of [Dht]. *)
Theorem remove_node_alone d n clock : alone (S dm_shards) d (NodeShard n 0) clock = (dht_remove_node d n, CallDone).
Proof.
  destruct (node_shards_alone n clock dm_shards d 0 ltac:(lia)) as (d' & Hd' & Hl).
  assert (forall k d0 t0, alone (k + 1) d0 t0 clock = let '(d1, t1) := alone k d0 t0 clock in alone 1 d1 t1 clock) as Happ.
  { induction k as [|k IH]; intros d0 t0; [done|]. cbn [Nat.add alone]. destruct (dht_access d0 t0 clock) as [[d1 t1] e]. apply IH. }
  replace (S dm_shards) with (dm_shards + 1)%nat by lia. rewrite Happ, Hd'. cbn [alone dht_access Nat.add]. rewrite Nat.ltb_irrefl. f_equal.
  apply map_eq. intros c. rewrite Hl, bool_decide_true; [done|]. pose proof (dm_shard_lt c). lia.
Qed.

End Concurrent.

(** ** A run *)

(** Two shards. *)
#[local] Instance two_shards : DashMap Cid := {| dm_shards := 2; dm_shard c := if bool_decide (c = [1]) then 0%nat else 1%nat |}.
#[local] Instance two_shards_laws : DashMapLaws Cid.
Proof. split. intros c. cbn. case_bool_decide; lia. Qed.

(** Calls and accesses in a given order. *)
Definition do_call (r : DhtRun) (t : dht_task) : DhtRun := mkDhtRun (dn_table r) (dn_tasks r ++ [t]) (dn_log r).
Definition do_access (r : DhtRun) (x : nat * Z) : DhtRun :=
  match dn_tasks r !! x.1 with
  | Some t => let '(d, t, e) := dht_access (dn_table r) t x.2 in mkDhtRun d (<[x.1 := t]> (dn_tasks r)) (dn_log r ++ [e])
  | None => r
  end.

Lemma do_calls r ts : forallb call_begins ts = true -> rtc dht_step r (foldl do_call r ts).
Proof.
  revert r. induction ts as [|t ts IH]; intros r; cbn; [intros _; apply rtc_refl|]. intros [Ht Hts]%andb_true_iff.
  eapply rtc_l; [|by apply IH]. destruct r. by apply dht_call.
Qed.

Lemma do_access_step r x : dht_step r (do_access r x) \/ do_access r x = r.
Proof.
  unfold do_access. destruct (dn_tasks r !! x.1) as [t|] eqn:E; [left|by right]. destruct (dht_access (dn_table r) t x.2) as [[d t'] e] eqn:Ea.
  destruct r as [d0 ts log]. cbn in *. by eapply dht_go.
Qed.

Lemma do_accesses r xs : rtc dht_step r (foldl do_access r xs).
Proof.
  revert r. induction xs as [|x xs IH]; intros r; cbn; [apply rtc_refl|]. destruct (do_access_step r x) as [Hs| ->]; [by eapply rtc_l|done].
Qed.

(** A node that is removed announces itself for an entry the removal has passed. *)
Definition race_calls : DhtRun := foldl do_call dht_start [AnnounceCall [1] [11]; NodeShard [10] 0; AnnounceCall [1] [10]; AnnounceCall [2] [10]].
Definition race_run : DhtRun := foldl do_access race_calls [(0%nat, 1); (1%nat, 2); (2%nat, 3); (3%nat, 4); (1%nat, 5); (1%nat, 6)].

Lemma race_reached : rtc dht_step dht_start race_run.
Proof. transitivity race_calls; [by apply (do_calls dht_start)|apply do_accesses]. Qed.

Lemma concurrent_table_refines_announcements_witness :
  get_providers (dn_table race_run) [1] = [[11]; [10]] /\
  ~ [10] ∈ get_providers (dn_table race_run) [2] /\ ~ is_Some (dn_table race_run !! [2]).
Proof.
  destruct (concurrent_table_refines_announcements race_run race_reached) as (_ & Hp & Hc).
  assert (forall n, foldl event_spec ∅ (dn_log race_run) !! ([2], n) = None) as Hn.
  { intros n. assert (foldl event_spec ∅ (dn_log race_run) = <[([1], [11]) := 1]> (<[([1], [10]) := 3]> ∅)) as -> by (vm_compute; reflexivity).
    rewrite !lookup_insert_ne by (intros Hx; discriminate Hx). apply lookup_empty. }
  split; [vm_compute; reflexivity|]. split.
  - intros Hin. apply Hp in Hin as [t Ht]. rewrite Hn in Ht. discriminate Ht.
  - intros Hin. apply Hc in Hin as (n & t & Ht); [rewrite Hn in Ht; discriminate Ht|vm_compute; reflexivity].
Defined.

(** An expiry overlaps announcements; the stale record goes, the new ones stay. *)
Definition expiry_calls : DhtRun := foldl do_call dht_start [AnnounceCall [1] [10]; AnnounceCall [2] [10]; PruneCall 20; AnnounceCall [1] [11]].
Definition expiry_run : DhtRun :=
  foldl do_access expiry_calls [(0%nat, 0); (1%nat, 0); (2%nat, 50); (2%nat, 51); (3%nat, 60); (2%nat, 61); (2%nat, 62); (2%nat, 63); (2%nat, 64); (2%nat, 65); (2%nat, 66); (2%nat, 67); (2%nat, 68)].

Example expiry_result :
  dn_tasks expiry_run !! 2%nat = Some (PruneDone 2) /\ get_providers (dn_table expiry_run) [1] = [[11]] /\ dn_table expiry_run !! [2] = None.
Proof. vm_compute. done. Qed.

(** A removal that overlaps an announcement of another node. *)
Lemma do_access_without (x : removal) (r : DhtRun) (y : nat * Z) (t : dht_task) (e : dht_event) :
  dn_tasks r !! y.1 = Some t -> dn_log (do_access r y) = dn_log r ++ [e] -> not_announced x e -> dht_step_without x r (do_access r y).
Proof.
  intros Ht He Hn. split; [|rewrite He, drop_app_length; by apply Forall_singleton].
  unfold do_access. rewrite Ht. destruct (dht_access (dn_table r) t y.2) as [[d t'] e'] eqn:Ea. destruct r as [d0 ts log]. cbn in *. by eapply dht_go.
Qed.

Definition removal_begun : DhtRun :=
  foldl do_access (foldl do_call dht_start [AnnounceCall [1] [10]; AnnounceCall [2] [10]; NodeShard [10] 0; AnnounceCall [1] [11]]) [(0%nat, 1); (1%nat, 1)].
Definition removal_ended : DhtRun := foldl do_access removal_begun [(2%nat, 2); (3%nat, 3); (2%nat, 4); (2%nat, 5)].

Lemma removals_complete_witness :
  get_providers (dn_table removal_begun) [1] = [[10]] /\ get_providers (dn_table removal_ended) [1] = [[11]] /\
  ~ mkRecord [10] 1 ∈ default [] (dn_table removal_ended !! [1]).
Proof.
  split; [vm_compute; reflexivity|]. split; [vm_compute; reflexivity|]. intros Hin.
  refine (removals_complete (OfNode [10]) removal_begun removal_ended 2 CallDone _ _ _ _ [1] _ Hin _).
  - vm_compute. reflexivity.
  - eapply rtc_l; [eapply (do_access_without _ _ (2%nat, 2)); [vm_compute; reflexivity|vm_compute; reflexivity|exact I]|].
    eapply rtc_l; [eapply (do_access_without _ _ (3%nat, 3)); [vm_compute; reflexivity|vm_compute; reflexivity|cbn; discriminate]|].
    eapply rtc_l; [eapply (do_access_without _ _ (2%nat, 4)); [vm_compute; reflexivity|vm_compute; reflexivity|exact I]|].
    apply rtc_once. eapply (do_access_without _ _ (2%nat, 5)); [vm_compute; reflexivity|vm_compute; reflexivity|exact I].
  - vm_compute. reflexivity.
  - reflexivity.
  - reflexivity.
Defined.
