(* ===== verification/Pending.v ===== *)
(** * Pending piece fetches (crates/craftec-net/src/pending.rs)

    The rendezvous table between tasks that wait for a piece and the handler that
    receives it.  [tokio]'s oneshot channels are modelled by their state; every
    waiter's channel behaves as a small state machine of its own, whatever the
    other waiters do. *)
From Stdlib Require Import ZArith Lia.
From stdpp Require Import base list list_numbers numbers gmap.
From S2P Require Import Prelude Types Instances Wire Dht.

Local Open Scope Z_scope.

(** A oneshot channel: open, its receiver dropped, a piece delivered, or its sender
    dropped without sending. *)
Inductive Channel : Type :=
| Open
| ReceiverDropped
| Delivered (p : CodedPiece)
| SenderDropped.

Record PendingEntry : Type := mkEntry {
  entry_tx : nat;
  registered_at : Z;
}.

(** The waiters, with the channels created so far. *)
Record PendingFetches : Type := mkPending {
  waiters : gmap Cid (list PendingEntry);
  channels : list Channel;
}.

Definition pending_new : PendingFetches := mkPending ∅ [].

Definition register (s : PendingFetches) (c : Cid) (now : Z) : PendingFetches * nat :=
  let tx := length (channels s) in
  (mkPending (<[c := default [] (waiters s !! c) ++ [mkEntry tx now]]> (waiters s)) (channels s ++ [Open]), tx).

(** Sending on a channel, or dropping its sender, settles it if it is open. *)
Definition settle (v : Channel) (chans : list Channel) (e : PendingEntry) : list Channel :=
  match chans !! entry_tx e with
  | Some Open => <[entry_tx e := v]> chans
  | _ => chans
  end.

(** [let _ = entry.tx.send(piece)] *)
Definition send (p : CodedPiece) : list Channel -> PendingEntry -> list Channel := settle (Delivered p).

Definition resolve (s : PendingFetches) (c : Cid) (p : CodedPiece) : PendingFetches :=
  match waiters s !! c with
  | Some entries => mkPending (delete c (waiters s)) (foldl (send p) (channels s) entries)
  | None => s
  end.

(** The waiting task goes away (its timeout expired). *)
Definition drop_receiver (s : PendingFetches) (tx : nat) : PendingFetches :=
  match channels s !! tx with
  | Some Open => mkPending (waiters s) (<[tx := ReceiverDropped]> (channels s))
  | _ => s
  end.

Definition is_closed (s : PendingFetches) (e : PendingEntry) : bool :=
  match channels s !! entry_tx e with
  | Some Open => false
  | _ => true
  end.

Definition keep_entry (s : PendingFetches) (now max_age : Z) (e : PendingEntry) : bool :=
  negb (max_age <=? Z.max 0 (now - registered_at e)) && negb (is_closed s e).

(** An entry that is not retained is dropped, and its sender with it. *)
Definition pending_prune_stale (s : PendingFetches) (now max_age : Z) : PendingFetches * nat :=
  let dropped := List.filter (fun e => negb (keep_entry s now max_age e)) (concat (map snd (map_to_list (waiters s)))) in
  (mkPending
     (omap (fun es => match List.filter (keep_entry s now max_age) es with [] => None | es => Some es end) (waiters s))
     (foldl (settle SenderDropped) (channels s) dropped),
   length dropped).

Definition pending_count (s : PendingFetches) : nat := size (waiters s).
Definition total_pending (s : PendingFetches) : nat := length (concat (map snd (map_to_list (waiters s)))).

(** ** One waiter's view *)

Inductive pending_op : Type :=
| PRegister (c : Cid) (now : Z)
| PResolve (c : Cid) (p : CodedPiece)
| PDrop (tx : nat)
| PPrune (now max_age : Z).

Definition pending_exec (s : PendingFetches) (op : pending_op) : PendingFetches :=
  match op with
  | PRegister c now => (register s c now).1
  | PResolve c p => resolve s c p
  | PDrop tx => drop_receiver s tx
  | PPrune now max_age => (pending_prune_stale s now max_age).1
  end.

(** What an operation means for the waiter [tx], registered for [c] at [t0]: only
    an open channel moves. *)
Definition waiter_step (tx : nat) (c : Cid) (t0 : Z) (ch : Channel) (op : pending_op) : Channel :=
  match ch, op with
  | Open, PResolve c' p => if bool_decide (c' = c) then Delivered p else Open
  | Open, PDrop tx' => if bool_decide (tx' = tx) then ReceiverDropped else Open
  | Open, PPrune now max_age => if max_age <=? Z.max 0 (now - t0) then SenderDropped else Open
  | _, _ => ch
  end.

Definition entries_of (s : PendingFetches) (c : Cid) : list PendingEntry := default [] (waiters s !! c).

(** Entries name existing channels, and no two entries share one. *)
Record pending_inv (s : PendingFetches) : Prop := {
  pi_range c e : e ∈ entries_of s c -> (entry_tx e < length (channels s))%nat;
  pi_unique c c' e e' : e ∈ entries_of s c -> e' ∈ entries_of s c' -> entry_tx e = entry_tx e' -> c = c' /\ e = e';
}.

(** An open channel of a waiter is still listed under its CID. *)
Definition tracked (s : PendingFetches) (tx : nat) (c : Cid) (t0 : Z) : Prop :=
  channels s !! tx = Some Open -> mkEntry tx t0 ∈ entries_of s c.

Lemma settle_length v chans e : length (settle v chans e) = length chans.
Proof. unfold settle. repeat case_match; by rewrite ?length_insert. Qed.

Lemma settle_all_length v chans es : length (foldl (settle v) chans es) = length chans.
Proof. revert chans. induction es as [|e es IH]; intros chans; cbn; [done|]. by rewrite IH, settle_length. Qed.

Lemma settle_all_lookup v chans es tx :
  v <> Open ->
  foldl (settle v) chans es !! tx =
  match chans !! tx with
  | Some Open => Some (if bool_decide (tx ∈ map entry_tx es) then v else Open)
  | o => o
  end.
Proof.
  intros Hv. revert chans. induction es as [|e es IH]; intros chans; cbn [foldl map].
  { destruct (chans !! tx) as [[]|]; done. }
  rewrite IH. unfold settle. destruct (decide (entry_tx e = tx)) as [Heq|Hne].
  - rewrite Heq. rewrite (bool_decide_true (tx ∈ tx :: _)) by (apply elem_of_cons; by left).
    destruct (chans !! tx) as [ch|] eqn:E; [|by rewrite E]. pose proof (lookup_lt_Some _ _ _ E) as Hlt.
    destruct ch; try (by rewrite E). rewrite list_lookup_insert_eq by done. by destruct v.
  - assert (bool_decide (tx ∈ map entry_tx es) = bool_decide (tx ∈ entry_tx e :: map entry_tx es)) as ->.
    { apply bool_decide_ext. rewrite elem_of_cons. naive_solver. }
    destruct (chans !! entry_tx e) as [[]|]; try done. by rewrite list_lookup_insert_ne.
Qed.

Lemma all_entries s e : e ∈ concat (map snd (map_to_list (waiters s))) <-> exists c, e ∈ entries_of s c.
Proof.
  rewrite list_elem_of_In, in_concat. split.
  - intros (l & Hl & He). apply in_map_iff in Hl as ([c l'] & <- & Hl). apply list_elem_of_In, elem_of_map_to_list in Hl.
    exists c. unfold entries_of. rewrite Hl. by apply list_elem_of_In.
  - intros [c Hc]. unfold entries_of in Hc. destruct (waiters s !! c) as [l|] eqn:E; [|by apply not_elem_of_nil in Hc].
    exists l. split; [|by apply list_elem_of_In]. apply in_map_iff. exists (c, l). split; [done|].
    by apply list_elem_of_In, elem_of_map_to_list.
Qed.

Lemma register_entries s c now c' e :
  e ∈ entries_of (register s c now).1 c' <-> e ∈ entries_of s c' \/ c' = c /\ e = mkEntry (length (channels s)) now.
Proof.
  unfold entries_of, register. cbn. destruct (decide (c' = c)) as [->|Hne].
  - rewrite lookup_insert_eq. cbn. rewrite elem_of_app, list_elem_of_singleton. naive_solver.
  - rewrite lookup_insert_ne by done. naive_solver.
Qed.

Lemma resolve_entries s c p c' : entries_of (resolve s c p) c' = if bool_decide (c' = c) then [] else entries_of s c'.
Proof.
  unfold entries_of, resolve. destruct (waiters s !! c) as [l|] eqn:E; cbn.
  - case_bool_decide; [subst; by rewrite lookup_delete_eq|by rewrite lookup_delete_ne].
  - case_bool_decide; [subst; by rewrite E|done].
Qed.

Lemma prune_entries s now age c :
  entries_of (pending_prune_stale s now age).1 c = List.filter (keep_entry s now age) (entries_of s c).
Proof.
  unfold entries_of, pending_prune_stale. cbn. rewrite lookup_omap. destruct (waiters s !! c) as [l|]; [|done].
  cbn. by destruct (List.filter _ l).
Qed.

Lemma resolve_channels s c p tx :
  channels (resolve s c p) !! tx =
  match channels s !! tx with
  | Some Open => Some (if bool_decide (tx ∈ map entry_tx (entries_of s c)) then Delivered p else Open)
  | o => o
  end.
Proof.
  unfold resolve, entries_of. destruct (waiters s !! c) as [l|]; cbn [channels from_option id].
  - by apply settle_all_lookup.
  - rewrite bool_decide_false by apply not_elem_of_nil. by destruct (channels s !! tx) as [[]|].
Qed.

Lemma pending_exec_inv s op : pending_inv s -> pending_inv (pending_exec s op).
Proof.
  intros [Hr Hu]. destruct op as [c now|c p|tx|now age]; cbn [pending_exec].
  - assert (length (channels (register s c now).1) = S (length (channels s))) as Hlen
      by (cbn; rewrite length_app; cbn; lia).
    split.
    + intros c' e He. rewrite Hlen. apply register_entries in He as [He|[-> ->]]; [apply Hr in He|cbn]; lia.
    + intros c1 c2 e1 e2 H1 H2 Heq. apply register_entries in H1 as [H1|[-> ->]], H2 as [H2|[-> ->]]; cbn in *.
      * by eapply Hu.
      * apply Hr in H1. lia.
      * apply Hr in H2. lia.
      * done.
  - assert (forall c' e, e ∈ entries_of (resolve s c p) c' -> e ∈ entries_of s c') as Hsub.
    { intros c' e. rewrite resolve_entries. case_bool_decide; [by intros ?%not_elem_of_nil|done]. }
    split; [|eauto]. intros c' e He%Hsub%Hr. unfold resolve. destruct (waiters s !! c); cbn; [|done].
    unfold send. by rewrite settle_all_length.
  - unfold drop_receiver. destruct (channels s !! tx) as [[]|]; split; cbn; eauto.
    intros c e He. rewrite length_insert. by eapply Hr.
  - assert (forall c' e, e ∈ entries_of (pending_prune_stale s now age).1 c' -> e ∈ entries_of s c') as Hsub.
    { intros c' e. rewrite prune_entries. by intros [? _]%filter_elem. }
    split; [|eauto]. intros c' e He%Hsub%Hr. cbn. by rewrite settle_all_length.
Qed.

Lemma tracked_closed s op tx ch :
  channels s !! tx = Some ch -> ch <> Open -> channels (pending_exec s op) !! tx = Some ch.
Proof.
  intros Hc Hn. pose proof (lookup_lt_Some _ _ _ Hc) as Hlt. destruct op as [c' now|c' p|tx'|now age]; cbn [pending_exec].
  - cbn. by rewrite lookup_app_l.
  - rewrite resolve_channels, Hc. by destruct ch.
  - unfold drop_receiver. destruct (channels s !! tx') as [ch'|] eqn:E; [|done]. destruct ch'; try done. cbn.
    rewrite list_lookup_insert_ne; [done|]. intros ->. congruence.
  - cbn. rewrite settle_all_lookup, Hc by done. by destruct ch.
Qed.

(** One operation moves a tracked waiter as [waiter_step] says, and leaves it
    tracked. *)
Lemma tracked_step s op tx c t0 ch :
  pending_inv s -> tracked s tx c t0 -> channels s !! tx = Some ch ->
  channels (pending_exec s op) !! tx = Some (waiter_step tx c t0 ch op) /\ tracked (pending_exec s op) tx c t0.
Proof.
  intros Hinv Ht Hc. assert (ch = Open \/ ch <> Open) as [->|Hn] by (destruct ch; [by left|by right..]); cycle 1.
  { rewrite (tracked_closed s op tx ch Hc Hn). split; [by destruct ch|].
    intros Ho. rewrite (tracked_closed s op tx ch Hc Hn) in Ho. congruence. }
  specialize (Ht Hc). pose proof (lookup_lt_Some _ _ _ Hc) as Hlt.
  destruct op as [c' now|c' p|tx'|now age]; cbn [pending_exec waiter_step].
  - split; [cbn; by rewrite lookup_app_l|]. intros _. apply register_entries. by left.
  - rewrite resolve_channels, Hc. case_bool_decide as Hin; case_bool_decide as Hcc; subst.
    + split; [done|]. intros Ho. rewrite resolve_channels, Hc, bool_decide_true in Ho by done. done.
    + exfalso. apply list_elem_of_fmap in Hin as (e & He & Hin).
      by destruct (pi_unique s Hinv c' c e (mkEntry tx t0) Hin Ht) as [? _].
    + exfalso. apply Hin, list_elem_of_fmap. by exists (mkEntry tx t0).
    + split; [done|]. intros _. rewrite resolve_entries, bool_decide_false by done. done.
  - unfold drop_receiver, tracked. case_bool_decide as E; [subst tx'|].
    + rewrite Hc. cbn. rewrite list_lookup_insert_eq by done. done.
    + destruct (channels s !! tx') as [[]|]; cbn; rewrite ?list_lookup_insert_ne by done; done.
  - unfold tracked. rewrite prune_entries, filter_elem. cbn [pending_prune_stale fst channels].
    rewrite settle_all_lookup, Hc by done.
    assert (keep_entry s now age (mkEntry tx t0) = negb (age <=? Z.max 0 (now - t0))) as Hk.
    { unfold keep_entry, is_closed. cbn. rewrite Hc. apply andb_true_r. }
    rewrite Hk. case_bool_decide as Hin.
    + apply list_elem_of_fmap in Hin as (e & He & [Hin Hke]%filter_elem). apply all_entries in Hin as [c' Hin].
      destruct (pi_unique s Hinv c' c e (mkEntry tx t0) Hin Ht) as [_ ->]; [done|]. rewrite Hk, negb_involutive in Hke.
      by rewrite Hke.
    + destruct (age <=? Z.max 0 (now - t0)) eqn:Ea; [|done]. exfalso. apply Hin, list_elem_of_fmap.
      exists (mkEntry tx t0). split; [done|]. apply filter_elem. rewrite Hk. split; [|done]. apply all_entries. by exists c.
Qed.

Lemma waiter_run before c now after :
  let '(s, tx) := register (foldl pending_exec pending_new before) c now in
  channels (foldl pending_exec s after) !! tx = Some (foldl (waiter_step tx c now) Open after).
Proof.
  set (s0 := foldl pending_exec pending_new before).
  assert (pending_inv s0) as H0.
  { assert (pending_inv pending_new) as Hn.
    { split; unfold entries_of, pending_new; cbn; intros *; rewrite ?lookup_empty; by intros ?%not_elem_of_nil. }
    subst s0. revert Hn. generalize pending_new. induction before as [|op ops IH]; intros s Hs; [done|].
    cbn. by apply IH, pending_exec_inv. }
  destruct (register s0 c now) as [s tx] eqn:E.
  assert (s = (register s0 c now).1 /\ tx = length (channels s0)) as [-> ->].
  { unfold register in E. by inversion E. }
  clear E. assert (forall s ch, pending_inv s -> tracked s (length (channels s0)) c now ->
    channels s !! length (channels s0) = Some ch ->
    channels (foldl pending_exec s after) !! length (channels s0) =
      Some (foldl (waiter_step (length (channels s0)) c now) ch after)) as Hrun.
  { induction after as [|op ops IH]; intros s ch Hi Ht Hc; [done|]. cbn.
    destruct (tracked_step s op _ c now ch Hi Ht Hc) as [Hc' Ht']. apply IH; [by apply pending_exec_inv|done|done]. }
  apply Hrun.
  - by apply (pending_exec_inv s0 (PRegister c now)).
  - intros _. apply register_entries. by right.
  - cbn. rewrite lookup_app_r, Nat.sub_diag by lia. done.
Qed.

(** ** Properties *)

(** A task that waits for a CID receives the first piece that arrives for it, unless
    it gave up or was expired before, and nothing else ever changes its channel:
    whatever other tasks register, receive or abandon, its channel goes through
    the states of the one-waiter machine. *)
Theorem waiter_refines_machine before c now after :
  let '(s, tx) := register (foldl pending_exec pending_new before) c now in
  channels (foldl pending_exec s after) !! tx = Some (foldl (waiter_step tx c now) Open after).
Proof.
  apply waiter_run.
Qed.

(** Two waiters for one CID both receive the piece; a third that gave up does not. *)
Example pending_run :
  let p := CodedPiece_new [1] [1] [9] [] in
  let s := foldl pending_exec pending_new
    [PRegister [1] 0; PRegister [1] 5; PRegister [1] 6; PDrop 2; PRegister [2] 6; PResolve [1] p] in
  channels s = [Delivered p; Delivered p; ReceiverDropped; Open] /\
  (pending_prune_stale s 40 30).2 = 1%nat /\ pending_count s = 1%nat.
Proof. vm_compute. done. Qed.
