(* ===== verification/Pool.v ===== *)
(** * Connection pool (crates/craftec-net/src/pool.rs)

    The bounded map of live connections with least-recently-used eviction.  The
    pool stays within its capacity, and an insertion into a full pool evicts
    exactly one connection, one with the oldest use. *)
From Stdlib Require Import ZArith Lia.
From stdpp Require Import base list list_numbers numbers gmap.
From S2P Require Import Prelude Types Instances Wire.

Local Open Scope Z_scope.

Definition DEFAULT_MAX_CONNECTIONS : nat := 256.

(** A connection is a handle; instants are milliseconds. *)
Record PooledConnection : Type := mkConn {
  connection : Z;
  established_at : Z;
  last_used : Z;
}.

Record ConnectionPool : Type := mkPool {
  connections : gmap NodeId PooledConnection;
  max_connections : nat;
}.

Definition pool_with_capacity (max : nat) : ConnectionPool := mkPool ∅ max.

Definition pool_get (p : ConnectionPool) (n : NodeId) (now : Z) : ConnectionPool * option Z :=
  match connections p !! n with
  | Some e =>
      (mkPool (<[n := mkConn (connection e) (established_at e) now]> (connections p)) (max_connections p),
       Some (connection e))
  | None => (p, None)
  end.

(** [iter().min_by_key(|e| e.last_used)]: the first minimum of the iteration. *)
Fixpoint oldest (l : list (NodeId * PooledConnection)) : option (NodeId * PooledConnection) :=
  match l with
  | [] => None
  | x :: l =>
      match oldest l with
      | None => Some x
      | Some y => if last_used y.2 <? last_used x.2 then Some y else Some x
      end
  end.

(** [order] is the iteration order of the concurrent map. *)
Definition evict_lru (order : list (NodeId * PooledConnection) -> list (NodeId * PooledConnection))
    (m : gmap NodeId PooledConnection) : gmap NodeId PooledConnection :=
  match oldest (order (map_to_list m)) with
  | Some (key, _) => delete key m
  | None => m
  end.

Definition pool_insert (p : ConnectionPool) (order : list (NodeId * PooledConnection) -> list (NodeId * PooledConnection))
    (n : NodeId) (conn now : Z) : ConnectionPool :=
  let m := if (max_connections p <=? size (connections p))%nat then evict_lru order (connections p) else connections p in
  mkPool (<[n := mkConn conn now now]> m) (max_connections p).

Definition pool_remove (p : ConnectionPool) (n : NodeId) : ConnectionPool :=
  mkPool (delete n (connections p)) (max_connections p).

(** [cutoff = now - timeout] *)
Definition idle (cutoff : Z) (e : PooledConnection) : bool := last_used e <? cutoff.

Definition prune_idle (p : ConnectionPool) (order : list (NodeId * PooledConnection) -> list (NodeId * PooledConnection))
    (now timeout : Z) : ConnectionPool * list NodeId :=
  let cutoff := now - timeout in
  (mkPool (filter (fun kv => idle cutoff kv.2 = false) (connections p)) (max_connections p),
   map fst (List.filter (fun kv => idle cutoff kv.2) (order (map_to_list (connections p))))).

Definition connected_peers (p : ConnectionPool) : list NodeId := map fst (map_to_list (connections p)).

(** ** Eviction *)

Lemma oldest_spec l x :
  oldest l = Some x -> x ∈ l /\ forall y, y ∈ l -> last_used x.2 <= last_used y.2.
Proof.
  revert x. induction l as [|z l IH]; intros x; cbn; [done|]. destruct (oldest l) as [y|] eqn:E.
  - destruct (IH y eq_refl) as [Hin Hmin]. destruct (last_used y.2 <? last_used z.2) eqn:Hlt; intros [= <-]; bool_to_prop.
    + split; [by apply elem_of_cons; right|]. intros w [->|Hw]%elem_of_cons; [lia|by apply Hmin].
    + split; [by apply elem_of_cons; left|]. intros w [->|Hw]%elem_of_cons; [lia|]. specialize (Hmin w Hw). lia.
  - intros [= <-]. destruct l as [|w l]; [|cbn in E; by repeat case_match].
    split; [by apply elem_of_cons; left|]. intros w [->|Hw]%elem_of_cons; [lia|by apply not_elem_of_nil in Hw].
Qed.

Lemma oldest_some l : l <> [] -> is_Some (oldest l).
Proof. destruct l as [|x l]; [done|]. intros _. cbn. repeat case_match; by eexists. Qed.

(** A non-empty map loses exactly one entry, one with the oldest use. *)
Lemma evict_lru_spec order m :
  (forall l, order l ≡ₚ l) -> m <> ∅ ->
  exists k e, m !! k = Some e /\ evict_lru order m = delete k m /\
    forall k' e', m !! k' = Some e' -> last_used e <= last_used e'.
Proof.
  intros Hord Hm. unfold evict_lru.
  destruct (oldest_some (order (map_to_list m))) as [[k e] Ho].
  { intros Hn. apply Hm, map_to_list_empty_iff. apply Permutation_nil_r. by rewrite <- Hn, Hord. }
  rewrite Ho. apply oldest_spec in Ho as [Hin Hmin]. rewrite Hord in Hin. apply elem_of_map_to_list in Hin.
  exists k, e. split_and!; [done|done|]. intros k' e' He'. apply (Hmin (k', e')). rewrite Hord. by apply elem_of_map_to_list.
Qed.

Lemma evict_size order m :
  (forall l, order l ≡ₚ l) -> size (evict_lru order m) = (size m - 1)%nat.
Proof.
  intros Hord. destruct (decide (m = ∅)) as [->|Hm].
  - assert (order (map_to_list (∅ : gmap NodeId PooledConnection)) = []) as Hn
      by (apply Permutation_nil_r; by rewrite Hord, map_to_list_empty).
    unfold evict_lru. by rewrite Hn.
  - destruct (evict_lru_spec order m Hord Hm) as (k & e & Hk & -> & _). rewrite map_size_delete_Some by by eexists. lia.
Qed.

(** ** Runs *)

Inductive pool_op : Type :=
| PoolGet (n : NodeId) (now : Z)
| PoolInsert (order : list (NodeId * PooledConnection) -> list (NodeId * PooledConnection)) (n : NodeId) (conn now : Z)
| PoolRemove (n : NodeId)
| PoolPrune (order : list (NodeId * PooledConnection) -> list (NodeId * PooledConnection)) (now timeout : Z).

Definition pool_exec (p : ConnectionPool) (op : pool_op) : ConnectionPool :=
  match op with
  | PoolGet n now => (pool_get p n now).1
  | PoolInsert order n conn now => pool_insert p order n conn now
  | PoolRemove n => pool_remove p n
  | PoolPrune order now timeout => (prune_idle p order now timeout).1
  end.

Definition pool_op_ok (op : pool_op) : Prop :=
  match op with
  | PoolInsert order _ _ _ | PoolPrune order _ _ => forall l, order l ≡ₚ l
  | _ => True
  end.

Lemma pool_exec_max p op : max_connections (pool_exec p op) = max_connections p.
Proof. destruct op; cbn; try done. unfold pool_get. by destruct (connections p !! n). Qed.

Lemma insert_size_le (m : gmap NodeId PooledConnection) n e : (size (<[n := e]> m) <= S (size m))%nat.
Proof. rewrite map_size_insert. destruct (m !! n); cbn; lia. Qed.

Lemma pool_exec_bounded p op :
  pool_op_ok op -> (size (connections p) <= Nat.max 1 (max_connections p))%nat ->
  (size (connections (pool_exec p op)) <= Nat.max 1 (max_connections p))%nat.
Proof.
  intros Hop Hs. destruct op as [n now|order n conn now|n|order now timeout]; cbn [pool_exec].
  - unfold pool_get. destruct (connections p !! n) as [e|] eqn:E; [|done]. cbn. rewrite map_size_insert_Some by by eexists. done.
  - unfold pool_insert. cbn. etransitivity; [apply insert_size_le|].
    destruct (max_connections p <=? size (connections p))%nat eqn:E; bool_to_prop; [|lia].
    rewrite evict_size by done. lia.
  - cbn. etransitivity; [apply map_subseteq_size, delete_subseteq|done].
  - cbn. etransitivity; [apply map_subseteq_size, map_filter_subseteq|done].
Qed.

(** ** Properties *)

(** A pool never holds more connections than its capacity (one, if the capacity is
    zero), whatever is inserted, used, removed and pruned. *)
Theorem pool_bounded max ops :
  Forall pool_op_ok ops ->
  (size (connections (foldl pool_exec (pool_with_capacity max) ops)) <= Nat.max 1 max)%nat.
Proof.
  intros Hops. assert (forall p, (size (connections p) <= Nat.max 1 (max_connections p))%nat ->
    (size (connections (foldl pool_exec p ops)) <= Nat.max 1 (max_connections p))%nat) as H.
  { induction Hops as [|op ops Hop Hops IH]; intros p Hp; [done|]. cbn. rewrite <- (pool_exec_max p op).
    apply IH. rewrite pool_exec_max. by apply pool_exec_bounded. }
  apply (H (pool_with_capacity max)). cbn. rewrite map_size_empty. lia.
Qed.

(** An insertion makes the new connection the one that is found, and every other
    connection stays, except one least recently used when the pool was full. *)
Theorem pool_insert_spec p order n conn now :
  (forall l, order l ≡ₚ l) ->
  (pool_get (pool_insert p order n conn now) n now).2 = Some conn /\
  forall n' e, connections p !! n' = Some e -> n' <> n ->
    connections (pool_insert p order n conn now) !! n' = Some e \/
    (connections (pool_insert p order n conn now) = <[n := mkConn conn now now]> (delete n' (connections p)) /\
     (max_connections p <= size (connections p))%nat /\
     forall n'' e', connections p !! n'' = Some e' -> last_used e <= last_used e').
Proof.
  intros Hord. split.
  { unfold pool_get, pool_insert. cbn. by rewrite lookup_insert_eq. }
  intros n' e He Hne. unfold pool_insert. cbn.
  destruct (max_connections p <=? size (connections p))%nat eqn:E; bool_to_prop; [|left; by rewrite lookup_insert_ne].
  assert (connections p <> ∅) as Hm by (intros Hn; by rewrite Hn, lookup_empty in He).
  destruct (evict_lru_spec order (connections p) Hord Hm) as (k & ek & Hk & -> & Hmin).
  rewrite lookup_insert_ne by done. destruct (decide (k = n')) as [->|Hkn].
  - right. rewrite Hk in He. by simplify_eq.
  - left. by rewrite lookup_delete_ne.
Qed.

(** Pruning reports exactly the peers it drops, those unused since the cutoff. *)
Theorem prune_idle_spec p order now timeout n :
  (forall l, order l ≡ₚ l) ->
  (n ∈ (prune_idle p order now timeout).2 <->
   exists e, connections p !! n = Some e /\ last_used e < now - timeout) /\
  connections (prune_idle p order now timeout).1 !! n =
    match connections p !! n with
    | Some e => if last_used e <? now - timeout then None else Some e
    | None => None
    end.
Proof.
  intros Hord. unfold prune_idle. cbn. split.
  - rewrite list_elem_of_fmap. split.
    + intros ([n' e] & -> & Hin). apply list_elem_of_In, filter_In in Hin as [Hin Hidle]. unfold idle in Hidle. cbn in *.
      apply list_elem_of_In in Hin. rewrite Hord in Hin. apply elem_of_map_to_list in Hin. bool_to_prop. eauto.
    + intros (e & He & Hlt). exists (n, e). split; [done|]. apply list_elem_of_In, filter_In. split.
      * apply list_elem_of_In. rewrite Hord. by apply elem_of_map_to_list.
      * unfold idle. cbn. by apply Z.ltb_lt.
  - rewrite map_lookup_filter. destruct (connections p !! n) as [e|]; [|done]. cbn. unfold idle.
    destruct (last_used e <? now - timeout); [by rewrite option_guard_False|by rewrite option_guard_True].
Qed.

(** ** Concrete runs *)

Definition demo_pool : ConnectionPool :=
  foldl pool_exec (pool_with_capacity 2)
    [PoolInsert id [1] 11 0; PoolInsert id [2] 12 5; PoolGet [1] 7].

Lemma pool_bounded_witness :
  (size (connections (foldl pool_exec (pool_with_capacity 2)
    [PoolInsert id [1%Z] 11 0; PoolInsert (@rev _) [2%Z] 12 5; PoolInsert id [3%Z] 13 6])) <= 2)%nat.
Proof.
  apply (pool_bounded 2). apply Forall_cons; split; [intros l; reflexivity|].
  apply Forall_cons; split; [intros l; symmetry; apply Permutation_rev|].
  apply Forall_cons; split; [intros l; reflexivity|apply Forall_nil_2].
Defined.

(** The pool is full; peer 2 is the least recently used. *)
Lemma pool_insert_spec_witness :
  connections (pool_insert demo_pool id [3] 13 9) !! [1] = Some (mkConn 11 0 7) /\
  (pool_get (pool_insert demo_pool id [3] 13 9) [3] 9).2 = Some 13.
Proof.
  destruct (pool_insert_spec demo_pool id [3] 13 9 ltac:(intros l; reflexivity)) as [Hn Hk]. split; [|exact Hn].
  destruct (Hk [1] (mkConn 11 0 7) ltac:(reflexivity) ltac:(discriminate)) as [H|[H _]]; [exact H|].
  exfalso. apply (f_equal (lookup [1])) in H. vm_compute in H. discriminate.
Defined.

Lemma prune_idle_spec_witness : [2] ∈ (prune_idle demo_pool id 10 4).2.
Proof.
  apply (prune_idle_spec demo_pool id 10 4 [2]); [intros l; reflexivity|]. exists (mkConn 12 5 5). split; [reflexivity|cbn; lia].
Defined.
