(* ===== verification/PoolConc.v ===== *)
(** * Concurrent use of the connection pool (crates/craftec-net/src/pool.rs)

    Every message sent and every connection accepted uses the pool, from tasks of
    their own.  An insertion reads the number of entries, looks for the oldest one,
    removes it and inserts: four accesses to the shared map, between which the other
    tasks run.  One insertion at a time keeps the capacity; two that overlap agree on
    the entry to remove, and the pool outgrows any bound. *)
From Stdlib Require Import ZArith Lia.
From stdpp Require Import base list list_numbers numbers strings gmap relations fin_sets infinite.
From S2P Require Import Prelude Types Instances Wire Pool.

Local Open Scope Z_scope.

Abbreviation pool_order := (list (NodeId * PooledConnection) -> list (NodeId * PooledConnection)).

(** Where a call is, with what it holds in local variables. *)
Inductive pool_task : Type :=
| InsCheck (n : NodeId) (conn : Z)
| InsPick (n : NodeId) (conn : Z)
| InsEvict (n : NodeId) (conn : Z) (key : option NodeId)
| InsPut (n : NodeId) (conn : Z)
| InsDone
| GetStart (n : NodeId)
| GetDone (c : option Z)
| RemStart (n : NodeId)
| RemDone.

(** One access of a call; the iteration over the map is one access. *)
Definition pool_access (p : ConnectionPool) (t : pool_task) (order : pool_order) (now : Z) : ConnectionPool * pool_task :=
  match t with
  | InsCheck n c => (p, if (max_connections p <=? size (connections p))%nat then InsPick n c else InsPut n c)
  | InsPick n c => (p, InsEvict n c (option_map fst (oldest (order (map_to_list (connections p))))))
  | InsEvict n c key => (match key with Some k => pool_remove p k | None => p end, InsPut n c)
  | InsPut n c => (mkPool (<[n := mkConn c now now]> (connections p)) (max_connections p), InsDone)
  | GetStart n => let '(p, r) := pool_get p n now in (p, GetDone r)
  | RemStart n => (pool_remove p n, RemDone)
  | t => (p, t)
  end.

(** The pool and the calls in progress. *)
Record PoolRun : Type := mkPoolRun { pr_pool : ConnectionPool; pr_tasks : list pool_task }.

Definition task_begins (t : pool_task) : bool :=
  match t with InsCheck _ _ | GetStart _ | RemStart _ => true | _ => false end.

Inductive pool_step : PoolRun -> PoolRun -> Prop :=
| call p ts t : task_begins t = true -> pool_step (mkPoolRun p ts) (mkPoolRun p (t :: ts))
| access p ts i t order now p' t' :
    ts !! i = Some t -> (forall l, order l ≡ₚ l) -> pool_access p t order now = (p', t') ->
    pool_step (mkPoolRun p ts) (mkPoolRun p' (<[i := t']> ts))
| prune p ts order now timeout :
    pool_step (mkPoolRun p ts) (mkPoolRun (prune_idle p order now timeout).1 ts).

Definition inserting (t : pool_task) : bool :=
  match t with InsPick _ _ | InsEvict _ _ _ | InsPut _ _ => true | _ => false end.

(** At most [k] insertions have made their check and not inserted yet. *)
Definition at_a_time (k : nat) (r : PoolRun) : Prop := (length (List.filter inserting (pr_tasks r)) <= k)%nat.

Definition pool_run (k : nat) (r r' : PoolRun) : Prop := pool_step r r' /\ at_a_time k r'.

Definition pool_start (max : nat) : PoolRun := mkPoolRun (pool_with_capacity max) [].

(** ** One insertion at a time *)

(** Alone, the four accesses are [pool_insert]. *)
Theorem insert_alone_atomic p n c order now :
  let step := fun x : ConnectionPool * pool_task => pool_access x.1 x.2 order now in
  step (step (step (step (p, InsCheck n c)))) = (pool_insert p order n c now, InsDone).
Proof.
  cbn. unfold pool_insert. destruct (max_connections p <=? size (connections p))%nat; [|done]. cbn. unfold evict_lru.
  by destruct (oldest (order (map_to_list (connections p)))) as [[k e]|].
Qed.

Section Serial.
Context (max : nat).

Let cap : nat := Nat.max 1 max.

(** What an insertion in progress knows. *)
Definition task_fits (m : gmap NodeId PooledConnection) (t : pool_task) : Prop :=
  match t with
  | InsEvict _ _ (Some k) => is_Some (m !! k) \/ (size m < cap)%nat
  | InsEvict _ _ None | InsPut _ _ => (size m < cap)%nat
  | _ => True
  end.

Record run_fits (r : PoolRun) : Prop := mkRunFits {
  rf_max : max_connections (pr_pool r) = max;
  rf_size : (size (connections (pr_pool r)) <= cap)%nat;
  rf_tasks : Forall (task_fits (connections (pr_pool r))) (pr_tasks r);
}.

(** Entries that go away make room. *)
Lemma fits_smaller (m m' : gmap NodeId PooledConnection) t : m' ⊆ m -> (size m <= cap)%nat -> task_fits m t -> task_fits m' t.
Proof.
  intros Hs Hc. pose proof (map_subseteq_size _ _ Hs) as Hle.
  destruct t as [n c|n c|n c [k|]|n c| | | | |]; cbn; try done; try lia. intros [[e He]|Hlt]; [|lia].
  destruct (m' !! k) as [e'|] eqn:E; [left; by exists e'|right].
  assert (m' ⊂ m) as Hss by (split; [done|intros Hms; by rewrite (lookup_weaken _ _ _ _ He Hms) in E]).
  apply map_subset_size in Hss. lia.
Qed.

Lemma fits_same_keys (m m' : gmap NodeId PooledConnection) t : dom m' = dom m -> task_fits m t -> task_fits m' t.
Proof.
  intros Hd. assert (size m' = size m) as Hsz by (by rewrite <- !size_dom, Hd).
  destruct t as [n c|n c|n c [k|]|n c| | | | |]; cbn; rewrite ?Hsz; try done. intros [He|Hlt]; [left|by right].
  apply elem_of_dom. rewrite Hd. by apply elem_of_dom.
Qed.

Lemma run_shrinks p p' ts :
  connections p' ⊆ connections p -> max_connections p' = max_connections p -> run_fits (mkPoolRun p ts) -> run_fits (mkPoolRun p' ts).
Proof.
  intros Hs Hm [Hmax Hsz Ht]. cbn in *. split; cbn; [congruence|by etransitivity; [apply map_subseteq_size|]|].
  eapply Forall_impl; [exact Ht|]. intros t. by apply fits_smaller.
Qed.

Lemma tasks_insert (P : pool_task -> Prop) ts i t : Forall P ts -> P t -> Forall P (<[i := t]> ts).
Proof. intros Hf Ht. by apply Forall_insert. Qed.

(** While one task inserts, no other waits to. *)
Lemma others_idle ts i t t' :
  (length (List.filter inserting ts) <= 1)%nat -> ts !! i = Some t -> inserting t = true -> inserting t' = false ->
  Forall (fun t => inserting t = false) (<[i := t']> ts).
Proof.
  revert i. induction ts as [|u ts IH]; intros [|i] Hle Hi Ht Ht'; cbn in *; try done.
  - injection Hi as ->. rewrite Ht in Hle. cbn in Hle. constructor; [done|]. apply Forall_forall. intros u Hu. destruct (inserting u) eqn:Eu; [|done].
    assert (u ∈ List.filter inserting ts) as Hin by (apply list_elem_of_In, filter_In; split; [by apply list_elem_of_In|done]).
    destruct (List.filter inserting ts); [by apply not_elem_of_nil in Hin|cbn in Hle; lia].
  - destruct (inserting u) eqn:Eu; [|constructor; [done|by eapply IH]]. cbn in Hle.
    assert (t ∈ List.filter inserting ts) as Hin by (apply list_elem_of_In, filter_In; split; [by apply list_elem_of_In, (list_elem_of_lookup_2 _ i)|done]).
    destruct (List.filter inserting ts); [by apply not_elem_of_nil in Hin|cbn in Hle; lia].
Qed.

Lemma idle_fits (m : gmap NodeId PooledConnection) t : inserting t = false -> task_fits m t.
Proof. by destruct t. Qed.

Lemma access_fits p ts i t order now p' t' :
  at_a_time 1 (mkPoolRun p ts) -> ts !! i = Some t -> (forall l, order l ≡ₚ l) -> pool_access p t order now = (p', t') ->
  run_fits (mkPoolRun p ts) -> run_fits (mkPoolRun p' (<[i := t']> ts)).
Proof.
  intros Hone Hi Hord Ha Hr. pose proof Hr as [Hmax Hsz Ht]. cbn in Hmax, Hsz, Ht. pose proof (Forall_lookup_1 _ _ _ _ Ht Hi) as Hti.
  destruct t as [n c|n c|n c key|n c| |n|c|n|]; cbn in Ha; try (injection Ha as <- <-); try (split; cbn; [done|done|by apply tasks_insert]).
  - split; cbn; [done|done|]. apply tasks_insert; [done|]. destruct (max_connections p <=? size (connections p))%nat eqn:E; cbn; [done|]. bool_to_prop. unfold cap. lia.
  - split; cbn; [done|done|]. apply tasks_insert; [done|]. destruct (oldest (order (map_to_list (connections p)))) as [[k e]|] eqn:Eo; cbn.
    + left. apply oldest_spec in Eo as [Hin _]. rewrite Hord in Hin. apply elem_of_map_to_list in Hin. by exists e.
    + destruct (decide (connections p = ∅)) as [->|Hne]; [rewrite map_size_empty; unfold cap; lia|]. exfalso.
      destruct (evict_lru_spec order (connections p) Hord Hne) as (k & e & Hk & Hev & _). unfold evict_lru in Hev. rewrite Eo in Hev.
      apply (f_equal (lookup k)) in Hev. by rewrite lookup_delete_eq, Hk in Hev.
  - destruct key as [k|]; [|split; cbn; [done|done|by apply tasks_insert]].
    assert (run_fits (mkPoolRun (pool_remove p k) ts)) as [Hm' Hs' Ht'] by (eapply run_shrinks; [apply delete_subseteq|done|done]).
    split; [done|done|]. apply tasks_insert; [done|]. cbn in *. destruct Hti as [[e He]|Hlt].
    + rewrite map_size_delete_Some by by eexists. assert (size (connections p) <> 0%nat); [|lia]. intros Hz. apply map_size_empty_inv in Hz. by rewrite Hz in He.
    + eapply Nat.le_lt_trans; [apply map_subseteq_size, delete_subseteq|done].
  - split; cbn; [done| |].
    + cbn in Hti. etransitivity; [apply insert_size_le|lia].
    + eapply Forall_impl; [eapply others_idle; [exact Hone|exact Hi|done|done]|]. intros u. apply idle_fits.
  - unfold pool_get in Ha. destruct (connections p !! n) as [e|] eqn:Ee; injection Ha as <- <-; [|split; cbn; [done|done|by apply tasks_insert]].
    assert (dom (<[n := mkConn (connection e) (established_at e) now]> (connections p)) = dom (connections p)) as Hd.
    { rewrite dom_insert_L. apply subseteq_union_1_L, singleton_subseteq_l. by apply elem_of_dom_2 in Ee. }
    split; cbn; [done|by rewrite <- !size_dom, Hd, size_dom|]. apply tasks_insert; [|done]. eapply Forall_impl; [exact Ht|]. intros u. by apply fits_same_keys.
  - destruct (run_shrinks p (pool_remove p n) ts) as [Hm' Hs' Ht']; [apply delete_subseteq|done|done|]. split; [done|done|by apply tasks_insert].
Qed.

Lemma step_fits r r' : at_a_time 1 r -> pool_step r r' -> run_fits r -> run_fits r'.
Proof.
  intros Hone Hs Hr. destruct Hs as [p ts t Ht|p ts i t order now p' t' Hi Hord Ha|p ts order now timeout].
  - destruct Hr as [Hm Hsz Hf]. split; [done|done|]. constructor; [by destruct t|done].
  - by eapply access_fits.
  - eapply run_shrinks; [apply map_filter_subseteq|done|done].
Qed.

End Serial.

(** Any number of lookups, removals and prunings beside one insertion at a time keep
    the pool within its capacity. *)
Theorem serial_inserts_bounded max r :
  rtc (pool_run 1) (pool_start max) r -> (size (connections (pr_pool r)) <= Nat.max 1 max)%nat.
Proof.
  intros Hr. assert (forall a b, rtc (pool_run 1) a b -> at_a_time 1 a -> run_fits max a -> run_fits max b) as Hrun.
  { induction 1 as [a|a a1 b [Hs Ho] _ IH]; [done|]. intros Ha Hf. apply IH; [done|]. by eapply step_fits. }
  apply (rf_size max r). apply (Hrun _ _ Hr); [unfold at_a_time; cbn; lia|]. split; cbn; [done|rewrite map_size_empty; lia|constructor].
Qed.

(** ** Two at a time *)

Definition quiet (r : PoolRun) : Prop := List.filter inserting (pr_tasks r) = [].

Lemma run_call k p ts t : (length (List.filter inserting ts) <= k)%nat -> task_begins t = true -> pool_run k (mkPoolRun p ts) (mkPoolRun p (t :: ts)).
Proof. intros Hk Ht. split; [by constructor|]. unfold at_a_time. cbn. by destruct t. Qed.

Lemma run_access k p ts i t p' t' ts' :
  ts !! i = Some t -> pool_access p t id 0 = (p', t') -> <[i := t']> ts = ts' -> (length (List.filter inserting ts') <= k)%nat ->
  pool_run k (mkPoolRun p ts) (mkPoolRun p' ts').
Proof. intros Hi Ha <- Hk. split; [|done]. by apply (access p ts i t id 0). Qed.

(** An insertion into a pool with room. *)
Lemma grow_room r n : quiet r -> connections (pr_pool r) !! n = None -> (size (connections (pr_pool r)) < max_connections (pr_pool r))%nat ->
  exists r', rtc (pool_run 2) r r' /\ quiet r' /\ (size (connections (pr_pool r')) = S (size (connections (pr_pool r))))%nat.
Proof.
  destruct r as [p ts]. unfold quiet. cbn. intros Hq Hn Hlt. apply Nat.leb_gt in Hlt.
  eexists. split_and!; [eapply rtc_l; [apply (run_call 2 p ts (InsCheck n 0)); [rewrite Hq; cbn; lia|done]|]| |].
  - eapply rtc_l; [eapply (run_access 2 p _ 0); [done|cbn; by rewrite Hlt|done|cbn; rewrite Hq; cbn; lia]|].
    apply rtc_once. eapply (run_access 2 p _ 0); [done|done|done|cbn; rewrite Hq; cbn; lia].
  - done.
  - cbn. by apply map_size_insert_None.
Qed.

(** Two insertions into a full pool that remove the same entry. *)
Lemma grow_full r n1 n2 : quiet r -> n1 <> n2 -> connections (pr_pool r) !! n1 = None -> connections (pr_pool r) !! n2 = None ->
  (max_connections (pr_pool r) <= size (connections (pr_pool r)))%nat ->
  exists r', rtc (pool_run 2) r r' /\ quiet r' /\ (S (size (connections (pr_pool r))) <= size (connections (pr_pool r')))%nat.
Proof.
  destruct r as [p ts]. unfold quiet. cbn. intros Hq Hne Hn1 Hn2 Hle. apply Nat.leb_le in Hle.
  set (key := option_map fst (oldest (map_to_list (connections p)))).
  set (p1 := match key with Some k => pool_remove p k | None => p end). set (p2 := match key with Some k => pool_remove p1 k | None => p1 end).
  assert (forall t1 t2, length (List.filter inserting (t1 :: t2 :: ts)) <= 2)%nat as Hk.
  { intros t1 t2. cbn. rewrite Hq. destruct (inserting t1), (inserting t2); cbn; lia. }
  eexists. split_and!; [eapply rtc_l; [apply (run_call 2 p ts (InsCheck n1 0)); [rewrite Hq; cbn; lia|done]|]| |].
  - eapply rtc_l; [apply (run_call 2 p _ (InsCheck n2 0)); [cbn; rewrite Hq; cbn; lia|done]|].
    eapply rtc_l; [eapply (run_access 2 p _ 0); [done|cbn; by rewrite Hle|done|apply Hk]|].
    eapply rtc_l; [eapply (run_access 2 p _ 1); [done|cbn; by rewrite Hle|done|apply Hk]|].
    eapply rtc_l; [eapply (run_access 2 p _ 0); [done|done|done|apply Hk]|].
    eapply rtc_l; [eapply (run_access 2 p _ 1); [done|done|done|apply Hk]|].
    eapply rtc_l; [eapply (run_access 2 p _ 0 _ p1); [done|done|done|apply Hk]|].
    eapply rtc_l; [eapply (run_access 2 p1 _ 1 _ p2); [done|done|done|apply Hk]|].
    eapply rtc_l; [eapply (run_access 2 p2 _ 0); [done|done|done|apply Hk]|].
    apply rtc_once. eapply (run_access 2 _ _ 1); [done|done|done|apply Hk].
  - done.
  - cbn. assert (connections p2 ⊆ connections p /\ size (connections p) <= S (size (connections p2)))%nat as [Hs Hsz].
    { unfold p2, p1. destruct key as [k|]; cbn; [|split; [done|lia]]. rewrite delete_delete_eq. split; [apply delete_subseteq|].
      rewrite map_size_delete. destruct (connections p !! k); cbn; lia. }
    assert (connections p2 !! n1 = None /\ connections p2 !! n2 = None) as [Hm1 Hm2] by (split; by eapply lookup_weaken_None).
    rewrite map_size_insert_None by (rewrite lookup_insert_ne by done; done). rewrite map_size_insert_None by done. lia.
Qed.

(** Two insertions at a time are enough for the pool to outgrow every bound. *)
Theorem overlapping_inserts_overflow max n :
  exists r, rtc (pool_run 2) (pool_start max) r /\ (n <= size (connections (pr_pool r)))%nat.
Proof.
  assert (exists r, rtc (pool_run 2) (pool_start max) r /\ quiet r /\ (n <= size (connections (pr_pool r)))%nat) as (r & ? & _ & ?); [|by exists r].
  induction n as [|n (r & Hr & Hq & Hn)]; [by exists (pool_start max); split_and!; [apply rtc_refl|done|lia]|].
  set (m := connections (pr_pool r)) in *. set (n1 := fresh (dom m)). set (n2 := fresh ({[n1]} ∪ dom m)).
  assert ((n1 ∉ dom m) /\ (n2 ∉ ({[n1]} ∪ dom m))) as [H1 H2] by (split; apply is_fresh).
  assert (m !! n1 = None /\ m !! n2 = None /\ n1 <> n2) as (Hn1 & Hn2 & Hne).
  { split_and!; [by apply not_elem_of_dom|apply not_elem_of_dom; set_solver|set_solver]. }
  destruct (decide (size m < max_connections (pr_pool r))%nat) as [Hlt|Hge].
  - destruct (grow_room r n1 Hq Hn1 Hlt) as (r' & Hr' & Hq' & Hs). exists r'. split_and!; [by etransitivity|done|fold m in Hs; lia].
  - destruct (grow_full r n1 n2 Hq Hne Hn1 Hn2) as (r' & Hr' & Hq' & Hs); [fold m; lia|]. exists r'. split_and!; [by etransitivity|done|fold m in Hs; lia].
Qed.

(** A run with an insertion beside a lookup. *)
Lemma serial_inserts_bounded_witness :
  exists r, rtc (pool_run 1) (pool_start 1) r /\ size (connections (pr_pool r)) = 1%nat /\ (size (connections (pr_pool r)) <= 1)%nat.
Proof.
  assert (exists r, rtc (pool_run 1) (pool_start 1) r /\ size (connections (pr_pool r)) = 1%nat) as (r & Hr & Hs).
  { eexists. split.
    - eapply rtc_l; [apply (run_call 1 _ [] (InsCheck [7] 3)); [vm_compute; lia|reflexivity]|].
      eapply rtc_l; [apply (run_call 1 _ _ (GetStart [7])); [vm_compute; lia|reflexivity]|].
      eapply rtc_l; [eapply (run_access 1 _ _ 1); [reflexivity|reflexivity|reflexivity|vm_compute; lia]|].
      eapply rtc_l; [eapply (run_access 1 _ _ 0); [reflexivity|reflexivity|reflexivity|vm_compute; lia]|].
      apply rtc_once. eapply (run_access 1 _ _ 1); [reflexivity|reflexivity|reflexivity|vm_compute; lia].
    - vm_compute. reflexivity. }
  exists r. split_and!; [exact Hr|exact Hs|exact (serial_inserts_bounded 1 r Hr)].
Defined.
