(* ===== verification/Endpoint.v ===== *)
(** * Network endpoint (crates/craftec-net/src/endpoint.rs, connection.rs, error.rs)

    Sending and receiving framed messages over pooled connections: [send_message],
    [bootstrap], the routing of accepted connections by ALPN, and the loops that
    read the streams of a connection.  iroh is a parameter: which byte strings are
    public keys, and what every dial, stream and read answers.  The handlers are
    the two traits of connection.rs, so the loops work for any application. *)
From Stdlib Require Import ZArith Lia Ascii.
From stdpp Require Import base list list_numbers numbers strings gmap relations.
From S2P Require Import Prelude Types Instances Wire Hlc Swim Pool.

Local Open Scope Z_scope.

Definition STREAM_READ_TIMEOUT : Z := 30000.
Definition ALPN_CRAFTEC : string := "craftec/0.1".
Definition ALPN_SWIM : string := "craftec-swim/0.1".
Definition ALPN_RPC : string := "/craftec/rpc/1".
Definition MAX_CONCURRENT_RPC_STREAMS : nat := 16.

Inductive NetError : Type :=
| ConnectionFailed (peer reason : string)
| NetTimeout (millis : Z)
| PeerNotFound (peer : string)
| ProtocolError (msg : string)
| BootstrapFailed (msg : string)
| NetSerializationError (msg : string)
| NetIo.

(** ** External code *)

(** [iroh::PublicKey]: [from_bytes] accepts the encodings of curve points, and
    [from_str] parses a printed key; [Display]. *)
Class Iroh : Type := {
  public_key_ok : list Z -> bool;
  public_key_parse : string -> option (list Z);
  public_key_display : list Z -> string;
}.

(** ** Traits *)

Class ConnectionHandler (H E : Type) : Type := {
  handle_wire : H -> NodeId -> WireMessage -> E -> H * option WireMessage;
}.

Class RpcHandler (H E : Type) : Type := {
  handle_request : H -> NodeId -> RpcRequest -> E -> H * RpcResponse;
}.

(** [NullHandler] *)
Definition null_handle (_ : unit) (from : NodeId) (_msg : WireMessage) (_ : unit) : unit * option WireMessage := (tt, None).
#[export] Instance NullHandler : ConnectionHandler unit unit := {| handle_wire := null_handle |}.

(** ** State *)

(** The task that reads a connection's streams. *)
Inductive reader : Type :=
| OutboundReader
| CraftecReader
| SwimReader
| RpcReader.

Record CraftecEndpoint : Type := mkEp {
  ep_node_id : NodeId;
  ep_connections : ConnectionPool;
  ep_swim : Swim;
  ep_hlc : Z;
  ep_readers : list (Z * NodeId * reader);
}.

(** [CraftecEndpoint::new] once iroh is bound. *)
Definition endpoint_new (node_id : NodeId) (max_connections : nat) (wall : Z) : CraftecEndpoint :=
  mkEp node_id (pool_with_capacity max_connections) (swim_new node_id) (hlc_new wall) [].

Definition with_pool (ep : CraftecEndpoint) (p : ConnectionPool) : CraftecEndpoint :=
  mkEp (ep_node_id ep) p (ep_swim ep) (ep_hlc ep) (ep_readers ep).
Definition with_clock (ep : CraftecEndpoint) (hlc : Z) : CraftecEndpoint :=
  mkEp (ep_node_id ep) (ep_connections ep) (ep_swim ep) hlc (ep_readers ep).
Definition with_swim (ep : CraftecEndpoint) (s : Swim) : CraftecEndpoint :=
  mkEp (ep_node_id ep) (ep_connections ep) s (ep_hlc ep) (ep_readers ep).
Definition spawn_reader (ep : CraftecEndpoint) (conn : Z) (peer : NodeId) (r : reader) : CraftecEndpoint :=
  mkEp (ep_node_id ep) (ep_connections ep) (ep_swim ep) (ep_hlc ep) ((conn, peer, r) :: ep_readers ep).

Section Endpoint.
Context `{IR : Iroh} `{HX : Hex}.
Context `{PM : Postcard WireMessage} `{PQ : Postcard RpcRequest} `{PR : Postcard RpcResponse}.

(** ** Sending *)

(** What a send meets: the two clocks, the pool's iteration order, and the answers
    of the dial, of [open_uni], [write_all] and [finish]. *)
Record send_io : Type := mkSendIo {
  si_wall : Z;
  si_now : Z;
  si_order : list (NodeId * PooledConnection) -> list (NodeId * PooledConnection);
  si_dial : result Z string;
  si_open : result unit string;
  si_write : result unit string;
  si_finish : result unit string;
}.

Definition connect (peer : NodeId) (dial : result Z string) : result Z NetError :=
  match dial with
  | Err reason => Err (ConnectionFailed (public_key_display peer) reason)
  | Ok conn => Ok conn
  end.

(** The stream of [send_message] and its three fallible calls. *)
Definition send_stream (peer : NodeId) (io : send_io) : result unit NetError :=
  match si_open io with
  | Err e => Err (ConnectionFailed (hex_encode peer) ("open_uni failed: " +:+ e))
  | Ok _ =>
      match si_write io with
      | Err e => Err (ConnectionFailed (hex_encode peer) ("write_all failed: " +:+ e))
      | Ok _ =>
          match si_finish io with
          | Err e => Err (ConnectionFailed (hex_encode peer) ("stream finish failed: " +:+ e))
          | Ok _ => Ok tt
          end
      end
  end.

(** A cached connection, or a fresh one that is cached and given a reader. *)
Definition conn_to (ep : CraftecEndpoint) (peer : NodeId) (io : send_io)
    : outcome (CraftecEndpoint * result Z NetError) :=
  match pool_get (ep_connections ep) peer (si_now io) with
  | (pool, Some cached) => Returned (with_pool ep pool, Ok cached)
  | (pool, None) =>
      if negb (public_key_ok peer) then Panicked
      else match connect peer (si_dial io) with
      | Err e => Returned (with_pool ep pool, Err e)
      | Ok fresh =>
          let ep := with_pool ep (pool_insert pool (si_order io) peer fresh (si_now io)) in
          Returned (spawn_reader ep fresh peer OutboundReader, Ok fresh)
      end
  end.

(** [send_message]; the last component is the frame a finished stream carries. *)
Definition send_message (ep : CraftecEndpoint) (peer : NodeId) (msg : WireMessage) (io : send_io)
    : outcome (CraftecEndpoint * result unit NetError * option (Z * list Z)) :=
  let hlc_ts := now_next (ep_hlc ep) (si_wall io) in
  let ep := with_clock ep hlc_ts in
  match encode_framed_with_hlc msg hlc_ts with
  | Err _ => Returned (ep, Err (NetSerializationError "encode_framed failed"), None)
  | Ok bytes =>
      match conn_to ep peer io with
      | Panicked => Panicked
      | Returned (ep, Err e) => Returned (ep, Err e, None)
      | Returned (ep, Ok conn) =>
          match send_stream peer io with
          | Err e => Returned (ep, Err e, None)
          | Ok _ => Returned (ep, Ok tt, Some (conn, bytes))
          end
      end
  end.

(** ** Accepting *)

(** One connection of [accept_loop]; [has_rpc] tells whether an RPC handler is
    registered. *)
Definition accept_conn (ep : CraftecEndpoint) (alpn : string) (remote : NodeId) (conn now : Z)
    (order : list (NodeId * PooledConnection) -> list (NodeId * PooledConnection)) (has_rpc : bool) : CraftecEndpoint :=
  if bool_decide (alpn = ALPN_CRAFTEC) then
    spawn_reader (with_pool ep (pool_insert (ep_connections ep) order remote conn now)) conn remote CraftecReader
  else if bool_decide (alpn = ALPN_SWIM) then spawn_reader ep conn remote SwimReader
  else if bool_decide (alpn = ALPN_RPC) then
    if has_rpc then spawn_reader ep conn remote RpcReader else ep
  else ep.

(** ** Bootstrap *)

(** [str::split_once('@')] *)
Fixpoint split_once (sep : ascii) (s : string) : option (string * string) :=
  match s with
  | EmptyString => None
  | String c s =>
      if Ascii.eqb c sep then Some (EmptyString, s)
      else match split_once sep s with
      | Some (a, b) => Some (String c a, b)
      | None => None
      end
  end.

(** The public key a bootstrap entry names; the address hint only helps the dial. *)
Definition parse_peer (peer_str : string) : option (list Z) :=
  match split_once "@"%char peer_str with
  | Some (id_hex, _) =>
      match hex_decode id_hex with
      | Some b =>
          if (length b =? 32)%nat then if public_key_ok b then Some b else None else None
      | None => None
      end
  | None => public_key_parse peer_str
  end.

(** One entry: whether the join message was sent, with its frame. *)
Definition bootstrap_peer (ep : CraftecEndpoint) (peer_str : string) (dial : result Z string) (io : send_io)
    : outcome (CraftecEndpoint * option (Z * list Z)) :=
  match parse_peer peer_str with
  | None => Returned (ep, None)
  | Some peer =>
      match connect peer dial with
      | Err _ => Returned (ep, None)
      | Ok conn =>
          let ep := with_pool ep (pool_insert (ep_connections ep) (si_order io) peer conn (si_now io)) in
          let ep := spawn_reader ep conn peer OutboundReader in
          match send_message ep peer (SwimJoin (ep_node_id ep) 0) io with
          | Panicked => Panicked
          | Returned (ep, Ok _, frame) => Returned (ep, frame)
          | Returned (ep, Err _, _) => Returned (ep, None)
          end
      end
  end.

Fixpoint bootstrap_loop (ep : CraftecEndpoint) (peers : list (string * result Z string * send_io)) (connected : nat)
    (frames : list (Z * list Z)) : outcome (CraftecEndpoint * nat * list (Z * list Z)) :=
  match peers with
  | [] => Returned (ep, connected, frames)
  | (peer_str, dial, io) :: peers =>
      match bootstrap_peer ep peer_str dial io with
      | Panicked => Panicked
      | Returned (ep, None) => bootstrap_loop ep peers connected frames
      | Returned (ep, Some f) => bootstrap_loop ep peers (connected + 1) (frames ++ [f])
      end
  end.

Definition bootstrap (ep : CraftecEndpoint) (peers : list (string * result Z string * send_io))
    : outcome (CraftecEndpoint * result unit NetError * list (Z * list Z)) :=
  match peers with
  | [] => Returned (ep, Ok tt, [])
  | _ =>
      match bootstrap_loop ep peers 0 [] with
      | Panicked => Panicked
      | Returned (ep, connected, frames) =>
          if (connected =? 0)%nat then Returned (ep, Err (BootstrapFailed "could not reach any bootstrap peer"), frames)
          else Returned (ep, Ok tt, frames)
      end
  end.

(** ** Reading streams *)

(** What [read_to_end] under its time limit answers. *)
Inductive stream_read : Type :=
| ReadBytes (bytes : list Z)
| ReadFailed
| ReadTimedOut.

(** One accepted stream: the read, the clocks, and whether a reply stream opens and
    takes the bytes. *)
Record stream_io : Type := mkStream {
  st_read : stream_read;
  st_wall : Z;
  st_now : Z;
  st_open : bool;
  st_write : bool;
}.

Inductive flow : Type := Continue | Break.

Inductive SwimReply : Type :=
| SwimReplyNone
| SwimReplySend (msg : WireMessage).

Definition handle_swim_msg (msg : WireMessage) (swim : Swim) (now : Z) : Swim * SwimReply :=
  match msg with
  | SwimPingAck from nonce inc => (mark_alive (resolve_probe swim nonce inc).1 from inc, SwimReplyNone)
  | SwimPing from nonce piggyback =>
      let swim := mark_alive swim from 0 in
      let swim := foldl (fun s m => (handle_message s now m).1) swim piggyback in
      (swim, SwimReplySend (SwimPingAck (local_id swim) nonce (incarnation swim)))
  | SwimAlive node_id inc => (mark_alive swim node_id inc, SwimReplyNone)
  | SwimSuspect node_id inc _ => (mark_suspect swim node_id inc now, SwimReplyNone)
  | SwimDead node_id inc _ => (mark_dead swim node_id inc, SwimReplyNone)
  | SwimJoin node_id _ =>
      let swim := mark_alive swim node_id 0 in
      (swim, SwimReplySend (SwimAlive (local_id swim) (incarnation swim)))
  | _ => (swim, SwimReplyNone)
  end.

(** The frames that leave, and whether the connection still works. *)
Definition send_swim_reply (reply : WireMessage) (io : stream_io) : list (list Z) * bool :=
  match encode_framed reply with
  | Err _ => ([], true)
  | Ok bytes => if st_open io then (if st_write io then [bytes] else [], true) else ([], false)
  end.

Definition swim_dispatch (msg : WireMessage) (swim : Swim) (io : stream_io) : Swim * list (list Z) * flow :=
  let '(swim, r) := handle_swim_msg msg swim (st_now io) in
  match r with
  | SwimReplyNone => (swim, [], Continue)
  | SwimReplySend reply =>
      let '(frames, ok) := send_swim_reply reply io in (swim, frames, if ok then Continue else Break)
  end.

(** A stream of [read_outbound_conn]. *)
Definition outbound_stream (swim : Swim) (hlc : Z) (io : stream_io) : Swim * Z * list (list Z) * flow :=
  match st_read io with
  | ReadFailed => (swim, hlc, [], Break)
  | ReadTimedOut => (swim, hlc, [], Continue)
  | ReadBytes bytes =>
      match decode_framed_with_hlc bytes with
      | Err _ => (swim, hlc, [], Continue)
      | Ok (msg, hlc_ts) =>
          let hlc := if hlc_ts >? 0 then (observe hlc hlc_ts (st_wall io)).1 else hlc in
          if is_swim msg then
            let '(swim, frames, f) := swim_dispatch msg swim io in (swim, hlc, frames, f)
          else (swim, hlc, [], Continue)
      end
  end.

(** The clock check of the other two readers: [None] when the message is dropped. *)
Definition hlc_admits (hlc hlc_ts wall : Z) : option Z :=
  if hlc_ts >? 0 then
    match observe hlc hlc_ts wall with (hlc, Ok _) => Some hlc | (_, Err _) => None end
  else Some hlc.

(** A stream of [handle_swim_conn]. *)
Definition swim_stream (swim : Swim) (hlc : Z) (io : stream_io) : Swim * Z * list (list Z) * flow :=
  match st_read io with
  | ReadFailed => (swim, hlc, [], Break)
  | ReadTimedOut => (swim, hlc, [], Continue)
  | ReadBytes bytes =>
      match decode_framed_with_hlc bytes with
      | Err _ => (swim, hlc, [], Continue)
      | Ok (msg, hlc_ts) =>
          match hlc_admits hlc hlc_ts (st_wall io) with
          | None => (swim, hlc, [], Continue)
          | Some hlc => let '(swim, frames, f) := swim_dispatch msg swim io in (swim, hlc, frames, f)
          end
      end
  end.

(** A stream of [handle_craftec_conn]. *)
Definition craftec_stream {H E} `{ConnectionHandler H E} (remote : NodeId) (h : H) (swim : Swim) (hlc : Z)
    (io : stream_io) (env : E) : H * Swim * Z * list (list Z) * flow :=
  match st_read io with
  | ReadFailed => (h, swim, hlc, [], Break)
  | ReadTimedOut => (h, swim, hlc, [], Continue)
  | ReadBytes bytes =>
      match decode_framed_with_hlc bytes with
      | Err _ => (h, swim, hlc, [], Continue)
      | Ok (msg, hlc_ts) =>
          match hlc_admits hlc hlc_ts (st_wall io) with
          | None => (h, swim, hlc, [], Continue)
          | Some hlc =>
              if is_swim msg then
                let '(swim, frames, f) := swim_dispatch msg swim io in (h, swim, hlc, frames, f)
              else
                match handle_wire h remote msg env with
                | (h, None) => (h, swim, hlc, [], Continue)
                | (h, Some reply) =>
                    match encode_framed reply with
                    | Ok reply_bytes => (h, swim, hlc, if st_open io && st_write io then [reply_bytes] else [], Continue)
                    | Err _ => (h, swim, hlc, [], Continue)
                    end
                end
          end
      end
  end.

(** The loops: the streams in the order they are accepted; the end of the list is
    the error of [accept_uni] that ends the task. *)
Fixpoint read_outbound_conn (swim : Swim) (hlc : Z) (streams : list stream_io) : Swim * Z * list (list Z) :=
  match streams with
  | [] => (swim, hlc, [])
  | io :: streams =>
      let '(swim, hlc, frames, f) := outbound_stream swim hlc io in
      match f with
      | Break => (swim, hlc, frames)
      | Continue => let '(swim, hlc, rest) := read_outbound_conn swim hlc streams in (swim, hlc, frames ++ rest)
      end
  end.

Fixpoint handle_swim_conn (swim : Swim) (hlc : Z) (streams : list stream_io) : Swim * Z * list (list Z) :=
  match streams with
  | [] => (swim, hlc, [])
  | io :: streams =>
      let '(swim, hlc, frames, f) := swim_stream swim hlc io in
      match f with
      | Break => (swim, hlc, frames)
      | Continue => let '(swim, hlc, rest) := handle_swim_conn swim hlc streams in (swim, hlc, frames ++ rest)
      end
  end.

Fixpoint handle_craftec_conn {H E} `{ConnectionHandler H E} (remote : NodeId) (h : H) (swim : Swim) (hlc : Z)
    (streams : list (stream_io * E)) : H * Swim * Z * list (list Z) :=
  match streams with
  | [] => (h, swim, hlc, [])
  | (io, env) :: streams =>
      let '(h, swim, hlc, frames, f) := craftec_stream remote h swim hlc io env in
      match f with
      | Break => (h, swim, hlc, frames)
      | Continue =>
          let '(h, swim, hlc, rest) := handle_craftec_conn remote h swim hlc streams in (h, swim, hlc, frames ++ rest)
      end
  end.

(** Streams of any number of connections, in the order they are read. *)
Inductive net_event (E : Type) : Type :=
| NetOutbound (io : stream_io)
| NetSwim (io : stream_io)
| NetCraftec (remote : NodeId) (io : stream_io) (env : E).
#[global] Arguments NetOutbound {E} io.
#[global] Arguments NetSwim {E} io.
#[global] Arguments NetCraftec {E} remote io env.

Definition net_exec {H E} `{ConnectionHandler H E} (h : H) (swim : Swim) (hlc : Z) (ev : net_event E)
    : H * Swim * Z * list (list Z) :=
  match ev with
  | NetOutbound io => let '(swim, hlc, frames, _) := outbound_stream swim hlc io in (h, swim, hlc, frames)
  | NetSwim io => let '(swim, hlc, frames, _) := swim_stream swim hlc io in (h, swim, hlc, frames)
  | NetCraftec remote io env =>
      let '(h, swim, hlc, frames, _) := craftec_stream remote h swim hlc io env in (h, swim, hlc, frames)
  end.

Fixpoint net_run {H E} `{ConnectionHandler H E} (h : H) (swim : Swim) (hlc : Z) (evs : list (net_event E))
    : H * Swim * Z * list (list Z) :=
  match evs with
  | [] => (h, swim, hlc, [])
  | ev :: evs =>
      let '(h, swim, hlc, frames) := net_exec h swim hlc ev in
      let '(h, swim, hlc, rest) := net_run h swim hlc evs in (h, swim, hlc, frames ++ rest)
  end.

(** The task of one bidirectional RPC stream: the response frame, if one leaves. *)
Definition rpc_stream {H E} `{RpcHandler H E} (remote : NodeId) (h : H) (hlc : Z) (io : stream_io) (wall' : Z) (env : E)
    : H * Z * option (list Z) :=
  match st_read io with
  | ReadFailed | ReadTimedOut => (h, hlc, None)
  | ReadBytes bytes =>
      match decode_rpc_request bytes with
      | Err _ => (h, hlc, None)
      | Ok (req, hlc_ts) =>
          let hlc := if hlc_ts >? 0 then (observe hlc hlc_ts (st_wall io)).1 else hlc in
          let '(h, resp) := handle_request h remote req env in
          let hlc := now_next hlc wall' in
          match encode_rpc_response resp hlc with
          | Err _ => (h, hlc, None)
          | Ok resp_bytes => (h, hlc, if st_write io then Some resp_bytes else None)
          end
      end
  end.

End Endpoint.

(** ** RPC connections

    The semaphore of [handle_rpc_conn]: streams are accepted one by one, and their
    tasks end in any order. *)

Record RpcConn : Type := mkRpcConn {
  permits : nat;
  running : list nat;
  dropped : list nat;
}.

Definition rpc_conn_new : RpcConn := mkRpcConn MAX_CONCURRENT_RPC_STREAMS [] [].

Definition rpc_accept (c : RpcConn) (stream : nat) : RpcConn :=
  match permits c with
  | O => mkRpcConn 0 (running c) (stream :: dropped c)
  | S p => mkRpcConn p (stream :: running c) (dropped c)
  end.

Inductive rpc_conn_step : RpcConn -> RpcConn -> Prop :=
| rpc_step_accept c stream : rpc_conn_step c (rpc_accept c stream)
| rpc_step_end c pre stream post :
    running c = pre ++ stream :: post -> rpc_conn_step c (mkRpcConn (permits c + 1) (pre ++ post) (dropped c)).

(** ** Membership through the endpoint *)

(** The claims of a message as [handle_swim_msg] treats them: a ping also says that
    its sender is alive. *)
Definition msg_claims (C : NodeId -> Z -> Prop) (msg : WireMessage) : Prop :=
  match msg with
  | SwimPing from _ piggyback => C from 0 /\ Forall (claims_ok C) piggyback
  | _ => claims_ok C msg
  end.

Section MembershipFacts.
Context `{PM : Postcard WireMessage} (C : NodeId -> Z -> Prop).

Definition stream_claims (io : stream_io) : Prop :=
  match st_read io with
  | ReadBytes b => match decode_framed_with_hlc b with Ok (msg, _) => msg_claims C msg | Err _ => True end
  | _ => True
  end.

Lemma swim_msg_basics msg s now : msg_claims C msg -> rtc (swim_basic C) s (handle_swim_msg msg s now).1.
Proof.
  destruct msg as [| | | | | |n port|n i|n i f|n i f| |f nonce pb|f nonce i]; cbn [handle_swim_msg msg_claims claims_ok fst];
    try (intros; apply rtc_refl); try (intros; apply rtc_once; by constructor).
  - intros [Hf Hpb]. eapply rtc_l; [by apply (basic_alive C s f 0)|]. generalize (mark_alive s f 0).
    induction Hpb as [|m pb Hm _ IH]; intros s'; [apply rtc_refl|]. cbn [foldl].
    etransitivity; [by apply (handle_basics C m)|apply IH].
  - intros Hc. unfold resolve_probe. destruct (bool_decide _); cbn [fst].
    + eapply rtc_l; [apply (basic_pending C)|]. apply rtc_once. by constructor.
    + apply rtc_once. by constructor.
Qed.

Lemma dispatch_basics msg s io :
  msg_claims C msg -> rtc (swim_basic C) s (swim_dispatch msg s io).1.1 /\ (length (swim_dispatch msg s io).1.2 <= 1)%nat.
Proof.
  intros Hm. pose proof (swim_msg_basics msg s (st_now io) Hm) as Hb. unfold swim_dispatch.
  destruct (handle_swim_msg msg s (st_now io)) as [s' [|reply]]; [by split; [|cbn; lia]|].
  unfold send_swim_reply. repeat case_match; simplify_eq; cbn in *; split; try done; lia.
Qed.

(** What one stream may do to the membership table and send back. *)
Definition swim_bounded (s s' : Swim) (frames : list (list Z)) : Prop :=
  rtc (swim_basic C) s s' /\ (length frames <= 1)%nat.

Lemma bounded_none s : swim_bounded s s [].
Proof. split; [apply rtc_refl|cbn; lia]. Qed.

Lemma outbound_bounded s hlc io :
  stream_claims io -> swim_bounded s (outbound_stream s hlc io).1.1.1 (outbound_stream s hlc io).1.2.
Proof.
  unfold stream_claims, outbound_stream. destruct (st_read io) as [b| |]; try (intros; apply bounded_none).
  destruct (decode_framed_with_hlc b) as [[msg ts]|e]; [|intros; apply bounded_none]. intros Hm.
  destruct (is_swim msg); [|apply bounded_none]. pose proof (dispatch_basics msg s io Hm) as Hd.
  by destruct (swim_dispatch msg s io) as [[s' frames] f].
Qed.

Lemma swim_stream_bounded s hlc io :
  stream_claims io -> swim_bounded s (swim_stream s hlc io).1.1.1 (swim_stream s hlc io).1.2.
Proof.
  unfold stream_claims, swim_stream. destruct (st_read io) as [b| |]; try (intros; apply bounded_none).
  destruct (decode_framed_with_hlc b) as [[msg ts]|e]; [|intros; apply bounded_none]. intros Hm.
  destruct (hlc_admits hlc ts (st_wall io)) as [hlc'|]; [|apply bounded_none]. pose proof (dispatch_basics msg s io Hm) as Hd.
  by destruct (swim_dispatch msg s io) as [[s' frames] f].
Qed.

Lemma craftec_bounded {H E} `{ConnectionHandler H E} remote (h : H) s hlc io (env : E) :
  stream_claims io ->
  swim_bounded s (craftec_stream remote h s hlc io env).1.1.1.2 (craftec_stream remote h s hlc io env).1.2.
Proof.
  unfold stream_claims, craftec_stream. destruct (st_read io) as [b| |]; try (intros; apply bounded_none).
  destruct (decode_framed_with_hlc b) as [[msg ts]|e]; [|intros; apply bounded_none]. intros Hm.
  destruct (hlc_admits hlc ts (st_wall io)) as [hlc'|]; [|apply bounded_none]. destruct (is_swim msg).
  - pose proof (dispatch_basics msg s io Hm) as Hd. by destruct (swim_dispatch msg s io) as [[s' frames] f].
  - destruct (handle_wire h remote msg env) as [h' [reply|]]; [|apply bounded_none].
    destruct (encode_framed reply); [|apply bounded_none]. split; [apply rtc_refl|]. cbn. destruct (_ && _); cbn; lia.
Qed.

End MembershipFacts.

Definition event_stream {E} (ev : net_event E) : stream_io :=
  match ev with NetOutbound io | NetSwim io => io | NetCraftec _ io _ => io end.

Section NetFacts.
Context `{PM : Postcard WireMessage} {H E : Type} `{CH : ConnectionHandler H E}.

Lemma net_exec_bounded C (h : H) s hlc (ev : net_event E) :
  stream_claims C (event_stream ev) ->
  swim_bounded C s (net_exec h s hlc ev).1.1.2 (net_exec h s hlc ev).2.
Proof.
  destruct ev as [io|io|remote io env]; cbn [event_stream net_exec]; intros Hc.
  - pose proof (outbound_bounded C s hlc io Hc) as Hb. by destruct (outbound_stream s hlc io) as [[[s' hlc'] fr] f].
  - pose proof (swim_stream_bounded C s hlc io Hc) as Hb. by destruct (swim_stream s hlc io) as [[[s' hlc'] fr] f].
  - pose proof (craftec_bounded C remote h s hlc io env Hc) as Hb.
    by destruct (craftec_stream remote h s hlc io env) as [[[[h' s'] hlc'] fr] f].
Qed.

Lemma net_run_bounded C (h : H) s hlc (evs : list (net_event E)) :
  Forall (fun ev => stream_claims C (event_stream ev)) evs ->
  rtc (swim_basic C) s (net_run h s hlc evs).1.1.2 /\ (length (net_run h s hlc evs).2 <= length evs)%nat.
Proof.
  intros Hc. revert h s hlc. induction Hc as [|ev evs Hev _ IH]; intros h s hlc; [split; [apply rtc_refl|done]|].
  cbn [net_run]. pose proof (net_exec_bounded C h s hlc ev Hev) as [Hb Hl].
  destruct (net_exec h s hlc ev) as [[[h1 s1] hlc1] fr]. destruct (IH h1 s1 hlc1) as [Hb' Hl'].
  destruct (net_run h1 s1 hlc1 evs) as [[[h2 s2] hlc2] rest]. cbn in *. rewrite length_app. split; [by etransitivity|lia].
Qed.

(** However streams of any connections interleave, and whatever they carry: there
    are at most as many answer frames as streams, and a dead member stays dead until
    a stream carries a claim of a higher incarnation for it. *)
Theorem endpoint_membership_safe (C : NodeId -> Z -> Prop) (h : H) s hlc (evs : list (net_event E)) n j :
  members s !! n = Some (Dead j) -> (forall i, C n i -> i <= j) ->
  Forall (fun ev => stream_claims C (event_stream ev)) evs ->
  let '(_, s', _, frames) := net_run h s hlc evs in
  (length frames <= length evs)%nat /\ exists j', j <= j' /\ members s' !! n = Some (Dead j').
Proof.
  intros Hm HC Hev. destruct (net_run_bounded C h s hlc evs Hev) as [Hb Hl].
  destruct (net_run h s hlc evs) as [[[h' s'] hlc'] frames]. split; [done|]. by apply (basics_dead_stays C s).
Qed.

End NetFacts.

(** ** Exchanges *)

Section ExchangeFacts.
Context `{IR : Iroh} `{HX : Hex} `{PML : PostcardLaws WireMessage}.

(** What [send_message] does, on every branch. *)
Lemma send_message_cases ep peer msg io :
  let ts := now_next (ep_hlc ep) (si_wall io) in
  match send_message ep peer msg io with
  | Panicked => connections (ep_connections ep) !! peer = None /\ public_key_ok peer = false
  | Returned (ep', r, frame) =>
      ep_hlc ep' = ts /\ ep_swim ep' = ep_swim ep /\ ep_node_id ep' = ep_node_id ep /\
      match r with
      | Ok _ => exists conn bytes, frame = Some (conn, bytes) /\ encode_framed_with_hlc msg ts = Ok bytes /\
          (exists e, connections (ep_connections ep') !! peer = Some e /\ connection e = conn)
      | Err _ => frame = None
      end
  end.
Proof.
  cbn zeta. unfold send_message. destruct (encode_framed_with_hlc _ _) as [bytes|e] eqn:Ee; [|done].
  unfold conn_to, pool_get. cbn [with_clock ep_connections].
  destruct (connections (ep_connections ep) !! peer) as [e|] eqn:Ep.
  - destruct (send_stream peer io); [|done]. split_and!; try done. exists (connection e), bytes. split_and!; try done.
    cbn. rewrite lookup_insert_eq. by eexists.
  - destruct (public_key_ok peer) eqn:Hk; cbn [negb]; [|done]. unfold connect.
    destruct (si_dial io) as [fresh|reason]; [|done]. destruct (send_stream peer io); [|done].
    split_and!; try done. exists fresh, bytes. split_and!; try done. cbn. rewrite lookup_insert_eq. by eexists.
Qed.

(** The reader of an accepted connection hands a decoded message to the handler
    unless it is membership traffic or out of time. *)
Lemma craftec_stream_message {App Env} `{ConnectionHandler App Env} remote (h : App) s hlc io (env : Env) b msg ts hlc' :
  st_read io = ReadBytes b -> decode_framed_with_hlc b = Ok (msg, ts) -> is_swim msg = false ->
  hlc_admits hlc ts (st_wall io) = Some hlc' ->
  craftec_stream remote h s hlc io env =
  match handle_wire h remote msg env with
  | (h', None) => (h', s, hlc', [], Continue)
  | (h', Some reply) =>
      (h', s, hlc', match encode_framed reply with
                    | Ok f => if st_open io && st_write io then [f] else []
                    | Err _ => [] end, Continue)
  end.
Proof.
  intros Hr Hd Hs Ha. unfold craftec_stream. rewrite Hr, Hd, Ha, Hs.
  destruct (handle_wire h remote msg env) as [h' [reply|]]; [|done]. by destruct (encode_framed reply).
Qed.

(** A message out of time changes nothing there. *)
Lemma craftec_stream_late {App Env} `{ConnectionHandler App Env} remote (h : App) s hlc io (env : Env) b msg ts :
  st_read io = ReadBytes b -> decode_framed_with_hlc b = Ok (msg, ts) -> hlc_admits hlc ts (st_wall io) = None ->
  craftec_stream remote h s hlc io env = (h, s, hlc, [], Continue).
Proof. intros Hr Hd Ha. unfold craftec_stream. by rewrite Hr, Hd, Ha. Qed.

(** The reader of a dialled connection ignores what is not membership traffic. *)
Lemma outbound_stream_ignores s hlc io b msg ts :
  st_read io = ReadBytes b -> decode_framed_with_hlc b = Ok (msg, ts) -> is_swim msg = false ->
  outbound_stream s hlc io = (s, if ts >? 0 then (observe hlc ts (st_wall io)).1 else hlc, [], Continue).
Proof. intros Hr Hd Hs. unfold outbound_stream. by rewrite Hr, Hd, Hs. Qed.

Lemma decode_sent msg ts bytes :
  fits 64 ts -> encode_framed_with_hlc msg ts = Ok bytes -> Z.of_nat (length bytes) <= 2 ^ 32 ->
  decode_framed_with_hlc bytes = Ok (msg, ts).
Proof. intros. rewrite <- (app_nil_r bytes). by apply decode_encode_framed. Qed.

Lemma now_next_fits old wall : fits 64 old -> old < 2 ^ 64 - 1 -> 0 <= wall < 2 ^ 48 -> fits 64 (now_next old wall) /\ 0 < now_next old wall.
Proof. intros Ho Hm Hw. pose proof (now_next_gt old wall Ho Hm Hw). unfold fits in *. lia. Qed.

(** A message that is sent and read in time by the peer's reader reaches the
    peer's handler as it was sent; a late one is dropped without a trace.  The
    handler's answer leaves in a frame that decodes to it; the reader of a
    connection the answer's receiver accepted hands it to the handler there, the
    reader of a connection it dialled ignores it. *)
Theorem message_exchange {App Env} `{ConnectionHandler App Env} ep peer msg io ep' conn bytes remote (h : App) s hlc sio (env : Env) :
  fits 64 (ep_hlc ep) -> ep_hlc ep < 2 ^ 64 - 1 -> 0 <= si_wall io < 2 ^ 48 ->
  send_message ep peer msg io = Returned (ep', Ok tt, Some (conn, bytes)) ->
  is_swim msg = false -> Z.of_nat (length bytes) <= 2 ^ 32 -> st_read sio = ReadBytes bytes ->
  ep_hlc ep < ep_hlc ep' /\
  match hlc_admits hlc (ep_hlc ep') (st_wall sio), craftec_stream remote h s hlc sio env with
  | None, out => out = (h, s, hlc, [], Continue)
  | Some hlc', (h', s', hlc'', frames, f) =>
      s' = s /\ hlc'' = hlc' /\ f = Continue /\ h' = (handle_wire h remote msg env).1 /\
      forall fr, fr ∈ frames -> Z.of_nat (length fr) <= 2 ^ 32 -> exists reply,
        (handle_wire h remote msg env).2 = Some reply /\ decode_framed_with_hlc fr = Ok (reply, 0) /\
        (is_swim reply = false -> forall back a (ha : App) sa hlca aio enva, st_read aio = ReadBytes fr ->
           craftec_stream back ha sa hlca aio enva =
             (let '(h2, r2) := handle_wire ha back reply enva in
              (h2, sa, hlca, match r2 with
                             | Some m => match encode_framed m with
                                         | Ok f => if st_open aio && st_write aio then [f] else [] | Err _ => [] end
                             | None => [] end, Continue)) /\
           outbound_stream a hlca aio = (a, hlca, [], Continue))
  end.
Proof.
  intros Ho Hm Hw Hsend Hns Hlen Hr. pose proof (send_message_cases ep peer msg io) as Hc. cbn zeta in Hc.
  rewrite Hsend in Hc. destruct Hc as (Hts & _ & _ & conn' & bytes' & [= <- <-] & Henc & _).
  destruct (now_next_fits _ _ Ho Hm Hw) as [Hfit Hpos]. rewrite Hts.
  split; [pose proof (now_next_gt _ _ Ho Hm Hw); lia|].
  pose proof (decode_sent msg _ bytes Hfit Henc Hlen) as Hd.
  destruct (hlc_admits hlc _ (st_wall sio)) as [hlc'|] eqn:Ea.
  2: { by eapply craftec_stream_late. }
  erewrite craftec_stream_message by done. destruct (handle_wire h remote msg env) as [h' [reply|]].
  2: { split_and!; try done. intros fr Hf. by apply not_elem_of_nil in Hf. }
  split_and!; try done. intros fr Hf Hl. exists reply. split; [done|].
  destruct (encode_framed reply) as [f|] eqn:Ef; [|by apply not_elem_of_nil in Hf].
  assert (fr = f) as ->. { destruct (_ && _); [by apply list_elem_of_singleton in Hf|by apply not_elem_of_nil in Hf]. }
  assert (decode_framed_with_hlc f = Ok (reply, 0)) as Hdf by (apply decode_sent; [unfold fits; lia|done|done]).
  split; [done|]. intros Hsw back a ha sa hlca aio enva Hra. split.
  - erewrite craftec_stream_message by done. by destruct (handle_wire ha back reply enva) as [h2 [m|]].
  - by rewrite (outbound_stream_ignores a hlca aio f reply 0 Hra Hdf Hsw).
Qed.

(** A cached connection that has broken is never replaced: every further send to
    its peer fails without a dial, however often it is tried. *)
Theorem broken_connection_kept ep peer msg ios c :
  (exists e, connections (ep_connections ep) !! peer = Some e /\ connection e = c) ->
  Forall (fun io => exists e, si_open io = Err e) ios ->
  exists ep', foldl (fun o io => match o with
                     | Some ep => match send_message ep peer msg io with
                                  | Returned (ep', Err _, None) => Some ep' | _ => None end
                     | None => None end) (Some ep) ios = Some ep' /\
    ep_readers ep' = ep_readers ep /\ exists e, connections (ep_connections ep') !! peer = Some e /\ connection e = c.
Proof.
  intros Hc Hio. revert ep Hc. induction Hio as [|io ios [e He] _ IH]; intros ep (en & Hen & Hcn); cbn [foldl].
  { exists ep. split_and!; eauto. }
  assert (exists ep1 e1, send_message ep peer msg io = Returned (ep1, Err e1, None) /\ ep_readers ep1 = ep_readers ep /\
    exists e, connections (ep_connections ep1) !! peer = Some e /\ connection e = c) as (ep1 & e1 & -> & Hr1 & Hc1).
  { unfold send_message. destruct (encode_framed_with_hlc _ _) as [bytes|].
    - unfold conn_to, pool_get. cbn [with_clock ep_connections]. rewrite Hen. unfold send_stream. rewrite He.
      eexists _, _. split_and!; [done|done|]. cbn. rewrite lookup_insert_eq. by eexists.
    - eexists _, _. split_and!; [done|done|]. by exists en. }
  destruct (IH ep1 Hc1) as (ep' & Hf & Hrd & Hex). exists ep'. rewrite <- Hr1. done.
Qed.

End ExchangeFacts.

(** ** Bootstrap *)

Section BootstrapFacts.
Context `{IR : Iroh} `{HX : Hex} `{PM : Postcard WireMessage}.

Definition join_frame (me : NodeId) (f : Z * list Z) : Prop :=
  exists ts, encode_framed_with_hlc (SwimJoin me 0) ts = Ok f.2.

(** The peer is in the pool when the join message is sent, so nothing panics. *)
Lemma bootstrap_peer_spec ep peer_str dial io :
  exists ep' frame, bootstrap_peer ep peer_str dial io = Returned (ep', frame) /\ ep_node_id ep' = ep_node_id ep /\
    forall f, frame = Some f -> join_frame (ep_node_id ep) f.
Proof.
  unfold bootstrap_peer. destruct (parse_peer peer_str) as [peer|]; [|by eexists ep, None].
  destruct (connect peer dial) as [conn|e]; [|by eexists ep, None].
  set (ep1 := spawn_reader _ conn peer OutboundReader).
  pose proof (send_message_cases ep1 peer (SwimJoin (ep_node_id ep1) 0) io) as Hc. cbn zeta in Hc.
  destruct (send_message ep1 peer _ io) as [[[ep' r] frame]|].
  - destruct Hc as (_ & _ & Hn & Hr). destruct r as [[]|e]; eexists _, _; (split_and!; [done|done|]); [|done].
    intros f ->. destruct Hr as (conn' & bytes & [= ->] & He & _). by eexists.
  - destruct Hc as [Hp _]. subst ep1. cbn in Hp. by rewrite lookup_insert_eq in Hp.
Qed.

Lemma bootstrap_loop_spec ep peers n frames :
  length frames = n -> Forall (join_frame (ep_node_id ep)) frames ->
  exists ep' frames', bootstrap_loop ep peers n frames = Returned (ep', length frames', frames') /\
    Forall (join_frame (ep_node_id ep)) frames'.
Proof.
  revert ep n frames. induction peers as [|[[peer_str dial] io] peers IH]; intros ep n frames <- Hf; cbn [bootstrap_loop].
  { by exists ep, frames. }
  destruct (bootstrap_peer_spec ep peer_str dial io) as (ep1 & frame & -> & Hn & Hj). rewrite <- Hn in *.
  destruct frame as [f|]; apply IH; [rewrite length_app; cbn; lia|apply Forall_app; split; [done|]|done|done].
  apply Forall_cons. split; [by apply Hj|by apply Forall_nil_2].
Qed.

(** Bootstrapping returns, and succeeds exactly when no peer is configured or at
    least one was sent this node's join message; nothing else leaves the node. *)
Theorem bootstrap_spec ep peers :
  exists ep' r frames, bootstrap ep peers = Returned (ep', r, frames) /\
    (is_ok r = true <-> peers = [] \/ frames <> []) /\
    Forall (fun f => exists ts, encode_framed_with_hlc (SwimJoin (ep_node_id ep) 0) ts = Ok f.2) frames.
Proof.
  unfold bootstrap. destruct peers as [|p peers].
  { eexists ep, _, []. split_and!; [done|split; [by left|done]|by apply Forall_nil_2]. }
  destruct (bootstrap_loop_spec ep (p :: peers) 0 [] eq_refl (Forall_nil_2 _)) as (ep' & frames & -> & Hf).
  destruct (length frames =? 0)%nat eqn:El; bool_to_prop; eexists _, _, frames; (split_and!; [done| |done]).
  - apply length_zero_iff_nil in El. subst. split; [done|naive_solver].
  - split; [|done]. intros _. right. by intros ->.
Qed.

End BootstrapFacts.

(** ** RPC connections *)

(** The permits and the running streams of a connection always add up to sixteen;
    a stream is turned away exactly when sixteen are running. *)
Theorem rpc_streams_bounded c :
  rtc rpc_conn_step rpc_conn_new c ->
  (permits c + length (running c) = MAX_CONCURRENT_RPC_STREAMS)%nat /\
  forall stream, rpc_accept c stream =
    if (length (running c) =? MAX_CONCURRENT_RPC_STREAMS)%nat
    then mkRpcConn 0 (running c) (stream :: dropped c)
    else mkRpcConn (permits c - 1) (stream :: running c) (dropped c).
Proof.
  intros Hc.
  assert (permits c + length (running c) = MAX_CONCURRENT_RPC_STREAMS)%nat as Hp.
  { assert (permits rpc_conn_new + length (running rpc_conn_new) = MAX_CONCURRENT_RPC_STREAMS)%nat as H0 by done.
    revert H0. induction Hc as [c|c c1 c2 Hs _ IH]; [done|]. intros Hp. apply IH.
    destruct Hs as [c stream|c pre stream post Hr].
    - unfold rpc_accept. destruct (permits c); cbn in *; lia.
    - cbn. rewrite Hr in Hp. rewrite length_app in *. cbn in Hp. lia. }
  split; [done|]. intros stream. unfold rpc_accept. unfold MAX_CONCURRENT_RPC_STREAMS in *.
  destruct (permits c) as [|p] eqn:Ep; destruct (Nat.eqb_spec (length (running c)) 16); try lia; [done|].
  by rewrite Nat.sub_1_r.
Qed.

Section RpcFacts.
Context `{PQL : PostcardLaws RpcRequest} `{PRL : PostcardLaws RpcResponse} {App Env : Type} `{RH : RpcHandler App Env}.

(** A request frame is answered by what the handler returns for it. *)
Lemma rpc_stream_request remote (h : App) hlc io wall' (env : Env) req ts fq :
  fits 64 ts -> encode_rpc_request req ts = Ok fq -> Z.of_nat (length fq) <= 2 ^ 32 -> st_read io = ReadBytes fq ->
  let hlc' := now_next (if ts >? 0 then (observe hlc ts (st_wall io)).1 else hlc) wall' in
  rpc_stream remote h hlc io wall' env =
    ((handle_request h remote req env).1, hlc',
     match encode_rpc_response (handle_request h remote req env).2 hlc' with
     | Ok fr => if st_write io then Some fr else None
     | Err _ => None
     end).
Proof.
  intros Hts He Hl Hr. unfold rpc_stream. rewrite Hr, (decode_encode_request req ts fq) by done.
  destruct (handle_request h remote req env) as [h' resp]. cbn [fst snd]. cbn zeta. by destruct (encode_rpc_response resp _).
Qed.

End RpcFacts.
