(* ===== verification/Network.v ===== *)
(** * A network of endpoints (crates/craftec-net/src/endpoint.rs, pool.rs)

    Any number of nodes that dial, accept, send, read and answer over connections
    which deliver a stream at most once, in any order, or lose it.  Nodes stop and
    start again, and the tasks of a node change its membership table, its clock and
    its application at any time.  iroh authenticates the two ends of a connection and
    refuses a dial to oneself. *)
From Stdlib Require Import ZArith Lia.
From stdpp Require Import base list list_numbers numbers strings gmap relations.
From S2P Require Import Prelude Types Instances Wire Hlc Swim Pool Endpoint.

Local Open Scope Z_scope.

(** The argument of [read_to_end]. *)
Definition READ_LIMIT : Z := 4 * 1024 * 1024.

(** ** State *)

Record link : Type := mkLink { lk_dialer : NodeId; lk_acceptor : NodeId }.

(** A finished stream that was not read yet; [fr_up] when the dialer wrote it. *)
Record frame : Type := mkFrame { fr_conn : Z; fr_up : bool; fr_bytes : list Z }.

(** A message from one node for another. *)
Abbreviation letter := (NodeId * NodeId * WireMessage)%type.

(** [nt_sent] and [nt_handled] record what [send_message] put on a stream and what
    the handlers were given. *)
Record Net (App : Type) : Type := mkNet {
  nt_nodes : gmap NodeId (CraftecEndpoint * App);
  nt_links : gmap Z link;
  nt_accepted : gset Z;
  nt_frames : list frame;
  nt_sent : list letter;
  nt_handled : list letter;
}.
#[global] Arguments mkNet {App} _ _ _ _ _ _.
#[global] Arguments nt_nodes {App} _.
#[global] Arguments nt_links {App} _.
#[global] Arguments nt_accepted {App} _.
#[global] Arguments nt_frames {App} _.
#[global] Arguments nt_sent {App} _.
#[global] Arguments nt_handled {App} _.

Definition net_empty {App} : Net App := mkNet ∅ ∅ ∅ [] [] [].

(** A handler that also records what it is given. *)
Definition log_wire {App Env} `{ConnectionHandler App Env} (h : App * list (NodeId * WireMessage)) (from : NodeId) (msg : WireMessage) (env : Env)
    : (App * list (NodeId * WireMessage)) * option WireMessage :=
  let '(h', reply) := handle_wire h.1 from msg env in ((h', (from, msg) :: h.2), reply).
#[export] Instance logging {App Env} `{ConnectionHandler App Env} : ConnectionHandler (App * list (NodeId * WireMessage)) Env :=
  {| handle_wire := log_wire |}.

(** The task of a connection returns. *)
Definition end_reader (ep : CraftecEndpoint) (c : Z) : CraftecEndpoint :=
  mkEp (ep_node_id ep) (ep_connections ep) (ep_swim ep) (ep_hlc ep) (filter (fun r => r.1.1 <> c) (ep_readers ep)).

Definition after_stream (ep : CraftecEndpoint) (c : Z) (s : Swim) (hlc : Z) (f : flow) : CraftecEndpoint :=
  let ep := with_clock (with_swim ep s) hlc in
  match f with Continue => ep | Break => end_reader ep c end.

#[global] Arguments after_stream : simpl never.

(** The connections an operation dialled are those it spawned a reader for. *)
Definition dialled (ep ep' : CraftecEndpoint) : list (Z * NodeId * reader) :=
  take (length (ep_readers ep') - length (ep_readers ep)) (ep_readers ep').

Definition add_links (a : NodeId) (new : list (Z * NodeId * reader)) (links : gmap Z link) : gmap Z link :=
  foldr (fun r m => <[r.1.1 := mkLink a r.1.2]> m) links new.

(** On which side of connection [c] a node writes. *)
Definition writes_up (links : gmap Z link) (a : NodeId) (c : Z) : bool :=
  match links !! c with Some l => bool_decide (lk_dialer l = a) | None => false end.

Section Network.
Context `{IR : Iroh} `{HX : Hex} {PM : Postcard WireMessage} {App Env : Type} `{CH : ConnectionHandler App Env}.

(** What an operation of the endpoint of [a] that sends [msg] to [b] leaves. *)
Definition net_put (N : Net App) (a : NodeId) (ep : CraftecEndpoint) (h : App) (b : NodeId) (msg : WireMessage)
    (ep' : CraftecEndpoint) (out : option (Z * list Z)) : Net App :=
  let links := add_links a (dialled ep ep') (nt_links N) in
  mkNet (<[a := (ep', h)]> (nt_nodes N)) links (nt_accepted N)
    (match out with Some (c, bytes) => mkFrame c (writes_up links a c) bytes :: nt_frames N | None => nt_frames N end)
    (match out with Some _ => (a, b, msg) :: nt_sent N | None => nt_sent N end) (nt_handled N).

Definition net_accept (N : Net App) (l : link) (c : Z) (ep : CraftecEndpoint) (h : App) (now : Z)
    (order : list (NodeId * PooledConnection) -> list (NodeId * PooledConnection)) (has_rpc : bool) : Net App :=
  mkNet (<[lk_acceptor l := (accept_conn ep ALPN_CRAFTEC (lk_dialer l) c now order has_rpc, h)]> (nt_nodes N))
    (nt_links N) ({[c]} ∪ nt_accepted N) (nt_frames N) (nt_sent N) (nt_handled N).

(** The acceptor's task reads a stream of the dialer. *)
Definition read_up (N : Net App) (l : link) (c : Z) (rest : list frame) (ep : CraftecEndpoint) (h : App) (io : stream_io) (env : Env) : Net App :=
  let '((h', log), s, hlc, replies, f) := craftec_stream (lk_dialer l) (h, []) (ep_swim ep) (ep_hlc ep) io env in
  mkNet (<[lk_acceptor l := (after_stream ep c s hlc f, h')]> (nt_nodes N)) (nt_links N) (nt_accepted N)
    (map (mkFrame c false) replies ++ rest) (nt_sent N)
    (map (fun x => (x.1, lk_acceptor l, x.2)) log ++ nt_handled N).

(** The dialer's task reads a stream of the acceptor. *)
Definition read_down (N : Net App) (l : link) (c : Z) (rest : list frame) (ep : CraftecEndpoint) (h : App) (io : stream_io) : Net App :=
  let '(s, hlc, replies, f) := outbound_stream (ep_swim ep) (ep_hlc ep) io in
  mkNet (<[lk_dialer l := (after_stream ep c s hlc f, h)]> (nt_nodes N)) (nt_links N) (nt_accepted N)
    (map (mkFrame c true) replies ++ rest) (nt_sent N) (nt_handled N).

(** The read answers with the stream's bytes, within the limit, or fails. *)
Definition reads (f : frame) (io : stream_io) : Prop :=
  match st_read io with ReadBytes b => b = fr_bytes f /\ Z.of_nat (length b) <= READ_LIMIT | _ => True end.

Definition dial_ok (N : Net App) (a b : NodeId) (dial : result Z string) : Prop :=
  match dial with Ok c => a <> b /\ nt_links N !! c = None | Err _ => True end.

(** A stream is read by the task its connection has at the other end. *)
Inductive delivers (N : Net App) (f : frame) : Net App -> Prop :=
| deliver_up l pre post ep h io env :
    nt_frames N = pre ++ f :: post -> fr_up f = true -> nt_links N !! fr_conn f = Some l ->
    nt_nodes N !! lk_acceptor l = Some (ep, h) -> (fr_conn f, lk_dialer l, CraftecReader) ∈ ep_readers ep -> reads f io ->
    delivers N f (read_up N l (fr_conn f) (pre ++ post) ep h io env)
| deliver_down l pre post ep h io :
    nt_frames N = pre ++ f :: post -> fr_up f = false -> nt_links N !! fr_conn f = Some l ->
    nt_nodes N !! lk_dialer l = Some (ep, h) -> (fr_conn f, lk_acceptor l, OutboundReader) ∈ ep_readers ep -> reads f io ->
    delivers N f (read_down N l (fr_conn f) (pre ++ post) ep h io).

Inductive net_step (N : Net App) : Net App -> Prop :=
| step_up a max wall h :
    nt_nodes N !! a = None ->
    net_step N (mkNet (<[a := (endpoint_new a max wall, h)]> (nt_nodes N)) (nt_links N) (nt_accepted N) (nt_frames N) (nt_sent N) (nt_handled N))
| step_down a :
    net_step N (mkNet (delete a (nt_nodes N)) (nt_links N) (nt_accepted N) (nt_frames N) (nt_sent N) (nt_handled N))
| step_tasks a ep h s hlc h' :
    nt_nodes N !! a = Some (ep, h) ->
    net_step N (mkNet (<[a := (with_clock (with_swim ep s) hlc, h')]> (nt_nodes N)) (nt_links N) (nt_accepted N) (nt_frames N) (nt_sent N) (nt_handled N))
| step_pool_remove a ep h n :
    nt_nodes N !! a = Some (ep, h) ->
    net_step N (mkNet (<[a := (with_pool ep (pool_remove (ep_connections ep) n), h)]> (nt_nodes N)) (nt_links N) (nt_accepted N) (nt_frames N) (nt_sent N) (nt_handled N))
| step_pool_prune a ep h order now timeout :
    nt_nodes N !! a = Some (ep, h) ->
    net_step N (mkNet (<[a := (with_pool ep (prune_idle (ep_connections ep) order now timeout).1, h)]> (nt_nodes N)) (nt_links N) (nt_accepted N) (nt_frames N) (nt_sent N) (nt_handled N))
| step_send a ep h b msg io ep' r out :
    nt_nodes N !! a = Some (ep, h) -> dial_ok N a b (si_dial io) ->
    send_message ep b msg io = Returned (ep', r, out) -> net_step N (net_put N a ep h b msg ep' out)
| step_join a ep h entry b dial io ep' out :
    nt_nodes N !! a = Some (ep, h) -> parse_peer entry = Some b -> dial_ok N a b dial ->
    bootstrap_peer ep entry dial io = Returned (ep', out) -> net_step N (net_put N a ep h b (SwimJoin (ep_node_id ep) 0) ep' out)
| step_accept l c ep h now order has_rpc :
    nt_links N !! c = Some l -> c ∉ nt_accepted N -> nt_nodes N !! lk_acceptor l = Some (ep, h) ->
    net_step N (net_accept N l c ep h now order has_rpc)
| step_deliver f N' : delivers N f N' -> net_step N N'
| step_lose f pre post :
    nt_frames N = pre ++ f :: post ->
    net_step N (mkNet (nt_nodes N) (nt_links N) (nt_accepted N) (pre ++ post) (nt_sent N) (nt_handled N)).

End Network.

(** ** Facts *)

(** The message a stream of a dialer carries for the application. *)
Definition carried `{PM : Postcard WireMessage} (links : gmap Z link) (f : frame) : option letter :=
  if negb (fr_up f && (Z.of_nat (length (fr_bytes f)) <=? READ_LIMIT)) then None
  else match links !! fr_conn f, decode_framed_with_hlc (fr_bytes f) with
  | Some l, Ok (msg, _) => if is_swim msg then None else Some (lk_dialer l, lk_acceptor l, msg)
  | _, _ => None
  end.

(** The pool of [a] holds connections with the peers it holds them for, and every
    task reads the connection it was started for. *)
Record ep_ok (links : gmap Z link) (a : NodeId) (ep : CraftecEndpoint) : Prop := mkEpOk {
  eo_pool : forall p e, connections (ep_connections ep) !! p = Some e ->
    links !! connection e = Some (mkLink a p) \/ links !! connection e = Some (mkLink p a);
  eo_readers : forall c p r, (c, p, r) ∈ ep_readers ep ->
    (r = OutboundReader /\ links !! c = Some (mkLink a p)) \/ (r = CraftecReader /\ links !! c = Some (mkLink p a));
}.

Lemma ep_ok_mono links links' a ep : links ⊆ links' -> ep_ok links a ep -> ep_ok links' a ep.
Proof.
  intros Hs [Hp Hr]. split.
  - intros p e He. destruct (Hp p e He) as [Hl|Hl]; [left|right]; by eapply lookup_weaken.
  - intros c p r Hc. destruct (Hr c p r Hc) as [[-> Hl]|[-> Hl]]; [left|right]; (split; [done|]); by eapply lookup_weaken.
Qed.

(** Membership, clock and pool shrinking do not matter. *)
Lemma ep_ok_sub links a ep ep' :
  ep_ok links a ep -> ep_readers ep' ⊆ ep_readers ep -> connections (ep_connections ep') ⊆ connections (ep_connections ep) -> ep_ok links a ep'.
Proof. intros [Hp Hr] Hs Hc. split; [intros p e He; apply Hp; by eapply lookup_weaken|intros c p r Hin; apply Hr; by apply Hs]. Qed.

Lemma pool_insert_sub p order n c now n' e :
  connections (pool_insert p order n c now) !! n' = Some e -> (n' = n /\ connection e = c) \/ connections p !! n' = Some e.
Proof.
  unfold pool_insert, evict_lru. cbn. destruct (decide (n' = n)) as [->|Hn].
  - rewrite lookup_insert_eq. intros [= <-]. by left.
  - rewrite lookup_insert_ne by done. intros He. right. repeat case_match; try done. by apply lookup_delete_Some in He as [_ He].
Qed.

Section SendFacts.
Context `{IR : Iroh} `{HX : Hex} {PM : Postcard WireMessage}.

(** What sending [msg] to [b] does to pool and tasks, and the stream it may leave. *)
Record put_spec (ep : CraftecEndpoint) (b : NodeId) (msg : WireMessage) (dial : result Z string) (new : list (Z * NodeId * reader))
    (ep' : CraftecEndpoint) (out : option (Z * list Z)) : Prop := mkPut {
  ps_readers : ep_readers ep' = new ++ ep_readers ep;
  ps_dialled : new = [] \/ exists c, dial = Ok c /\ new = [(c, b, OutboundReader)];
  ps_pool : forall p e, connections (ep_connections ep') !! p = Some e ->
    (p = b /\ new = [(connection e, b, OutboundReader)]) \/
    exists e0, connections (ep_connections ep) !! p = Some e0 /\ connection e0 = connection e;
  ps_out : forall c bytes, out = Some (c, bytes) ->
    (exists e, connections (ep_connections ep') !! b = Some e /\ connection e = c) /\
    exists ts, fits 64 ts /\ encode_framed_with_hlc msg ts = Ok bytes;
}.

Lemma send_puts ep b msg io ep' r out :
  send_message ep b msg io = Returned (ep', r, out) -> exists new, put_spec ep b msg (si_dial io) new ep' out.
Proof.
  intros Hs. assert (forall c bytes, out = Some (c, bytes) ->
    (exists e, connections (ep_connections ep') !! b = Some e /\ connection e = c) /\ exists ts, fits 64 ts /\ encode_framed_with_hlc msg ts = Ok bytes) as Hout.
  { intros c bytes ->. pose proof (send_message_cases ep b msg io) as Hc. cbn zeta in Hc. rewrite Hs in Hc. destruct Hc as (_ & _ & _ & Hr).
    destruct r as [[]|err]; [|done]. destruct Hr as (c' & bytes' & [= <- <-] & He & Hp). split; [done|]. eexists. split; [apply now_next_u64|done]. }
  revert Hs. unfold send_message. destruct (encode_framed_with_hlc _ _) as [bytes|err] eqn:Ee.
  2: { intros [= <- <- <-]. exists []; split; [done|by left| |done]. intros p e He. right. by exists e. }
  unfold conn_to, pool_get. cbn [with_clock ep_connections]. destruct (connections (ep_connections ep) !! b) as [eb|] eqn:Eb.
  - assert (forall p e, connections (ep_connections (with_pool (with_clock ep (now_next (ep_hlc ep) (si_wall io)))
        (mkPool (<[b := mkConn (connection eb) (established_at eb) (si_now io)]> (connections (ep_connections ep))) (max_connections (ep_connections ep))))) !! p = Some e ->
      exists e0, connections (ep_connections ep) !! p = Some e0 /\ connection e0 = connection e) as Hp.
    { intros p e. cbn. destruct (decide (p = b)) as [->|Hne]; [rewrite lookup_insert_eq; intros [= <-]; by exists eb|].
      rewrite lookup_insert_ne by done. by exists e. }
    destruct (send_stream b io) as [[]|err]; intros [= <- <- <-]; (exists []; split; [done|by left|intros p e He; right; by apply Hp|done]).
  - destruct (public_key_ok b); cbn [negb]; [|done]. unfold connect. destruct (si_dial io) as [c|reason] eqn:Ed.
    2: { intros [= <- <- <-]. exists []; split; [done|by left| |done]. intros p e He. right. by exists e. }
    destruct (send_stream b io) as [[]|err]; intros [= <- <- <-]; (exists [(c, b, OutboundReader)]; split; [done|right; by exists c| |done]);
      intros p e He; apply pool_insert_sub in He as [[-> ->]|He]; [by left|right; by exists e|by left|right; by exists e].
Qed.

Lemma join_puts ep entry b dial io ep' out :
  parse_peer entry = Some b -> bootstrap_peer ep entry dial io = Returned (ep', out) -> exists new, put_spec ep b (SwimJoin (ep_node_id ep) 0) dial new ep' out.
Proof.
  intros Hb. unfold bootstrap_peer. rewrite Hb. unfold connect. destruct dial as [c|reason].
  2: { intros [= <- <-]. exists []; split; [done|by left| |done]. intros p e He. right. by exists e. }
  set (ep1 := spawn_reader _ c b OutboundReader). change (ep_node_id ep1) with (ep_node_id ep).
  destruct (send_message ep1 b _ io) as [[[ep2 r] out2]|] eqn:Es; [|done]. intros Hr.
  assert (ep2 = ep' /\ (out = out2 \/ out = None)) as [-> Hout] by (destruct r; simplify_eq; auto). clear Hr.
  destruct (send_puts _ _ _ _ _ _ _ Es) as [new [Hrd Hnew Hpool Ho]].
  assert (connections (ep_connections ep1) !! b = Some (mkConn c (si_now io) (si_now io))) as Hc by (cbn; by rewrite lookup_insert_eq).
  assert (ep_readers ep' = ep_readers ep1) as Hsame.
  { revert Es. unfold send_message. destruct (encode_framed_with_hlc _ _); [|by intros [= <- _ _]]. unfold conn_to, pool_get. cbn [with_clock ep_connections].
    rewrite Hc. destruct (send_stream b io); by intros [= <- _ _]. }
  assert (new = []) as ->. { apply (f_equal length) in Hrd. rewrite length_app, Hsame in Hrd. destruct new; [done|cbn in Hrd; lia]. }
  exists [(c, b, OutboundReader)]; split; [by rewrite Hsame|right; by exists c| |].
  - intros p e He. destruct (Hpool p e He) as [[_ ?]|(e0 & He0 & Hce)]; [done|]. apply pool_insert_sub in He0 as [[-> Hce0]|He0].
    + left. by rewrite <- Hce, Hce0.
    + right. by exists e0.
  - destruct Hout as [->| ->]; [done|by intros].
Qed.

End SendFacts.

Section NetworkFacts.
Context `{IR : Iroh} `{HX : Hex} `{PML : PostcardLaws WireMessage} {App Env : Type} `{CH : ConnectionHandler App Env}.
Implicit Types N : Net App.

(** Nothing is handled that was not sent, and nothing twice: the messages handled and
    those still on their way to a handler are among those sent. *)
Record net_inv (lost : list letter) N : Prop := mkNetInv {
  nv_nodes : map_Forall (fun a x => ep_ok (nt_links N) a x.1) (nt_nodes N);
  nv_links : map_Forall (fun _ l => lk_dialer l <> lk_acceptor l) (nt_links N);
  nv_frames : Forall (fun f => is_Some (nt_links N !! fr_conn f)) (nt_frames N);
  nv_accepted : forall c, c ∈ nt_accepted N -> is_Some (nt_links N !! c);
  nv_once : nt_handled N ++ omap (carried (nt_links N)) (nt_frames N) ++ lost ⊆+ nt_sent N;
  nv_dialled : Forall (fun x => exists c, nt_links N !! c = Some (mkLink x.1.1 x.1.2)) (nt_handled N);
}.

Lemma carried_of links c up bytes msg ts x :
  fits 64 ts -> encode_framed_with_hlc msg ts = Ok bytes -> carried links (mkFrame c up bytes) = Some x ->
  up = true /\ is_swim msg = false /\ exists l, links !! c = Some l /\ x = (lk_dialer l, lk_acceptor l, msg).
Proof.
  intros Ht He. unfold carried. cbn. destruct up; [|done]. destruct (Z.of_nat (length bytes) <=? READ_LIMIT) eqn:El; [|done]. cbn. bool_to_prop.
  rewrite (decode_sent msg ts bytes) by (done || (unfold READ_LIMIT in El; lia)). destruct (links !! c) as [l|]; [|done].
  destruct (is_swim msg); [done|]. intros [= <-]. split_and!; [done|done|by exists l].
Qed.

Lemma carried_mono links links' fs :
  links ⊆ links' -> Forall (fun f => is_Some (links !! fr_conn f)) fs -> omap (carried links') fs = omap (carried links) fs.
Proof.
  intros Hs. induction 1 as [|f fs [l Hl] _ IH]; [done|]. cbn. rewrite IH.
  replace (carried links' f) with (carried links f); [done|]. unfold carried. by rewrite Hl, (lookup_weaken _ _ _ _ Hl Hs).
Qed.

Lemma frames_mono (links links' : gmap Z link) fs :
  links ⊆ links' -> Forall (fun f : frame => is_Some (links !! fr_conn f)) fs -> Forall (fun f : frame => is_Some (links' !! fr_conn f)) fs.
Proof. intros Hs Hf. eapply Forall_impl; [exact Hf|]. intros f [l Hl]. exists l. by eapply lookup_weaken. Qed.

(** A stream that is gone, or read by a handler. *)
Lemma gone_sub {A B} (g : A -> option B) pre f post (l l' : list B) :
  l ++ omap g (pre ++ post) ++ l' ⊆+ l ++ omap g (pre ++ f :: post) ++ l'.
Proof.
  apply submseteq_app; [done|]. apply submseteq_app; [|done]. rewrite !omap_app. apply submseteq_app; [done|]. cbn.
  destruct (g f); [by apply submseteq_cons|done].
Qed.

Lemma read_perm {A B} (g : A -> option B) pre f post x (l l' : list B) :
  g f = Some x -> (x :: l) ++ omap g (pre ++ post) ++ l' ≡ₚ l ++ omap g (pre ++ f :: post) ++ l'.
Proof. intros Hx. rewrite !omap_app. cbn. rewrite Hx, <- Permutation_middle, <- app_comm_cons. by rewrite Permutation_middle. Qed.

(** A step within one node. *)
Lemma local_inv L N a ep h ep' h' :
  net_inv L N -> nt_nodes N !! a = Some (ep, h) -> ep_readers ep' ⊆ ep_readers ep -> connections (ep_connections ep') ⊆ connections (ep_connections ep) ->
  net_inv L (mkNet (<[a := (ep', h')]> (nt_nodes N)) (nt_links N) (nt_accepted N) (nt_frames N) (nt_sent N) (nt_handled N)).
Proof.
  intros [Hn Hl Hf Hac Ho Hd] Ha Hr Hc. split; cbn; try done. apply map_Forall_insert_2; [|done]. eapply ep_ok_sub; [by apply (Hn a (ep, h))|done|done].
Qed.

Lemma dialled_new ep ep' new : ep_readers ep' = new ++ ep_readers ep -> dialled ep ep' = new.
Proof. intros Hr. unfold dialled. rewrite Hr, length_app. apply take_app_length'. lia. Qed.

Lemma put_links N a b ep msg dial new ep' out :
  dial_ok N a b dial -> map_Forall (fun _ l => lk_dialer l <> lk_acceptor l) (nt_links N) -> put_spec ep b msg dial new ep' out ->
  let links := add_links a (dialled ep ep') (nt_links N) in
  nt_links N ⊆ links /\ map_Forall (fun _ l => lk_dialer l <> lk_acceptor l) links /\
  forall c, (c, b, OutboundReader) ∈ new -> links !! c = Some (mkLink a b).
Proof.
  intros Hk Hl Hp. cbn zeta. rewrite (dialled_new _ _ _ (ps_readers _ _ _ _ _ _ _ Hp)).
  destruct (ps_dialled _ _ _ _ _ _ _ Hp) as [->|(c & -> & ->)]; cbn.
  - split_and!; [done|done|]. intros c Hc. by apply not_elem_of_nil in Hc.
  - destruct Hk as [Hab Hc]. split_and!; [by apply insert_subseteq|by apply map_Forall_insert_2|].
    intros c' Hc'. apply list_elem_of_singleton in Hc' as [= ->]. apply lookup_insert_eq.
Qed.

Lemma put_ep_ok links links' a ep b msg dial new ep' out :
  ep_ok links a ep -> links ⊆ links' -> put_spec ep b msg dial new ep' out ->
  (forall c, (c, b, OutboundReader) ∈ new -> links' !! c = Some (mkLink a b)) -> ep_ok links' a ep'.
Proof.
  intros He Hs Hp Hnew. pose proof (ep_ok_mono _ _ _ _ Hs He) as [Hpool Hrd]. split.
  - intros p e Hpe. destruct (ps_pool _ _ _ _ _ _ _ Hp p e Hpe) as [[-> ->]|(e0 & He0 & <-)]; [|by apply Hpool].
    left. apply Hnew. by apply list_elem_of_singleton.
  - intros c p r Hc. rewrite (ps_readers _ _ _ _ _ _ _ Hp) in Hc. apply elem_of_app in Hc as [Hc|Hc]; [|by apply Hrd].
    destruct (ps_dialled _ _ _ _ _ _ _ Hp) as [->|(c' & _ & ->)]; [by apply not_elem_of_nil in Hc|].
    apply list_elem_of_singleton in Hc as [= -> -> ->]. left. split; [done|]. apply Hnew. by apply list_elem_of_singleton.
Qed.

Lemma put_inv L N a ep h b msg dial new ep' out :
  net_inv L N -> nt_nodes N !! a = Some (ep, h) -> dial_ok N a b dial -> put_spec ep b msg dial new ep' out -> net_inv L (net_put N a ep h b msg ep' out).
Proof.
  intros [Hn Hl Hf Hac Ho Hd] Ha Hk Hp. destruct (put_links _ _ _ _ _ _ _ _ _ Hk Hl Hp) as (Hs & Hl' & Hnew).
  pose proof (put_ep_ok _ _ _ _ _ _ _ _ _ _ (Hn a _ Ha) Hs Hp Hnew) as Hok. set (links := add_links a (dialled ep ep') (nt_links N)) in *.
  unfold net_put. fold links. split; cbn; try done.
  - apply map_Forall_insert_2; [done|]. eapply map_Forall_impl; [exact Hn|]. intros a' x. by apply ep_ok_mono.
  - destruct out as [[c bytes]|]; [|by eapply frames_mono]. apply Forall_cons. split; [|by eapply frames_mono].
    destruct (ps_out _ _ _ _ _ _ _ Hp c bytes eq_refl) as [(e & He & <-) _]. cbn. destruct (eo_pool _ _ _ Hok b e He) as [->| ->]; by eexists.
  - intros c Hc. destruct (Hac c Hc) as [l Hlc]. exists l. by eapply lookup_weaken.
  - rewrite <- (carried_mono _ links _ Hs Hf) in Ho. destruct out as [[c bytes]|]; [|done].
    destruct (ps_out _ _ _ _ _ _ _ Hp c bytes eq_refl) as [(e & He & <-) (ts & Ht & Hen)]. cbn.
    destruct (carried links _) as [x|] eqn:Ex; [|by apply submseteq_cons].
    destruct (carried_of _ _ _ _ _ _ _ Ht Hen Ex) as (Hup & _ & l & Hlk & ->).
    assert (l = mkLink a b) as ->.
    { unfold writes_up in Hup. rewrite Hlk in Hup. apply bool_decide_eq_true in Hup.
      destruct (eo_pool _ _ _ Hok b e He) as [Hx|Hx]; rewrite Hlk in Hx; injection Hx as ->; [done|].
      specialize (Hl' _ _ Hlk). cbn in *. by subst. }
    cbn. rewrite <- Permutation_middle. by apply submseteq_skip.
  - eapply Forall_impl; [exact Hd|]. intros x [c Hc]. exists c. by eapply lookup_weaken.
Qed.

(** *** Reading *)

Lemma read_log remote (h : App) s hlc io (env : Env) h' log s' hlc' replies f :
  craftec_stream remote (h, []) s hlc io env = ((h', log), s', hlc', replies, f) ->
  log = [] \/ exists b msg ts, st_read io = ReadBytes b /\ decode_framed_with_hlc b = Ok (msg, ts) /\ is_swim msg = false /\ log = [(remote, msg)].
Proof.
  unfold craftec_stream. destruct (st_read io) as [b| |]; [|intros; simplify_eq; by left..].
  destruct (decode_framed_with_hlc b) as [[msg ts]|] eqn:Ed; [|intros; simplify_eq; by left].
  destruct (hlc_admits hlc ts (st_wall io)) as [hlc1|]; [|intros; simplify_eq; by left]. destruct (is_swim msg) eqn:Esw.
  - destruct (swim_dispatch msg s io) as [[s1 fr] fl]. intros. simplify_eq. by left.
  - cbn. unfold log_wire. cbn. destruct (handle_wire h remote msg env) as [h1 reply]. intros Hx. right. exists b, msg, ts. split_and!; try done.
    destruct reply as [m|]; [destruct (encode_framed m)|]; by simplify_eq.
Qed.

(** Recording does not change what the reader does. *)
Lemma log_transparent remote (h : App) log s hlc io (env : Env) :
  let '((h', _), s', hlc', replies, f) := craftec_stream remote (h, log) s hlc io env in
  craftec_stream remote h s hlc io env = (h', s', hlc', replies, f).
Proof.
  unfold craftec_stream. destruct (st_read io) as [b| |]; try done. destruct (decode_framed_with_hlc b) as [[msg ts]|]; [|done].
  destruct (hlc_admits hlc ts (st_wall io)) as [hlc1|]; [|done]. destruct (is_swim msg).
  - by destruct (swim_dispatch msg s io) as [[s1 fr] fl].
  - cbn. unfold log_wire. cbn. destruct (handle_wire h remote msg env) as [h1 [m|]]; [|done]. by destruct (encode_framed m).
Qed.

Lemma outbound_replies s hlc io s' hlc' replies f :
  outbound_stream s hlc io = (s', hlc', replies, f) -> Forall (fun b => exists m, is_swim m = true /\ encode_framed m = Ok b) replies.
Proof.
  unfold outbound_stream. destruct (st_read io) as [b| |]; [|intros; simplify_eq; constructor..].
  destruct (decode_framed_with_hlc b) as [[msg ts]|]; [|intros; simplify_eq; constructor]. destruct (is_swim msg); [|intros; simplify_eq; constructor].
  unfold swim_dispatch. destruct (handle_swim_msg msg s (st_now io)) as [s1 r] eqn:Eh. destruct r as [|m]; [intros; simplify_eq; constructor|].
  assert (is_swim m = true) as Hm by (destruct msg; cbn in Eh; by simplify_eq).
  unfold send_swim_reply. destruct (encode_framed m) as [bytes|] eqn:Ee; [|intros; simplify_eq; constructor].
  destruct (st_open io); [|intros; simplify_eq; constructor]. destruct (st_write io); intros; simplify_eq; repeat constructor. by exists m.
Qed.

Lemma down_not_carried links c replies : omap (carried links) (map (mkFrame c false) replies) = [].
Proof. induction replies as [|b replies IH]; [done|]. cbn. by rewrite IH. Qed.

Lemma swim_not_carried links c replies :
  Forall (fun b => exists m, is_swim m = true /\ encode_framed m = Ok b) replies -> omap (carried links) (map (mkFrame c true) replies) = [].
Proof.
  induction 1 as [|b replies (m & Hm & He) _ IH]; [done|]. cbn. rewrite IH. destruct (carried links _) as [x|] eqn:Ex; [|done].
  destruct (carried_of links c true b m 0 x ltac:(unfold fits; lia) He Ex) as (_ & Hns & _). congruence.
Qed.

Lemma after_stream_sub ep c s hlc f :
  ep_readers (after_stream ep c s hlc f) ⊆ ep_readers ep /\ ep_connections (after_stream ep c s hlc f) = ep_connections ep.
Proof. unfold after_stream. destruct f; cbn; (split; [|done]); [done|]. intros x Hx. by apply list_elem_of_filter in Hx as [_ Hx]. Qed.

Lemma frames_linked (links : gmap Z link) c l up replies :
  links !! c = Some l -> Forall (fun f => is_Some (links !! fr_conn f)) (map (mkFrame c up) replies).
Proof. intros Hl. apply Forall_map, Forall_true. intros b. cbn. rewrite Hl. by eexists. Qed.

Lemma deliver_inv L N f N' : net_inv L N -> delivers (Env := Env) N f N' -> net_inv L N'.
Proof.
  intros [Hn Hl Hf Hac Ho Hd] [l pre post ep h io env Hfr Hup Hlk Hnd Hrd Hread|l pre post ep h io Hfr Hup Hlk Hnd Hrd Hread].
  all: rewrite Hfr in Hf, Ho; apply Forall_app in Hf as [Hf1 Hf2]; apply Forall_cons in Hf2 as [Hfl Hf2].
  - unfold read_up. destruct (craftec_stream _ _ _ _ _ _) as [[[[[h' log] s] hlc] replies] fl] eqn:Ec.
    destruct (after_stream_sub ep (fr_conn f) s hlc fl) as [Hs Hc]. split; cbn; try done.
    + apply map_Forall_insert_2; [|done]. cbn. eapply ep_ok_sub; [by apply (Hn _ _ Hnd)|done|by rewrite Hc].
    + apply Forall_app. split; [by eapply frames_linked|by apply Forall_app].
    + rewrite omap_app, down_not_carried. cbn. destruct (read_log _ _ _ _ _ _ _ _ _ _ _ _ Ec) as [->|(b & msg & ts & Hb & Hdec & Hns & ->)]; cbn.
      * etransitivity; [apply gone_sub|exact Ho].
      * unfold reads in Hread. rewrite Hb in Hread. destruct Hread as [-> Hlen].
        assert (carried (nt_links N) f = Some (lk_dialer l, lk_acceptor l, msg)) as Hcf.
        { unfold carried. rewrite Hup, Hlk, Hdec, Hns. apply Z.leb_le in Hlen. by rewrite Hlen. }
        rewrite <- (read_perm _ _ _ _ _ _ _ Hcf) in Ho. exact Ho.
    + destruct (read_log _ _ _ _ _ _ _ _ _ _ _ _ Ec) as [->|(b & msg & ts & _ & _ & _ & ->)]; [done|]. cbn.
      apply Forall_cons. split; [|done]. exists (fr_conn f). cbn. by destruct l.
  - unfold read_down. destruct (outbound_stream _ _ _) as [[[s hlc] replies] fl] eqn:Ec.
    destruct (after_stream_sub ep (fr_conn f) s hlc fl) as [Hs Hc]. split; cbn; try done.
    + apply map_Forall_insert_2; [|done]. cbn. eapply ep_ok_sub; [by apply (Hn _ _ Hnd)|done|by rewrite Hc].
    + apply Forall_app. split; [by eapply frames_linked|by apply Forall_app].
    + rewrite omap_app, swim_not_carried by by eapply outbound_replies. cbn.
      etransitivity; [apply gone_sub|exact Ho].
Qed.

Lemma accept_ep_ok links a b c ep now order has_rpc :
  ep_ok links b ep -> links !! c = Some (mkLink a b) -> ep_ok links b (accept_conn ep ALPN_CRAFTEC a c now order has_rpc).
Proof.
  intros [Hp Hr] Hl. split; cbn.
  - intros p e He. apply pool_insert_sub in He as [[-> ->]|He]; [by right|by apply Hp].
  - intros c' p r Hc. apply elem_of_cons in Hc as [[= -> -> ->]|Hc]; [by right|by apply Hr].
Qed.

Lemma step_inv L N N' : net_inv L N -> net_step (Env := Env) N N' -> net_inv L N'.
Proof.
  intros Hi Hs. destruct Hs as [a max wall h Ha|a|a ep h s hlc h' Ha|a ep h n Ha|a ep h order now timeout Ha|a ep h b msg io ep' r out Ha Hk Hm
    |a ep h entry b dial io ep' out Ha Hb Hk Hm|l c ep h now order has_rpc Hl Hc Ha|f N' Hd|f pre post Hf].
  - destruct Hi as [Hn Hl Hf Hac Ho Hd]. split; cbn; try done. apply map_Forall_insert_2; [|done]. split; cbn.
    + intros p e He. by rewrite lookup_empty in He.
    + intros c p r Hc. by apply not_elem_of_nil in Hc.
  - destruct Hi as [Hn Hl Hf Hac Ho Hd]. split; cbn; try done. intros a' x Hx. apply lookup_delete_Some in Hx as [_ Hx]. by apply Hn.
  - by eapply local_inv.
  - eapply local_inv; [done|done|done|]. cbn. apply delete_subseteq.
  - eapply local_inv; [done|done|done|]. cbn. apply map_filter_subseteq.
  - destruct (send_puts _ _ _ _ _ _ _ Hm) as [new Hp]. by eapply put_inv.
  - destruct (join_puts _ _ _ _ _ _ _ Hb Hm) as [new Hp]. by eapply put_inv.
  - destruct Hi as [Hn Hlk Hf Hac Ho Hd]. split; cbn; try done; [apply map_Forall_insert_2; [|done]; apply accept_ep_ok; [by apply (Hn _ _ Ha)|by destruct l]|].
    intros c' Hc'. apply elem_of_union in Hc' as [->%elem_of_singleton|Hc']; [by exists l|by apply Hac].
  - by eapply deliver_inv.
  - destruct Hi as [Hn Hl Hfr Hac Ho Hd]. rewrite Hf in Hfr, Ho. apply Forall_app in Hfr as [Hf1 Hf2]. apply Forall_cons in Hf2 as [_ Hf2]. split; cbn; try done.
    + by apply Forall_app.
    + etransitivity; [apply gone_sub|exact Ho].
Qed.

Lemma steps_inv L N N' : net_inv L N -> rtc (net_step (Env := Env)) N N' -> net_inv L N'.
Proof. intros Hi Hr. revert Hi. induction Hr as [|N N1 N2 Hs _ IH]; [done|]. intros Hi. apply IH. by eapply step_inv. Qed.

Lemma net_reachable_inv N : rtc (net_step (Env := Env)) net_empty N -> net_inv [] N.
Proof. apply steps_inv. by split. Qed.

(** *** Delivery *)

(** C32: However nodes dial, accept, send, answer, stop and start, and whatever is lost: the
    messages the handlers are given are messages that [send_message] was called with,
    each at most once, for that receiver by that sender, which had dialled it.  What
    a handler answers is therefore never handled by anyone. *)
Theorem handled_were_sent N :
  rtc (net_step (Env := Env)) net_empty N ->
  nt_handled N ⊆+ nt_sent N /\
  forall a b msg, (a, b, msg) ∈ nt_handled N -> a <> b /\ exists c, nt_links N !! c = Some (mkLink a b).
Proof.
  intros Hr. destruct (net_reachable_inv N Hr) as [_ Hl _ _ Ho Hd]. split; [|intros a b msg Hin].
  - etransitivity; [|exact Ho]. by apply submseteq_inserts_r.
  - rewrite Forall_forall in Hd. destruct (Hd _ Hin) as [c Hc]. split; [by apply (Hl c _ Hc)|by exists c].
Qed.

(** A node that was dialled keeps the connection for its own messages.  Sending over
    it succeeds, no other connection is dialled, and the message is lost: from then
    on the messages handled are among the others that were sent. *)
Theorem accepted_connection_is_deaf N b ep h a e msg io :
  rtc (net_step (Env := Env)) net_empty N -> nt_nodes N !! b = Some (ep, h) ->
  connections (ep_connections ep) !! a = Some e -> nt_links N !! connection e = Some (mkLink a b) ->
  si_open io = Ok tt -> si_write io = Ok tt -> si_finish io = Ok tt -> is_Some (to_allocvec msg) ->
  exists ep' bytes, send_message ep a msg io = Returned (ep', Ok tt, Some (connection e, bytes)) /\
    let N1 := net_put N b ep h a msg ep' (Some (connection e, bytes)) in
    nt_links N1 = nt_links N /\
    forall N2, rtc (net_step (Env := Env)) N1 N2 -> (b, a, msg) :: nt_handled N2 ⊆+ nt_sent N2.
Proof.
  intros Hr Hb He Hl Ho Hw Hf [p Hp]. pose proof (net_reachable_inv N Hr) as Hi. pose proof (nv_links _ _ Hi _ _ Hl) as Hab. cbn in Hab.
  unfold send_message, encode_framed_with_hlc. rewrite Hp. unfold conn_to, pool_get. cbn [with_clock ep_connections]. rewrite He.
  unfold send_stream. rewrite Ho, Hw, Hf. eexists _, _. split; [done|]. cbn zeta.
  set (ep' := with_pool _ _). set (bytes := frame_v1 _ _ _). unfold net_put. rewrite (dialled_new ep ep' []) by done. cbn [add_links foldr nt_links].
  split; [done|]. intros N2 H2. set (N1 := mkNet _ _ _ _ _ _) in H2.
  assert (net_inv [(b, a, msg)] N1) as H1.
  { destruct Hi as [Hn Hlk Hfr Hac Hon Hd]. split; cbn; try done.
    - apply map_Forall_insert_2; [|done]. destruct (Hn _ _ Hb) as [Hpool Hrd]. split; [|done]. intros q e' Hq. cbn in Hq.
      destruct (decide (q = a)) as [->|Hne]; [rewrite lookup_insert_eq in Hq; injection Hq as <-; by right|].
      rewrite lookup_insert_ne in Hq by done. by apply Hpool.
    - apply Forall_cons. split; [by exists (mkLink a b)|done].
    - unfold writes_up. rewrite Hl. cbn. rewrite bool_decide_eq_false_2 by done. cbn. rewrite app_nil_r in Hon.
      rewrite (app_assoc (nt_handled N)), (Permutation_app_comm _ [_]). cbn. by apply submseteq_skip. }
  pose proof (nv_once _ _ (steps_inv _ _ _ H1 H2)) as Hx. etransitivity; [|exact Hx].
  rewrite app_assoc, (Permutation_app_comm _ [_]). cbn. apply submseteq_skip. by apply submseteq_inserts_r.
Qed.


End NetworkFacts.
