(* ===== verification/Gossip.v ===== *)
(** * Traffic a node starts on its own (crates/craftec-net/src/dht.rs, swim.rs)

    [announce_cid_to_peers] and the SWIM background loop with its probe cycle, on
    top of the endpoint.  A probe is a small state machine: it is started, waits
    for a direct ack, then for an indirect one; the phases of concurrent probes
    interleave with everything else that touches the endpoint. *)
From Stdlib Require Import ZArith Lia.
From stdpp Require Import base list list_numbers numbers strings gmap relations.
From S2P Require Import Prelude Types Instances Wire Hlc Swim Pool Endpoint.

Local Open Scope Z_scope.

Definition ACK_TIMEOUT : Z := 400.
Definition INDIRECT_ACK_TIMEOUT : Z := 800.

(** [rand]'s [choose_multiple]: [n] elements of the slice, or all when there are
    fewer. *)
Definition sample_ok {A} (l : list A) (n : nat) (r : list A) : Prop :=
  exists perm, perm ≡ₚ l /\ r = take n perm.

Section Gossip.
Context `{IR : Iroh} `{HX : Hex} `{PM : Postcard WireMessage}.

(** ** Announcing a CID *)

(** [ln_ceil n] is [(n as f64).ln().ceil() as usize]; the precision of [ln] is the
    platform's. *)
Definition announce_count (ln_ceil : nat -> nat) (alive : nat) : nat := Nat.min (Nat.max (ln_ceil alive) 1) alive.

(** The loop over the targets; a failed send is logged and the next one tried. *)
Fixpoint send_all (ep : CraftecEndpoint) (msg : WireMessage) (targets : list (NodeId * send_io))
    : outcome (CraftecEndpoint * list (NodeId * list Z)) :=
  match targets with
  | [] => Returned (ep, [])
  | (target, io) :: targets =>
      match send_message ep target msg io with
      | Panicked => Panicked
      | Returned (ep, _, frame) =>
          match send_all ep msg targets with
          | Panicked => Panicked
          | Returned (ep, rest) =>
              Returned (ep, match frame with Some (_, f) => (target, f) :: rest | None => rest end)
          end
      end
  end.

(** [choose] is the draw of the targets, [ios] what the sends meet. *)
Definition announce_cid_to_peers (ep : CraftecEndpoint) (c : Cid) (local : NodeId) (ln_ceil : nat -> nat)
    (choose : list NodeId -> nat -> list NodeId) (ios : nat -> send_io)
    : outcome (CraftecEndpoint * list (NodeId * list Z)) :=
  let alive_peers := alive_members (ep_swim ep) in
  match alive_peers with
  | [] => Returned (ep, [])
  | _ =>
      let targets := choose alive_peers (announce_count ln_ceil (length alive_peers)) in
      send_all ep (ProviderAnnounce c local) (imap (fun i t => (t, ios i)) targets)
  end.

(** ** The SWIM loop *)

Inductive probe_pc : Type :=
| WaitDirect (nonce : Z)
| WaitIndirect (nonce : Z)
| ProbeDone.

(** [probe_with_ack] up to its first wait. *)
Definition probe_start (ep : CraftecEndpoint) (target : NodeId) (msg : WireMessage) (io : send_io)
    : outcome (CraftecEndpoint * probe_pc) :=
  match msg with
  | SwimPing _ nonce _ =>
      let ep := with_swim ep (probe_begin (ep_swim ep) nonce) in
      match send_message ep target msg io with
      | Panicked => Panicked
      | Returned (ep, Err _, _) =>
          Returned (with_swim ep (probe_send_failed (ep_swim ep) target nonce (si_now io)), ProbeDone)
      | Returned (ep, Ok _, _) => Returned (ep, WaitDirect nonce)
      end
  | _ => Returned (ep, ProbeDone)
  end.

(** The wait for the direct ack ends: [resolve_probe] has taken the nonce out of the
    table if an ack came, otherwise the time is up.  The pings are those for the
    delegates. *)
Definition probe_direct_end (s : Swim) (node_id target : NodeId) (nonce : Z) (delegates : list NodeId) (now : Z)
    : Swim * probe_pc * list (NodeId * WireMessage) :=
  if negb (bool_decide (nonce ∈ pending_probes s)) then (s, ProbeDone, [])
  else match delegates with
  | [] => (probe_direct_timeout s target [] now, ProbeDone, [])
  | _ =>
      let indirect_nonce := probe_nonce s in
      (probe_direct_timeout s target delegates now, WaitIndirect indirect_nonce,
       map (fun d => (d, SwimPing node_id indirect_nonce [])) delegates)
  end.

Definition probe_indirect_end (s : Swim) (target : NodeId) (nonce now : Z) : Swim * probe_pc :=
  if negb (bool_decide (nonce ∈ pending_probes s)) then (s, ProbeDone)
  else (probe_indirect_timeout s target now, ProbeDone).

(** The next part of the tick that a round of [run_swim_loop] runs; each ping it ends
    with is given a probe task. *)
Definition swim_round (ep : CraftecEndpoint) (now : Z) (pc : tick_pc) : CraftecEndpoint * tick_pc :=
  let '(s, pc) := tick_step (ep_swim ep) now pc in (with_swim ep s, pc).

End Gossip.

(** ** Announcements *)

Section AnnounceFacts.
Context `{IR : Iroh} `{HX : Hex} `{PM : Postcard WireMessage}.

(** A send that nothing obstructs. *)
Definition clear_io (io : send_io) : Prop :=
  is_ok (si_dial io) = true /\ si_open io = Ok tt /\ si_write io = Ok tt /\ si_finish io = Ok tt.

(** The loop visits its targets in order; it stops only at one that is neither
    cached nor a public key. *)
Lemma send_all_spec ep msg targets :
  (forall t io, (t, io) ∈ targets -> public_key_ok t = true) ->
  exists ep' sent, send_all ep msg targets = Returned (ep', sent) /\ ep_swim ep' = ep_swim ep /\
    (forall t f, (t, f) ∈ sent -> t ∈ map fst targets /\ exists ts, encode_framed_with_hlc msg ts = Ok f) /\
    ((forall ts, is_ok (encode_framed_with_hlc msg ts) = true) -> Forall (fun x => clear_io x.2) targets ->
      map fst sent = map fst targets).
Proof.
  revert ep. induction targets as [|[t io] targets IH]; intros ep Hk; cbn [send_all map].
  { exists ep, []. split_and!; try done. intros t f Hf. by apply not_elem_of_nil in Hf. }
  pose proof (send_message_cases ep t msg io) as Hc. cbn zeta in Hc.
  destruct (send_message ep t msg io) as [[[ep1 r] frame]|] eqn:Es.
  2: { destruct Hc as [_ Hc]. rewrite (Hk t io) in Hc; [done|by apply elem_of_cons; left]. }
  destruct (IH ep1) as (ep' & sent & -> & Hsw & Hin & Hall); [intros t' io' Hi; apply (Hk t' io'); by apply elem_of_cons; right|].
  destruct Hc as (Hts & Hsw1 & _ & Hr). eexists _, _. split_and!; [done|congruence| |].
  - intros t' f Hf.
    assert ((t', f) ∈ sent -> t' ∈ t :: map fst targets /\ exists ts, encode_framed_with_hlc msg ts = Ok f) as Hrest.
    { intros Hs'. destruct (Hin t' f Hs') as [? ?]. split; [by apply elem_of_cons; right|done]. }
    destruct frame as [[conn b]|]; [|by apply Hrest]. apply elem_of_cons in Hf as [[= -> ->]|Hf]; [|by apply Hrest].
    split; [by apply elem_of_cons; left|]. destruct r as [[]|]; [|done]. destruct Hr as (? & ? & [= -> ->] & He & _). by eexists.
  - intros Henc [Hio Hios]%Forall_cons. specialize (Hall Henc Hios).
    assert (is_ok r = true) as Hok; [|destruct r as [[]|]; [|done]; destruct Hr as (? & ? & -> & _); cbn; by rewrite Hall].
    destruct Hio as (Hd & Ho & Hw & Hf). revert Es. unfold send_message. specialize (Henc (now_next (ep_hlc ep) (si_wall io))).
    destruct (encode_framed_with_hlc _ _); [|done]. unfold conn_to, pool_get. cbn [with_clock ep_connections].
    destruct (connections (ep_connections ep) !! t); unfold send_stream, connect; cbn [snd] in Hd, Ho, Hw, Hf; rewrite Ho, Hw, Hf.
    + by intros [= _ <- _].
    + destruct (public_key_ok t); [|done]. cbn. revert Hd. destruct (si_dial io) as [fr|]; [|done]. by intros _ [= _ <- _].
Qed.

Lemma sample_sub {A} (l : list A) n r : sample_ok l n r -> NoDup l -> NoDup r /\ (forall x, x ∈ r -> x ∈ l) /\ length r = Nat.min n (length l).
Proof.
  intros (perm & Hp & ->) Hnd. split_and!.
  - rewrite <- Hp, <- (take_drop n perm) in Hnd. by apply NoDup_app in Hnd as [? _].
  - intros x Hx. rewrite <- Hp. rewrite <- (take_drop n perm). apply elem_of_app. by left.
  - by rewrite length_take, Hp.
Qed.

End AnnounceFacts.

Section GossipFacts.
Context `{IR : Iroh} `{HX : Hex} `{PM : Postcard WireMessage}.

Lemma alive_nodup s : NoDup (alive_members s).
Proof.
  unfold alive_members. pose proof (NoDup_fst_map_to_list (members s)) as Hnd. revert Hnd.
  induction (map_to_list (members s)) as [|[k m] l IH]; [constructor|]. cbn. intros [Hk Hnd]%NoDup_cons.
  destruct (is_alive_state m); [|by apply IH]. apply NoDup_cons. split; [|by apply IH].
  intros (e & He & Hf)%list_elem_of_omap. apply Hk. destruct (is_alive_state e.2); [|done]. simplify_eq.
  by apply list_elem_of_fmap_2.
Qed.

Lemma imap_fst {A B} (g : nat -> A -> B) (l : list A) : map fst (imap (fun i t => (t, g i t)) l) = l.
Proof. revert g. induction l as [|x l IH]; intros g; [done|]. cbn. f_equal. apply (IH (fun i => g (S i))). Qed.

(** As long as every alive member is a real public key, announcing a CID returns;
    it sends that announcement and nothing else, to distinct alive members, and to
    [max 1 (ceil (ln n))] of the [n] of them when no send fails. *)
Theorem announce_spec ep c local ln_ceil choose ios :
  (forall l n, sample_ok l n (choose l n)) ->
  (forall n, is_alive (ep_swim ep) n = true -> public_key_ok n = true) ->
  exists ep' sent, announce_cid_to_peers ep c local ln_ceil choose ios = Returned (ep', sent) /\
    (forall t f, (t, f) ∈ sent -> is_alive (ep_swim ep) t = true /\
       exists ts, encode_framed_with_hlc (ProviderAnnounce c local) ts = Ok f) /\
    ((forall ts, is_ok (encode_framed_with_hlc (ProviderAnnounce c local) ts) = true) -> (forall i, clear_io (ios i)) ->
      NoDup (map fst sent) /\
      length sent = announce_count ln_ceil (alive_count (ep_swim ep))).
Proof.
  intros Hch Hkey. unfold announce_cid_to_peers. destruct (alive_members (ep_swim ep)) as [|a0 al] eqn:Eal.
  { exists ep, []. split_and!; try done; [intros t f Hf; by apply not_elem_of_nil in Hf|]. intros _ _.
    split; [apply NoDup_nil_2|]. unfold alive_count. rewrite Eal. unfold announce_count. cbn. lia. }
  rewrite <- Eal. set (al' := alive_members (ep_swim ep)) in *. set (n := announce_count _ _).
  destruct (sample_sub al' n (choose al' n) (Hch al' n) (alive_nodup _)) as (Hnd & Hsub & Hlen).
  destruct (send_all_spec ep (ProviderAnnounce c local) (imap (fun i t => (t, ios i)) (choose al' n)))
    as (ep' & sent & Heq & _ & Hin & Hall).
  { intros t io Ht. apply Hkey, elem_of_alive, Hsub. rewrite <- (imap_fst (fun i _ => ios i) (choose al' n)).
    by apply (list_elem_of_fmap_2 fst) in Ht. }
  exists ep', sent. rewrite imap_fst in Hin, Hall. split_and!; [done| |].
  - intros t f Htf. destruct (Hin t f Htf) as [Ht He]. split; [by apply elem_of_alive, Hsub|done].
  - intros Henc Hio. rewrite <- (length_map fst sent). rewrite Hall; [|done|].
    + split; [done|]. rewrite Hlen. subst n. unfold announce_count, alive_count. fold al'. lia.
    + apply list.Forall_forall. intros [t io] Ht. apply elem_of_lookup_imap in Ht as (i & y & [= -> ->] & _). apply Hio.
Qed.

(** A draw that prefers [n]. *)
Fixpoint remove_one (n : NodeId) (l : list NodeId) : list NodeId :=
  match l with
  | [] => []
  | x :: l => if bool_decide (x = n) then l else x :: remove_one n l
  end.

Lemma remove_one_perm n l : n ∈ l -> n :: remove_one n l ≡ₚ l.
Proof.
  induction l as [|x l IH]; [by intros ?%not_elem_of_nil|]. cbn. case_bool_decide as Hx; [by subst|].
  intros [->|Hin]%elem_of_cons; [done|]. rewrite Permutation_swap. by rewrite (IH Hin).
Qed.

(** A peer's single message about a node whose id is no public key is enough to
    make a later announcement panic, when the draw falls on that id. *)
Theorem forged_member_panics ep n i c local ln_ceil ios now :
  n <> local_id (ep_swim ep) -> members (ep_swim ep) !! n = None -> public_key_ok n = false ->
  connections (ep_connections ep) !! n = None ->
  (forall ts, is_ok (encode_framed_with_hlc (ProviderAnnounce c local) ts) = true) ->
  let ep' := with_swim ep (handle_swim_msg (SwimAlive n i) (ep_swim ep) now).1 in
  exists choose, (forall l k, sample_ok l k (choose l k)) /\
    announce_cid_to_peers ep' c local ln_ceil choose ios = Panicked.
Proof.
  intros Hloc Hmem Hkey Hpool Henc ep'.
  exists (fun l k => take k (if bool_decide (n ∈ l) then n :: remove_one n l else l)). split.
  { intros l k. eexists. split; [|done]. case_bool_decide; [by apply remove_one_perm|done]. }
  assert (n ∈ alive_members (ep_swim ep')) as Hal.
  { apply elem_of_alive. unfold is_alive. subst ep'. cbn. unfold mark_alive. rewrite bool_decide_false by done. rewrite Hmem.
    rewrite send_event_members. cbn. by rewrite lookup_insert_eq. }
  unfold announce_cid_to_peers. destruct (alive_members (ep_swim ep')) as [|a al] eqn:Eal; [by apply not_elem_of_nil in Hal|].
  rewrite bool_decide_true by done.
  assert (exists k, announce_count ln_ceil (length (a :: al)) = S k) as [k ->].
  { unfold announce_count. cbn [length]. exists (Nat.min (Nat.max (ln_ceil (S (length al))) 1) (S (length al)) - 1)%nat. lia. }
  cbn [take imap send_all]. unfold send_message. specialize (Henc (now_next (ep_hlc ep') (si_wall (ios 0%nat)))).
  destruct (encode_framed_with_hlc _ _); [|done]. unfold conn_to, pool_get. subst ep'. cbn [with_swim with_clock ep_connections].
  by rewrite Hpool, Hkey.
Qed.

End GossipFacts.

(** ** Probes *)

Lemma suspect_alive s t i now :
  t <> local_id s -> members s !! t = Some (Alive i) -> mark_suspect s t (last_known_incarnation s t) now =
  set_members s (<[t := Suspect i now]> (members s)).
Proof.
  intros Hl Hm. unfold mark_suspect, last_known_incarnation. rewrite bool_decide_false by done. rewrite Hm. cbn.
  by rewrite Z.leb_refl.
Qed.

(** A probe that gets no ack makes its target suspect: at once when there is nobody
    else to ask, otherwise after the second wait, in which exactly the chosen
    delegates are pinged.  An ack for the nonce that is waited for ends the probe
    without a suspicion. *)
Theorem probe_detects s me t i nonce ds now :
  t <> local_id s -> members s !! t = Some (Alive i) ->
  let '(s1, pc, pings) := probe_direct_end s me t nonce ds now in
  match pc with
  | WaitDirect _ => False
  | ProbeDone => pings = [] /\
      (nonce ∉ pending_probes s /\ s1 = s \/
       nonce ∈ pending_probes s /\ ds = [] /\ members s1 = <[t := Suspect i now]> (members s))
  | WaitIndirect n =>
      nonce ∈ pending_probes s /\ members s1 = members s /\ n ∈ pending_probes s1 /\
      pings = map (fun d => (d, SwimPing me n [])) ds /\
      forall s2 now2, local_id s2 = local_id s -> members s2 !! t = Some (Alive i) ->
        (probe_indirect_end s2 t n now2).1 =
        if bool_decide (n ∈ pending_probes s2) then set_members s2 (<[t := Suspect i now2]> (members s2)) else s2
  end.
Proof.
  intros Hl Hm. unfold probe_direct_end. destruct (bool_decide (nonce ∈ pending_probes s)) eqn:Ep; bool_to_prop; cbn [negb].
  2: { split; [done|]. by left. }
  destruct ds as [|d ds].
  - split; [done|]. right. split_and!; try done. cbn. by rewrite (suspect_alive s t i).
  - cbn [probe_direct_timeout]. split_and!; [done|done|cbn; set_solver|done|].
    intros s2 now2 Hl2 Hm2. unfold probe_indirect_end, probe_indirect_timeout. rewrite (suspect_alive s2 t i) by congruence.
    by destruct (bool_decide (probe_nonce s ∈ pending_probes s2)).
Qed.

(** The second wait is for an ack of a delegate, not of the target: a delegate that
    answers for itself hides an unreachable target, which stays alive. *)
Theorem delegate_ack_masks_failure s me t i nonce d ds inc now now2 :
  members s !! t = Some (Alive i) -> d <> t -> nonce ∈ pending_probes s ->
  let '(s1, pc, _) := probe_direct_end s me t nonce (d :: ds) now in
  let s2 := (handle_swim_msg (SwimPingAck d (probe_nonce s) inc) s1 now2).1 in
  pc = WaitIndirect (probe_nonce s) /\ probe_indirect_end s2 t (probe_nonce s) now2 = (s2, ProbeDone) /\
  is_alive s2 t = true.
Proof.
  intros Hm Hd Hn. unfold probe_direct_end. rewrite bool_decide_true by done. cbn [negb probe_direct_timeout].
  set (s1 := (register_probe s).1). cbn [handle_swim_msg fst]. unfold resolve_probe at 1 2 3.
  rewrite bool_decide_true by (subst s1; cbn; set_solver). cbn [fst]. set (s2 := set_pending s1 _).
  assert (pending_probes (mark_alive s2 d inc) = pending_probes s2) as Hpend.
  { unfold mark_alive. case_bool_decide; [done|]. destruct (members s2 !! d) as [m|]; [by destruct (negb _)|].
    unfold send_event. by destruct (swim_sender _). }
  split_and!; [done| |].
  - unfold probe_indirect_end. rewrite bool_decide_false; [done|]. rewrite Hpend. subst s2. cbn. set_solver.
  - unfold is_alive. destruct (mark_alive_members s2 d inc t) as [->|[? _]]; [|done]. subst s2 s1. cbn. by rewrite Hm.
Qed.

(** A probe that times out leaves its nonce in the table of pending probes. *)
Theorem timed_out_probe_kept s me t nonce ds now :
  nonce ∈ pending_probes s -> nonce ∈ pending_probes (probe_direct_end s me t nonce ds now).1.1.
Proof.
  intros Hn. unfold probe_direct_end. rewrite bool_decide_true by done. cbn [negb].
  assert (pending_probes (mark_suspect s t (last_known_incarnation s t) now) = pending_probes s) as Hs.
  { unfold mark_suspect. case_bool_decide; [done|]. destruct (members s !! t) as [m|]; [|done].
    by destruct (match m with Alive _ => _ | Suspect _ _ => _ | Dead _ => _ end). }
  destruct ds; cbn [probe_direct_timeout fst]; [by rewrite Hs|]. cbn. set_solver.
Qed.

(** ** What a table remembers *)

(** Everything that changes the table of a node: the messages its readers handle, and the
    parts of its ticks and probes. *)
Inductive member_step (C : NodeId -> Z -> Prop) (s : Swim) : Swim -> Prop :=
| ms_message msg now : msg_claims C msg -> member_step C s (handle_swim_msg msg s now).1
| ms_own s' : swim_step C s s' -> member_step C s s'.

(** C23: A member that a node holds for dead stays dead, however messages, parts of ticks and
    phases of probes interleave, whatever else is suspected, declared or gossiped, as
    long as nobody claims that it is alive with an incarnation above the recorded one:
    neither joining again nor pinging the node brings it back, since both count as
    incarnation zero. *)
Theorem dead_stays_dead C s s' n j :
  members s !! n = Some (Dead j) -> (forall i, C n i -> i <= j) -> rtc (member_step C) s s' ->
  exists j', j <= j' /\ members s' !! n = Some (Dead j').
Proof.
  intros Hm HC Hs. apply (basics_dead_stays C s); [done| |done]. clear Hm HC.
  induction Hs as [s|s s1 s2 Hst _ IH]; [apply rtc_refl|]. etransitivity; [|exact IH].
  destruct Hst as [msg now Hc|s1 Hst]; [by apply swim_msg_basics|by apply step_basics].
Qed.

(** A dead member joins again and pings. *)
Lemma dead_stays_dead_witness :
  exists j', 7 <= j' /\ members (tick_step (handle_swim_msg (SwimPing [3] 1 [SwimSuspect [2] 9 [3]]) (handle_swim_msg (SwimJoin [3] 0) demo_swim 20).1 21).1
    9000 (TickExpire [([2], 4)])).1 !! [3] = Some (Dead j').
Proof.
  apply (dead_stays_dead (fun n i => i <= 7) demo_swim _ [3] 7).
  - vm_compute. reflexivity.
  - intros i Hi. exact Hi.
  - eapply rtc_l; [apply (ms_message _ _ (SwimJoin [3] 0) 20); cbn; lia|].
    eapply rtc_l; [apply (ms_message _ _ (SwimPing [3] 1 [SwimSuspect [2] 9 [3]]) 21); cbn; split; [lia|repeat constructor]|].
    apply rtc_once, ms_own, step_tick.
Defined.
