(* ===== verification/Cluster.v ===== *)
(** * A cluster of nodes (crates/craftec-net/src/swim.rs, endpoint.rs)

    Any number of nodes that run the membership protocol against each other over a
    network that loses, repeats and reorders messages.  Nodes start, crash and start
    again, join through any node, tick, probe and answer; a handler runs as one step, a
    tick as one step for each time it reads or writes the table.  No node invents
    messages, so this is the protocol without adversaries. *)
From Stdlib Require Import ZArith Lia.
From stdpp Require Import base list list_numbers numbers strings gmap relations sorting.
From S2P Require Import Prelude Types Wire Swim Endpoint Gossip.

Local Open Scope Z_scope.

(** ** State *)

(** A message on its way. *)
Record packet : Type := mkPacket { pk_from : NodeId; pk_to : NodeId; pk_msg : WireMessage }.

(** A task that runs [probe_with_ack]: before its ping is sent, or waiting. *)
Inductive probe_task : Type :=
| ProbeSend (msg : WireMessage)
| ProbeWait (pc : probe_pc).

Record Cluster : Type := mkCluster {
  cl_nodes : gmap NodeId Swim;
  cl_net : list packet;
  cl_probes : list (NodeId * NodeId * probe_task);
  cl_ticks : gmap NodeId tick_pc;
}.

Definition cluster_empty : Cluster := mkCluster ∅ [] [] ∅.

(** ** Operations *)

(** A process starts, with an empty table, no probes and no tick under way. *)
Definition start_node (c : Cluster) (n : NodeId) : Cluster :=
  mkCluster (<[n := swim_new n]> (cl_nodes c)) (cl_net c) (filter (fun p => p.1.1 <> n) (cl_probes c)) (delete n (cl_ticks c)).

(** The join message of [bootstrap]. *)
Definition join_via (c : Cluster) (n peer : NodeId) : Cluster :=
  mkCluster (cl_nodes c) (mkPacket n peer (SwimJoin n 0) :: cl_net c) (cl_probes c) (cl_ticks c).

(** The next part of the round of [run_swim_loop] that [n] is in, or the first of a new
    one; at the end every ping of the tick gets a task. *)
Definition tick_node (c : Cluster) (n : NodeId) (s : Swim) (now : Z) : Cluster :=
  let '(s', pc) := tick_step s now (default TickScan (cl_ticks c !! n)) in
  match pc with
  | TickDone probes =>
      mkCluster (<[n := s']> (cl_nodes c)) (cl_net c) (map (fun p => (n, p.1, ProbeSend p.2)) probes ++ cl_probes c) (delete n (cl_ticks c))
  | _ => mkCluster (<[n := s']> (cl_nodes c)) (cl_net c) (cl_probes c) (<[n := pc]> (cl_ticks c))
  end.

Definition packets_from (n : NodeId) (l : list (NodeId * WireMessage)) : list packet := map (fun p => mkPacket n p.1 p.2) l.

(** A message arrives; what it asks for goes back to its sender. *)
Definition deliver (c : Cluster) (p : packet) (s : Swim) (now : Z) : Cluster :=
  let '(s', reply) := handle_swim_msg (pk_msg p) s now in
  let out := match reply with SwimReplyNone => [] | SwimReplySend m => [mkPacket (pk_to p) (pk_from p) m] end in
  mkCluster (<[pk_to p := s']> (cl_nodes c)) (out ++ cl_net c) (cl_probes c) (cl_ticks c).

(** The phases of a probe of [t] by [n]; [k] is its place among the tasks. *)
Definition probe_sent (c : Cluster) (k : nat) (n t : NodeId) (s : Swim) (from : NodeId) (nonce : Z) (pb : list WireMessage) : Cluster :=
  mkCluster (<[n := probe_begin s nonce]> (cl_nodes c)) (mkPacket n t (SwimPing from nonce pb) :: cl_net c)
    (<[k := (n, t, ProbeWait (WaitDirect nonce))]> (cl_probes c)) (cl_ticks c).

Definition probe_lost (c : Cluster) (k : nat) (n t : NodeId) (s : Swim) (nonce now : Z) : Cluster :=
  mkCluster (<[n := probe_send_failed (probe_begin s nonce) t nonce now]> (cl_nodes c)) (cl_net c)
    (<[k := (n, t, ProbeWait ProbeDone)]> (cl_probes c)) (cl_ticks c).

Definition probe_direct (c : Cluster) (k : nat) (n t : NodeId) (s : Swim) (nonce : Z) (ds : list NodeId) (now : Z) : Cluster :=
  let '(s', pc, pings) := probe_direct_end s n t nonce ds now in
  mkCluster (<[n := s']> (cl_nodes c)) (packets_from n pings ++ cl_net c) (<[k := (n, t, ProbeWait pc)]> (cl_probes c)) (cl_ticks c).

Definition probe_indirect (c : Cluster) (k : nat) (n t : NodeId) (s : Swim) (nonce now : Z) : Cluster :=
  let '(s', pc) := probe_indirect_end s t nonce now in
  mkCluster (<[n := s']> (cl_nodes c)) (cl_net c) (<[k := (n, t, ProbeWait pc)]> (cl_probes c)) (cl_ticks c).

(** ** Runs: nodes in [Up] may start at any moment; a probe may fail to reach, or get no
    ack from, the nodes in [Down]. *)
Inductive cluster_step (Up Down : NodeId -> Prop) (c : Cluster) : Cluster -> Prop :=
| cs_start n : Up n -> cluster_step Up Down c (start_node c n)
| cs_sender n s : cl_nodes c !! n = Some s ->
    cluster_step Up Down c (mkCluster (<[n := swim_set_event_sender s]> (cl_nodes c)) (cl_net c) (cl_probes c) (cl_ticks c))
| cs_join n s peer : cl_nodes c !! n = Some s -> cluster_step Up Down c (join_via c n peer)
| cs_tick n s now : cl_nodes c !! n = Some s -> cluster_step Up Down c (tick_node c n s now)
| cs_deliver p s now : p ∈ cl_net c -> cl_nodes c !! pk_to p = Some s -> cluster_step Up Down c (deliver c p s now)
| cs_probe_sent k n t from nonce pb s :
    cl_probes c !! k = Some (n, t, ProbeSend (SwimPing from nonce pb)) -> cl_nodes c !! n = Some s ->
    cluster_step Up Down c (probe_sent c k n t s from nonce pb)
| cs_probe_lost k n t from nonce pb s now :
    cl_probes c !! k = Some (n, t, ProbeSend (SwimPing from nonce pb)) -> cl_nodes c !! n = Some s -> Down t ->
    cluster_step Up Down c (probe_lost c k n t s nonce now)
| cs_probe_direct k n t nonce ds s now :
    cl_probes c !! k = Some (n, t, ProbeWait (WaitDirect nonce)) -> cl_nodes c !! n = Some s -> delegates_ok s t ds ->
    (nonce ∈ pending_probes s -> ds = [] -> Down t) ->
    cluster_step Up Down c (probe_direct c k n t s nonce ds now)
| cs_probe_indirect k n t nonce s now :
    cl_probes c !! k = Some (n, t, ProbeWait (WaitIndirect nonce)) -> cl_nodes c !! n = Some s ->
    (nonce ∈ pending_probes s -> Down t) ->
    cluster_step Up Down c (probe_indirect c k n t s nonce now).

Definition anyone (n : NodeId) : Prop := True.

(** ** The invariant *)

Section ClusterFacts.
Context (Up Down : NodeId -> Prop).

(** The table of node [n] holds other nodes of [N], and only [Down] ones are not alive. *)
Record table_ok (N : gset NodeId) (n : NodeId) (s : Swim) : Prop := {
  to_local : local_id s = n;
  to_member k st : members s !! k = Some st -> k <> n /\ k ∈ N /\ (is_alive_state st = false -> Down k);
}.

(** Gossip about nodes of [N] that holds only [Down] ones for failed. *)
Definition gossip_ok (N : gset NodeId) (m : WireMessage) : Prop :=
  match m with
  | SwimAlive k _ => k ∈ N
  | SwimSuspect k _ _ => k ∈ N /\ Down k
  | SwimDead k _ _ => k ∈ N /\ Down k
  | _ => False
  end.

Definition msg_ok (N : gset NodeId) (from : NodeId) (m : WireMessage) : Prop :=
  match m with
  | SwimJoin k _ => k = from
  | SwimAlive k _ => k = from
  | SwimPingAck k _ _ => k = from
  | SwimPing k _ pb => k = from /\ Forall (gossip_ok N) pb
  | _ => False
  end.

Definition task_ok (N : gset NodeId) (n : NodeId) (pt : probe_task) : Prop :=
  match pt with ProbeSend m => msg_ok N n m | ProbeWait _ => True end.

(** Between the parts of a tick: those it is about to mark dead were suspected, the
    target is another node. *)
Definition tick_ok (N : gset NodeId) (n : NodeId) (pc : tick_pc) : Prop :=
  match pc with
  | TickScan => True
  | TickExpire l => Forall (fun x => x.1 ∈ N /\ Down x.1) l
  | TickGossip t _ => t ∈ N /\ t <> n
  | TickDone probes => Forall (fun p => p.1 ∈ N /\ p.1 <> n /\ msg_ok N n p.2) probes
  end.

Record cluster_ok (c : Cluster) : Prop := {
  co_table n s : cl_nodes c !! n = Some s -> table_ok (dom (cl_nodes c)) n s;
  co_net p : p ∈ cl_net c -> pk_from p ∈ dom (cl_nodes c) /\ msg_ok (dom (cl_nodes c)) (pk_from p) (pk_msg p);
  co_probe n t pt : (n, t, pt) ∈ cl_probes c -> t ∈ dom (cl_nodes c) /\ t <> n /\ task_ok (dom (cl_nodes c)) n pt;
  co_tick n pc : cl_ticks c !! n = Some pc -> tick_ok (dom (cl_nodes c)) n pc;
}.

(** *** Tables *)

Lemma local_mark_alive s k i : local_id (mark_alive s k i) = local_id s.
Proof. by apply (basic_local (fun _ _ => True)), basic_alive. Qed.
Lemma local_mark_dead s k i : local_id (mark_dead s k i) = local_id s.
Proof. apply (basic_local (fun _ _ => True)), basic_dead. Qed.
Lemma local_mark_suspect s k i now : local_id (mark_suspect s k i now) = local_id s.
Proof. apply (basic_local (fun _ _ => True)), basic_suspect. Qed.

Lemma table_alive N n s k i : k ∈ N -> table_ok N n s -> table_ok N n (mark_alive s k i).
Proof.
  intros Hk [Hl Hm]. split; [by rewrite local_mark_alive|]. intros j st Hj.
  destruct (mark_alive_members s k i j) as [He|(-> & Hn & He)]; rewrite He in Hj; [by apply Hm|]. injection Hj as <-.
  split_and!; [congruence|done|done].
Qed.

Lemma table_dead N n s k i : k ∈ N -> Down k -> table_ok N n s -> table_ok N n (mark_dead s k i).
Proof.
  intros Hk Hd [Hl Hm]. split; [by rewrite local_mark_dead|]. intros j st Hj.
  destruct (mark_dead_members s k i j) as [He|(-> & Hn & He)]; rewrite He in Hj; [by apply Hm|]. injection Hj as <-.
  split_and!; [congruence|done|done].
Qed.

Lemma table_suspect N n s k i now : k ∈ N -> Down k -> table_ok N n s -> table_ok N n (mark_suspect s k i now).
Proof.
  intros Hk Hd [Hl Hm]. split; [by rewrite local_mark_suspect|]. intros j st Hj.
  destruct (mark_suspect_members s k i now j) as [He|(-> & Hn & He)]; rewrite He in Hj; [by apply Hm|]. injection Hj as <-.
  split_and!; [congruence|done|done].
Qed.

(** Updates that keep the table. *)
Lemma table_same N n s s' : members s' = members s -> local_id s' = local_id s -> table_ok N n s -> table_ok N n s'.
Proof. intros Hm Hl [H1 H2]. split; [congruence|]. intros k st. rewrite Hm. apply H2. Qed.

Lemma table_mono N N' n s : N ⊆ N' -> table_ok N n s -> table_ok N' n s.
Proof. intros Hs [Hl Hm]. split; [done|]. intros k st Hk. destruct (Hm k st Hk) as (? & ? & ?). split_and!; [done|by apply Hs|done]. Qed.

Lemma gossip_mono N N' m : N ⊆ N' -> gossip_ok N m -> gossip_ok N' m.
Proof. intros Hs. destruct m; try done; cbn; set_solver. Qed.

Lemma msg_mono N N' from m : N ⊆ N' -> msg_ok N from m -> msg_ok N' from m.
Proof. intros Hs. destruct m; try done. cbn. intros [-> Hp]. split; [done|]. eapply Forall_impl; [done|]. intros m. by apply gossip_mono. Qed.

Lemma tick_mono N N' n pc : N ⊆ N' -> tick_ok N n pc -> tick_ok N' n pc.
Proof.
  intros Hs. destruct pc as [|l|t k|probes]; cbn; [done| |set_solver|].
  - intros Hl. eapply Forall_impl; [exact Hl|]. intros x [Hx Hd]. auto.
  - intros Hl. eapply Forall_impl; [exact Hl|]. intros x (Hx & Hne & Hm). split_and!; [by apply Hs|done|by eapply msg_mono].
Qed.

(** *** Handlers *)

Lemma gossip_table N n s m now : gossip_ok N m -> table_ok N n s -> table_ok N n (handle_message s now m).1.
Proof.
  destruct m as [| | | | | |k port|k i|k i f|k i f| |f nonce pb|f nonce i]; try done; cbn [gossip_ok handle_message fst].
  - by apply table_alive.
  - intros [Hk Hd]. by apply table_suspect.
  - intros [Hk Hd]. by apply table_dead.
Qed.

Lemma handled_table N from n s m now :
  from ∈ N -> n ∈ N -> msg_ok N from m -> table_ok N n s ->
  table_ok N n (handle_swim_msg m s now).1 /\
  match (handle_swim_msg m s now).2 with SwimReplyNone => True | SwimReplySend r => msg_ok N n r end.
Proof.
  intros Hf Hn. destruct m as [| | | | | |k port|k i|k i f|k i f| |f nonce pb|f nonce i]; try done; cbn [msg_ok handle_swim_msg fst snd].
  - intros -> Ht. pose proof (table_alive N n s from 0 Hf Ht) as Ht'. split; [done|]. apply Ht'.
  - intros -> Ht. split; [by apply table_alive|done].
  - intros [-> Hp] Ht. assert (table_ok N n (foldl (fun s m => (handle_message s now m).1) (mark_alive s from 0) pb)) as Ht'.
    { apply (table_alive N n s from 0 Hf) in Ht. revert Ht. generalize (mark_alive s from 0). induction Hp as [|m pb Hm _ IH]; intros s' Ht; [done|].
      cbn. apply IH. by apply gossip_table. }
    split; [done|]. apply Ht'.
  - intros -> Ht. split; [|done]. apply table_alive; [done|]. unfold resolve_probe. case_bool_decide; [|done]. by apply (table_same N n s).
Qed.

Lemma gossip_collected N n s limit : table_ok N n s -> Forall (gossip_ok N) (collect_gossip_msgs s limit).
Proof.
  intros Ht. unfold collect_gossip_msgs. apply Forall_map, Forall_take. apply Forall_forall. intros [k st] Hin.
  rewrite merge_sort_Permutation in Hin. apply elem_of_map_to_list in Hin. destruct (to_member N n s Ht k st Hin) as (_ & Hk & Hd).
  destruct st as [i|i since|i]; cbn in *; auto.
Qed.

Lemma selected_table N n s :
  table_ok N n s -> table_ok N n (tick_select s).1 /\ tick_ok N n (tick_select s).2.
Proof.
  intros Ht. unfold tick_select. cbv zeta. destruct (alive_members s) as [|a l] eqn:Ea.
  { split; [by apply (table_same N n s)|apply Forall_nil_2]. }
  rewrite <- Ea. cbn [fst snd probe_index set_probe]. split; [by apply (table_same N n s)|]. set (idx := Z.to_nat _).
  assert (idx < length (alive_members s))%nat as Hidx.
  { unfold idx. rewrite Ea. pose proof (Z.mod_pos_bound (probe_index s) (Z.of_nat (length (a :: l)))) as Hb. cbn [length] in *. lia. }
  destruct (lookup_lt_is_Some_2 (alive_members s) idx Hidx) as [t Et]. cbn [tick_ok]. rewrite Et. cbn [default].
  assert (is_alive s t = true) as Hal by (apply elem_of_alive; by eapply list_elem_of_lookup_2).
  unfold is_alive in Hal. destruct (members s !! t) as [st|] eqn:Em; [|done]. destruct (to_member N n s Ht t st Em) as (? & ? & _). done.
Qed.

Lemma ticked_table N n s now pc :
  table_ok N n s -> tick_ok N n pc -> table_ok N n (tick_step s now pc).1 /\ tick_ok N n (tick_step s now pc).2.
Proof.
  intros Ht Hp. destruct pc as [|[|nd todo]|t len|probes]; cbn [tick_step].
  - split; [done|]. apply Forall_forall. intros [k i] (since & Hk & _)%elem_of_expired.
    destruct (to_member N n s Ht k _ Hk) as (_ & HkN & Hd). by auto.
  - by apply selected_table.
  - apply Forall_cons in Hp as [[Hk Hd] Hp]. split; [by apply table_dead|done].
  - cbn. split; [by apply (table_same N n s)|]. destruct Hp as [HtN Htn]. apply Forall_singleton. split_and!; [done|done|]. split; [apply Ht|]. by apply (gossip_collected N n).
  - done.
Qed.

(** *** Steps *)

Lemma update_ok c n s s' net' probes' ticks' :
  cluster_ok c -> cl_nodes c !! n = Some s -> table_ok (dom (cl_nodes c)) n s' ->
  (forall p, p ∈ net' -> p ∈ cl_net c \/ pk_from p = n /\ msg_ok (dom (cl_nodes c)) n (pk_msg p)) ->
  (forall m t pt, (m, t, pt) ∈ probes' -> (m, t, pt) ∈ cl_probes c \/ t ∈ dom (cl_nodes c) /\ t <> m /\ task_ok (dom (cl_nodes c)) m pt) ->
  (forall m pc, ticks' !! m = Some pc -> cl_ticks c !! m = Some pc \/ tick_ok (dom (cl_nodes c)) m pc) ->
  cluster_ok (mkCluster (<[n := s']> (cl_nodes c)) net' probes' ticks').
Proof.
  intros Hok Hn Ht Hnet Hpr Htk. assert (dom (<[n := s']> (cl_nodes c)) = dom (cl_nodes c)) as Hdom.
  { apply dom_insert_lookup_L. by exists s. }
  split; cbn; rewrite Hdom.
  - intros k sk. rewrite lookup_insert_Some. intros [[<- <-]|[_ Hk]]; [done|by apply (co_table c Hok)].
  - intros p Hp. destruct (Hnet p Hp) as [Hp'|[Hf Hm]]; [by apply (co_net c Hok)|]. rewrite Hf. split; [|done]. apply elem_of_dom. by exists s.
  - intros m t pt Hp. destruct (Hpr m t pt Hp) as [Hp'|Hp']; [by apply (co_probe c Hok)|done].
  - intros m pc Hm. destruct (Htk m pc Hm) as [Hp'|Hp']; [by apply (co_tick c Hok)|done].
Qed.

(** The step of a probe task. *)
Lemma probe_ok c k n t pt pt' s s' net' :
  cluster_ok c -> cl_probes c !! k = Some (n, t, pt) -> cl_nodes c !! n = Some s -> table_ok (dom (cl_nodes c)) n s' ->
  (forall p, p ∈ net' -> p ∈ cl_net c \/ pk_from p = n /\ msg_ok (dom (cl_nodes c)) n (pk_msg p)) ->
  cluster_ok (mkCluster (<[n := s']> (cl_nodes c)) net' (<[k := (n, t, ProbeWait pt')]> (cl_probes c)) (cl_ticks c)).
Proof.
  intros Hok Hk Hn Ht Hnet. apply (update_ok c n s); [done|done|done|done| |by left].
  intros m t0 pt0 Hin. apply list_elem_of_lookup in Hin as [j Hj]. apply list_lookup_insert_Some in Hj as [(-> & [= <- <- <-] & _)|[_ Hj]].
  - right. destruct (co_probe c Hok n t pt) as (? & ? & _); [by eapply list_elem_of_lookup_2|done].
  - left. by eapply list_elem_of_lookup_2.
Qed.

Lemma start_ok c n : cluster_ok c -> cluster_ok (start_node c n).
Proof.
  intros Hok. assert (dom (cl_nodes c) ⊆ dom (<[n := swim_new n]> (cl_nodes c))) as Hs by (rewrite dom_insert_L; set_solver).
  split; cbn.
  - intros k sk. rewrite lookup_insert_Some. intros [[<- <-]|[_ Hk]].
    + split; [done|]. intros j st. cbn. by rewrite lookup_empty.
    + by eapply table_mono, (co_table c Hok).
  - intros p Hp. destruct (co_net c Hok p Hp) as [Hf Hm]. split; [by apply Hs|by eapply msg_mono].
  - intros m t pt [_ Hp]%list_elem_of_filter. destruct (co_probe c Hok m t pt Hp) as (Ht & Hne & Hm). split; [by apply Hs|]. split; [done|].
    destruct pt; [by eapply msg_mono|done].
  - intros m pc [_ Hp]%lookup_delete_Some. eapply tick_mono; [done|by apply (co_tick c Hok)].
Qed.

Lemma tick_node_ok c n s now : cluster_ok c -> cl_nodes c !! n = Some s -> cluster_ok (tick_node c n s now).
Proof.
  intros Hok Hn. unfold tick_node.
  assert (tick_ok (dom (cl_nodes c)) n (default TickScan (cl_ticks c !! n))) as Hpc by (destruct (cl_ticks c !! n) eqn:E; [by apply (co_tick c Hok)|done]).
  destruct (ticked_table _ n s now _ (co_table c Hok n s Hn) Hpc) as [Ht Hp]. destruct (tick_step _ _ _) as [s' pc]. cbn [fst snd] in Ht, Hp.
  assert (forall m pc', <[n := pc]> (cl_ticks c) !! m = Some pc' -> cl_ticks c !! m = Some pc' \/ tick_ok (dom (cl_nodes c)) m pc') as Hins.
  { intros m pc'. rewrite lookup_insert_Some. intros [[<- <-]|[_ Hm]]; [by right|by left]. }
  destruct pc as [| | |probes]; try (apply (update_ok c n s); [done|done|done|by left|by left|exact Hins]).
  apply (update_ok c n s); [done|done|done|by left| |].
  - intros m t pt [Hin|Hin]%elem_of_app; [|by left]. right. apply list_elem_of_fmap in Hin as ([t0 msg] & [= -> -> ->] & Hin).
    exact (proj1 (Forall_forall _ _) Hp _ Hin).
  - intros m pc [_ Hm]%lookup_delete_Some. by left.
Qed.

Lemma deliver_ok c p s now : cluster_ok c -> p ∈ cl_net c -> cl_nodes c !! pk_to p = Some s -> cluster_ok (deliver c p s now).
Proof.
  intros Hok Hp Hs. destruct (co_net c Hok p Hp) as [Hf Hm]. unfold deliver.
  destruct (handled_table (dom (cl_nodes c)) (pk_from p) (pk_to p) s (pk_msg p) now Hf) as [Ht Hr]; [apply elem_of_dom; by exists s|done|by apply (co_table c Hok)|].
  destruct (handle_swim_msg (pk_msg p) s now) as [s' r]. cbn in Ht, Hr. apply (update_ok c _ s); [done|done|done| |by left..].
  intros q [Hq|Hq]%elem_of_app; [|by left]. right. destruct r as [|m]; [by apply not_elem_of_nil in Hq|]. apply list_elem_of_singleton in Hq as ->. done.
Qed.

Lemma cluster_step_ok c c' : cluster_ok c -> cluster_step Up Down c c' -> cluster_ok c'.
Proof.
  intros Hok Hst. destruct Hst as [n Hu|n s Hn|n s peer Hn|n s now Hn|p s now Hp Hn|k n t from nonce pb s Hk Hn|k n t from nonce pb s now Hk Hn Hd
      |k n t nonce ds s now Hk Hn Hds Hd|k n t nonce s now Hk Hn Hd].
  5: by apply deliver_ok.
  5, 6, 7, 8: pose proof (co_probe c Hok n t _ ltac:(by eapply list_elem_of_lookup_2)) as (Ht & Hne & Hm); pose proof (co_table c Hok n s Hn) as Htab.
  - by apply start_ok.
  - apply (update_ok c n s); [done|done| |by left..]. by apply (table_same _ n s), (co_table c Hok).
  - split; cbn; [apply Hok| |apply Hok|apply Hok]. intros p [->|Hp]%elem_of_cons; [|by apply (co_net c Hok)]. cbn. split; [|done]. apply elem_of_dom. by exists s.
  - by apply tick_node_ok.
  - eapply (probe_ok c k n t); [done|done|done|by apply (table_same _ n s)|intros p [->|Hp]%elem_of_cons; [by right|by left]].
  - eapply (probe_ok c k n t); [done|done|done|apply table_suspect; [done|done|by apply (table_same _ n s)]|by left].
  - unfold probe_direct, probe_direct_end. case_bool_decide; cbn [negb]; [destruct ds as [|d ds]|].
    + eapply (probe_ok c k n t); [done|done|done|apply table_suspect; auto|by left].
    + eapply (probe_ok c k n t); [done|done|done|by apply (table_same _ n s)|].
      intros p [Hp|Hp]%elem_of_app; [|by left]. right. unfold packets_from in Hp. apply list_elem_of_fmap in Hp as ([d' msg] & -> & Hin).
      apply list_elem_of_fmap in Hin as (d'' & [= -> ->] & _). cbn. split; [done|]. split; [done|apply Forall_nil_2].
    + by eapply (probe_ok c k n t); [..|by left].
  - unfold probe_indirect, probe_indirect_end. case_bool_decide; cbn [negb];
      (eapply (probe_ok c k n t); [done|done|done| |by left]); [apply table_suspect; auto|done].
Qed.

Lemma cluster_run_ok c c' : rtc (cluster_step Up Down) c c' -> cluster_ok c -> cluster_ok c'.
Proof. induction 1 as [c|c c1 c' Hst _ IH]; [done|]. intros Hok. by eapply IH, cluster_step_ok. Qed.

Lemma cluster_empty_ok : cluster_ok cluster_empty.
Proof.
  split; cbn; [intros n s; by rewrite lookup_empty|intros p Hp; by apply not_elem_of_nil in Hp|intros n t pt Hp; by apply not_elem_of_nil in Hp|].
  intros n pc. by rewrite lookup_empty.
Qed.

End ClusterFacts.

(** ** What every run guarantees *)

(** C9: Failure detection is accurate and tables are closed: whatever starts, crashes,
    is lost, repeated or reordered, the table of a node lists only other nodes that
    have been started, and lists one as suspected or dead only if probes of that very
    node may fail.  A node that every probe reaches is never declared failed. *)
Theorem membership_accurate Up Down c n s k st :
  rtc (cluster_step Up Down) cluster_empty c -> cl_nodes c !! n = Some s -> members s !! k = Some st ->
  k <> n /\ is_Some (cl_nodes c !! k) /\ (is_alive_state st = false -> Down k).
Proof.
  intros Hr Hn Hk. pose proof (cluster_run_ok Up Down _ _ Hr (cluster_empty_ok Down)) as Hok.
  destruct (to_member Down _ n s (co_table Down c Hok n s Hn) k st Hk) as (Hne & Hin & Hd).
  split_and!; [done|by apply elem_of_dom|done].
Qed.

(** ** Joining *)

Lemma alive_marked Down N n s k i :
  table_ok Down N n s -> k <> n -> (forall st, members s !! k = Some st -> is_alive_state st = true) -> is_alive (mark_alive s k i) k = true.
Proof.
  intros Ht Hne Hal. unfold mark_alive. rewrite bool_decide_false by (by rewrite (to_local Down N n s Ht)).
  destruct (members s !! k) as [st|] eqn:Em.
  - specialize (Hal st eq_refl). destruct st as [j| |]; try done. destruct (negb _); unfold is_alive; [cbn; by rewrite lookup_insert_eq|by rewrite Em].
  - unfold is_alive. rewrite send_event_members. cbn. by rewrite lookup_insert_eq.
Qed.

(** A join that arrives introduces the two nodes to each other, unless one holds the
    other for suspected or dead: after the join and its answer both list the other as
    alive. *)
Theorem join_is_mutual Up Down c n s peer sp :
  rtc (cluster_step Up Down) cluster_empty c -> cl_nodes c !! n = Some s -> cl_nodes c !! peer = Some sp -> n <> peer ->
  (forall st, members s !! peer = Some st -> is_alive_state st = true) -> (forall st, members sp !! n = Some st -> is_alive_state st = true) ->
  exists c' s' sp', rtc (cluster_step Up Down) c c' /\ cl_nodes c' !! n = Some s' /\ cl_nodes c' !! peer = Some sp' /\
    is_alive s' peer = true /\ is_alive sp' n = true.
Proof.
  intros Hr Hn Hp Hne Hd1 Hd2. pose proof (cluster_run_ok Up Down _ _ Hr (cluster_empty_ok Down)) as Hok.
  pose proof (co_table Down c Hok n s Hn) as Hts. pose proof (co_table Down c Hok peer sp Hp) as Htp.
  set (c1 := join_via c n peer). set (sp' := mark_alive sp n 0).
  set (c2 := deliver c1 (mkPacket n peer (SwimJoin n 0)) sp 0).
  assert (local_id sp' = peer) as Hl by (unfold sp'; rewrite local_mark_alive; apply Htp).
  set (c3 := deliver c2 (mkPacket peer n (SwimAlive peer (incarnation sp'))) s 0).
  exists c3, (mark_alive s peer (incarnation sp')), sp'. split.
  - eapply rtc_l; [by apply (cs_join Up Down c n s peer)|]. eapply rtc_l.
    { apply (cs_deliver Up Down c1 (mkPacket n peer (SwimJoin n 0)) sp 0); [by apply elem_of_cons; left|done]. }
    apply rtc_once. apply (cs_deliver Up Down c2 (mkPacket peer n (SwimAlive peer (incarnation sp'))) s 0).
    + cbn. fold sp'. rewrite Hl. by apply elem_of_cons; left.
    + cbn. by rewrite lookup_insert_ne.
  - split_and!; [cbn; by rewrite lookup_insert_eq|cbn; rewrite lookup_insert_ne by done; by rewrite lookup_insert_eq| |].
    + by apply (alive_marked Down (dom (cl_nodes c)) n).
    + by apply (alive_marked Down (dom (cl_nodes c)) peer).
Qed.

(** ** A concrete run: node 1 joins through node 2 and is declared dead *)

(** Node 2 takes [k] parts of a tick. *)
Fixpoint ticking (c : Cluster) (n : NodeId) (now : Z) (k : nat) : Cluster :=
  match k with
  | O => c
  | S k => match cl_nodes c !! n with Some s => ticking (tick_node c n s now) n now k | None => c end
  end.

Lemma ticking_reached Up Down c n now k : rtc (cluster_step Up Down) c (ticking c n now k).
Proof.
  revert c. induction k as [|k IH]; intros c; [apply rtc_refl|]. cbn. destruct (cl_nodes c !! n) as [s|] eqn:E; [|apply rtc_refl].
  eapply rtc_l; [by apply (cs_tick _ _ _ n s now)|apply IH].
Qed.

Definition run_joined : Cluster :=
  deliver (join_via (start_node (start_node cluster_empty [1]) [2]) [1] [2]) (mkPacket [1] [2] (SwimJoin [1] 0)) (swim_new [2]) 0.
Definition table_joined : Swim := mark_alive (swim_new [2]) [1] 0.
Definition run_probing : Cluster := ticking run_joined [2] 100 3.
Definition table_probing : Swim := (protocol_tick table_joined 100).1.
Definition run_dead : Cluster := ticking (probe_lost run_probing 0 [2] [1] table_probing 0 100) [2] 6000 3.
Definition table_dead2 : Swim := default (swim_new [2]) (cl_nodes run_dead !! [2]).

Lemma run_joined_reached Down : rtc (cluster_step anyone Down) cluster_empty run_joined.
Proof.
  eapply rtc_l; [by apply (cs_start _ _ _ [1])|]. eapply rtc_l; [by apply (cs_start _ _ _ [2])|].
  eapply rtc_l; [apply (cs_join _ _ _ [1] (swim_new [1]) [2]); reflexivity|].
  apply rtc_once. apply cs_deliver; [by apply elem_of_cons; left|reflexivity].
Qed.

Lemma run_dead_reached (Down : NodeId -> Prop) : Down [1] -> rtc (cluster_step anyone Down) cluster_empty run_dead.
Proof.
  intros Hd. etransitivity; [apply run_joined_reached|]. etransitivity; [apply (ticking_reached _ _ run_joined [2] 100 3)|].
  eapply rtc_l; [eapply (cs_probe_lost _ _ _ 0 [2] [1] [2] 0 [SwimAlive [1] 0] table_probing 100); [reflexivity|reflexivity|exact Hd]|].
  apply ticking_reached.
Qed.

Lemma membership_accurate_witness : [1] <> [2] /\ is_Some (cl_nodes run_dead !! [1]) /\ (is_alive_state (Dead 0) = false -> [1] = [1]).
Proof.
  apply (membership_accurate anyone (fun k => k = [1]) run_dead [2] table_dead2 [1] (Dead 0)).
  - by apply run_dead_reached.
  - reflexivity.
  - vm_compute. reflexivity.
Defined.

Lemma join_is_mutual_witness : exists c' s' sp', rtc (cluster_step anyone anyone) run_joined c' /\
  cl_nodes c' !! [2] = Some s' /\ cl_nodes c' !! [1] = Some sp' /\ is_alive s' [1] = true /\ is_alive sp' [2] = true.
Proof.
  apply (join_is_mutual anyone anyone run_joined [2] table_joined [1] (swim_new [1])).
  - apply run_joined_reached.
  - reflexivity.
  - reflexivity.
  - done.
  - intros st. vm_compute. by intros [= <-].
  - intros st. vm_compute. discriminate.
Defined.
