(* ===== verification/Host.v ===== *)
(** * WASM host functions (crates/craftec-com/src/host.rs)

    The capabilities a sandboxed agent can call.  Arguments are [i32] values of the
    agent's choosing, cast to [usize] (64 bits); a slice out of range panics.  The
    linear memory is a byte list, absent when the module exports none.  The object
    store and the database are used through their own models. *)
From Stdlib Require Import ZArith Lia.
From stdpp Require Import base list list_numbers numbers strings gmap.
From S2P Require Import Prelude Types Instances F64 External ObjStore PageIndex Wire Vfs Sql Keys.

Local Open Scope Z_scope.

Definition SIGN_RATE_LIMIT : Z := 10.

(** [KeyStore::sign] with the node's key, as 64 bytes. *)
Class KeyStore : Type := { ks_sign : list Z -> list Z }.

(** [x as usize] for an [i32], [x as i32] for a [usize], [usize::saturating_add]. *)
Definition as_usize (x : Z) : Z := wrap 64 x.
Definition as_i32 (x : Z) : Z := let y := wrap 32 x in if y <? 2 ^ 31 then y else y - 2 ^ 32.
Definition saturating_add (a b : Z) : Z := Z.min (a + b) (2 ^ 64 - 1).

(** [&data[start..end]] *)
Definition checked_slice (data : list Z) (start stop : Z) : option (list Z) :=
  if (start <=? stop) && (stop <=? Z.of_nat (length data))
  then Some (slice data (Z.to_nat start) (Z.to_nat stop)) else None.

Section Host.
Context `{B3 : Blake3} `{LRU : Lru (Cid * Z) (list Z)} `{LS : Libsql} `{KS : KeyStore}.
Context `{PC : Postcard (list (list ColumnValue))}.
Context {St IO : Type} `{CS : !ContentStore St IO}.

Record HostState : Type := mkHost {
  hs_store : St;
  hs_database : option (CraftDatabase (St := St));
  scratch : list Z;
  sign_count : Z;
}.

Definition host_new (store : St) (database : option CraftDatabase) : HostState := mkHost store database [] 0.

(** What a call sees: the exported memory and the host state. *)
Record Caller : Type := mkCaller {
  memory : option (list Z);
  host : HostState;
}.

Definition with_host (cl : Caller) (h : HostState) : Caller := mkCaller (memory cl) h.
Definition with_scratch (h : HostState) (s : list Z) : HostState :=
  mkHost (hs_store h) (hs_database h) s (sign_count h).

(** The common prologue: the bytes at [ptr, ptr + len), an error code, or a panic. *)
Definition read_memory (data : list Z) (ptr len : Z) : outcome (result (list Z) Z) :=
  let start := as_usize ptr in
  let stop := saturating_add start (as_usize len) in
  if stop >? Z.of_nat (length data) then Returned (Err (-2))
  else match checked_slice data start stop with
       | None => Panicked
       | Some bytes => Returned (Ok bytes)
       end.

Definition craft_store_get (cl : Caller) (cid_ptr cid_len : Z) (io : IO) : outcome (Caller * Z) :=
  match memory cl with
  | None => Returned (cl, -3)
  | Some data =>
      let start := as_usize cid_ptr in
      let stop := saturating_add start (as_usize cid_len) in
      if (stop >? Z.of_nat (length data)) || negb (cid_len =? 32) then Returned (cl, -2)
      else match checked_slice data start stop with
      | None => Panicked
      | Some cid_bytes =>
          (* copy_from_slice *)
          if negb (length cid_bytes =? CID_SIZE)%nat then Panicked
          else
            let h := host cl in
            Returned match cs_get (hs_store h) cid_bytes io with
            | (s, Ok (Some bytes)) =>
                (with_host cl (mkHost s (hs_database h) bytes (sign_count h)), Z.of_nat (length bytes))
            | (s, Ok None) => (with_host cl (mkHost s (hs_database h) (scratch h) (sign_count h)), -1)
            | (s, Err _) => (with_host cl (mkHost s (hs_database h) (scratch h) (sign_count h)), -3)
            end
      end
  end.

Definition craft_store_put (cl : Caller) (data_ptr data_len : Z) (io : IO) : outcome (Caller * Z) :=
  match memory cl with
  | None => Returned (cl, -3)
  | Some data =>
      match read_memory data data_ptr data_len with
      | Panicked => Panicked
      | Returned (Err code) => Returned (cl, code)
      | Returned (Ok payload) =>
          let h := host cl in
          Returned match cs_put (hs_store h) payload io with
          | (s, Ok c) => (with_host cl (mkHost s (hs_database h) c (sign_count h)), 32)
          | (s, Err _) => (with_host cl (mkHost s (hs_database h) (scratch h) (sign_count h)), -3)
          end
      end
  end.

Definition craft_sql_query (cl : Caller) (sql_ptr sql_len : Z) : outcome (Caller * Z) :=
  match memory cl with
  | None => Returned (cl, -3)
  | Some data =>
      match read_memory data sql_ptr sql_len with
      | Panicked => Panicked
      | Returned (Err code) => Returned (cl, code)
      | Returned (Ok sql) =>
          let h := host cl in
          Returned
            (if negb (utf8_valid sql) then (cl, -2)
             else match hs_database h with
             | None => (cl, -1)
             | Some db =>
                 match query db sql with
                 | (db, Ok rows) =>
                     match to_allocvec rows with
                     | Some encoded =>
                         (with_host cl (mkHost (hs_store h) (Some db) encoded (sign_count h)), Z.of_nat (length encoded))
                     | None => (with_host cl (mkHost (hs_store h) (Some db) (scratch h) (sign_count h)), -3)
                     end
                 | (db, Err _) => (with_host cl (mkHost (hs_store h) (Some db) (scratch h) (sign_count h)), -2)
                 end
             end)
      end
  end.

Definition craft_sign (cl : Caller) (msg_ptr msg_len : Z) : outcome (Caller * Z) :=
  let h := host cl in
  if SIGN_RATE_LIMIT <=? sign_count h then Returned (cl, -1)
  else match memory cl with
  | None => Returned (cl, -3)
  | Some data =>
      match read_memory data msg_ptr msg_len with
      | Panicked => Panicked
      | Returned (Err code) => Returned (cl, code)
      | Returned (Ok msg) =>
          Returned (with_host cl (mkHost (hs_store h) (hs_database h) (ks_sign msg) (wrap 32 (sign_count h + 1))), 64)
      end
  end.

(** [off + n] in [usize]: a debug build panics on overflow, a release build wraps. *)
Definition usize_add (overflow_checks : bool) (a b : Z) : option Z :=
  if overflow_checks && (2 ^ 64 <=? a + b) then None else Some (wrap 64 (a + b)).

Definition craft_read_result (overflow_checks : bool) (cl : Caller) (dst_ptr offset len : Z)
    : outcome (Caller * Z) :=
  let h := host cl in
  let off := as_usize offset in
  let n := as_usize len in
  match usize_add overflow_checks off n with
  | None => Panicked
  | Some stop =>
      if stop >? Z.of_nat (length (scratch h)) then Returned (cl, -1)
      else match checked_slice (scratch h) off stop with
      | None => Panicked
      | Some chunk =>
          match memory cl with
          | None => Returned (cl, -2)
          | Some mem_data =>
              let dst := as_usize dst_ptr in
              match usize_add overflow_checks dst n with
              | None => Panicked
              | Some dst_stop =>
                  if dst_stop >? Z.of_nat (length mem_data) then Returned (cl, -3)
                  else match checked_slice mem_data dst dst_stop with
                  | None => Panicked
                  | Some _ =>
                      Returned
                        (mkCaller (Some (take (Z.to_nat dst) mem_data ++ chunk ++ drop (Z.to_nat dst_stop) mem_data)) h,
                         as_i32 n)
                  end
              end
          end
      end
  end.

(** The bytes [craft_log] emits; [None] stands for its two placeholder messages. *)
Definition craft_log (cl : Caller) (msg_ptr msg_len : Z) : outcome (option (list Z)) :=
  match memory cl with
  | None => Returned None
  | Some data =>
      match read_memory data msg_ptr msg_len with
      | Panicked => Panicked
      | Returned (Err _) => Returned None
      | Returned (Ok msg) => Returned (Some msg)
      end
  end.

(** ** Invocations *)

Inductive host_call : Type :=
| HStoreGet (cid_ptr cid_len : Z) (io : IO)
| HStorePut (data_ptr data_len : Z) (io : IO)
| HSqlQuery (sql_ptr sql_len : Z)
| HSign (msg_ptr msg_len : Z)
| HReadResult (dst_ptr offset len : Z)
| HLog (msg_ptr msg_len : Z)
| HMemory (m : option (list Z)).

(** One call of an agent, or the agent's own writes to its memory. *)
Definition host_exec (checks : bool) (cl : Caller) (c : host_call) : outcome (Caller * Z) :=
  match c with
  | HStoreGet p n io => craft_store_get cl p n io
  | HStorePut p n io => craft_store_put cl p n io
  | HSqlQuery p n => craft_sql_query cl p n
  | HSign p n => craft_sign cl p n
  | HReadResult d o n => craft_read_result checks cl d o n
  | HLog p n => match craft_log cl p n with Returned _ => Returned (cl, 0) | Panicked => Panicked end
  | HMemory m => Returned (mkCaller m (host cl), 0)
  end.

(** The calls of one invocation in order, with what each returned, up to a panic. *)
Fixpoint host_run (checks : bool) (cl : Caller) (calls : list host_call) : list (host_call * Z) :=
  match calls with
  | [] => []
  | c :: calls =>
      match host_exec checks cl c with
      | Panicked => []
      | Returned (cl, v) => (c, v) :: host_run checks cl calls
      end
  end.

Definition signed_call (cv : host_call * Z) : bool :=
  match cv with
  | (HSign _ _, v) => v =? 64
  | _ => false
  end.

End Host.

Section HostFacts.
Context `{BL : Blake3Laws} `{LRU : Lru (Cid * Z) (list Z)} `{LS : Libsql} `{KS : KeyStore}.
Context `{PC : Postcard (list (list ColumnValue))}.
Context {St IO : Type} {CS : ContentStore St IO} {CSL : ContentStoreLaws St IO}.

Lemma as_usize_range x : 0 <= as_usize x < 2 ^ 64.
Proof. apply (wrap_fits 64). lia. Qed.

Lemma checked_slice_saturating data ptr len :
  saturating_add (as_usize ptr) (as_usize len) <= Z.of_nat (length data) ->
  exists b, checked_slice data (as_usize ptr) (saturating_add (as_usize ptr) (as_usize len)) = Some b /\
    (saturating_add (as_usize ptr) (as_usize len) = as_usize ptr + as_usize len ->
     length b = Z.to_nat (as_usize len)).
Proof.
  intros Hle. pose proof (as_usize_range ptr) as Hp. pose proof (as_usize_range len) as Hn. unfold checked_slice.
  assert (as_usize ptr <= saturating_add (as_usize ptr) (as_usize len)) as Hs by (unfold saturating_add; lia).
  rewrite (proj2 (Z.leb_le _ _) Hs), (proj2 (Z.leb_le _ _) Hle). cbn [andb]. eexists. split; [done|]. intros Heq.
  rewrite length_slice by lia. rewrite Heq. lia.
Qed.

Lemma read_memory_total data ptr len : exists r, read_memory data ptr len = Returned r.
Proof.
  unfold read_memory. destruct (_ >? _) eqn:E; [by eexists|]. rewrite Z.gtb_ltb in E. bool_to_prop.
  destruct (checked_slice_saturating data ptr len E) as (b & -> & _). by eexists.
Qed.

(** ** Bounds *)

(** A 32-bit linear memory. *)
Definition memory_ok (cl : Caller (St := St)) : Prop :=
  match memory cl with
  | Some data => Z.of_nat (length data) <= 2 ^ 32
  | None => True
  end.

(** C38: Whatever [i32] arguments an agent passes, reading an object, storing one,
    querying, signing and logging return to the agent: no argument makes the host
    slice out of range.  They leave the agent's memory (at most 4 GiB) as it was. *)
Theorem host_calls_return (cl : Caller (St := St)) p n io :
  memory_ok cl ->
  (exists cl' v, craft_store_get cl p n io = Returned (cl', v) /\ memory cl' = memory cl) /\
  (exists cl' v, craft_store_put cl p n io = Returned (cl', v) /\ memory cl' = memory cl) /\
  (exists cl' v, craft_sql_query cl p n = Returned (cl', v) /\ memory cl' = memory cl) /\
  (exists cl' v, craft_sign cl p n = Returned (cl', v) /\ memory cl' = memory cl) /\
  (exists r, craft_log cl p n = Returned r).
Proof.
  intros Hmem. unfold memory_ok in Hmem.
  assert (forall data, exists r, read_memory data p n = Returned r) as Hrm by (intros; apply read_memory_total).
  split_and!.
  - unfold craft_store_get. destruct (memory cl) as [data|] eqn:Em; [|by eexists _, _].
    destruct (_ || _) eqn:E; [by eexists _, _|]. rewrite Z.gtb_ltb in E. bool_to_prop.
    destruct (n =? 32) eqn:En; [|done]. bool_to_prop. subst n.
    destruct (checked_slice_saturating data p 32) as (b & Hb & Hlen); [done|]. rewrite Hb.
    assert ((length b =? CID_SIZE)%nat = true) as ->.
    { rewrite Hlen; [done|]. unfold saturating_add in *. pose proof (as_usize_range p). lia. }
    cbn [negb]. destruct (cs_get _ _ _) as [s [[r|]|e]]; by eexists _, _.
  - unfold craft_store_put. destruct (memory cl) as [data|] eqn:Em; [|by eexists _, _].
    destruct (Hrm data) as [[b|code] ->]; [|by eexists _, _]. destruct (cs_put _ _ _) as [s [c|e]]; by eexists _, _.
  - unfold craft_sql_query. destruct (memory cl) as [data|] eqn:Em; [|by eexists _, _].
    destruct (Hrm data) as [[b|code] ->]; [|by eexists _, _]. eexists _, _. split; [apply f_equal, surjective_pairing|].
    repeat case_match; done.
  - unfold craft_sign. destruct (_ <=? _); [by eexists _, _|]. destruct (memory cl) as [data|] eqn:Em; [|by eexists _, _].
    destruct (Hrm data) as [[b|code] ->]; by eexists _, _.
  - unfold craft_log. destruct (memory cl) as [data|]; [|by eexists]. destruct (Hrm data) as [[b|code] ->]; by eexists.
Qed.

Lemma as_usize_nonneg x : 0 <= x < 2 ^ 31 -> as_usize x = x.
Proof. intros. apply wrap_id. unfold fits. lia. Qed.

(** For non-negative arguments [craft_read_result] copies exactly the requested
    bytes of the scratch buffer into exactly the requested place, or reports that
    the buffer, or the memory, is too short. *)
Theorem read_result_spec checks (cl : Caller (St := St)) dst off n :
  0 <= dst < 2 ^ 31 -> 0 <= off < 2 ^ 31 -> 0 <= n < 2 ^ 31 ->
  craft_read_result checks cl dst off n = Returned
    (if Z.of_nat (length (scratch (host cl))) <? off + n then (cl, -1)
     else match memory cl with
     | None => (cl, -2)
     | Some m =>
         if Z.of_nat (length m) <? dst + n then (cl, -3)
         else (mkCaller (Some (take (Z.to_nat dst) m ++ slice (scratch (host cl)) (Z.to_nat off) (Z.to_nat (off + n)) ++
                                drop (Z.to_nat (dst + n)) m)) (host cl), n)
     end).
Proof.
  intros Hd Ho Hn. unfold craft_read_result. rewrite !(as_usize_nonneg off), !(as_usize_nonneg n) by lia. cbn zeta.
  assert (forall a, 0 <= a < 2 ^ 31 -> usize_add checks a n = Some (a + n)) as Hadd.
  { intros a Ha. unfold usize_add. rewrite (proj2 (Z.leb_gt (2 ^ 64) (a + n))), andb_false_r by lia.
    by rewrite wrap_id by (unfold fits; lia). }
  assert (forall a l, 0 <= a -> a + n <= Z.of_nat (length l) ->
    checked_slice l a (a + n) = Some (slice l (Z.to_nat a) (Z.to_nat (a + n)))) as Hsl.
  { intros a l Ha Hl. unfold checked_slice. by rewrite (proj2 (Z.leb_le a (a + n))), (proj2 (Z.leb_le _ _) Hl) by lia. }
  rewrite Hadd, Z.gtb_ltb by lia. destruct (_ <? off + n) eqn:E1; [done|]. bool_to_prop. rewrite Hsl by lia.
  destruct (memory cl) as [m|]; [|done]. rewrite (as_usize_nonneg dst), Hadd, Z.gtb_ltb by lia.
  destruct (_ <? dst + n) eqn:E2; [done|]. bool_to_prop. rewrite Hsl by lia.
  do 2 f_equal. unfold as_i32. rewrite wrap_id by (unfold fits; lia). by rewrite (proj2 (Z.ltb_lt n (2 ^ 31))) by lia.
Qed.

(** ** Rate limit *)

Lemma host_exec_sign_count checks (cl cl' : Caller (St := St)) c v :
  0 <= sign_count (host cl) <= SIGN_RATE_LIMIT -> host_exec checks cl c = Returned (cl', v) ->
  if signed_call (c, v) then sign_count (host cl) < SIGN_RATE_LIMIT /\ sign_count (host cl') = sign_count (host cl) + 1
  else sign_count (host cl') = sign_count (host cl).
Proof.
  intros Hr. destruct c; cbn [host_exec signed_call].
  - unfold craft_store_get. repeat case_match; intros; by simplify_eq.
  - unfold craft_store_put. repeat case_match; intros; by simplify_eq.
  - unfold craft_sql_query. repeat case_match; intros; by simplify_eq.
  - unfold craft_sign. destruct (SIGN_RATE_LIMIT <=? sign_count (host cl)) eqn:E; [by intros [= <- <-]|]. bool_to_prop.
    destruct (memory cl) as [data|]; [|by intros [= <- <-]].
    destruct (read_memory data msg_ptr msg_len) as [[b|code]|] eqn:Em; [| |done]; intros [= <- <-].
    + cbn. split; [done|]. apply wrap_id. unfold fits, SIGN_RATE_LIMIT in *. lia.
    + unfold read_memory in Em. assert (code = -2) as -> by (repeat case_match; by simplify_eq). done.
  - unfold craft_read_result. repeat case_match; intros; by simplify_eq.
  - unfold craft_log. repeat case_match; intros; by simplify_eq.
  - by intros [= <- <-].
Qed.

Lemma host_run_signs checks (cl : Caller (St := St)) calls :
  0 <= sign_count (host cl) <= SIGN_RATE_LIMIT ->
  Z.of_nat (length (List.filter signed_call (host_run checks cl calls))) <= SIGN_RATE_LIMIT - sign_count (host cl).
Proof.
  revert cl. induction calls as [|c calls IH]; intros cl Hr; cbn [host_run]; [cbn; lia|].
  destruct (host_exec checks cl c) as [[cl' v]|] eqn:E; [|cbn; lia].
  pose proof (host_exec_sign_count checks cl cl' c v Hr E) as Hs. cbn [List.filter].
  destruct (signed_call (c, v)); [destruct Hs as [Hlt Hs]; cbn [length]|]; specialize (IH cl' ltac:(lia)); lia.
Qed.

(** An agent obtains at most ten signatures per invocation, however its calls
    interleave and whatever it writes to its memory. *)
Theorem sign_rate_limited checks store database m calls :
  (length (List.filter signed_call (host_run checks (mkCaller m (host_new (St := St) store database)) calls)) <= 10)%nat.
Proof.
  pose proof (host_run_signs checks (mkCaller m (host_new store database)) calls) as Hs.
  unfold SIGN_RATE_LIMIT in Hs. cbn in Hs. lia.
Qed.

(** ** Storing and reading back *)

Lemma read_memory_nonneg data p n :
  0 <= p < 2 ^ 31 -> 0 <= n < 2 ^ 31 -> p + n <= Z.of_nat (length data) ->
  read_memory data p n = Returned (Ok (slice data (Z.to_nat p) (Z.to_nat (p + n)))).
Proof.
  intros Hp Hn Hl. unfold read_memory, saturating_add. rewrite !as_usize_nonneg, Z.min_l by lia.
  rewrite Z.gtb_ltb, (proj2 (Z.ltb_ge _ _) Hl). unfold checked_slice.
  by rewrite (proj2 (Z.leb_le p (p + n))), (proj2 (Z.leb_le _ _) Hl) by lia.
Qed.

(** An agent that stores bytes, copies the returned CID into its memory and asks
    for it gets the same bytes back, unless the store fails. *)
Theorem agent_object_roundtrip checks (cl : Caller (St := St)) M m p n q io1 io2 :
  cs_repr (hs_store (host cl)) M -> memory cl = Some m -> bytes m ->
  0 <= p < 2 ^ 31 -> 0 <= n < 2 ^ 31 -> p + n <= Z.of_nat (length m) ->
  0 <= q < 2 ^ 31 -> q + 32 <= Z.of_nat (length m) ->
  let d := slice m (Z.to_nat p) (Z.to_nat (p + n)) in
  M !! cid_from_data d = None \/ M !! cid_from_data d = Some d ->
  exists cl1 v1, craft_store_put cl p n io1 = Returned (cl1, v1) /\
  (v1 = -3 \/ v1 = 32 /\
   exists cl2, craft_read_result checks cl1 q 0 32 = Returned (cl2, 32) /\
   exists cl3 v3, craft_store_get cl2 q 32 io2 = Returned (cl3, v3) /\
   (v3 = -3 \/ v3 = n /\ scratch (host cl3) = d)).
Proof.
  intros Hs Hm Hb Hp Hn Hpn Hq Hq32 d HM. unfold craft_store_put. rewrite Hm, read_memory_nonneg by done. fold d.
  assert (bytes d) as Hd by (apply bytes_take, bytes_drop, Hb).
  assert (length d = Z.to_nat n) as Hdl by (subst d; rewrite length_slice; lia).
  pose proof (cs_put_spec (hs_store (host cl)) M d io1 Hs Hd) as Hput.
  destruct (cs_put (hs_store (host cl)) d io1) as [s [c|e]]; [|eexists _, _; split; [done|by left]].
  destruct Hput as [-> Hs']. eexists _, _. split; [done|]. right. split; [done|].
  pose proof (cid_from_data_wf d) as [Hcl Hcb]. unfold CID_SIZE in Hcl.
  rewrite read_result_spec by lia. cbn [host scratch with_host memory]. rewrite Hm, Hcl.
  rewrite (proj2 (Z.ltb_ge _ _)) by lia. rewrite (proj2 (Z.ltb_ge _ (q + 32))) by lia.
  eexists. split; [done|]. unfold craft_store_get. cbn [memory host hs_store].
  unfold saturating_add. rewrite as_usize_nonneg, (as_usize_nonneg 32), Z.min_l by lia.
  assert (slice (cid_from_data d) (Z.to_nat 0) (Z.to_nat (0 + 32)) = cid_from_data d) as ->.
  { unfold slice. change (Z.to_nat 0) with 0%nat. rewrite drop_0. apply take_ge. cbn. lia. }
  set (m' := take (Z.to_nat q) m ++ cid_from_data d ++ drop (Z.to_nat (q + 32)) m).
  assert (length m' = length m) as Hml by (subst m'; rewrite !length_app, length_take, length_drop; lia).
  rewrite Hml, Z.gtb_ltb, (proj2 (Z.ltb_ge _ _) Hq32). cbn [orb negb Z.eqb Pos.eqb]. unfold checked_slice.
  rewrite Hml, (proj2 (Z.leb_le q (q + 32))), (proj2 (Z.leb_le _ _) Hq32) by lia. cbn [andb].
  assert (slice m' (Z.to_nat q) (Z.to_nat (q + 32)) = cid_from_data d) as ->.
  { subst m'. apply slice_app_at; rewrite length_take; lia. }
  rewrite Hcl. cbn [Nat.eqb CID_SIZE negb].
  pose proof (cs_get_spec s (spec_put M d) (cid_from_data d) io2 Hs' (cid_from_data_wf d)) as Hget.
  destruct (cs_get s (cid_from_data d) io2) as [s2 [r|e]]; [|eexists _, _; split; [done|by left]].
  assert (spec_put M d !! cid_from_data d = Some d) as Hsp
    by (unfold spec_put; destruct HM as [HM|HM]; rewrite HM; [apply lookup_insert_eq|done]).
  destruct Hget as [-> _]. rewrite Hsp. eexists _, _. split; [done|].
  right. split; [lia|done].
Qed.

End HostFacts.

(** ** Concrete runs *)

#[local] Instance toy_keystore : KeyStore := {| ks_sign msg := take 64 (msg ++ replicate 64 0) |}.
#[local] Instance no_rows : Postcard (list (list ColumnValue)) := {| to_allocvec _ := None; from_bytes _ := None |}.
#[local] Instance no_libsql : Libsql := {|
  sqldb := unit; sql_open := None; sql_file _ := [];
  sql_execute db _ := (db, None); sql_query db _ := (db, Ok []);
|}.

Abbreviation obj_io := (write_outcome * rename_outcome * read_outcome)%type.
Definition demo_caller : Caller (St := ObjStore) := mkCaller (Some (replicate 10 7 ++ replicate 54 0)) (host_new demo_store None).

Lemma host_calls_return_witness :
  exists cl' v, craft_store_get demo_caller (-1) 32 (WriteOk, RenameOk, ReadOk) = Returned (cl', v) /\
    memory cl' = memory demo_caller.
Proof.
  exact (proj1 (host_calls_return (IO := obj_io) demo_caller (-1) 32 (WriteOk, RenameOk, ReadOk) ltac:(cbv; discriminate))).
Defined.

Lemma read_result_spec_witness :
  craft_read_result true (mkCaller (Some [0; 0; 0; 0]) (with_scratch (host demo_caller) [5; 6; 7])) 1 1 2 =
  Returned (mkCaller (Some [0; 6; 7; 0]) (with_scratch (host demo_caller) [5; 6; 7]), 2).
Proof.
  rewrite (read_result_spec true (mkCaller (Some [0; 0; 0; 0]) (with_scratch (host demo_caller) [5; 6; 7])) 1 1 2) by lia.
  reflexivity.
Defined.

Lemma agent_object_roundtrip_witness :
  exists cl1 v1, craft_store_put demo_caller 0 10 (WriteOk, RenameOk, ReadOk) = Returned (cl1, v1) /\
  (v1 = -3 \/ v1 = 32 /\
   exists cl2, craft_read_result true cl1 16 0 32 = Returned (cl2, 32) /\
   exists cl3 v3, craft_store_get cl2 16 32 (WriteOk, RenameOk, ReadOk) = Returned (cl3, v3) /\
   (v3 = -3 \/ v3 = 10 /\ scratch (host cl3) = replicate 10 7)).
Proof.
  apply (agent_object_roundtrip (IO := obj_io) true demo_caller ∅ (replicate 10 7 ++ replicate 54 0) 0 10 16);
    [apply new_repr|reflexivity|by_compute|lia|lia|cbn; lia|lia|cbn; lia|left; apply lookup_empty].
Defined.

(** Offsets are added without a check: a negative offset makes [off + n] wrap past
    the end of the address space, so the range test passes and the slice panics (a
    debug build panics in the addition), in the host, at an agent's choice. *)
Theorem read_result_panics :
  craft_read_result false demo_caller 0 (-1) 1 = Panicked /\ craft_read_result true demo_caller 0 (-1) 1 = Panicked.
Proof. split; reflexivity. Qed.

(** The limit in action: eleven requests, ten signatures. *)
Example eleven_signatures :
  map snd (host_run true demo_caller (replicate 11 (HSign 0 4))) = replicate 10 64 ++ [-1].
Proof. vm_compute. reflexivity. Qed.
