(* ===== verification/Handler.v ===== *)
(** * Inbound messages (crates/craftec-node/src/handler.rs)

    The node's message handler, composed of the object store, the piece tracker, the
    provider table, the pending fetches, the signed-write handler and the coded
    piece index. *)
From Stdlib Require Import ZArith Lia.
From stdpp Require Import base list list_numbers numbers strings gmap.
From S2P Require Import Prelude Gf256 Linear Types Instances External Hommac Encoder Decoder DecoderRank Recoder Engine ObjStore PageIndex Wire Vfs Health Repair Sql Dht Pending.

Local Open Scope Z_scope.

Section Handler.
Context `{B3 : Blake3} `{LRU : Lru (Cid * Z) (list Z)} `{ED : Ed25519} `{LS : Libsql}.
Context {PC : Postcard CodedPiece} {PW : Postcard SignedWrite}.
Context {St IO : Type} `{CS : !ContentStore St IO}.

(** The handler's object store is the one the database's VFS writes to. *)
Record NodeState : Type := mkNode {
  node_tracker : PieceTracker;
  node_dht : DhtProviders;
  node_pending : PendingFetches;
  node_db : CraftDatabase (St := St);
  node_pieces : CodedPieceIndex;
}.

Definition node_store (h : NodeState) : St := vstore (db_vfs (node_db h)).

Definition with_db_store (db : CraftDatabase (St := St)) (s : St) : CraftDatabase (St := St) :=
  let v := db_vfs db in
  mkDb (db_id db) (owner db)
    (mkVfs s (page_index v) (index_root v) (page_cache v) (dirty_pages v) (current_root v) (page_size v))
    (root_cid db) (libsql_db db) (db_has_sender db) (page_committed db).

Definition with_node_tracker (h : NodeState) (t : PieceTracker) : NodeState :=
  mkNode t (node_dht h) (node_pending h) (node_db h) (node_pieces h).
Definition with_node_dht (h : NodeState) (d : DhtProviders) : NodeState :=
  mkNode (node_tracker h) d (node_pending h) (node_db h) (node_pieces h).
Definition with_node_pending (h : NodeState) (p : PendingFetches) : NodeState :=
  mkNode (node_tracker h) (node_dht h) p (node_db h) (node_pieces h).
Definition with_node_db (h : NodeState) (db : CraftDatabase) : NodeState :=
  mkNode (node_tracker h) (node_dht h) (node_pending h) db (node_pieces h).
Definition with_node_store (h : NodeState) (s : St) : NodeState :=
  with_node_db h (with_db_store (node_db h) s).

(** The loop over the indexed piece CIDs: those that can be read and parsed. *)
Fixpoint collect_pieces (s : St) (io : nat -> IO) (pcids : list Cid) : St * list CodedPiece :=
  match pcids with
  | [] => (s, [])
  | pcid :: pcids =>
      let '(s, r) := cs_get s pcid (io 0%nat) in
      let '(s, pieces) := collect_pieces s (fun i => io (S i)) pcids in
      (s, match r with
          | Ok (Some b) => match from_bytes b with Some p => p :: pieces | None => pieces end
          | _ => pieces
          end)
  end.

(** [CodedPiece::new(cid, vec![1], data, compute_tag(..))] *)
Definition identity_piece (c : Cid) (data : list Z) : CodedPiece :=
  CodedPiece_new c [1] data (compute_tag c [1] data).

Definition serve_raw (h : NodeState) (c : Cid) (request_id : Z) (io : IO) : NodeState * option WireMessage :=
  let '(s, r) := cs_get (node_store h) c io in
  (with_node_store h s,
   match r with
   | Ok (Some data) => Some (PieceResponse [identity_piece c data] request_id)
   | Ok None => Some (PieceResponse [] request_id)
   | Err _ => None
   end).

Definition handle_piece_request (h : NodeState) (c : Cid) (request_id : Z) (io : nat -> IO)
    : NodeState * option WireMessage :=
  match piece_cids (node_pieces h) c with
  | Some pcids =>
      let '(s, pieces) := collect_pieces (node_store h) io pcids in
      let h := with_node_store h s in
      match pieces with
      | _ :: _ => (h, Some (PieceResponse pieces request_id))
      | [] => serve_raw h c request_id (io (length pcids))
      end
  | None => serve_raw h c request_id (io 0%nat)
  end.

(** [handle_message]; [now] is the clock, [io] the store's outcomes, [x] those of
    a database synchronisation. *)
Definition node_handle_message (h : NodeState) (from : NodeId) (msg : WireMessage) (now : Z) (io : nat -> IO)
    (x : sync_io (IO := IO)) : NodeState * option WireMessage :=
  match msg with
  | Ping nonce => (h, Some (Pong nonce))
  | Pong _ => (h, None)
  | PieceRequest c _ request_id => handle_piece_request h c request_id io
  | PieceResponse pieces _ =>
      (with_node_pending h (foldl (fun p piece => resolve p (cid piece) piece) (node_pending h) pieces), None)
  | ProviderAnnounce c n => (with_node_dht h (announce_provider (node_dht h) c n now), None)
  | HealthReportMsg c available _ =>
      (with_node_tracker h (record_piece (node_tracker h) c (mkHolder from available now)), None)
  | SignedWriteMsg payload signature writer _ =>
      match from_bytes payload with
      | Some signed_write =>
          let signed_write := mkSigned writer (sw_sql signed_write) (sw_expected_root signed_write) signature in
          (with_node_db h (handle_signed_write (node_db h) signed_write x).1, None)
      | None => (h, None)
      end
  | _ => (h, None)
  end.

End Handler.

Section HandlerFacts.
Context `{BL : Blake3Laws} `{LRU : Lru (Cid * Z) (list Z)} `{ED : Ed25519} `{LS : Libsql}.
Context {PC : Postcard CodedPiece} {PW : Postcard SignedWrite}.
Context {St IO : Type} {CS : ContentStore St IO} {CSL : ContentStoreLaws St IO}.

(** ** Serving pieces *)

(** What the stored objects allow the node to answer. *)
Definition stored_piece (M : gmap Cid (list Z)) (pcids : list Cid) (p : CodedPiece) : Prop :=
  exists pcid b, pcid ∈ pcids /\ M !! pcid = Some b /\ from_bytes b = Some p.

Lemma collect_pieces_spec (s : St) M io pcids :
  cs_repr s M -> Forall cid_wf pcids ->
  cs_repr (collect_pieces s io pcids).1 M /\ Forall (stored_piece M pcids) (collect_pieces s io pcids).2.
Proof.
  intros Hs Hp. revert s io Hs. induction Hp as [|pcid pcids Hc Hp IH]; intros s io Hs; cbn [collect_pieces].
  { split; [done|by apply Forall_nil_2]. }
  pose proof (cs_get_spec s M pcid (io 0%nat) Hs Hc) as Hg. destruct (cs_get s pcid (io 0%nat)) as [s1 r].
  assert (cs_repr s1 M) as Hs1 by (destruct r; [by destruct Hg|done]).
  destruct (IH s1 (fun i => io (S i)) Hs1) as [Hs2 Hf]. destruct (collect_pieces s1 _ pcids) as [s2 pieces].
  cbn [fst snd] in *. split; [done|].
  assert (Forall (stored_piece M (pcid :: pcids)) pieces) as Hf'.
  { eapply Forall_mono; [|exact Hf]. intros p (pc & b & Hin & Hb). exists pc, b. split; [by apply elem_of_cons; right|done]. }
  destruct r as [[b|]|e]; [|done..]. destruct (from_bytes b) as [p|] eqn:Eb; [|done]. destruct Hg as [Hg _].
  apply Forall_cons. split; [|done]. exists pcid, b. split_and!; [by apply elem_of_cons; left|done|done].
Qed.

Lemma spanning_one : spanning 1 [[1]].
Proof.
  assert (Forall (vec 1) [[1]]) as H1 by by_compute.
  intros [|x [|y v]] [Hl Hb]; try discriminate. inversion Hb as [|? ? Hx _]; subst.
  assert ([x] = scale x [1]) as -> by (cbn; by rewrite gf_mul_1_l).
  apply (sub_scale 1); [by apply span_subspace| |done]. apply span_elem; [done|]. apply elem_of_cons. by left.
Qed.

(** The fallback piece passes a receiver's checks and, alone, decodes to the
    object with generation size one. *)
Lemma identity_piece_ok c d :
  bytes d -> verify_mac (identity_piece c d) = true /\ verify_piece_id (identity_piece c d) = true /\
  forall m, engine_decode m 1 (length d) [identity_piece c d] = (count_decode m, Ok d).
Proof.
  intros Hd. split_and!.
  - rewrite verify_mac_tag. unfold verify_tag. by apply bool_decide_true.
  - by apply bool_decide_true.
  - intros m. destruct (engine_decode_spec [d] (length d) m [identity_piece c d]) as [[_ Hdec]|[Hn _]].
    + apply Forall_cons. split; [done|by apply Forall_nil_2].
    + cbn. rewrite !Nat.eqb_refl. cbn. apply Forall_cons. split; [|by apply Forall_nil_2]. split; [by_compute|]. cbn.
      symmetry. apply (combine_unit (length d) [d] 0); [|done]. apply Forall_cons. split; [done|by apply Forall_nil_2].
    + change (Z.of_nat (length [d])) with 1 in Hdec. rewrite Hdec. cbn. by rewrite app_nil_r.
    + destruct Hn. cbn. rewrite !Nat.eqb_refl. apply spanning_one.
Qed.

(** ** Properties *)

(** C10: Every answer to a piece request carries the request's id, leaves the stored
    objects alone and contains only real pieces: those stored under the indexed
    piece CIDs, or else one that checks out and alone decodes to the object asked
    for; an empty answer means that the object is not stored.  The request is left
    without an answer only when the read of the object fails. *)
Theorem piece_request_answered (h : NodeState (St := St)) M from c indices rid now io x :
  cs_repr (node_store h) M -> cid_wf c ->
  (forall pcids, piece_cids (node_pieces h) c = Some pcids -> Forall cid_wf pcids) ->
  (forall d, M !! c = Some d -> bytes d) ->
  let pcids := default [] (piece_cids (node_pieces h) c) in
  match node_handle_message h from (PieceRequest c indices rid) now io x with
  | (h', Some (PieceResponse ps rid')) =>
      rid' = rid /\ cs_repr (node_store h') M /\ h' = with_node_store h (node_store h') /\
      (Forall (stored_piece M pcids) ps /\ ps <> [] \/
       ps = [] /\ M !! c = None \/
       exists d p, ps = [p] /\ M !! c = Some d /\ cid p = c /\ verify_mac p = true /\ verify_piece_id p = true /\
         forall m, engine_decode m 1 (length d) ps = (count_decode m, Ok d))
  | (h', None) => cs_repr (node_store h') M /\ h' = with_node_store h (node_store h') /\
      exists s i, cs_repr s M /\ is_ok (cs_get (IO := IO) s c (io i)).2 = false
  | _ => False
  end.
Proof.
  intros Hs Hc Hidx Hb. cbn [node_handle_message]. cbn zeta.
  assert (forall (h1 : NodeState (St := St)) i, cs_repr (node_store h1) M -> h1 = with_node_store h (node_store h1) ->
    match serve_raw h1 c rid (io i) with
    | (h', Some (PieceResponse ps rid')) =>
        rid' = rid /\ cs_repr (node_store h') M /\ h' = with_node_store h (node_store h') /\
        (ps = [] /\ M !! c = None \/
         exists d p, ps = [p] /\ M !! c = Some d /\ cid p = c /\ verify_mac p = true /\ verify_piece_id p = true /\
           forall m, engine_decode m 1 (length d) ps = (count_decode m, Ok d))
    | (h', None) => cs_repr (node_store h') M /\ h' = with_node_store h (node_store h') /\
        exists s i, cs_repr s M /\ is_ok (cs_get (IO := IO) s c (io i)).2 = false
    | _ => False
    end) as Hraw.
  { intros h1 i Hs1 Hh1. unfold serve_raw. pose proof (cs_get_spec (node_store h1) M c (io i) Hs1 Hc) as Hg.
    destruct (cs_get (node_store h1) c (io i)) as [s [[d|]|e]] eqn:E; rewrite Hh1; cbn; [| |split_and!; [done|done|exists (node_store h1), i; by rewrite E; split]].
    - destruct Hg as [Hg Hs']. split_and!; try done. right. exists d, (identity_piece c d).
      destruct (identity_piece_ok c d) as (? & ? & ?); [by apply Hb|]. split_and!; done.
    - destruct Hg as [Hg Hs']. split_and!; try done. left. done. }
  assert (h = with_node_store h (node_store h)) as Hself by (by destruct h as [? ? ? [? ? [] ? ? ? ?] ?]).
  unfold handle_piece_request. destruct (piece_cids (node_pieces h) c) as [pcids|]; cbn [from_option id].
  - destruct (collect_pieces_spec (node_store h) M io pcids Hs (Hidx pcids eq_refl)) as [Hs1 Hf].
    destruct (collect_pieces (node_store h) io pcids) as [s1 [|p ps]]; cbn [fst snd] in *.
    + specialize (Hraw (with_node_store h s1) (length pcids) Hs1 eq_refl).
      destruct (serve_raw _ _ _ _) as [h' [[]|]]; naive_solver.
    + split_and!; try done. by left.
  - specialize (Hraw h 0%nat Hs Hself). destruct (serve_raw _ _ _ _) as [h' [[]|]]; naive_solver.
Qed.

Lemma resolve_run s pieces :
  foldl (fun p piece => resolve p (cid piece) piece) s pieces =
  foldl pending_exec s (map (fun piece => PResolve (cid piece) piece) pieces).
Proof. revert s. induction pieces as [|p ps IH]; intros s; [done|]. cbn. apply IH. Qed.

(** A response that is handed to the handler ends the wait of a task for its content:
    whatever the node's other tasks did before, the task receives the piece. *)
Theorem response_ends_wait (a : NodeState (St := St)) p rid from now io x before t0 :
  let '(pending, tx) := register (foldl pending_exec pending_new before) (cid p) t0 in
  node_pending a = pending ->
  channels (node_pending (node_handle_message a from (PieceResponse [p] rid) now io x).1) !! tx = Some (Delivered p).
Proof.
  pose proof (waiter_run before (cid p) t0 [PResolve (cid p) p]) as Hw. destruct (register _ (cid p) t0) as [pending tx]. intros Ha.
  cbn [node_handle_message fst node_pending with_node_pending]. rewrite Ha, resolve_run. cbn [map]. rewrite Hw. cbn. by rewrite bool_decide_true.
Qed.

(** ** The database behind the handler *)

(** An inbound message with what the environment contributes to handling it. *)
Record inbound : Type := mkInbound {
  in_from : NodeId;
  in_msg : WireMessage;
  in_now : Z;
  in_io : nat -> IO;
  in_sync : sync_io (IO := IO);
}.

Definition node_step (h : NodeState (St := St)) (m : inbound) : NodeState :=
  (node_handle_message h (in_from m) (in_msg m) (in_now m) (in_io m) (in_sync m)).1.

Lemma handle_signed_write_runs (db : CraftDatabase (St := St)) msg x :
  (handle_signed_write db msg x).1 = db \/
  authorised (owner db) msg /\ (handle_signed_write db msg x).1 = (execute db (sw_sql msg) (sw_writer msg) x).1.
Proof.
  unfold handle_signed_write. destruct (write_checks db msg) as [[]|e] eqn:E; [|by left].
  right. split; [by apply write_checks_authorised|]. by destruct (execute _ _ _ _) as [db' [[]|e]].
Qed.

(** What happens to the database and the store under it: the node reads an object,
    or executes a statement. *)
Inductive db_event : Type :=
| DbRead (c : Cid) (io : IO)
| DbExecute (w : SignedWrite) (x : sync_io (IO := IO)).

Definition db_apply (db : CraftDatabase (St := St)) (e : db_event) : CraftDatabase :=
  match e with
  | DbRead c io => with_db_store db (cs_get (vstore (db_vfs db)) c io).1
  | DbExecute w x => (execute db (sw_sql w) (sw_writer w) x).1
  end.

Definition event_authorised (o : NodeId) (e : db_event) : Prop :=
  match e with DbRead _ _ => True | DbExecute w _ => authorised o w end.

Lemma db_apply_owner db e : owner (db_apply db e) = owner db.
Proof. destruct e; [done|]. apply execute_owner. Qed.

Lemma db_run_owner db es : owner (foldl db_apply db es) = owner db.
Proof. revert db. induction es as [|e es IH]; intros db; [done|]. cbn. by rewrite IH, db_apply_owner. Qed.

(** The events of one message: a run of reads, or at most one execution. *)
Definition db_run (db db' : CraftDatabase (St := St)) : Prop :=
  exists es, db' = foldl db_apply db es /\ Forall (event_authorised (owner db)) es.

Lemma db_run_refl db : db_run db db.
Proof. exists []. split; [done|by apply Forall_nil_2]. Qed.

Lemma db_run_trans db1 db2 db3 : db_run db1 db2 -> db_run db2 db3 -> db_run db1 db3.
Proof.
  intros (es & -> & H1) (es' & -> & H2). exists (es ++ es'). rewrite foldl_app, db_run_owner in *.
  split; [done|]. by apply Forall_app.
Qed.

Lemma db_run_one db e : event_authorised (owner db) e -> db_run db (db_apply db e).
Proof. intros He. exists [e]. split; [done|]. apply Forall_cons. split; [done|by apply Forall_nil_2]. Qed.

Lemma with_db_store_id (db : CraftDatabase (St := St)) : with_db_store db (vstore (db_vfs db)) = db.
Proof. by destruct db as [? ? [] ? ? ? ?]. Qed.

Lemma collect_pieces_run (db : CraftDatabase (St := St)) io pcids :
  db_run db (with_db_store db (collect_pieces (vstore (db_vfs db)) io pcids).1).
Proof.
  revert db io. induction pcids as [|pcid pcids IH]; intros db io; cbn [collect_pieces].
  { rewrite with_db_store_id. apply db_run_refl. }
  pose proof (db_run_one db (DbRead pcid (io 0%nat)) I) as H1. cbn [db_apply] in H1.
  destruct (cs_get _ pcid _) as [s1 r]. cbn [fst] in H1.
  pose proof (IH (with_db_store db s1) (fun i => io (S i))) as H2. cbn [db_vfs vstore with_db_store] in H2.
  destruct (collect_pieces s1 _ pcids) as [s2 ps]. exact (db_run_trans _ _ _ H1 H2).
Qed.

Lemma serve_raw_run (h : NodeState (St := St)) c rid io : db_run (node_db h) (node_db (serve_raw h c rid io).1).
Proof.
  pose proof (db_run_one (node_db h) (DbRead c io) I) as H1. unfold serve_raw, node_store in *. cbn [db_apply] in H1.
  by destruct (cs_get _ c io) as [s r].
Qed.

Lemma piece_request_run (h : NodeState (St := St)) c rid io : db_run (node_db h) (node_db (handle_piece_request h c rid io).1).
Proof.
  unfold handle_piece_request. destruct (piece_cids _ _) as [pcids|]; [|apply serve_raw_run].
  pose proof (collect_pieces_run (node_db h) io pcids) as H1. unfold node_store in *.
  destruct (collect_pieces _ _ _) as [s [|p ps]]; [|exact H1].
  eapply db_run_trans; [exact H1|]. exact (serve_raw_run (with_node_store h s) c rid _).
Qed.

Lemma node_step_run (h : NodeState (St := St)) m : db_run (node_db h) (node_db (node_step h m)).
Proof.
  unfold node_step. destruct (in_msg m) as [| |c idx rid| | |payload signature writer v| | | | | | |];
    cbn [node_handle_message]; try apply db_run_refl; [apply piece_request_run|].
  destruct (from_bytes payload) as [w|]; [|apply db_run_refl]. set (w' := mkSigned _ _ _ _).
  destruct (handle_signed_write_runs (node_db h) w' (in_sync m)) as [Hn|[Ha Hn]]; cbn [fst node_db with_node_db]; rewrite Hn.
  - apply db_run_refl.
  - by apply (db_run_one (node_db h) (DbExecute w' (in_sync m))).
Qed.

(** Whatever messages arrive from whichever peers, the database and the object
    store under it only ever see reads of objects and statements the owner signed. *)
Theorem handler_writes_authorised (h : NodeState (St := St)) msgs :
  exists log : list db_event,
    node_db (foldl node_step h msgs) = foldl db_apply (node_db h) log /\
    Forall (event_authorised (owner (node_db h))) log.
Proof.
  change (db_run (node_db h) (node_db (foldl node_step h msgs))).
  revert h. induction msgs as [|m msgs IH]; intros h; [apply db_run_refl|]. cbn [foldl].
  eapply db_run_trans; [apply node_step_run|apply IH].
Qed.

End HandlerFacts.

(** ** Concrete runs *)

#[local] Instance quiet_ed25519 : Ed25519 := {| verifying_key_ok _ := false; ed_verify _ _ _ := false |}.
#[local] Instance quiet_libsql : Libsql := {|
  sqldb := unit; sql_open := None; sql_file _ := []; sql_execute db _ := (db, None); sql_query db _ := (db, Ok []);
|}.
#[local] Instance no_pieces : Postcard CodedPiece := {| to_allocvec _ := None; from_bytes _ := None |}.
#[local] Instance no_writes : Postcard SignedWrite := {| to_allocvec _ := None; from_bytes _ := None |}.

Definition demo_object : list Z := [7; 8].
Abbreviation demo_io := (fun _ : nat => (WriteOk, RenameOk, ReadOk)).
Definition demo_node (s : ObjStore) (p : PendingFetches) : NodeState (St := ObjStore) :=
  mkNode tracker_new dht_new p (with_db_store (mkDb [] [] demo_vfs [] tt false []) s) piece_index_new.
Definition demo_server : NodeState (St := ObjStore) := demo_node (put demo_store demo_object ReadOk WriteOk RenameOk).1 pending_new.
Definition demo_client : NodeState (St := ObjStore) := demo_node demo_store (register pending_new (cid_from_data demo_object) 5).1.

Lemma demo_server_repr :
  cs_repr (IO := write_outcome * rename_outcome * read_outcome) (node_store demo_server) (spec_put ∅ demo_object).
Proof.
  pose proof (cs_put_spec (IO := write_outcome * rename_outcome * read_outcome) demo_store ∅ demo_object
    (WriteOk, RenameOk, ReadOk) (new_repr _)) as Hp.
  destruct Hp as [_ Hp]; [by_compute|exact Hp].
Qed.

Lemma demo_object_cid : cid_wf (cid_from_data demo_object).
Proof. split; by_compute. Qed.

Lemma piece_request_answered_witness :
  exists p rid, (node_handle_message demo_server [1] (PieceRequest (cid_from_data demo_object) [] 3) 0 demo_io
           (mkSync true id demo_io)).2 = Some (PieceResponse [p] rid) /\ rid = 3 /\ verify_mac p = true.
Proof.
  pose proof (piece_request_answered demo_server (spec_put ∅ demo_object) [1] (cid_from_data demo_object) [] 3 0 demo_io
    (mkSync true id demo_io) demo_server_repr demo_object_cid ltac:(by intros ? [=])) as Hr.
  exists (identity_piece (cid_from_data demo_object) demo_object), 3.
  assert ((node_handle_message demo_server [1] (PieceRequest (cid_from_data demo_object) [] 3) 0 demo_io
    (mkSync true id demo_io)).2 = Some (PieceResponse [identity_piece (cid_from_data demo_object) demo_object] 3)) as He
    by (vm_compute; reflexivity).
  split; [exact He|]. destruct (node_handle_message demo_server _ _ _ _ _) as [h' out]. cbn [snd] in He. subst out.
  destruct Hr as (Hrid & _ & _ & Hor); [intros d Hd; assert (d = demo_object) as -> by (vm_compute in Hd; inversion Hd; reflexivity); by_compute|].
  split; [exact Hrid|]. destruct Hor as [[Hst _]|[[? _]|(d & p & Hp & _ & _ & Hv & _)]].
  - exfalso. apply Forall_cons in Hst as [(pc & b & Hpc & _) _]. by apply not_elem_of_nil in Hpc.
  - discriminate.
  - inversion Hp; subst. exact Hv.
Defined.

Lemma response_ends_wait_witness :
  let p := identity_piece (cid_from_data demo_object) demo_object in
  channels (node_pending (node_handle_message demo_client [1] (PieceResponse [p] 3) 0 demo_io (mkSync true id demo_io)).1) !! 0%nat = Some (Delivered p).
Proof.
  apply (response_ends_wait demo_client (identity_piece (cid_from_data demo_object) demo_object) 3 [1] 0 demo_io (mkSync true id demo_io) [] 5).
  reflexivity.
Defined.
