(* ===== verification/Rpc.v ===== *)
(** * RPC requests (crates/craftec-node/src/rpc.rs)

    The handler behind the [/craftec/rpc/1] connections: it answers from the object
    store, the database, the membership table and the piece tracker that the
    message handler works on. *)
From Stdlib Require Import ZArith Lia Ascii.
From stdpp Require Import base list list_numbers numbers strings gmap relations.
From S2P Require Import Prelude Types Instances F64 External ObjStore PageIndex Wire Vfs Swim Health Repair Sql Keys Dht Pending Pool Endpoint Handler.

Local Open Scope Z_scope.

(** What the handler needs of the store beyond [ContentStore]: its listing and its
    object count, which may fail. *)
Class StoreListing (S IO : Type) : Type := {
  sl_list : S -> IO -> result (list Cid) ObjError;
  sl_count : S -> IO -> result nat ObjError;
}.

Class StoreListingLaws (S IO : Type) `{ContentStore S IO} `{StoreListing S IO} : Prop := {
  sl_list_spec s M io l : cs_repr s M -> sl_list s io = Ok l -> forall c, c ∈ l <-> is_Some (M !! c);
}.

(** [ContentAddressedStore::list_cids] and [object_count], on directories that are seen. *)
Definition store_list `{Hex} `{Lru Cid (list Z)} `{Bloom Cid} (s : ObjStore) (r : read_outcome) : result (list Cid) ObjError :=
  list_cids s (fun _ => match r with ReadOk => DirOk | ReadErr => DirErr end).
Definition store_count `{Hex} `{Lru Cid (list Z)} `{Bloom Cid} (s : ObjStore) (r : read_outcome) : result nat ObjError :=
  object_count s (fun _ => match r with ReadOk => DirOk | ReadErr => DirErr end) (fun _ => true).

Lemma store_list_repr `{Blake3Laws} `{HexLaws} `{LruLaws Cid (list Z)} `{BloomLaws Cid} s M r l :
  store_repr s M -> store_list s r = Ok l -> forall c, c ∈ l <-> is_Some (M !! c).
Proof.
  intros Hs Hl c. unfold store_list in Hl. rewrite (list_repr s M _ l c Hs Hl). split; [by intros []|]. intros Hc. split; [done|]. by destruct r.
Qed.

#[export] Instance obj_store_listing `{Hex} `{Lru Cid (list Z)} `{Bloom Cid} :
    StoreListing ObjStore (write_outcome * rename_outcome * read_outcome) :=
  {| sl_list s io := store_list s io.2; sl_count s io := store_count s io.2 |}.

#[export] Instance obj_store_listing_laws `{Blake3Laws} `{HexLaws} `{LruLaws Cid (list Z)} `{BloomLaws Cid} :
    StoreListingLaws ObjStore (write_outcome * rename_outcome * read_outcome).
Proof. split. intros s M io l Hs Hl. exact (store_list_repr s M io.2 l Hs Hl). Qed.

Section Rpc.
Context `{B3 : Blake3} `{LRU : Lru (Cid * Z) (list Z)} `{ED : Ed25519} `{LS : Libsql}.
Context {St IO : Type} `{CS : !ContentStore St IO} `{SL : !StoreListing St IO}.

(** [NodeRpcHandler]: what it shares with the rest of the node, and its own
    start time, in seconds. *)
Record RpcNode : Type := mkRpcNode {
  rn_id : NodeId;
  rn_node : NodeState (St := St);
  rn_swim : Swim;
  rn_start : Z;
}.

Definition rn_with (h : RpcNode) (n : NodeState) : RpcNode := mkRpcNode (rn_id h) n (rn_swim h) (rn_start h).

Record rpc_env : Type := mkRpcEnv {
  re_now : Z;
  re_io : IO;
  re_sync : sync_io (IO := IO);
}.

Definition column_to_rpc (v : ColumnValue) : RpcValue :=
  match v with
  | ColNull => RpcNull
  | ColInteger i => RpcInteger i
  | ColReal x => RpcReal x
  | ColText s => RpcText (of_utf8 s)
  | ColBlob b => RpcBlob b
  end.

Definition rpc_handle (h : RpcNode) (from : NodeId) (req : RpcRequest) (env : rpc_env) : RpcNode * RpcResponse :=
  let n := rn_node h in
  let db := node_db n in
  match req with
  | ReqStatus =>
      let store_objects := match sl_count (node_store n) (re_io env) with Ok k => k | Err _ => 0%nat end in
      (h, RespStatus (rn_id h) (alive_count (rn_swim h)) store_objects (root_cid db) (Z.max 0 (re_now env - rn_start h)))
  | ReqStorePut data =>
      match cs_put (node_store n) data (re_io env) with
      | (s, Ok c) => (rn_with h (with_node_store n s), RespStorePut c)
      | (s, Err _) => (rn_with h (with_node_store n s), RespError 500 "store put failed")
      end
  | ReqStoreGet c =>
      match cs_get (node_store n) c (re_io env) with
      | (s, Ok data) => (rn_with h (with_node_store n s), RespStoreGet data)
      | (s, Err _) => (rn_with h (with_node_store n s), RespError 500 "store get failed")
      end
  | ReqStoreList =>
      (h, match sl_list (node_store n) (re_io env) with
          | Ok cids => RespStoreList cids
          | Err _ => RespError 500 "store list failed"
          end)
  | ReqSqlQuery sql =>
      match query db (utf8 sql) with
      | (db, Ok rows) => (rn_with h (with_node_db n db), RespSqlQuery (map (map column_to_rpc) rows))
      | (db, Err _) => (rn_with h (with_node_db n db), RespError 400 "query failed")
      end
  | ReqSqlExecute sql writer signature =>
      if negb (bool_decide (writer = rn_id h)) then (h, RespError 403 "not the database owner")
      else if negb (verify (utf8 sql) signature writer) then (h, RespError 403 "invalid signature")
      else match execute db (utf8 sql) writer (re_sync env) with
      | (db, Ok _) => (rn_with h (with_node_db n db), RespSqlExecute (root_cid db))
      | (db, Err _) => (rn_with h (with_node_db n db), RespError 400 "execute failed")
      end
  | ReqPeers =>
      let peers := alive_members (rn_swim h) in (h, RespPeers peers (length peers))
  | ReqPieceInfo c =>
      (h, RespPieceInfo c (available_count (node_tracker n) c) (get_k (node_tracker n) c) (holder_nodes (node_tracker n) c))
  end.

#[export] Instance NodeRpcHandler : RpcHandler RpcNode rpc_env := {| handle_request := rpc_handle |}.

End Rpc.

(** ** What every operation keeps *)

Section Persistence.
Context `{BL : Blake3Laws} `{LL : LruLaws (Cid * Z) (list Z)} `{ED : Ed25519} `{LS : Libsql}.
Context {St IO : Type} {CS : ContentStore St IO} {CSL : ContentStoreLaws St IO}.
Context (ps : nat) (Hps : (0 < ps)%nat) (Hfile : forall l, file_ok ps (sql_file l)).

(** The node's store holds exactly the objects of [M], its VFS is sound, and the
    piece index lists well-formed CIDs. *)
Record node_ok (n : NodeState (St := St)) (M : gmap Cid (list Z)) : Prop := {
  no_vfs : vfs_safe (db_vfs (node_db n)) M;
  no_page_size : page_size (db_vfs (node_db n)) = ps;
  no_index c pcids : piece_cids (node_pieces n) c = Some pcids -> Forall cid_wf pcids;
}.

Lemma node_ok_store n M : node_ok n M -> cs_repr (node_store n) M.
Proof. intros Hn. apply (no_vfs n M Hn). Qed.

Lemma node_ok_with_store n M s M' : node_ok n M -> cs_repr s M' -> node_ok (with_node_store n s) M'.
Proof. intros [[Hs Hi Hd] Hp Hx] Hs'. split; [by split|done|done]. Qed.

Lemma write_pages_size (v : CidVfs (St := St)) i pages : page_size (write_pages v i pages).1 = page_size v.
Proof.
  revert v i. induction pages as [|c pages IH]; intros v i; [done|]. cbn. unfold write_page. destruct (negb _); [done|]. by rewrite IH.
Qed.

Lemma sync_page_size file (v : CidVfs (St := St)) x : page_size (sync_pages_to_vfs file v x).1 = page_size v.
Proof.
  unfold sync_pages_to_vfs. destruct (read_ok x); [|done]. cbn [negb].
  pose proof (write_pages_size v 0 (chunks (page_size v) file)) as Hw.
  destruct (write_pages _ _ _) as [v1 [[]|e]]; cbn in *; [|done].
  pose proof (page_size_exec v1 (VCommit (sync_order x) (sync_store_io x))) as Hc. cbn [vfs_exec] in Hc.
  destruct (commit v1 _ _) as [v2 [r|e]]; cbn in *; congruence.
Qed.

Lemma execute_page_size (db : CraftDatabase (St := St)) sql writer x :
  page_size (db_vfs (execute db sql writer x).1) = page_size (db_vfs db).
Proof.
  unfold execute. destruct (check_ownership _ _); [|done]. destruct (sql_execute _ _) as [l [msg|]]; [done|].
  pose proof (sync_page_size (sql_file l) (db_vfs db) x) as Hs. by destruct (sync_pages_to_vfs _ _ _) as [v [root|e]].
Qed.

Lemma node_ok_with_db n M db M' :
  node_ok n M -> vfs_safe (db_vfs db) M' -> page_size (db_vfs db) = ps -> node_ok (with_node_db n db) M'.
Proof. intros [_ _ Hx] Hv Hs. by split. Qed.

Lemma execute_grows n M sql writer x :
  node_ok n M -> (forall l, sync_order x l ≡ₚ l) ->
  exists M', node_ok (with_node_db n (execute (node_db n) sql writer x).1) M' /\ grows M M'.
Proof.
  intros Hn Hord. destruct (execute_safe (node_db n) M sql writer x (no_vfs n M Hn)) as (M' & Hv & Hsub).
  - by rewrite (no_page_size n M Hn).
  - by rewrite (no_page_size n M Hn).
  - done.
  - exists M'. split; [|done]. apply (node_ok_with_db n M); [done|done|]. by rewrite execute_page_size, (no_page_size n M).
Qed.

Lemma query_ok n M sql : node_ok n M -> node_ok (with_node_db n (query (node_db n) sql).1) M.
Proof.
  intros [Hv Hp Hx]. unfold query. destruct (snapshot _); [|by split]. by destruct (sql_query _ _) as [l [rows|e]].
Qed.

(** Requests as the wire delivers them: a CID is 32 bytes, data is bytes. *)
Definition req_wf (req : RpcRequest) : Prop :=
  match req with
  | ReqStorePut data => bytes data
  | ReqStoreGet c | ReqPieceInfo c => cid_wf c
  | _ => True
  end.

Context `{SL : !StoreListing St IO} {SLL : StoreListingLaws St IO}.

(** An answer about the store, read against the objects before and after. *)
Definition store_answer (M : gmap Cid (list Z)) (req : RpcRequest) (resp : RpcResponse) (M' : gmap Cid (list Z)) : Prop :=
  match req with
  | ReqStorePut data =>
      resp = RespStorePut (cid_from_data data) /\ M' = spec_put M data \/ resp = RespError 500 "store put failed" /\ M' = M
  | ReqStoreGet c => M' = M /\ (resp = RespStoreGet (M !! c) \/ resp = RespError 500 "store get failed")
  | ReqStoreList => M' = M /\
      ((exists cids, resp = RespStoreList cids /\ forall c, c ∈ cids <-> is_Some (M !! c)) \/ resp = RespError 500 "store list failed")
  | ReqSqlExecute _ _ _ => grows M M'
  | _ => M' = M
  end.

Lemma rpc_handle_ok h from req env M :
  node_ok (rn_node h) M -> req_wf req -> (forall l, sync_order (re_sync env) l ≡ₚ l) ->
  exists M', node_ok (rn_node (rpc_handle h from req env).1) M' /\ store_answer M req (rpc_handle h from req env).2 M'.
Proof.
  intros Hn Hreq Hord. pose proof (node_ok_store _ _ Hn) as Hs. destruct req as [|data|c| |sql|sql writer sig| |c]; cbn [rpc_handle].
  - by exists M.
  - pose proof (cs_put_spec (node_store (rn_node h)) M data (re_io env) Hs Hreq) as Hp.
    destruct (cs_put _ data _) as [s [c|e]]; cbn [fst snd].
    + destruct Hp as [-> Hp]. exists (spec_put M data). split; [by eapply node_ok_with_store|by left].
    + exists M. split; [by eapply node_ok_with_store|by right].
  - pose proof (cs_get_spec (node_store (rn_node h)) M c (re_io env) Hs Hreq) as Hg.
    destruct (cs_get _ c _) as [s [r|e]]; cbn [fst snd]; exists M; (split; [|split; [done|]]).
    + destruct Hg as [_ Hg]. by eapply node_ok_with_store.
    + destruct Hg as [-> _]. by left.
    + by eapply node_ok_with_store.
    + by right.
  - exists M. split; [done|]. cbn [store_answer snd]. split; [done|].
    destruct (sl_list _ _) as [l|e] eqn:El; [left|by right]. exists l. split; [done|]. by eapply sl_list_spec.
  - pose proof (query_ok _ M (utf8 sql) Hn) as Hq. exists M. by destruct (query _ _) as [db [rows|e]].
  - destruct (negb (bool_decide _)); [exists M; by split; [|cbn; reflexivity]|].
    destruct (negb (verify _ _ _)); [exists M; by split; [|cbn; reflexivity]|].
    destruct (execute_grows (rn_node h) M (utf8 sql) writer (re_sync env) Hn Hord) as (M' & Hn' & Hsub).
    exists M'. by destruct (execute _ _ _ _) as [db [[]|e]].
  - by exists M.
  - by exists M.
Qed.

Lemma store_answer_grows M req resp M' : req_wf req -> store_answer M req resp M' -> grows M M'.
Proof.
  intros Hreq Ha. destruct req; cbn in Ha; try (subst; reflexivity); try (destruct Ha as [-> _]; reflexivity); [|done].
  destruct Ha as [[_ ->]|[_ ->]]; [by apply spec_put_grows|reflexivity].
Qed.

(** The RPC interface of the store refines a map of objects: a put binds the CID of
    its data, a get answers the binding, a listing names the bound CIDs; failures
    of the store are reported with code 500 and change nothing; statements may add
    objects, and no request loses one. *)
Theorem rpc_store_refines_map h from req env M :
  node_ok (rn_node h) M -> req_wf req -> (forall l, sync_order (re_sync env) l ≡ₚ l) ->
  let '(h', resp) := rpc_handle h from req env in
  exists M', node_ok (rn_node h') M' /\ M ⊆ M' /\ store_answer M req resp M'.
Proof.
  intros Hn Hreq Hord. destruct (rpc_handle_ok h from req env M Hn Hreq Hord) as (M' & Hn' & Ha).
  destruct (rpc_handle h from req env) as [h' resp]. exists M'. split_and!; [done| |done].
  exact (proj1 (store_answer_grows M req resp M' Hreq Ha)).
Qed.

End Persistence.

(** ** Authorisation *)

Section RpcFacts.
Context `{B3 : Blake3} `{LRU : Lru (Cid * Z) (list Z)} `{ED : Ed25519} `{LS : Libsql}.
Context {St IO : Type} `{CS : !ContentStore St IO} `{SL : !StoreListing St IO}.

(** A statement is executed exactly when the request names the node as the writer
    and carries its signature of the text; everything else is refused with code
    403 and leaves the node as it was.  The answer is the new root, or code 400
    with what [execute] left behind. *)
Theorem rpc_execute_spec (h : RpcNode (St := St)) from sql writer sig env :
  owner (node_db (rn_node h)) = rn_id h ->
  let '(h', resp) := rpc_handle h from (ReqSqlExecute sql writer sig) env in
  if bool_decide (writer = rn_id h) && verify (utf8 sql) sig writer then
    let '(db', r) := execute (node_db (rn_node h)) (utf8 sql) (owner (node_db (rn_node h))) (re_sync env) in
    h' = rn_with h (with_node_db (rn_node h) db') /\
    resp = if is_ok r then RespSqlExecute (root_cid db') else RespError 400 "execute failed"
  else h' = h /\ exists reason, resp = RespError 403 reason.
Proof.
  intros Ho. cbn [rpc_handle]. destruct (bool_decide (writer = rn_id h)) eqn:Ew; bool_to_prop; cbn [negb andb]; [|eauto].
  destruct (verify (utf8 sql) sig writer); cbn [negb]; [|eauto]. subst writer. rewrite Ho.
  by destruct (execute _ _ _ _) as [db' [[]|e]].
Qed.

(** A query reaches the engine whoever sends it and whatever it says: no owner, no
    signature and no read-only check stand between a client and the database. *)
Theorem rpc_query_unchecked (h : RpcNode (St := St)) from sql env root :
  current_root (db_vfs (node_db (rn_node h))) = Some root ->
  libsql_db (node_db (rn_node (rpc_handle h from (ReqSqlQuery sql) env).1)) =
  (sql_query (libsql_db (node_db (rn_node h))) (utf8 sql)).1.
Proof.
  intros Hr. cbn [rpc_handle]. unfold query, snapshot. rewrite Hr.
  by destruct (sql_query _ _) as [l [rows|msg]].
Qed.

End RpcFacts.
