(* ===== verification/Node.v ===== *)
(** * The running node (crates/craftec-node/src/node.rs)

    The loops [CraftecNode::run] spawns, over the state the subsystems share: the
    event dispatch loop with the encoding tasks it starts, the two pruners and the
    announcement of stored CIDs at start-up.  The events a component sends are
    appended to its log in its own model; the node forwards the new ones to the bus
    after each operation. *)
From Stdlib Require Import ZArith Lia.
From stdpp Require Import base list list_numbers numbers strings gmap relations.
From S2P Require Import Prelude Gf256 Linear Types Instances External F64 Hommac Encoder Decoder DecoderRank Recoder Engine Hlc Wire Events ObjStore PageIndex Vfs Swim Health Repair Sql Keys Dht Pending Pool Endpoint Gossip Handler Rpc.

Local Open Scope Z_scope.

Definition OBJ_CACHE_CAPACITY : nat := 1024.
Definition SHUTDOWN_CAPACITY : nat := 16.
Definition EVENT_BUS_CAPACITY : nat := 1024.
Definition STORAGE_BOOTSTRAP_BATCH_SIZE : nat := 100.
(** The [k] of the encoding task. *)
Definition ENCODE_K : Z := 32.

Abbreviation obj_io := (write_outcome * rename_outcome * read_outcome)%type.

(** An encoding task: about to read the content, writing its pieces, or finished. *)
Inductive EncodeTask : Type :=
| EncodeStart (c : Cid)
| EncodePieces (c : Cid) (todo : list CodedPiece) (pcids : list Cid)
| EncodeDone.

Section Node.
Context `{B3 : Blake3} `{HX : Hex} `{LRUO : Lru Cid (list Z)} `{LRU : Lru (Cid * Z) (list Z)} `{BF : Bloom Cid}.
Context `{ED : Ed25519} `{LS : Libsql} `{IR : Iroh} `{BC : Broadcast Event}.
Context {PC : Postcard CodedPiece} {PW : Postcard SignedWrite} {PM : Postcard WireMessage}.

Record CraftecNode : Type := mkCraftecNode {
  nd_id : NodeId;
  nd_app : NodeState (St := ObjStore);
  nd_ep : CraftecEndpoint;
  nd_rlnc : RlncMetrics;
  nd_next_request : Z;
  nd_bus : chan (A := Event);
  nd_rx : nat;
  nd_dispatching : bool;
  nd_tasks : list EncodeTask;
}.

Definition set_app (n : CraftecNode) (a : NodeState) : CraftecNode :=
  mkCraftecNode (nd_id n) a (nd_ep n) (nd_rlnc n) (nd_next_request n) (nd_bus n) (nd_rx n) (nd_dispatching n) (nd_tasks n).
Definition set_ep (n : CraftecNode) (ep : CraftecEndpoint) : CraftecNode :=
  mkCraftecNode (nd_id n) (nd_app n) ep (nd_rlnc n) (nd_next_request n) (nd_bus n) (nd_rx n) (nd_dispatching n) (nd_tasks n).
Definition set_rlnc (n : CraftecNode) (m : RlncMetrics) : CraftecNode :=
  mkCraftecNode (nd_id n) (nd_app n) (nd_ep n) m (nd_next_request n) (nd_bus n) (nd_rx n) (nd_dispatching n) (nd_tasks n).
Definition set_next_request (n : CraftecNode) (id : Z) : CraftecNode :=
  mkCraftecNode (nd_id n) (nd_app n) (nd_ep n) (nd_rlnc n) id (nd_bus n) (nd_rx n) (nd_dispatching n) (nd_tasks n).
Definition set_bus (n : CraftecNode) (b : chan (A := Event)) : CraftecNode :=
  mkCraftecNode (nd_id n) (nd_app n) (nd_ep n) (nd_rlnc n) (nd_next_request n) b (nd_rx n) (nd_dispatching n) (nd_tasks n).
Definition set_tasks (n : CraftecNode) (ts : list EncodeTask) : CraftecNode :=
  mkCraftecNode (nd_id n) (nd_app n) (nd_ep n) (nd_rlnc n) (nd_next_request n) (nd_bus n) (nd_rx n) (nd_dispatching n) ts.
Definition stop_dispatching (n : CraftecNode) : CraftecNode :=
  mkCraftecNode (nd_id n) (nd_app n) (nd_ep n) (nd_rlnc n) (nd_next_request n) (nd_bus n) (nd_rx n) false (nd_tasks n).

(** ** Events *)

(** What the store and the database sent between two states. *)
Definition app_events (a a' : NodeState (St := ObjStore)) : list Event :=
  map EvCidWritten (drop (length (events (node_store a))) (events (node_store a'))) ++
  map (fun e => EvPageCommitted e.1.1 e.1.2 e.2) (drop (length (page_committed (node_db a))) (page_committed (node_db a'))).

Definition to_event (e : swim_event) : Event :=
  match e with PeerConnected n => EvPeerConnected n | PeerDisconnected n => EvPeerDisconnected n end.

Definition update_app (n : CraftecNode) (a : NodeState) : CraftecNode :=
  set_bus (set_app n a) (publish_all (nd_bus n) (app_events (nd_app n) a)).

Definition update_swim (n : CraftecNode) (s : Swim) : CraftecNode :=
  set_bus (set_ep n (with_swim (nd_ep n) s))
    (publish_all (nd_bus n) (map to_event (drop (length (swim_events (ep_swim (nd_ep n)))) (swim_events s)))).

(** ** The event dispatch loop *)

Record loop_env : Type := mkLoopEnv {
  le_ln_ceil : nat -> nat;
  le_choose : list NodeId -> nat -> list NodeId;
  le_sends : nat -> send_io;
}.

(** The body of the loop for one event; a panic of the announcement ends the task. *)
Definition dispatch_event (n : CraftecNode) (ev : Event) (env : loop_env) : CraftecNode :=
  match ev with
  | EvCidWritten c =>
      match announce_cid_to_peers (nd_ep n) c (nd_id n) (le_ln_ceil env) (le_choose env) (le_sends env) with
      | Panicked => stop_dispatching n
      | Returned (ep, _) =>
          let n := set_ep n ep in
          if is_piece_cid (node_pieces (nd_app n)) c then n else set_tasks n (nd_tasks n ++ [EncodeStart c])
      end
  | EvPeerDisconnected id =>
      let a := with_node_tracker (nd_app n) (tracker_remove_node (node_tracker (nd_app n)) id) in
      set_app n (with_node_dht a (dht_remove_node (node_dht a) id))
  | EvShutdownSignal => stop_dispatching n
  | EvPeerConnected _ | EvRepairNeeded _ _ _ | EvDiskWatermarkHit _ | EvPageCommitted _ _ _ => n
  end.

(** One round of the loop; [None] when it would wait or has ended. *)
Definition dispatch_round (n : CraftecNode) (env : loop_env) : option CraftecNode :=
  if negb (nd_dispatching n) then None
  else
    let '(bus, r) := chan_recv (nd_rx n) (nd_bus n) in
    let n := set_bus n bus in
    match r with
    | RecvOk ev => Some (dispatch_event n ev env)
    | RecvLagged _ => Some n
    | RecvClosed => Some (stop_dispatching n)
    | RecvPending => None
    end.

(** ** The encoding task *)

Definition with_node_pieces (a : NodeState (St := ObjStore)) (i : CodedPieceIndex) : NodeState :=
  mkNode (node_tracker a) (node_dht a) (node_pending a) (node_db a) i.

(** Reading the content and encoding it; [rng] are the coder's draws. *)
Definition encode_begin (n : CraftecNode) (c : Cid) (io : obj_io) (rng : nat -> list (Z * Z)) : CraftecNode * EncodeTask :=
  let '(s, r) := cs_get (node_store (nd_app n)) c io in
  let n := update_app n (with_node_store (nd_app n) s) in
  match r with
  | Ok (Some data) =>
      match engine_encode (nd_rlnc n) data ENCODE_K rng with
      | (m, Ok pieces) =>
          let n := set_rlnc n m in
          (set_app n (with_node_tracker (nd_app n) (record_k (node_tracker (nd_app n)) c ENCODE_K)), EncodePieces c pieces [])
      | (m, Err _) => (set_rlnc n m, EncodeDone)
      end
  | _ => (n, EncodeDone)
  end.

(** One piece: its CID is marked before it is stored. *)
Definition encode_piece_step (n : CraftecNode) (c : Cid) (p : CodedPiece) (pcids : list Cid) (io : obj_io)
    : CraftecNode * list Cid :=
  match to_allocvec p with
  | None => (n, pcids)
  | Some bytes =>
      let a := with_node_pieces (nd_app n) (mark_piece_cid (node_pieces (nd_app n)) (cid_from_data bytes)) in
      let '(s, r) := cs_put (node_store a) bytes io in
      let n := update_app n (with_node_store a s) in
      match r with
      | Ok pcid => (n, pcids ++ [pcid])
      | Err _ => (n, pcids)
      end
  end.

(** The index entry and this node as a holder of what was stored. *)
Definition encode_finish (n : CraftecNode) (c : Cid) (pcids : list Cid) (now : Z) : CraftecNode :=
  let a := with_node_pieces (nd_app n) (piece_index_insert (node_pieces (nd_app n)) c pcids) in
  set_app n (with_node_tracker a
    (record_piece (node_tracker a) c (mkHolder (nd_id n) (wrap 32 (Z.of_nat (length pcids))) now))).

Record task_env : Type := mkTaskEnv {
  te_io : obj_io;
  te_rng : nat -> list (Z * Z);
  te_now : Z;
}.

(** One step of a task. *)
Definition task_step (n : CraftecNode) (t : EncodeTask) (env : task_env) : CraftecNode * EncodeTask :=
  match t with
  | EncodeStart c => encode_begin n c (te_io env) (te_rng env)
  | EncodePieces c (p :: todo) pcids =>
      let '(n, pcids) := encode_piece_step n c p pcids (te_io env) in (n, EncodePieces c todo pcids)
  | EncodePieces c [] pcids => (encode_finish n c pcids (te_now env), EncodeDone)
  | EncodeDone => (n, EncodeDone)
  end.

(** ** The other loops *)

Definition prune_pending (n : CraftecNode) (now : Z) : CraftecNode :=
  set_app n (with_node_pending (nd_app n) (pending_prune_stale (node_pending (nd_app n)) now 120000).1).

Definition prune_dht (n : CraftecNode) (now : Z) : CraftecNode :=
  set_app n (with_node_dht (nd_app n) (dht_prune_stale (node_dht (nd_app n)) now 300000).1).

Definition on_message (n : CraftecNode) (m : inbound (IO := obj_io)) : CraftecNode * option WireMessage :=
  let '(a, reply) := node_handle_message (nd_app n) (in_from m) (in_msg m) (in_now m) (in_io m) (in_sync m) in
  (update_app n a, reply).

Definition on_rpc (n : CraftecNode) (start : Z) (from : NodeId) (req : RpcRequest) (env : rpc_env (IO := obj_io))
    : CraftecNode * RpcResponse :=
  let '(h, resp) := rpc_handle (mkRpcNode (nd_id n) (nd_app n) (ep_swim (nd_ep n)) start) from req env in
  (update_app n (rn_node h), resp).

Definition on_swim (n : CraftecNode) (msg : WireMessage) (now : Z) : CraftecNode * SwimReply :=
  let '(s, r) := handle_swim_msg msg (ep_swim (nd_ep n)) now in (update_swim n s, r).

Definition on_tick (n : CraftecNode) (now : Z) (pc : tick_pc) : CraftecNode * tick_pc :=
  let '(s, pc) := tick_step (ep_swim (nd_ep n)) now pc in (update_swim n s, pc).

(** *** The tasks of the endpoint and of the membership loop *)

(** The accept loop takes a connection; the RPC handler is registered at start-up. *)
Definition on_accept (n : CraftecNode) (alpn : string) (remote : NodeId) (conn now : Z)
    (order : list (NodeId * PooledConnection) -> list (NodeId * PooledConnection)) : CraftecNode :=
  set_ep n (accept_conn (nd_ep n) alpn remote conn now order true).

(** A reader observes the timestamp of a frame. *)
Definition on_clock (n : CraftecNode) (hlc_ts wall : Z) : CraftecNode :=
  set_ep n (with_clock (nd_ep n) (observe (ep_hlc (nd_ep n)) hlc_ts wall).1).

(** A spawned send: the ping of a delegate. *)
Definition on_send (n : CraftecNode) (peer : NodeId) (msg : WireMessage) (io : send_io) : outcome CraftecNode :=
  match send_message (nd_ep n) peer msg io with
  | Panicked => Panicked
  | Returned (ep, _, _) => Returned (set_ep n ep)
  end.

Definition on_probe_start (n : CraftecNode) (target : NodeId) (msg : WireMessage) (io : send_io) : outcome (CraftecNode * probe_pc) :=
  match probe_start (nd_ep n) target msg io with
  | Panicked => Panicked
  | Returned (ep, pc) => Returned (update_swim (set_ep n (with_swim ep (ep_swim (nd_ep n)))) (ep_swim ep), pc)
  end.

Definition on_probe_direct (n : CraftecNode) (target : NodeId) (nonce : Z) (delegates : list NodeId) (now : Z)
    : CraftecNode * probe_pc * list (NodeId * WireMessage) :=
  let '(s, pc, pings) := probe_direct_end (ep_swim (nd_ep n)) (nd_id n) target nonce delegates now in (update_swim n s, pc, pings).

Definition on_probe_indirect (n : CraftecNode) (target : NodeId) (nonce now : Z) : CraftecNode * probe_pc :=
  let '(s, pc) := probe_indirect_end (ep_swim (nd_ep n)) target nonce now in (update_swim n s, pc).

(** The repair executor on one request of the scanner; the piece goes out over the
    node's endpoint. *)
Definition on_repair (n : CraftecNode) (req : RepairRequest) (io : nat -> obj_io) (draws : nat -> Z * Z) (rng : nat) (sio : send_io)
    : outcome (CraftecNode * option (NodeId * list Z)) :=
  let r := mkRepair (node_store (nd_app n)) (nd_rlnc n) (nd_next_request n) in
  let '(r, out, _) := execute_repair r (node_tracker (nd_app n)) (alive_members (ep_swim (nd_ep n))) (nd_id n)
    (node_pieces (nd_app n)) req io draws rng true in
  let n := update_app n (with_node_store (nd_app n) (rep_store r)) in
  let n := set_next_request (set_rlnc n (rep_metrics r)) (next_request_id r) in
  match out with
  | None => Returned (n, None)
  | Some (target, msg) =>
      match send_message (nd_ep n) target msg sio with
      | Panicked => Panicked
      | Returned (ep, _, frame) => Returned (set_ep n ep, option_map (fun f => (target, f.2)) frame)
      end
  end.

(** Announcing what is stored, in batches; [interrupted i] tells whether shutdown
    arrives in the pause after batch [i].  The result lists the CIDs announced. *)
Fixpoint announce_batch (ep : CraftecEndpoint) (me : NodeId) (cids : list Cid) (env : nat -> loop_env)
    : outcome CraftecEndpoint :=
  match cids with
  | [] => Returned ep
  | c :: cids =>
      let e := env 0%nat in
      match announce_cid_to_peers ep c me (le_ln_ceil e) (le_choose e) (le_sends e) with
      | Panicked => Panicked
      | Returned (ep, _) => announce_batch ep me cids (fun i => env (S i))
      end
  end.

Fixpoint announce_batches (ep : CraftecEndpoint) (me : NodeId) (batches : list (list Cid)) (env : nat -> nat -> loop_env)
    (interrupted : nat -> bool) (announced : list Cid) : outcome (CraftecEndpoint * list Cid) :=
  match batches with
  | [] => Returned (ep, announced)
  | chunk :: batches =>
      match announce_batch ep me chunk (env 0%nat) with
      | Panicked => Panicked
      | Returned ep =>
          let announced := announced ++ chunk in
          match batches with
          | [] => Returned (ep, announced)
          | _ =>
              if interrupted 0%nat then Returned (ep, announced)
              else announce_batches ep me batches (fun i => env (S i)) (fun i => interrupted (S i)) announced
          end
      end
  end.

Definition storage_bootstrap (n : CraftecNode) (io : obj_io) (env : nat -> nat -> loop_env) (interrupted : nat -> bool)
    : outcome (CraftecNode * list Cid) :=
  match sl_list (node_store (nd_app n)) io with
  | Err _ => Returned (n, [])
  | Ok cids =>
      match announce_batches (nd_ep n) (nd_id n) (chunks STORAGE_BOOTSTRAP_BATCH_SIZE cids) env interrupted [] with
      | Panicked => Panicked
      | Returned (ep, announced) => Returned (set_ep n ep, announced)
      end
  end.

End Node.

(** ** Internal activity

    What the node does without outside input: rounds of the dispatch loop, and steps
    of the encoding tasks, in any order. *)

Section Cascade.
Context `{B3 : Blake3} `{HX : Hex} `{LRUO : Lru Cid (list Z)} `{LRU : Lru (Cid * Z) (list Z)} `{BF : Bloom Cid}.
Context `{ED : Ed25519} `{LS : Libsql} `{IR : Iroh} `{BL : BroadcastLaws Event}.
Context {PC : Postcard CodedPiece} {PW : Postcard SignedWrite} {PM : Postcard WireMessage}.

Inductive internal : CraftecNode -> CraftecNode -> Prop :=
| internal_dispatch n env n' : dispatch_round n env = Some n' -> internal n n'
| internal_task n i t env n' t' :
    nd_tasks n !! i = Some t -> t <> EncodeDone -> task_step n t env = (n', t') ->
    internal n (set_tasks n' (<[i := t']> (nd_tasks n'))).

(** Nothing is left to do: the tasks are finished and the loop has read everything. *)
Definition quiet (n : CraftecNode) : Prop :=
  Forall (fun t => t = EncodeDone) (nd_tasks n) /\
  (nd_dispatching n = true -> chan_view (nd_bus n) (nd_rx n) = Some (0%nat, [])).

(** An upper bound of the steps ahead.  Storing a piece can queue one event for a
    marked CID and one notice of lost events. *)
Definition PIECES : nat := Z.to_nat (target_n ENCODE_K).
Definition start_weight : nat := 2 + 3 * PIECES.

Definition task_weight (t : EncodeTask) : nat :=
  match t with
  | EncodeStart _ => start_weight
  | EncodePieces _ todo _ => 1 + 3 * length todo
  | EncodeDone => 0
  end.

Definition event_weight (i : CodedPieceIndex) (ev : Event) : nat :=
  match ev with
  | EvCidWritten c => if is_piece_cid i c then 1 else 1 + start_weight
  | _ => 1
  end.

Definition view_weight (i : CodedPieceIndex) (v : nat * list Event) : nat :=
  (if (v.1 =? 0)%nat then 0 else 1) + sum_list_with (event_weight i) v.2.

Definition node_weight (n : CraftecNode) : nat :=
  sum_list_with task_weight (nd_tasks n) +
  match chan_view (nd_bus n) (nd_rx n) with Some v => view_weight (node_pieces (nd_app n)) v | None => 0 end.

Lemma start_weight_eq : start_weight = 242%nat.
Proof. by vm_compute. Qed.

Lemma event_weight_pos i ev : (1 <= event_weight i ev)%nat.
Proof. unfold event_weight. destruct ev; [case_match|..]; lia. Qed.

Lemma push_weight i cap ev v : (view_weight i (push cap ev v) <= view_weight i v + event_weight i ev + 1)%nat.
Proof.
  unfold view_weight, push. destruct v as [lost l]. destruct (_ <? cap)%nat; cbn [fst snd];
    rewrite sum_list_with_app; cbn; [lia|].
  assert (sum_list_with (event_weight i) (tail l) <= sum_list_with (event_weight i) l)%nat by (destruct l; cbn; lia).
  lia.
Qed.

Lemma is_piece_mark i c c' : is_piece_cid (mark_piece_cid i c) c' = bool_decide (c' = c) || is_piece_cid i c'.
Proof.
  unfold is_piece_cid, mark_piece_cid. cbn [piece_set]. rewrite (bool_decide_ext _ (c' = c \/ c' ∈ piece_set i)).
  - apply bool_decide_or.
  - by rewrite elem_of_union, elem_of_singleton.
Qed.

Lemma mark_weight i c v : (view_weight (mark_piece_cid i c) v <= view_weight i v)%nat.
Proof.
  unfold view_weight. apply Nat.add_le_mono_l. induction v.2 as [|ev l IH]; [done|]. cbn [sum_list_with].
  apply Nat.add_le_mono; [|done]. destruct ev as [c'| | | | | |]; cbn; try done.
  rewrite is_piece_mark. destruct (bool_decide _), (is_piece_cid i c'); cbn; lia.
Qed.

Lemma get_events (s : ObjStore) c r : events (get s c r).1 = events s.
Proof. unfold get. repeat case_match; simplify_eq/=; done. Qed.

Lemma put_events (s : ObjStore) d w r :
  events (put s d ReadOk w r).1 = events s \/ events (put s d ReadOk w r).1 = events s ++ [cid_from_data d].
Proof. unfold put. repeat case_match; simplify_eq/=; auto. Qed.

Lemma app_events_store (a : NodeState) (s : ObjStore) evs :
  events s = events (node_store a) ++ evs -> app_events a (with_node_store a s) = map EvCidWritten evs.
Proof.
  intros Hs. unfold app_events. cbn. rewrite Hs, drop_app_length, drop_all. by rewrite app_nil_r.
Qed.

(** The weight of a node whose store sent nothing, or one event. *)
Definition waiting (n : CraftecNode) : nat :=
  match chan_view (nd_bus n) (nd_rx n) with Some v => view_weight (node_pieces (nd_app n)) v | None => 0 end.

Lemma node_weight_eq n : node_weight n = (sum_list_with task_weight (nd_tasks n) + waiting n)%nat.
Proof. done. Qed.

Lemma begin_waiting n c io rng :
  waiting (encode_begin n c io rng).1 = waiting n /\ nd_tasks (encode_begin n c io rng).1 = nd_tasks n /\
  (task_weight (encode_begin n c io rng).2 < start_weight)%nat.
Proof.
  unfold encode_begin. pose proof (get_events (node_store (nd_app n)) c io.2) as Hev. cbn [cs_get obj_content_store].
  destruct (get _ c io.2) as [s r]. cbn [fst] in Hev.
  assert (app_events (nd_app n) (with_node_store (nd_app n) s) = []) as He by (apply (app_events_store _ _ []); by rewrite app_nil_r).
  unfold update_app. rewrite He. destruct r as [[d|]|e]; [|split_and!; [done|done|cbn [snd task_weight]; unfold start_weight; lia]..].
  unfold engine_encode. destruct (encoder_new d ENCODE_K) as [e|e] eqn:Ee; [|split_and!; [done|done|cbn [snd task_weight]; unfold start_weight; lia]].
  split_and!; [done|done|]. cbn [snd task_weight]. unfold encode_n. rewrite !length_map, length_seq.
  assert (target_pieces e = target_n ENCODE_K) as ->; [|unfold start_weight, PIECES; lia].
  unfold encoder_new in Ee. cbn in Ee. by inversion Ee.
Qed.

Lemma piece_waiting n c p pcids io :
  (waiting (encode_piece_step n c p pcids io).1 <= waiting n + 2)%nat /\
  nd_tasks (encode_piece_step n c p pcids io).1 = nd_tasks n.
Proof.
  unfold encode_piece_step. destruct (to_allocvec p) as [b|]; [|cbn [fst]; split; [lia|done]].
  set (a := with_node_pieces _ _). pose proof (put_events (node_store a) b io.1.1 io.1.2) as Hev.
  cbn [cs_put obj_content_store]. destruct (put (node_store a) b ReadOk io.1.1 io.1.2) as [s r]. cbn [fst] in Hev.
  enough (waiting (update_app n (with_node_store a s)) <= waiting n + 2)%nat by (by destruct r).
  unfold waiting, update_app.
  assert (app_events (nd_app n) (with_node_store a s) = app_events a (with_node_store a s)) as -> by done.
  cbn [nd_bus nd_rx nd_app set_bus set_app].
  change (node_pieces (with_node_store a s)) with (mark_piece_cid (node_pieces (nd_app n)) (cid_from_data b)).
  set (i := node_pieces (nd_app n)). destruct Hev as [Hev|Hev].
  - rewrite (app_events_store a s []) by (by rewrite app_nil_r). cbn.
    destruct (chan_view _ _) as [v|]; [|lia]. pose proof (mark_weight i (cid_from_data b) v). lia.
  - rewrite (app_events_store a s [cid_from_data b]) by done. cbn. unfold publish. rewrite view_send.
    destruct (chan_view _ _) as [v|]; cbn; [|lia].
    pose proof (push_weight (mark_piece_cid i (cid_from_data b)) (chan_capacity (nd_bus n)) (EvCidWritten (cid_from_data b)) v) as Hp.
    pose proof (mark_weight i (cid_from_data b) v).
    assert (event_weight (mark_piece_cid i (cid_from_data b)) (EvCidWritten (cid_from_data b)) = 1%nat) as Hw.
    { cbn [event_weight]. by rewrite is_piece_mark, bool_decide_true. }
    lia.
Qed.

(** The steps of a task leave the list of tasks alone and pay for what they queue. *)
Lemma task_step_weight n t env :
  t <> EncodeDone ->
  nd_tasks (task_step n t env).1 = nd_tasks n /\
  (task_weight (task_step n t env).2 + waiting (task_step n t env).1 < task_weight t + waiting n)%nat.
Proof.
  intros Ht. destruct t as [c|c [|p todo] pcids|]; [| | |done]; cbn [task_step].
  - destruct (begin_waiting n c (te_io env) (te_rng env)) as (Hw & Htk & Hlt). split; [done|]. cbn [task_weight]. lia.
  - split; [done|]. cbn [fst snd task_weight]. unfold encode_finish, waiting. cbn. 
    change (view_weight (piece_index_insert (node_pieces (nd_app n)) c pcids)) with (view_weight (node_pieces (nd_app n))).
    case_match; lia.
  - destruct (piece_waiting n c p pcids (te_io env)) as [Hw Htk].
    destruct (encode_piece_step _ _ _ _ _) as [n' pcids']. cbn [fst snd task_weight length] in *. split; [done|]. lia.
Qed.

Lemma sum_insert {A} (f : A -> nat) l i x y :
  l !! i = Some x -> (sum_list_with f (<[i := y]> l) + f x = sum_list_with f l + f y)%nat.
Proof.
  revert i. induction l as [|z l IH]; intros [|i] Hl; simplify_eq/=; [lia|]. specialize (IH i Hl). lia.
Qed.

Definition subscribed (n : CraftecNode) : Prop := is_Some (chan_view (nd_bus n) (nd_rx n)).

Lemma dispatch_event_weight n ev env :
  (node_weight (dispatch_event n ev env) < node_weight n + event_weight (node_pieces (nd_app n)) ev)%nat /\
  nd_bus (dispatch_event n ev env) = nd_bus n /\ nd_rx (dispatch_event n ev env) = nd_rx n.
Proof.
  rewrite !node_weight_eq. destruct ev as [c| | | | | |]; cbn [dispatch_event event_weight];
    try (split_and!; [unfold waiting; cbn; lia|done|done]).
  destruct (announce_cid_to_peers _ _ _ _ _ _) as [[ep fr]|].
  - cbn [nd_app set_ep]. destruct (is_piece_cid (node_pieces (nd_app n)) c).
    + split_and!; [unfold waiting; cbn; lia|done|done].
    + split_and!; [|done|done]. cbn [nd_tasks set_tasks set_ep]. change (waiting (set_tasks _ _)) with (waiting n).
      rewrite sum_list_with_app. cbn [sum_list_with task_weight]. lia.
  - split_and!; [|done|done]. change (waiting (stop_dispatching n)) with (waiting n). cbn. destruct (is_piece_cid _ _); lia.
Qed.

Lemma dispatch_round_weight n env n' :
  subscribed n -> dispatch_round n env = Some n' -> (node_weight n' < node_weight n)%nat /\ subscribed n'.
Proof.
  intros [v Hv]. unfold dispatch_round. destruct (negb (nd_dispatching n)); [done|].
  destruct (recv_pop (nd_bus n) (nd_rx n) v Hv) as [Hv' Hr]. destruct (chan_recv _ _) as [bus r]. cbn [fst snd] in *. subst r.
  assert (forall w, Some (pop v).1 = Some w -> subscribed (set_bus n bus)) as Hs by (intros w _; by exists (pop v).1).
  unfold node_weight at 2. rewrite Hv. destruct v as [[|lost] [|ev l]]; cbn [pop fst snd] in *; [done| | |].
  - intros [= <-]. destruct (dispatch_event_weight (set_bus n bus) ev env) as (Hw & Hb & Hx).
    split; [|unfold subscribed; rewrite Hb, Hx; by eapply Hs]. eapply Nat.lt_le_trans; [exact Hw|].
    unfold node_weight. cbn [nd_tasks nd_bus nd_rx nd_app set_bus]. rewrite Hv'. unfold view_weight. cbn. lia.
  - intros [= <-]. split; [|by eapply Hs]. unfold node_weight. cbn [nd_tasks nd_bus nd_rx nd_app set_bus]. rewrite Hv'.
    unfold view_weight. cbn. lia.
  - intros [= <-]. split; [|by eapply Hs]. unfold node_weight. cbn [nd_tasks nd_bus nd_rx nd_app set_bus]. rewrite Hv'.
    unfold view_weight. cbn. lia.
Qed.

Lemma publish_all_subscribed (bus : chan) evs rx : is_Some (chan_view bus rx) -> is_Some (chan_view (publish_all bus evs) rx).
Proof. intros [v Hv]. rewrite (publish_all_view bus evs rx v Hv). by eexists. Qed.

Lemma task_step_subscribed n t env : subscribed n -> subscribed (task_step n t env).1.
Proof.
  intros Hs. destruct t as [c|c [|p todo] pcids|]; [| |cbn [task_step]|done]; [|exact Hs|].
  - cbn [task_step]. unfold encode_begin. destruct (cs_get _ _ _) as [s r].
    assert (subscribed (update_app n (with_node_store (nd_app n) s))) as Hu by (by apply publish_all_subscribed).
    destruct r as [[d|]|e]; [|exact Hu..]. by destruct (engine_encode _ _ _ _) as [m [ps|e]].
  - unfold encode_piece_step. destruct (to_allocvec p) as [b|]; [|exact Hs]. destruct (cs_put _ _ _) as [s r].
    assert (subscribed (update_app n (with_node_store (with_node_pieces (nd_app n)
      (mark_piece_cid (node_pieces (nd_app n)) (cid_from_data b))) s))) as Hu by (by apply publish_all_subscribed).
    by destruct r.
Qed.

Lemma internal_weight n n' : subscribed n -> internal n n' -> (node_weight n' < node_weight n)%nat /\ subscribed n'.
Proof.
  intros Hs H1. revert Hs. destruct H1 as [m env m' Hd|m i t env m' t' Hi Ht Hst]; intros Hs; [by eapply dispatch_round_weight|].
  destruct (task_step_weight m t env Ht) as [Htk Hw]. pose proof (task_step_subscribed m t env Hs) as Hs'.
  rewrite Hst in *. cbn [fst snd] in *. split; [|exact Hs']. rewrite !node_weight_eq.
  cbn [nd_tasks set_tasks]. rewrite Htk. pose proof (sum_insert task_weight _ i t t' Hi) as Hsum.
  change (waiting (set_tasks m' _)) with (waiting m'). lia.
Qed.

Lemma task_done_dec (t : EncodeTask) : {t = EncodeDone} + {t <> EncodeDone}.
Proof. destruct t; (by left) || by right. Qed.

Lemma quiet_or_step n : subscribed n -> quiet n \/ exists n', internal n n'.
Proof.
  intros [v Hv]. destruct (Forall_Exists_dec (fun t => t = EncodeDone) (fun t => t <> EncodeDone) task_done_dec (nd_tasks n)) as [Hd|Hd].
  - destruct (nd_dispatching n) eqn:Ed; [|left; by split; [|congruence]]. pose proof (recv_pop _ _ _ Hv) as [_ Hr].
    set (env := mkLoopEnv (fun n => n) (fun l _ => l) (fun _ => mkSendIo 0 0 id (Ok 0) (Ok tt) (Ok tt) (Ok tt))).
    destruct (chan_recv (nd_rx n) (nd_bus n)) as [bus r] eqn:Er. cbn in Hr. subst r.
    destruct v as [[|lost] [|ev l]]; [by left|right..]; eexists; apply (internal_dispatch _ env); unfold dispatch_round;
      rewrite Ed, Er; reflexivity.
  - right. apply list.Exists_exists in Hd as (t & Hin & Ht). apply list_elem_of_lookup in Hin as [i Hi].
    set (env := mkTaskEnv (WriteOk, RenameOk, ReadOk) (fun _ => []) 0).
    destruct (task_step n t env) as [n' t'] eqn:Est. eexists. by eapply internal_task.
Qed.

(** C6: The node's own activity always ends: a written object triggers an encoding whose
    pieces are written in turn, but from any state at most [node_weight] rounds of
    the loop and steps of tasks can follow each other, in whatever order and with
    whatever I/O and network outcomes; and there is a run to the end, where the
    tasks are finished and the loop has read every event. *)
Theorem cascade_ends n :
  subscribed n ->
  (forall k n', nsteps internal k n n' -> (k + node_weight n' <= node_weight n)%nat) /\
  (forall n', rtc internal n n' -> (forall n'', ~ internal n' n'') -> quiet n') /\
  exists n', rtc internal n n' /\ quiet n'.
Proof.
  intros Hs. split_and!.
  - intros k n' Hk. revert Hs. induction Hk as [n|k n n1 n' H1 _ IH]; intros Hs; [lia|].
    destruct (internal_weight n n1 Hs H1) as [Hw Hs1]. specialize (IH Hs1). lia.
  - intros n' Hr Hstuck. assert (subscribed n') as Hs'.
    { clear Hstuck. induction Hr as [n|n n1 n' H1 _ IH]; [done|]. by apply IH, (internal_weight n). }
    destruct (quiet_or_step n' Hs') as [Hq|[n'' H1]]; [done|]. by destruct (Hstuck n'').
  - remember (node_weight n) as w eqn:Hw. revert n Hs Hw. induction w as [w IH] using lt_wf_ind. intros n Hs ->.
    destruct (quiet_or_step n Hs) as [Hq|[n1 H1]]; [by exists n|].
    destruct (internal_weight n n1 Hs H1) as [Hlt Hs1]. destruct (IH _ Hlt n1 Hs1 eq_refl) as (n' & Hr & Hq).
    exists n'. split; [by eapply rtc_l|done].
Qed.

End Cascade.
