(* ===== verification/NodeInv.v ===== *)
(** * What a running node keeps (crates/craftec-node/src/node.rs)

    An invariant of the assembled node, kept by everything that happens to it in
    any order: messages, RPC requests, membership traffic, the dispatch loop, the
    encoding tasks, repairs and the pruners.  No stored object is ever lost, and
    every piece the index names is stored and belongs to its content. *)
From Stdlib Require Import ZArith Lia.
From stdpp Require Import base list list_numbers numbers strings gmap relations.
From S2P Require Import Prelude Gf256 Linear Types Instances External F64 Hommac Encoder Decoder DecoderRank Recoder Engine Hlc Wire Events ObjStore PageIndex Vfs Swim Health Repair Sql Keys Dht Pending Pool Endpoint Gossip Handler Rpc Node.

Local Open Scope Z_scope.

(** Messages as the wire delivers them: the CID of a request is 32 bytes. *)
Definition msg_wf (msg : WireMessage) : Prop :=
  match msg with PieceRequest c _ _ => cid_wf c | _ => True end.

(** ** The handler *)

Section HandlerInv.
Context `{BL : Blake3Laws} `{LL : LruLaws (Cid * Z) (list Z)} `{ED : Ed25519} `{LS : Libsql}.
Context {PC : Postcard CodedPiece} {PW : Postcard SignedWrite}.
Context {St IO : Type} {CS : ContentStore St IO} {CSL : ContentStoreLaws St IO}.
Context (ps : nat) (Hps : (0 < ps)%nat) (Hfile : forall l, file_ok ps (sql_file l)).

Lemma serve_raw_ok (h : NodeState (St := St)) M c rid io :
  node_ok ps h M -> cid_wf c -> node_ok ps (serve_raw h c rid io).1 M /\ node_pieces (serve_raw h c rid io).1 = node_pieces h.
Proof.
  intros Hn Hc. unfold serve_raw. pose proof (cs_get_spec _ M c io (node_ok_store ps h M Hn) Hc) as Hg.
  destruct (cs_get _ c io) as [s [o|e]]; (split; [|done]); apply (node_ok_with_store ps h M); (done || by destruct Hg).
Qed.

Lemma piece_request_ok (h : NodeState (St := St)) M c rid io :
  node_ok ps h M -> cid_wf c ->
  node_ok ps (handle_piece_request h c rid io).1 M /\ node_pieces (handle_piece_request h c rid io).1 = node_pieces h.
Proof.
  intros Hn Hc. unfold handle_piece_request. destruct (piece_cids (node_pieces h) c) as [pcids|] eqn:Ei; [|by apply serve_raw_ok].
  destruct (collect_pieces_spec (node_store h) M io pcids (node_ok_store ps h M Hn) (no_index ps h M Hn c pcids Ei)) as [Hs _].
  destruct (collect_pieces _ _ _) as [s [|p l]]; cbn [fst] in Hs;
    pose proof (node_ok_with_store ps h M s M Hn Hs) as Hn'; [|by split].
  by apply (serve_raw_ok (with_node_store h s)).
Qed.

Lemma handle_message_ok (h : NodeState (St := St)) M (m : inbound (IO := IO)) :
  node_ok ps h M -> msg_wf (in_msg m) -> (forall l, sync_order (in_sync m) l ≡ₚ l) ->
  exists M', node_ok ps (node_step h m) M' /\ grows M M' /\ node_pieces (node_step h m) = node_pieces h.
Proof.
  intros Hn Hm Hord. unfold node_step. destruct m as [from msg now io x]. cbn [in_from in_msg in_now in_io in_sync] in *.
  destruct msg as [| |c idx rid| | |payload signature writer v| | | | | | |]; cbn [node_handle_message];
    try (exists M; split_and!; [by destruct Hn; split|done|done]).
  - destruct (piece_request_ok h M c rid io Hn Hm). by exists M.
  - destruct (from_bytes payload) as [w|]; [|by exists M]. set (w' := mkSigned _ _ _ _).
    destruct (handle_signed_write_runs (node_db h) w' x) as [He|[_ He]]; cbn [fst]; rewrite He.
    + exists M. split_and!; [|done|done]. by destruct Hn; split.
    + destruct (execute_grows ps Hps Hfile h M (sw_sql w') (sw_writer w') x Hn Hord) as (M' & Hn' & Hg). by exists M'.
Qed.

Lemma rpc_handle_pieces `{SL : !StoreListing St IO} (h : RpcNode (St := St)) from req (env : rpc_env (IO := IO)) :
  node_pieces (rn_node (rpc_handle h from req env).1) = node_pieces (rn_node h).
Proof. destruct req; cbn [rpc_handle]; repeat case_match; done. Qed.

End HandlerInv.

(** ** The node *)

Section NodeInv.
Context `{BL : Blake3Laws} `{HXL : HexLaws} `{LLO : LruLaws Cid (list Z)} `{LL : LruLaws (Cid * Z) (list Z)} `{BFL : BloomLaws Cid}.
Context `{ED : Ed25519} `{LS : Libsql} `{IR : Iroh} `{BC : Broadcast Event}.
Context `{PCL : PostcardLaws CodedPiece} {PW : Postcard SignedWrite} {PM : Postcard WireMessage}.
Context (ps : nat) (Hps : (0 < ps)%nat) (Hfile : forall l, file_ok ps (sql_file l)).

(** Under [pcid] the store holds a piece of the content [c]. *)
Definition coded_for (M : gmap Cid (list Z)) (c pcid : Cid) : Prop :=
  exists d e p b, M !! c = Some d /\ encoder_new d ENCODE_K = Ok e /\ M !! pcid = Some b /\ from_bytes b = Some p /\ circulates e p.

Definition task_ok (M : gmap Cid (list Z)) (t : EncodeTask) : Prop :=
  match t with
  | EncodePieces c todo pcids =>
      (exists d e, M !! c = Some d /\ encoder_new d ENCODE_K = Ok e /\ Forall (circulates e) todo) /\
      Forall (coded_for M c) pcids /\ Forall cid_wf pcids
  | _ => True
  end.

Record node_inv (n : CraftecNode) (M : gmap Cid (list Z)) : Prop := {
  ni_app : node_ok ps (nd_app n) M;
  ni_bytes : map_Forall (fun _ => bytes) M;
  ni_index c pcids : piece_cids (node_pieces (nd_app n)) c = Some pcids -> Forall (coded_for M c) pcids;
  ni_tasks : Forall (task_ok M) (nd_tasks n);
}.

(** The draws of the coder, and a store without a different object under the hash of
    [b]. *)
Definition rng_ok (rng : nat -> list (Z * Z)) : Prop := forall i, length (rng i) = Z.to_nat ENCODE_K /\ Forall draw_ok (rng i).
Definition no_clash (s : ObjStore) (b : list Z) : Prop :=
  forall b', files s !! shard_path (cid_from_data b) = Some b' -> b' = b.

Definition task_input_ok (n : CraftecNode) (t : EncodeTask) (env : task_env) : Prop :=
  match t with
  | EncodeStart _ => rng_ok (te_rng env)
  | EncodePieces _ (p :: _) _ => forall b, to_allocvec p = Some b -> no_clash (node_store (nd_app n)) b
  | _ => True
  end.

(** What the tasks of the endpoint and of the membership loop do to the node. *)
Inductive net_act : CraftecNode -> CraftecNode -> Prop :=
| na_swim n msg now : net_act n (on_swim n msg now).1
| na_tick n now pc : net_act n (on_tick n now pc).1
| na_accept n alpn remote conn now order : net_act n (on_accept n alpn remote conn now order)
| na_clock n hlc_ts wall : net_act n (on_clock n hlc_ts wall)
| na_send n peer msg io n' : on_send n peer msg io = Returned n' -> net_act n n'
| na_probe_start n target msg io n' pc : on_probe_start n target msg io = Returned (n', pc) -> net_act n n'
| na_probe_direct n target nonce ds now : delegates_ok (ep_swim (nd_ep n)) target ds -> net_act n (on_probe_direct n target nonce ds now).1.1
| na_probe_indirect n target nonce now : net_act n (on_probe_indirect n target nonce now).1.

(** Everything that can happen to a running node. *)
Inductive evolves : CraftecNode -> CraftecNode -> Prop :=
| ev_message n m : msg_wf (in_msg m) -> (forall l, sync_order (in_sync m) l ≡ₚ l) -> evolves n (on_message n m).1
| ev_rpc n start from req env :
    req_wf req -> (forall l, sync_order (re_sync env) l ≡ₚ l) -> evolves n (on_rpc n start from req env).1
| ev_net n n' : net_act n n' -> evolves n n'
| ev_dispatch n env n' : dispatch_round n env = Some n' -> evolves n n'
| ev_task n i t env n' t' :
    nd_tasks n !! i = Some t -> task_input_ok n t env -> task_step n t env = (n', t') ->
    evolves n (set_tasks n' (<[i := t']> (nd_tasks n')))
| ev_repair n req io draws rng sio n' frame : on_repair n req io draws rng sio = Returned (n', frame) -> evolves n n'
| ev_prune_pending n now : evolves n (prune_pending n now)
| ev_prune_dht n now : evolves n (prune_dht n now)
| ev_announce n io env interrupted n' announced : storage_bootstrap n io env interrupted = Returned (n', announced) -> evolves n n'.

(** They change the endpoint and report on the bus who comes and goes. *)
Lemma net_act_shape n n' : net_act n n' ->
  exists ep (evs : list swim_event), n' = set_bus (set_ep n ep) (publish_all (nd_bus n) (map to_event evs)).
Proof.
  destruct 1 as [n msg now|n now pc|n alpn remote conn now order|n ts wall|n peer msg io n' Hs|n target msg io n' pc Hs|n target nonce ds now _|n target nonce now].
  - unfold on_swim, update_swim. destruct (handle_swim_msg _ _ _). by do 2 eexists.
  - unfold on_tick, update_swim. destruct (tick_step _ _ _). by do 2 eexists.
  - by exists (accept_conn (nd_ep n) alpn remote conn now order true), [].
  - by exists (with_clock (nd_ep n) (observe (ep_hlc (nd_ep n)) ts wall).1), [].
  - revert Hs. unfold on_send. destruct (send_message _ _ _ _) as [[[ep r] f]|]; [|done]. intros [= <-]. by exists ep, [].
  - revert Hs. unfold on_probe_start, update_swim. destruct (probe_start _ _ _ _) as [[ep pc']|]; [|done]. intros [= <- _]. by do 2 eexists.
  - unfold on_probe_direct, update_swim. destruct (probe_direct_end _ _ _ _ _ _) as [[s pc] pings]. by do 2 eexists.
  - unfold on_probe_indirect, update_swim. destruct (probe_indirect_end _ _ _ _) as [s pc]. by do 2 eexists.
Qed.

Lemma coded_for_mono M M' c pcid : M ⊆ M' -> coded_for M c pcid -> coded_for M' c pcid.
Proof.
  intros Hsub (d & e & p & b & Hd & He & Hb & Hp & Hc). exists d, e, p, b.
  split_and!; try done; by eapply lookup_weaken.
Qed.

Lemma task_ok_mono M M' t : M ⊆ M' -> task_ok M t -> task_ok M' t.
Proof.
  intros Hsub. destruct t as [c|c todo pcids|]; [done| |done]. intros ((d & e & Hd & He & Ht) & Hc & Hw). split_and!; [| |done].
  - exists d, e. split_and!; try done. by eapply lookup_weaken.
  - eapply Forall_impl; [exact Hc|]. intros x. by apply coded_for_mono.
Qed.

(** Steps that leave the index and the tasks alone. *)
Lemma inv_app n n' M M' :
  node_inv n M -> node_ok ps (nd_app n') M' -> grows M M' -> node_pieces (nd_app n') = node_pieces (nd_app n) ->
  nd_tasks n' = nd_tasks n -> node_inv n' M'.
Proof.
  intros [Ha Hb Hi Ht] Ha' [Hsub Hg] Hp Htk. split; [done|by apply Hg| |].
  - intros c pcids. rewrite Hp. intros Hc. eapply Forall_impl; [by apply Hi|]. intros x. by apply coded_for_mono.
  - rewrite Htk. eapply Forall_impl; [exact Ht|]. intros t. by apply task_ok_mono.
Qed.

Lemma inv_same n n' M :
  node_inv n M -> node_ok ps (nd_app n') M -> node_pieces (nd_app n') = node_pieces (nd_app n) ->
  nd_tasks n' = nd_tasks n -> node_inv n' M.
Proof. intros Hn Ha. by apply (inv_app n n' M M). Qed.

(** ** Each step *)

Lemma dispatch_inv n M env n' : node_inv n M -> dispatch_round n env = Some n' -> node_inv n' M.
Proof.
  intros Hn. unfold dispatch_round. destruct (negb _); [done|]. destruct (chan_recv _ _) as [bus r].
  assert (node_inv (set_bus n bus) M) as Hb by (apply (inv_same n); [done|apply Hn|done|done]).
  destruct r as [ev|k| |]; intros [= <-]; [|done|by apply (inv_same n); [|apply Hn|..]].
  destruct ev as [c| | |id| | |]; cbn [dispatch_event]; try done; try by apply (inv_same n); [|apply Hn|..].
  - destruct (announce_cid_to_peers _ _ _ _ _ _) as [[ep fr]|]; [|by apply (inv_same n); [|apply Hn|..]].
    destruct (is_piece_cid _ _); [by apply (inv_same n); [|apply Hn|..]|]. destruct Hn as [Ha Hby Hi Ht].
    split; [done|done|done|]. cbn. apply Forall_app_2; [done|]. by apply Forall_singleton.
  - apply (inv_same n); [done| |done|done]. by destruct (ni_app n M Hn); split.
Qed.

Lemma update_app_inv n M M' (a : NodeState) :
  node_inv n M -> node_ok ps a M' -> grows M M' -> node_pieces a = node_pieces (nd_app n) -> node_inv (update_app n a) M'.
Proof. intros. by apply (inv_app n _ M). Qed.

Lemma begin_inv n M c io rng :
  node_inv n M -> rng_ok rng ->
  node_inv (encode_begin n c io rng).1 M /\ task_ok M (encode_begin n c io rng).2.
Proof.
  intros Hn Hrng. unfold encode_begin. cbn [cs_get obj_content_store].
  destruct (get_any (node_store (nd_app n)) M c io.2) as [Hs Hd]; [exact (node_ok_store ps _ M (ni_app n M Hn))|].
  destruct (get _ c io.2) as [s r]. cbn [fst snd] in *.
  assert (node_inv (update_app n (with_node_store (nd_app n) s)) M) as Hu.
  { apply (update_app_inv n M); [done| |done|done]. apply (node_ok_with_store ps _ M); [apply Hn|done]. }
  destruct r as [[d|]|e]; [|done..]. specialize (Hd d eq_refl). set (n1 := update_app _ _) in *.
  pose proof (engine_encode_ok (nd_rlnc n1) d ENCODE_K rng ltac:(unfold ENCODE_K; lia) (ni_bytes n M Hn c d Hd) Hrng) as He.
  change (ENCODE_K =? 0) with false in He. cbv iota in He. destruct He as (e & l & Hnew & Henc & _ & Hcirc).
  rewrite Henc. cbn [fst snd]. split.
  - apply (inv_same n1); [done| |done|done]. by destruct (ni_app n1 M Hu); split.
  - cbn [task_ok]. split; [exists d, e; exact (conj Hd (conj Hnew Hcirc))|split; apply Forall_nil_2].
Qed.

Lemma put_clean_bound s M b : store_repr s M -> no_clash s b -> spec_put M b !! cid_from_data b = Some b.
Proof.
  intros Hs Hc. unfold spec_put. destruct (M !! cid_from_data b) as [b'|] eqn:E; [|by rewrite lookup_insert_eq].
  rewrite E. f_equal. apply Hc. by apply (sr_files s M Hs).
Qed.

Lemma piece_inv n M c p todo pcids io :
  node_inv n M -> task_ok M (EncodePieces c (p :: todo) pcids) ->
  (forall b, to_allocvec p = Some b -> no_clash (node_store (nd_app n)) b) ->
  exists M', node_inv (encode_piece_step n c p pcids io).1 M' /\
    task_ok M' (EncodePieces c todo (encode_piece_step n c p pcids io).2) /\ grows M M'.
Proof.
  intros Hn ((d & e & Hd & He & Ht) & Hc & Hw) Hclean. apply Forall_cons in Ht as [Hp Ht].
  assert (forall M1 l, M ⊆ M1 -> Forall (coded_for M1 c) l -> Forall cid_wf l -> task_ok M1 (EncodePieces c todo l)) as Hmk.
  { intros M1 l Hsub Hl Hlw. split; [|by split]. exists d, e. split; [by eapply lookup_weaken|by split]. }
  unfold encode_piece_step.
  destruct (to_allocvec p) as [b|] eqn:Eb; [|exists M; split; [done|split; [by apply Hmk|done]]].
  pose proof (to_allocvec_bytes p b Eb) as Hb. specialize (Hclean b eq_refl).
  set (a := with_node_pieces _ _).
  assert (node_ok ps a M) as Ha by (by destruct (ni_app n M Hn); split).
  pose proof (node_ok_store ps a M Ha) as Hs. pose proof (cs_put_spec (node_store a) M b io Hs Hb) as Hput.
  assert (forall s M1, cs_repr s M1 -> grows M M1 -> node_inv (update_app n (with_node_store a s)) M1) as Hu.
  { intros s M1 Hs1 Hg. pose proof (node_ok_with_store ps a M s M1 Ha Hs1) as Ha1. destruct Hn as [_ Hby Hi Htk].
    split; [done|by apply Hg| |].
    - intros c' pcids' Hc'. change (piece_cids (node_pieces (nd_app n)) c' = Some pcids') in Hc'. eapply Forall_impl; [by apply Hi|]. intros x. by apply coded_for_mono, Hg.
    - eapply Forall_impl; [exact Htk|]. intros t. by apply task_ok_mono, Hg. }
  destruct (cs_put (node_store a) b io) as [s [pcid|err]]; cbn [fst snd].
  - destruct Hput as [-> Hs1]. pose proof (spec_put_grows M b Hb) as Hg. exists (spec_put M b).
    split_and!; [by apply Hu| |done]. apply Hmk; [apply Hg| |].
    + apply Forall_app_2; [eapply Forall_impl; [exact Hc|]; intros x; by apply coded_for_mono, Hg|]. apply Forall_singleton.
      exists d, e, p, b. split_and!; [by eapply lookup_weaken; [|apply Hg]|done| |by apply from_to_bytes|done].
      by eapply put_clean_bound.
    + apply Forall_app_2; [done|]. apply Forall_singleton, cid_from_data_wf.
  - exists M. split_and!; [by apply Hu|by apply Hmk|done].
Qed.

Lemma finish_inv n M c pcids now :
  node_inv n M -> task_ok M (EncodePieces c [] pcids) -> node_inv (encode_finish n c pcids now) M.
Proof.
  intros [Ha Hb Hi Ht] (_ & Hc & Hw). unfold encode_finish. split; [|done| |done]; cbn.
  - destruct Ha as [Hv Hsz Hx]. split; [done|done|]. cbn. intros c' l Hl.
    apply lookup_insert_Some in Hl as [[<- <-]|[_ Hl]]; [done|exact (Hx c' l Hl)].
  - intros c' l Hl. apply lookup_insert_Some in Hl as [[<- <-]|[_ Hl]]; [done|exact (Hi c' l Hl)].
Qed.

Lemma task_step_inv n M t env :
  node_inv n M -> task_ok M t -> task_input_ok n t env ->
  exists M', node_inv (task_step n t env).1 M' /\ task_ok M' (task_step n t env).2 /\ grows M M'.
Proof.
  intros Hn Ht Hin. destruct t as [c|c [|p todo] pcids|]; cbn [task_step].
  - destruct (begin_inv n M c (te_io env) (te_rng env) Hn Hin). by exists M.
  - exists M. split_and!; [by apply finish_inv|done|done].
  - destruct (piece_inv n M c p todo pcids (te_io env) Hn Ht Hin) as (M' & Hi1 & Ht1 & Hg).
    destruct (encode_piece_step _ _ _ _ _) as [n' l]. by exists M'.
  - by exists M.
Qed.

Lemma repair_inv n M req io draws rng sio n' frame :
  node_inv n M -> on_repair n req io draws rng sio = Returned (n', frame) -> node_inv n' M.
Proof.
  intros Hn. unfold on_repair. set (r0 := mkRepair _ _ _). set (alive := alive_members _).
  pose proof (execute_repair_repr r0 (node_tracker (nd_app n)) alive (nd_id n) (node_pieces (nd_app n)) req io draws rng true M
    (node_ok_store ps _ M (ni_app n M Hn)) (no_index ps _ M (ni_app n M Hn) (request_cid req))) as Hs.
  destruct (execute_repair _ _ _ _ _ _ _ _ _ _) as [[r out] res]. cbn [fst] in Hs.
  assert (node_ok ps (with_node_store (nd_app n) (rep_store r)) M) as Hok by (apply (node_ok_with_store ps _ M); [apply Hn|done]).
  destruct out as [[target msg]|].
  - destruct (send_message _ _ _ _) as [[[ep res'] fr]|]; [|done]. intros [= <- <-]. by apply (inv_same n).
  - intros [= <- <-]. by apply (inv_same n).
Qed.

Lemma evolves_inv n n' M : node_inv n M -> evolves n n' -> exists M', node_inv n' M' /\ grows M M'.
Proof.
  intros Hn Hst. revert Hn. destruct Hst as [n m Hm Hord|n start from req env Hreq Hord|n n' Hnet|n env n' Hd|
    n i t env n' t' Hi Hin Hst|n req io draws rng sio n' fr Hr|n now|n now|n io env int n' an Ha]; intros Hn.
  - destruct (handle_message_ok ps Hps Hfile (nd_app n) M m (ni_app n M Hn) Hm Hord) as (M' & Ha & Hg & Hp).
    exists M'. split; [|done]. unfold on_message, node_step in *. destruct (node_handle_message _ _ _ _ _ _) as [a reply].
    by apply (update_app_inv n M).
  - set (h := mkRpcNode (nd_id n) (nd_app n) (ep_swim (nd_ep n)) start).
    destruct (rpc_handle_ok ps Hps Hfile h from req env M (ni_app n M Hn) Hreq Hord) as (M' & Ha & Hans).
    pose proof (rpc_handle_pieces h from req env) as Hp. exists M'. split; [|by eapply store_answer_grows].
    unfold on_rpc. fold h. destruct (rpc_handle h from req env) as [h' resp]. cbn in *.
    apply (update_app_inv n M); try done. by eapply store_answer_grows.
  - exists M. split; [|done]. apply net_act_shape in Hnet as (ep & evs & ->). by apply (inv_same n); [|apply Hn|..].
  - exists M. split; [by eapply dispatch_inv|done].
  - pose proof (proj1 (Forall_lookup _ _) (ni_tasks n M Hn) i t Hi) as Ht.
    destruct (task_step_inv n M t env Hn Ht Hin) as (M' & Hn' & Ht' & Hg). rewrite Hst in *. cbn [fst snd] in *.
    exists M'. split; [|done]. destruct Hn' as [Ha Hb Hx Htk]. split; [done|done|done|]. by apply Forall_insert.
  - exists M. split; [by eapply repair_inv|done].
  - exists M. split; [|done]. apply (inv_same n); [done| |done|done]. by destruct (ni_app n M Hn); split.
  - exists M. split; [|done]. apply (inv_same n); [done| |done|done]. by destruct (ni_app n M Hn); split.
  - exists M. split; [|done]. revert Ha. unfold storage_bootstrap. destruct (sl_list _ _) as [cids|]; [|by intros [= <- <-]].
    destruct (announce_batches _ _ _ _ _ _) as [[ep l]|]; [|done]. intros [= <- <-]. by apply (inv_same n); [|apply Hn|..].
Qed.

(** A node keeps its identity. *)
Lemma evolves_id n n' : rtc evolves n n' -> nd_id n' = nd_id n.
Proof.
  induction 1 as [|n n1 n2 Hst _ IH]; [done|]. rewrite IH. clear IH.
  destruct Hst as [n m _ _|n start from req env _ _|n n' Hnet|n env n' Hd|n i t env n' t' Hi Hin Hst|n req io draws rng sio n' fr Hr|n now|n now|n io env int n' an Ha].
  - unfold on_message. by destruct (node_handle_message _ _ _ _ _ _).
  - unfold on_rpc. by destruct (rpc_handle _ _ _ _).
  - by apply net_act_shape in Hnet as (ep & evs & ->).
  - revert Hd. unfold dispatch_round. destruct (negb _); [done|]. destruct (chan_recv _ _) as [bus [ev|k| |]]; intros [= <-]; try done.
    destruct ev as [c| | | | | |]; try done. cbn. destruct (announce_cid_to_peers _ _ _ _ _ _) as [[ep fr]|]; [|done].
    by destruct (is_piece_cid _ _).
  - cbn. revert Hst. destruct t as [c|c [|p todo] pcids|]; cbn [task_step].
    + unfold encode_begin. destruct (cs_get _ _ _) as [s [[d|]|e]]; [|by intros [= <- <-]..].
      by destruct (engine_encode _ _ _ _) as [m [l|e]]; intros [= <- <-].
    + by intros [= <- <-].
    + unfold encode_piece_step. destruct (to_allocvec p); [|by intros [= <- <-]].
      by destruct (cs_put _ _ _) as [s [x|e]]; intros [= <- <-].
    + by intros [= <- <-].
  - revert Hr. unfold on_repair. destruct (execute_repair _ _ _ _ _ _ _ _ _ _) as [[r [[tg msg]|]] res]; [|by intros [= <- <-]].
    destruct (send_message _ _ _ _) as [[[ep res'] f]|]; [|done]. by intros [= <- <-].
  - done.
  - done.
  - revert Ha. unfold storage_bootstrap. destruct (sl_list _ _); [|by intros [= <- <-]].
    destruct (announce_batches _ _ _ _ _ _) as [[ep l]|]; [|done]. by intros [= <- <-].
Qed.

Lemma run_inv n n' M : node_inv n M -> rtc evolves n n' -> exists M', node_inv n' M' /\ grows M M'.
Proof.
  intros Hn Hr. revert M Hn. induction Hr as [n|n n1 n' Hst _ IH]; intros M Hn; [by exists M|].
  destruct (evolves_inv n n1 M Hn Hst) as (M1 & Hn1 & Hg1). destruct (IH M1 Hn1) as (M2 & Hn2 & Hg2).
  exists M2. split; [done|by etransitivity].
Qed.

(** ** Serving coded pieces *)

Lemma circulates_cid e p : circulates e p -> cid p = enc_cid e.
Proof.
  induction 1 as [draws Hl Hd|ps' draws p Hps' IH Hd Hr]; [done|].
  pose proof (recode_cases ps' draws) as Hc. rewrite Hr in Hc. destruct Hc as (Hlen & Hcids & _).
  destruct ps' as [|q l]; [cbn in Hlen; lia|]. rewrite <- (Forall_inv Hcids). apply IH. by apply elem_of_cons; left.
Qed.

(** Everything a receiver can want of the pieces of a generation. *)
Lemma pieces_good d e c :
  bytes d -> cid_from_data d = c -> encoder_new d ENCODE_K = Ok e ->
  (forall p, circulates e p -> cid p = c /\ verify_mac p = true /\ verify_piece_id p = true) /\
  forall m sel, Forall (circulates e) sel -> spanning (Z.to_nat ENCODE_K) (map coding_vector sel) ->
    engine_decode m ENCODE_K (enc_piece_size e) sel =
    (count_decode m, Ok (d ++ zeros (Z.to_nat ENCODE_K * enc_piece_size e - length d))).
Proof.
  intros Hd Hc He. destruct (encoder_new_pieces d ENCODE_K ltac:(unfold ENCODE_K; lia) Hd) as (e' & He' & _ & Hcid & _ & Hlen & HX & Hcat).
  assert (e' = e) as -> by congruence. split.
  - intros p Hp. split_and!; [by rewrite (circulates_cid e p Hp), Hcid| |by apply (circulates_piece_id e)].
    by apply tagged_verifies, (circulates_tagged e).
  - intros m sel Hsel Hsp.
    assert (Forall (codes_for (original_pieces e) (enc_piece_size e)) sel) as Hcodes.
    { eapply Forall_impl; [exact Hsel|]. intros p. by apply circulates_codes. }
    assert (List.filter (well_sized (length (original_pieces e)) (enc_piece_size e)) sel = sel) as Hf.
    { apply forallb_filter_id, forallb_forall. intros p Hp%list_elem_of_In.
      destruct (codes_vecs _ _ p HX (proj1 (list.Forall_forall _ _) Hcodes p Hp)) as [[Hv _] [Hw _]].
      unfold well_sized. by rewrite Hv, Hw, !Nat.eqb_refl. }
    pose proof (engine_decode_spec (original_pieces e) (enc_piece_size e) m sel HX) as Hdec. cbn zeta in Hdec.
    rewrite Hf, Hlen, Hcat in Hdec. destruct (Hdec Hcodes) as [[_ H']|[Hn _]]; [exact H'|done].
Qed.

Lemma collect_all s M io pcids (P : CodedPiece -> Prop) :
  store_repr s M -> (forall i, (io i).2 = ReadOk) ->
  Forall (fun pcid => cid_wf pcid /\ exists b p, M !! pcid = Some b /\ from_bytes b = Some p /\ P p) pcids ->
  length (collect_pieces s io pcids).2 = length pcids /\ Forall P (collect_pieces s io pcids).2.
Proof.
  intros Hs Hio Hp. revert s io Hs Hio. induction Hp as [|pcid pcids [Hwf (b & p & Hb & Hfb & HP)] Hp IH]; intros s io Hs Hio.
  { split; [done|apply Forall_nil_2]. }
  cbn [collect_pieces cs_get obj_content_store]. pose proof (get_repr s M pcid (io 0%nat).2 Hs Hwf) as Hg.
  destruct (get s pcid (io 0%nat).2) as [s1 [o|e]]; [|destruct Hg as (_ & He & _); by rewrite Hio in He].
  destruct Hg as [-> Hs1]. destruct (IH s1 (fun i => io (S i)) Hs1 (fun i => Hio (S i))) as [Hl Hf].
  destruct (collect_pieces s1 _ pcids) as [s2 l]. cbn [snd] in *. rewrite Hb, Hfb. cbn [length].
  split; [by rewrite Hl|]. by apply Forall_cons.
Qed.

Lemma index_pieces n M c pcids :
  node_inv n M -> piece_cids (node_pieces (nd_app n)) c = Some pcids -> pcids <> [] ->
  exists d e, M !! c = Some d /\ cid_from_data d = c /\ encoder_new d ENCODE_K = Ok e /\
    Forall (fun pcid => cid_wf pcid /\ exists b p, M !! pcid = Some b /\ from_bytes b = Some p /\ circulates e p) pcids.
Proof.
  intros Hn Hi Hne. pose proof (ni_index n M Hn c pcids Hi) as Hc. pose proof (no_index ps _ M (ni_app n M Hn) c pcids Hi) as Hw.
  destruct pcids as [|x l]; [done|]. pose proof (Forall_inv Hc) as (d & e & _ & _ & Hd & He & _). exists d, e.
  split_and!; [done|by apply (cs_repr_hash _ M c d (node_ok_store ps _ M (ni_app n M Hn)))|done|].
  apply list.Forall_forall. intros y Hy. split; [by apply (proj1 (list.Forall_forall _ _) Hw)|].
  destruct (proj1 (list.Forall_forall _ _) Hc y Hy) as (d' & e' & p & b & Hd' & He' & Hb & Hp & Hcirc).
  exists b, p. split_and!; try done. congruence.
Qed.

(** ** A task on its own *)

Fixpoint task_run (n : CraftecNode) (t : EncodeTask) (env : nat -> task_env) (k : nat) : CraftecNode * EncodeTask :=
  match k with
  | O => (n, t)
  | S k => let '(n, t) := task_run n t env k in task_step n t (env k)
  end.

Lemma task_run_inv n t env k M :
  node_inv n M -> task_ok M t ->
  (forall i, (i < k)%nat -> task_input_ok (task_run n t env i).1 (task_run n t env i).2 (env i)) ->
  exists M', node_inv (task_run n t env k).1 M' /\ task_ok M' (task_run n t env k).2 /\ grows M M'.
Proof.
  intros Hn Ht. induction k as [|k IH]; intros Hin; [by exists M|].
  destruct IH as (M1 & Hn1 & Ht1 & Hg1); [intros i Hi; apply Hin; lia|]. specialize (Hin k ltac:(lia)). cbn [task_run].
  destruct (task_run n t env k) as [n1 t1]. cbn [fst snd] in *.
  destruct (task_step_inv n1 M1 t1 (env k) Hn1 Ht1 Hin) as (M2 & Hn2 & Ht2 & Hg2). exists M2.
  split_and!; [done|done|by etransitivity].
Qed.

Lemma piece_step_ok n c p pcids io b :
  to_allocvec p = Some b -> io = (WriteOk, RenameOk, ReadOk) ->
  length (encode_piece_step n c p pcids io).2 = S (length pcids) /\
  node_tracker (nd_app (encode_piece_step n c p pcids io).1) = node_tracker (nd_app n) /\
  nd_id (encode_piece_step n c p pcids io).1 = nd_id n.
Proof.
  intros Hb ->. unfold encode_piece_step. rewrite Hb. cbn [cs_put obj_content_store fst snd].
  set (a := with_node_pieces _ _).
  assert (exists c', (put (node_store a) b ReadOk WriteOk RenameOk).2 = Ok c') as [c' Hc'].
  { unfold put. destruct (_ && _); by eexists. }
  destruct (put (node_store a) b ReadOk WriteOk RenameOk) as [s r]. cbn in Hc'. subst r. cbn [fst snd].
  split_and!; [rewrite length_app; cbn; lia|done|done].
Qed.

Lemma pieces_run n t env k c todo pcids :
  (task_run n t env k).2 = EncodePieces c todo pcids -> Forall (fun p => is_Some (to_allocvec p)) todo ->
  (forall i, te_io (env i) = (WriteOk, RenameOk, ReadOk)) ->
  exists pcids', (task_run n t env (k + length todo)).2 = EncodePieces c [] pcids' /\
    length pcids' = (length pcids + length todo)%nat /\
    node_tracker (nd_app (task_run n t env (k + length todo)).1) = node_tracker (nd_app (task_run n t env k).1) /\
    nd_id (task_run n t env (k + length todo)).1 = nd_id (task_run n t env k).1.
Proof.
  intros Ht Hser Hio. revert k pcids Ht. induction Hser as [|p todo [b Hb] Hser IH]; intros k pcids Ht.
  { exists pcids. cbn [length]. rewrite !Nat.add_0_r. done. }
  destruct (piece_step_ok (task_run n t env k).1 c p pcids (te_io (env k)) b Hb (Hio k)) as (Hl & Htr & Hid).
  assert (task_run n t env (S k) = ((encode_piece_step (task_run n t env k).1 c p pcids (te_io (env k))).1,
    EncodePieces c todo (encode_piece_step (task_run n t env k).1 c p pcids (te_io (env k))).2)) as Hk.
  { cbn [task_run]. destruct (task_run n t env k) as [n1 t1]. cbn [fst snd] in *. subst t1. cbn [task_step].
    by destruct (encode_piece_step _ _ _ _ _). }
  destruct (IH (S k) (encode_piece_step (task_run n t env k).1 c p pcids (te_io (env k))).2) as (l & Hr & Hlen & Htr' & Hid').
  { by rewrite Hk. }
  exists l. cbn [length]. replace (k + S (length todo))%nat with (S k + length todo)%nat by lia.
  rewrite Hk in Htr', Hid'. cbn [fst] in Htr', Hid'. split_and!; [done|lia|congruence|congruence].
Qed.

Lemma upsert_find h l :
  exists h', List.find (fun x => bool_decide (holder_node x = holder_node h)) (upsert h l) = Some h' /\ holder_count h <= holder_count h'.
Proof.
  induction l as [|e l IH]; cbn.
  - rewrite bool_decide_true by done. exists h. split; [done|lia].
  - destruct (bool_decide (holder_node e = holder_node h)) eqn:E; cbn; rewrite E; [|done]. eexists. split; [done|]. cbn. lia.
Qed.

Lemma local_count_recorded t c h : holder_count h <= local_piece_count (record_piece t c h) c (holder_node h).
Proof.
  unfold local_piece_count, record_piece, get_holders at 1. cbn. rewrite lookup_insert_eq. cbn.
  destruct (upsert_find h (get_holders t c)) as (h' & -> & Hle). done.
Qed.

Lemma rpc_put_inv n M start from data env :
  node_inv n M -> bytes data -> no_clash (node_store (nd_app n)) data ->
  (on_rpc n start from (ReqStorePut data) env).2 = RespStorePut (cid_from_data data) ->
  node_inv (on_rpc n start from (ReqStorePut data) env).1 (spec_put M data) /\ spec_put M data !! cid_from_data data = Some data.
Proof.
  intros Hn Hd Hcl. pose proof (node_ok_store ps _ M (ni_app n M Hn)) as Hs.
  unfold on_rpc. cbn [rpc_handle rn_node cs_put obj_content_store].
  pose proof (put_repr (node_store (nd_app n)) M data (re_io env).1.1 (re_io env).1.2 Hs) as Hp.
  destruct (put _ data ReadOk _ _) as [s [c'|err]]; [|done]. destruct Hp as [-> Hs1]. intros _. cbn [fst snd rn_node rn_with]. split.
  - apply (update_app_inv n M); [done| |by apply spec_put_grows|done]. apply (node_ok_with_store ps _ M); [apply Hn|done].
  - by eapply put_clean_bound.
Qed.

Lemma put_then_get n M start from data env n2 start' from' env' :
  node_inv n M -> bytes data -> no_clash (node_store (nd_app n)) data ->
  rtc evolves (on_rpc n start from (ReqStorePut data) env).1 n2 ->
  (on_rpc n start from (ReqStorePut data) env).2 = RespStorePut (cid_from_data data) ->
  (on_rpc n2 start' from' (ReqStoreGet (cid_from_data data)) env').2 = RespStoreGet (Some data) \/
  (on_rpc n2 start' from' (ReqStoreGet (cid_from_data data)) env').2 = RespError 500 "store get failed" /\ (re_io env').2 = ReadErr.
Proof.
  intros Hn Hd Hcl Hrun Hput. destruct (rpc_put_inv n M start from data env Hn Hd Hcl Hput) as [Hn1 HM1].
  destruct (run_inv _ n2 _ Hn1 Hrun) as (M2 & Hn2 & Hg).
  assert (M2 !! cid_from_data data = Some data) as HM2 by (by eapply lookup_weaken; [|apply Hg]).
  unfold on_rpc. cbn [rpc_handle rn_node cs_get obj_content_store].
  pose proof (get_repr (node_store (nd_app n2)) M2 (cid_from_data data) (re_io env').2
    (node_ok_store ps _ M2 (ni_app n2 M2 Hn2)) (cid_from_data_wf data)) as Hget.
  destruct (get _ _ _) as [s2 [o|err]]; cbn.
  - left. destruct Hget as [-> _]. by rewrite HM2.
  - right. by destruct Hget as (_ & ? & _).
Qed.

(** ** Properties *)

(** C4: Nothing that happens to a node loses a stored object or breaks its invariant:
    every message, request, membership event, loop round, encoding step, repair and
    pruning, in any order. *)
Theorem node_keeps_objects n n' M :
  node_inv n M -> rtc evolves n n' -> exists M', node_inv n' M' /\ M ⊆ M'.
Proof. intros Hn Hr. destruct (run_inv n n' M Hn Hr) as (M' & Hn' & Hg). exists M'. by split; [|apply Hg]. Qed.

(** Data a client has put through RPC can be read back with the CID it was given,
    whatever happens to the node in between; only a failing read of the store is
    answered with an error. *)
Theorem rpc_put_durable n M start from data env n1 c n2 start' from' env' :
  node_inv n M -> bytes data -> no_clash (node_store (nd_app n)) data ->
  on_rpc n start from (ReqStorePut data) env = (n1, RespStorePut c) -> rtc evolves n1 n2 ->
  c = cid_from_data data /\
  ((on_rpc n2 start' from' (ReqStoreGet c) env').2 = RespStoreGet (Some data) \/
   (on_rpc n2 start' from' (ReqStoreGet c) env').2 = RespError 500 "store get failed" /\ (re_io env').2 = ReadErr).
Proof.
  intros Hn Hd Hcl Hput Hrun.
  assert (c = cid_from_data data) as ->.
  { revert Hput. unfold on_rpc. cbn [rpc_handle rn_node cs_put obj_content_store].
    pose proof (put_repr (node_store (nd_app n)) M data (re_io env).1.1 (re_io env).1.2 (node_ok_store ps _ M (ni_app n M Hn))) as Hp.
    destruct (put _ data ReadOk _ _) as [s [c'|err]]; [|done]. destruct Hp as [-> _]. by intros [= _ <-]. }
  split; [done|]. by apply (put_then_get n M start from data env); rewrite ?Hput.
Qed.

(** C15: Content with indexed pieces is served from them: with readable files, a piece
    request is answered with one piece per indexed CID; each is named after the
    content, passes both checks of the receiver, and any selection of them whose
    coding vectors span decodes to the content and its zero padding. *)
Theorem indexed_content_served n M c pcids from indices rid now io x :
  node_inv n M -> piece_cids (node_pieces (nd_app n)) c = Some pcids -> pcids <> [] -> (forall i, (io i).2 = ReadOk) ->
  exists d e qs, M !! c = Some d /\ encoder_new d ENCODE_K = Ok e /\
    (on_message n (mkInbound from (PieceRequest c indices rid) now io x)).2 = Some (PieceResponse qs rid) /\
    length qs = length pcids /\ Forall (fun p => cid p = c /\ verify_mac p = true /\ verify_piece_id p = true) qs /\
    forall m sel, (forall p, p ∈ sel -> p ∈ qs) -> spanning (Z.to_nat ENCODE_K) (map coding_vector sel) ->
      engine_decode m ENCODE_K (enc_piece_size e) sel =
      (count_decode m, Ok (d ++ zeros (Z.to_nat ENCODE_K * enc_piece_size e - length d))).
Proof.
  intros Hn Hi Hne Hio. destruct (index_pieces n M c pcids Hn Hi Hne) as (d & e & Hd & Hcid & He & Hall).
  destruct (pieces_good d e c (ni_bytes n M Hn c d Hd) Hcid He) as [Hgood Hdec].
  destruct (collect_all (node_store (nd_app n)) M io pcids (circulates e) (node_ok_store ps _ M (ni_app n M Hn)) Hio Hall) as [Hl Hf].
  exists d, e, (collect_pieces (node_store (nd_app n)) io pcids).2. split_and!; [done|done| |done| |].
  - unfold on_message. cbn [in_from in_msg in_now in_io in_sync node_handle_message]. unfold handle_piece_request. rewrite Hi.
    destruct (collect_pieces _ io pcids) as [s [|q qs]]; [|done]. cbn in Hl. by destruct pcids.
  - eapply Forall_impl; [exact Hf|]. exact Hgood.
  - intros m sel Hsel. apply Hdec. apply list.Forall_forall. intros p Hp.
    by apply (proj1 (list.Forall_forall _ _) Hf), Hsel.
Qed.

(** C16: An encoding task that can read the content and write its pieces finishes in
    [2 + PIECES] steps with all [PIECES] pieces indexed; the tracker then knows the
    generation size and this node as a holder of that many pieces. *)
Theorem encode_task_completes n M c d env :
  node_inv n M -> M !! c = Some d -> (forall i, te_io (env i) = (WriteOk, RenameOk, ReadOk)) ->
  (forall e p, encoder_new d ENCODE_K = Ok e -> circulates e p -> is_Some (to_allocvec p)) ->
  (forall i, task_input_ok (task_run n (EncodeStart c) env i).1 (task_run n (EncodeStart c) env i).2 (env i)) ->
  get_k (node_tracker (nd_app n)) c = None ->
  let '(n', t') := task_run n (EncodeStart c) env (2 + PIECES) in
  t' = EncodeDone /\
  (exists M', node_inv n' M' /\ M ⊆ M') /\
  (exists pcids, piece_cids (node_pieces (nd_app n')) c = Some pcids /\ length pcids = PIECES) /\
  get_k (node_tracker (nd_app n')) c = Some ENCODE_K /\
  Z.of_nat PIECES <= local_piece_count (node_tracker (nd_app n')) c (nd_id n).
Proof.
  intros Hn Hd Hio Hser Hin Hk. set (run := task_run n (EncodeStart c) env) in *.
  assert (cid_from_data d = c) as Hcid by (by apply (cs_repr_hash _ M c d (node_ok_store ps _ M (ni_app n M Hn)))).
  destruct (task_run_inv n (EncodeStart c) env (2 + PIECES) M Hn I (fun i _ => Hin i)) as (M' & Hn' & _ & Hg). fold run in Hn'.
  assert (exists n1 todo, run 1%nat = (n1, EncodePieces c todo []) /\ length todo = PIECES /\
    Forall (fun p => is_Some (to_allocvec p)) todo /\ nd_id n1 = nd_id n /\
    node_tracker (nd_app n1) = record_k (node_tracker (nd_app n)) c ENCODE_K) as (n1 & todo & Hr1 & Hlen & Hs1 & Hid1 & Htr1).
  { change (run 1%nat) with (encode_begin n c (te_io (env 0%nat)) (te_rng (env 0%nat))). pose proof (Hin 0%nat) as Hrng. cbn in Hrng.
    unfold encode_begin. rewrite Hio. cbn [cs_get obj_content_store fst snd].
    pose proof (get_repr (node_store (nd_app n)) M c ReadOk (node_ok_store ps _ M (ni_app n M Hn))) as Hget.
    destruct (get _ c ReadOk) as [s [o|err]]; [|by destruct Hget as (_ & ? & _); [rewrite <- Hcid; apply cid_from_data_wf|]].
    destruct Hget as [-> _]; [rewrite <- Hcid; apply cid_from_data_wf|]. rewrite Hd.
    pose proof (engine_encode_ok (nd_rlnc (update_app n (with_node_store (nd_app n) s))) d ENCODE_K (te_rng (env 0%nat))
      ltac:(unfold ENCODE_K; lia) (ni_bytes n M Hn c d Hd) Hrng) as He.
    change (ENCODE_K =? 0) with false in He. cbv iota in He. destruct He as (e & l & Hnew & Henc & Hl & Hcirc). rewrite Henc.
    eexists _, l. split; [reflexivity|]. split; [exact Hl|]. split; [|by split].
    eapply Forall_impl; [exact Hcirc|]. intros p. by apply Hser. }
  destruct (pieces_run n (EncodeStart c) env 1 c todo []) as (pcids & Hr2 & Hl2 & Htr2 & Hid2); [fold run; by rewrite Hr1|done|done|].
  fold run in Hr2, Htr2, Hid2. rewrite Hr1 in Htr2, Hid2. cbn [fst length Nat.add] in Hr2, Hl2, Htr2, Hid2. rewrite Hlen in Hr2, Hl2, Htr2, Hid2.
  assert (wrap 32 (Z.of_nat PIECES) = Z.of_nat PIECES) as Hwrap by (by vm_compute).
  assert (run (2 + PIECES)%nat = let '(n, t) := run (S PIECES) in task_step n t (env (S PIECES))) as Hrun by reflexivity.
  clear Hlen. revert Hn' Hrun Hr2 Hl2 Htr2 Hid2 Hwrap. generalize PIECES as P. intros P Hn' Hrun Hr2 Hl2 Htr2 Hid2 Hwrap.
  destruct (run (S P)) as [n2 t2]. cbn [fst snd] in Hr2, Htr2, Hid2. subst t2. cbn [task_step] in Hrun. rewrite Hrun in Hn' |- *.
  cbn [fst] in Hn'. split; [done|]. split; [exists M'; split; [exact Hn'|apply Hg]|]. split_and!.
  - exists pcids. split; [|done]. cbn. apply lookup_insert_eq.
  - unfold encode_finish. cbn. unfold get_k. cbn. rewrite Htr2, Htr1. unfold record_k, get_k in *. rewrite Hk. cbn. apply lookup_insert_eq.
  - rewrite <- Hid1, <- Hid2. unfold encode_finish. cbn [nd_app set_app node_tracker with_node_tracker with_node_pieces].
    etransitivity; [|apply (local_count_recorded _ _ (mkHolder (nd_id n2) _ _))]. cbn [holder_count]. by rewrite Hl2, Hwrap.
Qed.

End NodeInv.

(** ** Peers that leave *)

Lemma tracker_remove_holders t id c :
  get_holders (tracker_remove_node t id) c = List.filter (fun h => negb (bool_decide (holder_node h = id))) (get_holders t c).
Proof.
  unfold tracker_remove_node, get_holders, retain_holders. cbn. rewrite lookup_omap. destruct (availability t !! c) as [l|]; [|done].
  cbn. by destruct (List.filter _ l).
Qed.

Lemma dht_remove_providers d id c :
  get_providers (dht_remove_node d id) c = List.filter (fun m => negb (bool_decide (m = id))) (get_providers d c).
Proof.
  unfold dht_remove_node, get_providers, retain_records. rewrite lookup_omap. destruct (d !! c) as [l|]; [|done]. cbn.
  assert (map prov_node (List.filter (other_node id) l) = List.filter (fun m => negb (bool_decide (m = id))) (map prov_node l)) as <-.
  { induction l as [|r l IH]; [done|]. cbn. unfold other_node at 1. by destruct (negb _); cbn; rewrite IH. }
  by destruct (List.filter (other_node id) l).
Qed.

Section Leaving.
Context `{B3 : Blake3} `{HX : Hex} `{LRUO : Lru Cid (list Z)} `{LRU : Lru (Cid * Z) (list Z)} `{BF : Bloom Cid}.
Context `{ED : Ed25519} `{LS : Libsql} `{IR : Iroh} `{BL : BroadcastLaws Event}.
Context {PC : Postcard CodedPiece} {PW : Postcard SignedWrite} {PM : Postcard WireMessage}.

(** The dispatch loop is waiting with nothing queued for it. *)
Definition loop_idle (n : CraftecNode) : Prop :=
  nd_dispatching n = true /\ chan_view (nd_bus n) (nd_rx n) = Some (0%nat, []) /\ (0 < chan_capacity (nd_bus n))%nat.

(** A member that is not dead. *)
Definition counted_in (s : Swim) (id : NodeId) : Prop :=
  exists i, members s !! id = Some (Alive i) \/ exists t, members s !! id = Some (Suspect i t).

(** C27: A peer reported dead disappears from the node's books: in a node whose dispatch loop
    has read all its events, the report about a member that was alive or suspected turns
    it dead and publishes one event, and the round of the loop that reads it removes the
    peer from the piece tracker and from the provider table, and nobody else. *)
Theorem dead_peer_purged n id inc from now env :
  loop_idle n -> swim_sender (ep_swim (nd_ep n)) = true -> id <> local_id (ep_swim (nd_ep n)) -> counted_in (ep_swim (nd_ep n)) id ->
  let n1 := (on_swim n (SwimDead id inc from) now).1 in
  members (ep_swim (nd_ep n1)) !! id = Some (Dead inc) /\
  exists n2, dispatch_round n1 env = Some n2 /\ chan_view (nd_bus n2) (nd_rx n2) = Some (0%nat, []) /\
    forall c m, (m ∈ holder_nodes (node_tracker (nd_app n2)) c <-> m <> id /\ m ∈ holder_nodes (node_tracker (nd_app n)) c) /\
                (m ∈ get_providers (node_dht (nd_app n2)) c <-> m <> id /\ m ∈ get_providers (node_dht (nd_app n)) c).
Proof.
  intros (Hdisp & Hv & Hcap) Hsend Hloc Hconn. unfold on_swim. cbn [handle_swim_msg fst]. set (s := ep_swim (nd_ep n)) in *.
  assert (mark_dead s id inc = send_event (set_members s (<[id := Dead inc]> (members s))) (PeerDisconnected id)) as Hm.
  { unfold mark_dead. rewrite bool_decide_false by done. by destruct Hconn as (i & [Hi|[t Hi]]); rewrite Hi. }
  rewrite Hm. unfold send_event. change (swim_sender (set_members s _)) with (swim_sender s). rewrite Hsend.
  unfold update_swim. cbn [swim_events set_members]. fold s. rewrite drop_app_length. cbn [map to_event publish_all foldl].
  split; [apply lookup_insert_eq|].
  assert (chan_view (publish (nd_bus n) (EvPeerDisconnected id)) (nd_rx n) = Some (0%nat, [EvPeerDisconnected id])) as Hv1.
  { unfold publish. rewrite view_send, Hv. cbn [fmap option_fmap option_map]. unfold push. cbn [length fst snd app]. destruct (Nat.ltb_spec 0 (chan_capacity (nd_bus n))); [done|lia]. }
  unfold dispatch_round. cbn [nd_dispatching nd_rx nd_bus set_bus set_ep]. rewrite Hdisp. cbn [negb].
  destruct (recv_pop _ _ _ Hv1) as [Hv2 Hr]. destruct (chan_recv _ _) as [bus r]. cbn [fst snd pop] in Hv2, Hr. subst r.
  eexists. split; [reflexivity|]. split; [exact Hv2|]. intros c m.
  cbn [nd_app set_app set_bus set_ep node_tracker node_dht with_node_tracker with_node_dht dispatch_event]. unfold holder_nodes.
  rewrite tracker_remove_holders, dht_remove_providers. split.
  - rewrite !list_elem_of_fmap. split.
    + intros (h & -> & Hin). apply list_elem_of_In, filter_In in Hin as [Hin Hf]. split; [|exists h; by split; [|apply list_elem_of_In]].
      intros Heq. by rewrite bool_decide_true in Hf.
    + intros (Hne & h & -> & Hin). exists h. split; [done|]. apply list_elem_of_In, filter_In. split; [by apply list_elem_of_In|].
      by rewrite bool_decide_false.
  - rewrite !list_elem_of_In, filter_In. split.
    + intros [Hin Hf]. split; [|done]. intros ->. by rewrite bool_decide_true in Hf.
    + intros [Hne Hin]. split; [done|]. by rewrite bool_decide_false.
Qed.

End Leaving.
