(* ===== verification/Pipeline.v ===== *)
(** * The repair pipeline (crates/craftec-health/src/scanner.rs, crates/craftec-node/src/node.rs)

    The loop of the health scanner, the bounded channel it sends requests into, and
    the executor that takes them out, as tasks that run beside all the other loops of
    the node.  Shutdown may arrive at any moment. *)
From Stdlib Require Import ZArith Lia.
From stdpp Require Import base list list_numbers numbers strings gmap relations.
From S2P Require Import Prelude Gf256 Linear Types Instances External F64 Hommac Encoder Decoder DecoderRank Recoder Engine Hlc Wire Events ObjStore PageIndex Vfs Swim Health Repair Sql Keys Dht Pending Pool Endpoint Gossip Handler Rpc Node NodeInv.

Local Open Scope Z_scope.

Definition REPAIR_CHANNEL : nat := 128.

(** Where the scanner is: asleep or waiting for shutdown, handing over the requests
    of a cycle, or gone. *)
Inductive scan_pc : Type := ScanSleep | ScanSend (todo : list RepairRequest) | ScanStopped.

Inductive exec_pc : Type := ExecIdle | ExecRun (req : RepairRequest) | ExecStopped.

Section Pipeline.
Context `{BL : Blake3Laws} `{HXL : HexLaws} `{LLO : LruLaws Cid (list Z)} `{LL : LruLaws (Cid * Z) (list Z)} `{BFL : BloomLaws Cid}.
Context `{ED : Ed25519} `{LS : Libsql} `{IR : Iroh} `{BC : Broadcast Event}.
Context `{PCL : PostcardLaws CodedPiece} {PW : Postcard SignedWrite} {PM : Postcard WireMessage}.

(** [pl_found], [pl_done] and [pl_sent] record the requests the scanner found, those
    the executor finished, and the frames that left. *)
Record Pipeline : Type := mkPipeline {
  pl_node : CraftecNode;
  pl_scanner : HealthScanner;
  pl_scan : scan_pc;
  pl_queue : list RepairRequest;
  pl_exec : exec_pc;
  pl_signal : bool;
  pl_found : list RepairRequest;
  pl_done : list RepairRequest;
  pl_sent : list (RepairRequest * (NodeId * list Z));
}.

Definition pipeline_new (n : CraftecNode) (s : HealthScanner) : Pipeline := mkPipeline n s ScanSleep [] ExecIdle false [] [] [].

(** ** The scanner *)

(** The timer fires. *)
Definition scan_wake (p : Pipeline) : Pipeline :=
  let '(s, repairs) := scan_cycle (pl_scanner p) (node_tracker (nd_app (pl_node p))) in
  mkPipeline (pl_node p) s (ScanSend repairs) (pl_queue p) (pl_exec p) (pl_signal p) (pl_found p ++ repairs) (pl_done p) (pl_sent p).

Definition scan_at (p : Pipeline) (pc : scan_pc) (q : list RepairRequest) : Pipeline :=
  mkPipeline (pl_node p) (pl_scanner p) pc q (pl_exec p) (pl_signal p) (pl_found p) (pl_done p) (pl_sent p).

(** One turn of the loop over a cycle's requests; [None] while the channel is full.  A
    channel without receiver ends the scanner. *)
Definition scan_send (p : Pipeline) : option Pipeline :=
  match pl_scan p with
  | ScanSend [] => Some (scan_at p ScanSleep (pl_queue p))
  | ScanSend (req :: todo) =>
      match pl_exec p with
      | ExecStopped => Some (scan_at p ScanStopped (pl_queue p))
      | _ => if (length (pl_queue p) <? REPAIR_CHANNEL)%nat then Some (scan_at p (ScanSend todo) (pl_queue p ++ [req])) else None
      end
  | _ => None
  end.

Definition scan_stop (p : Pipeline) : option Pipeline :=
  match pl_scan p with
  | ScanSleep => if pl_signal p then Some (scan_at p ScanStopped (pl_queue p)) else None
  | _ => None
  end.

(** ** The executor *)

Definition exec_recv (p : Pipeline) : option Pipeline :=
  match pl_exec p, pl_queue p with
  | ExecIdle, req :: q =>
      Some (mkPipeline (pl_node p) (pl_scanner p) (pl_scan p) q (ExecRun req) (pl_signal p) (pl_found p) (pl_done p) (pl_sent p))
  | _, _ => None
  end.

(** The executor is gone, and with it the receiver and what the channel still held. *)
Definition exec_gone (p : Pipeline) : Pipeline :=
  mkPipeline (pl_node p) (pl_scanner p) (pl_scan p) [] ExecStopped (pl_signal p) (pl_found p) (pl_done p) (pl_sent p).

(** The repair; a panic takes the task down. *)
Definition exec_run (p : Pipeline) (io : nat -> obj_io) (draws : nat -> Z * Z) (rng : nat) (sio : send_io) : option Pipeline :=
  match pl_exec p with
  | ExecRun req =>
      match on_repair (pl_node p) req io draws rng sio with
      | Panicked => Some (exec_gone p)
      | Returned (n, frame) =>
          Some (mkPipeline n (pl_scanner p) (pl_scan p) (pl_queue p) ExecIdle (pl_signal p) (pl_found p) (pl_done p ++ [req])
            (pl_sent p ++ match frame with Some f => [(req, f)] | None => [] end))
      end
  | _ => None
  end.

Definition exec_stop (p : Pipeline) : option Pipeline :=
  match pl_exec p with
  | ExecIdle => if pl_signal p then Some (exec_gone p) else None
  | _ => None
  end.

Definition pl_with_node (p : Pipeline) (n : CraftecNode) : Pipeline :=
  mkPipeline n (pl_scanner p) (pl_scan p) (pl_queue p) (pl_exec p) (pl_signal p) (pl_found p) (pl_done p) (pl_sent p).
Definition send_shutdown (p : Pipeline) : Pipeline :=
  mkPipeline (pl_node p) (pl_scanner p) (pl_scan p) (pl_queue p) (pl_exec p) true (pl_found p) (pl_done p) (pl_sent p).

(** ** Runs *)

(** What the two tasks do on their own, between two wake-ups of the scanner. *)
Inductive pipe_work : Pipeline -> Pipeline -> Prop :=
| pw_send p p' : scan_send p = Some p' -> pipe_work p p'
| pw_scan_stop p p' : scan_stop p = Some p' -> pipe_work p p'
| pw_recv p p' : exec_recv p = Some p' -> pipe_work p p'
| pw_run p io draws rng sio p' : (forall i, draw_ok (draws i)) -> exec_run p io draws rng sio = Some p' -> pipe_work p p'
| pw_exec_stop p p' : exec_stop p = Some p' -> pipe_work p p'.

(** [select!] may take the timer even when shutdown is signalled as well. *)
Inductive pipe_step : Pipeline -> Pipeline -> Prop :=
| ps_work p p' : pipe_work p p' -> pipe_step p p'
| ps_wake p : pl_scan p = ScanSleep -> pipe_step p (scan_wake p)
| ps_signal p : pipe_step p (send_shutdown p)
| ps_other p n : evolves (pl_node p) n -> pipe_step p (pl_with_node p n).

(** ** Every request once, in order *)

Definition in_hand (pc : exec_pc) : list RepairRequest := match pc with ExecRun req => [req] | _ => [] end.
Definition to_send (pc : scan_pc) : list RepairRequest := match pc with ScanSend todo => todo | _ => [] end.

Record pipe_ok (p : Pipeline) : Prop := {
  po_bound : (length (pl_queue p) <= REPAIR_CHANNEL)%nat;
  po_order : pl_done p `prefix_of` pl_found p;
  po_all : pl_exec p <> ExecStopped -> pl_found p = pl_done p ++ in_hand (pl_exec p) ++ pl_queue p ++ to_send (pl_scan p);
}.

Lemma pipe_new_ok n s : pipe_ok (pipeline_new n s).
Proof. split; cbn; [lia|done|done]. Qed.

Lemma pipe_work_ok p p' : pipe_ok p -> pipe_work p p' -> pipe_ok p'.
Proof.
  intros [Hb Ho Ha]. destruct 1 as [p p' Hw|p p' Hw|p p' Hw|p io draws rng sio p' _ Hw|p p' Hw].
  - unfold scan_send in Hw. destruct (pl_scan p) as [|[|req todo]|] eqn:Es; try done; [by simplify_eq; split|].
    destruct (pl_exec p) as [|r|] eqn:Ee; try (destruct (Nat.ltb_spec (length (pl_queue p)) REPAIR_CHANNEL); [|done]); injection Hw as <-;
      (split; cbn; [rewrite ?length_app; cbn; lia|done|rewrite Ee; try done; intros _; rewrite Ha by done; cbn; by rewrite <- ?app_assoc]).
  - unfold scan_stop in Hw. destruct (pl_scan p) eqn:Es; try done. destruct (pl_signal p); [|done]. by simplify_eq; split.
  - unfold exec_recv in Hw. destruct (pl_exec p) eqn:Ee; try done. destruct (pl_queue p) as [|req q] eqn:Eq; [done|]. injection Hw as <-.
    cbn in Hb. split; cbn; [lia|done|]. intros _. by rewrite Ha.
  - unfold exec_run in Hw. destruct (pl_exec p) as [|req|] eqn:Ee; try done.
    destruct (on_repair _ _ _ _ _ _) as [[n frame]|]; injection Hw as <-; [|split; cbn; [lia|done|done]].
    pose proof (Ha ltac:(done)) as Hf. cbn in Hf. split; cbn; [done| |].
    + exists (pl_queue p ++ to_send (pl_scan p)). by rewrite Hf, <- app_assoc.
    + intros _. by rewrite Hf, <- app_assoc.
  - unfold exec_stop in Hw. destruct (pl_exec p) eqn:Ee; try done. destruct (pl_signal p); [|done]. injection Hw as <-. split; cbn; [lia|done|done].
Qed.

Lemma pipe_step_ok p p' : pipe_ok p -> pipe_step p p' -> pipe_ok p'.
Proof.
  intros Hok. pose proof Hok as [Hb Ho Ha]. destruct 1 as [p p' Hw|p Hp|p|p n Hn]; [by eapply pipe_work_ok| |by split..].
  unfold scan_wake. destruct (scan_cycle _ _) as [s reqs]. split; cbn; [done|by apply prefix_app_r|].
  intros He. rewrite (Ha He), Hp. cbn. by rewrite app_nil_r, <- !app_assoc.
Qed.

Lemma pipe_run_ok p p' : pipe_ok p -> rtc pipe_step p p' -> pipe_ok p'.
Proof. intros Hok. induction 1 as [p|p p1 p' Hst _ IH]; [done|]. by apply IH, (pipe_step_ok p). Qed.

(** The pipeline is one of the things that can happen to a node. *)
Lemma pipe_step_evolves p p' : pipe_step p p' -> rtc evolves (pl_node p) (pl_node p').
Proof.
  destruct 1 as [p p' Hw|p Hp|p|p n Hn]; [|unfold scan_wake; by destruct (scan_cycle _ _)|done|by apply rtc_once].
  destruct Hw as [p p' Hw|p p' Hw|p p' Hw|p io draws rng sio p' _ Hw|p p' Hw].
  - unfold scan_send in Hw. repeat case_match; by simplify_eq.
  - unfold scan_stop in Hw. repeat case_match; by simplify_eq.
  - unfold exec_recv in Hw. repeat case_match; by simplify_eq.
  - unfold exec_run in Hw. destruct (pl_exec p) as [|req|]; try done. destruct (on_repair _ _ _ _ _ _) as [[n frame]|] eqn:Er; simplify_eq; [|done].
    apply rtc_once. by apply (ev_repair (pl_node p) req io draws rng sio n frame).
  - unfold exec_stop in Hw. repeat case_match; by simplify_eq.
Qed.

Lemma pipe_run_evolves p p' : rtc pipe_step p p' -> rtc evolves (pl_node p) (pl_node p').
Proof. induction 1 as [p|p p1 p' Hst _ IH]; [done|]. etransitivity; [by apply pipe_step_evolves|done]. Qed.

(** C24: However the scanner, the executor and all other loops interleave: the channel never
    holds more than its capacity, the executor works off the requests in the order
    in which the scanner found them, and as long as it runs none is lost or repeated;
    seen from outside, the node has only made steps of its own. *)
Theorem repair_requests_in_order n s p :
  rtc pipe_step (pipeline_new n s) p ->
  (length (pl_queue p) <= REPAIR_CHANNEL)%nat /\ pl_done p `prefix_of` pl_found p /\
  (pl_exec p <> ExecStopped -> pl_found p = pl_done p ++ in_hand (pl_exec p) ++ pl_queue p ++ to_send (pl_scan p)) /\
  rtc evolves n (pl_node p).
Proof.
  intros Hr. destruct (pipe_run_ok _ p (pipe_new_ok n s) Hr) as [Hb Ho Ha]. split_and!; try done. by apply (pipe_run_evolves _ p Hr).
Qed.

(** ** The work between two wake-ups ends *)

Definition scan_weight (pc : scan_pc) : nat := match pc with ScanSleep => 1 | ScanSend todo => 2 + 4 * length todo | ScanStopped => 0 end.
Definition exec_weight (pc : exec_pc) : nat := match pc with ExecIdle => 1 | ExecRun _ => 2 | ExecStopped => 0 end.
Definition pipe_weight (p : Pipeline) : nat := scan_weight (pl_scan p) + 3 * length (pl_queue p) + exec_weight (pl_exec p).

(** Case analysis of a step, with the program counters it found put into the goal. *)
Ltac pipe_cases :=
  repeat case_match; simplify_eq/=; rewrite ?length_app;
  repeat match goal with
  | H : pl_scan ?p = _ |- context [pl_scan ?p] => rewrite H
  | H : pl_exec ?p = _ |- context [pl_exec ?p] => rewrite H
  | H : pl_queue ?p = _ |- context [pl_queue ?p] => rewrite H
  end.

Lemma work_lighter p p' : pipe_work p p' -> (pipe_weight p' < pipe_weight p)%nat.
Proof.
  destruct 1 as [p p' Hw|p p' Hw|p p' Hw|p io draws rng sio p' _ Hw|p p' Hw]; unfold pipe_weight.
  - unfold scan_send in Hw. pipe_cases; cbn; lia.
  - unfold scan_stop in Hw. pipe_cases; cbn; lia.
  - unfold exec_recv in Hw. pipe_cases; cbn; lia.
  - unfold exec_run in Hw. pipe_cases; cbn; lia.
  - unfold exec_stop in Hw. pipe_cases; cbn; lia.
Qed.

Lemma work_or_nf (sio : send_io) p : (exists p', pipe_work p p') \/ nf pipe_work p.
Proof.
  destruct (scan_send p) eqn:E1; [left; eexists; by apply pw_send|]. destruct (scan_stop p) eqn:E2; [left; eexists; by apply pw_scan_stop|].
  destruct (exec_recv p) eqn:E3; [left; eexists; by apply pw_recv|]. destruct (exec_stop p) eqn:E4; [left; eexists; by apply pw_exec_stop|].
  destruct (exec_run p (fun _ => (WriteOk, RenameOk, ReadOk)) (fun _ => (1, 1)) 0 sio) eqn:E5;
    [left; eexists; eapply pw_run; [|exact E5]; intros i; split; unfold is_byte; cbn; lia|].
  right. intros [p' Hw]. destruct Hw as [q p' Hw|q p' Hw|q p' Hw|q io draws rng sio' p' _ Hw|q p' Hw]; try congruence.
  unfold exec_run in *. destruct (pl_exec q); try done. by repeat case_match.
Qed.


Lemma work_settles (sio : send_io) p : exists p', rtc pipe_work p p' /\ nf pipe_work p'.
Proof.
  remember (pipe_weight p) as w eqn:Hw. revert p Hw. induction (lt_wf w) as [w _ IH]. intros p ->.
  destruct (work_or_nf sio p) as [[p1 Hp1]|Hn]; [|by exists p]. destruct (IH _ (work_lighter p p1 Hp1) p1 eq_refl) as (p' & Hr & Hn).
  exists p'. split; [by eapply rtc_l|done].
Qed.

(** Nothing left to do: everything found is repaired, or shutdown has ended both tasks. *)
Definition settled (p : Pipeline) : Prop :=
  (pl_signal p = true -> pl_scan p = ScanStopped /\ pl_exec p = ExecStopped) /\
  (pl_exec p <> ExecStopped -> pl_done p = pl_found p).

Lemma nf_settled (sio : send_io) p : pipe_ok p -> nf pipe_work p -> settled p.
Proof.
  intros Hok Hn. assert (pl_exec p = ExecIdle \/ pl_exec p = ExecStopped) as He.
  { destruct (pl_exec p) as [|req|] eqn:Ee; [by left| |by right]. exfalso.
    destruct (exec_run p (fun _ => (WriteOk, RenameOk, ReadOk)) (fun _ => (1, 1)) 0 sio) as [p'|] eqn:Er.
    - apply Hn. exists p'. eapply pw_run; [|exact Er]; intros i; split; unfold is_byte; cbn; lia.
    - unfold exec_run in Er. rewrite Ee in Er. by repeat case_match. }
  assert (pl_exec p = ExecIdle -> pl_queue p = [] /\ pl_signal p = false) as Hidle.
  { intros Ei. split.
    - destruct (pl_queue p) as [|r q] eqn:Eq; [done|]. exfalso. apply Hn. eexists. apply pw_recv. unfold exec_recv. by rewrite Ei, Eq.
    - destruct (pl_signal p) eqn:Eg; [|done]. exfalso. apply Hn. eexists. apply pw_exec_stop. unfold exec_stop. by rewrite Ei, Eg. }
  assert (to_send (pl_scan p) = [] /\ (pl_signal p = true -> pl_scan p = ScanStopped)) as [Hts Hst].
  { destruct (pl_scan p) as [|[|r todo]|] eqn:Es; [| | |done].
    - split; [done|]. intros Hg. exfalso. apply Hn. eexists. apply pw_scan_stop. unfold scan_stop. by rewrite Es, Hg.
    - exfalso. apply Hn. eexists. apply pw_send. unfold scan_send. by rewrite Es.
    - exfalso. apply Hn. destruct He as [Ei|Ei].
      + destruct (Hidle Ei) as [Hq _]. eexists. apply pw_send. unfold scan_send. by rewrite Es, Ei, Hq.
      + eexists. apply pw_send. unfold scan_send. by rewrite Es, Ei. }
  split.
  - intros Hg. split; [auto|]. destruct He as [Ei|Ei]; [|done]. destruct (Hidle Ei) as [_ Hf]. congruence.
  - intros Hne. destruct He as [Ei|Ei]; [|done]. destruct (Hidle Ei) as [Hq _]. rewrite (po_all p Hok Hne), Ei, Hq, Hts. cbn. by rewrite app_nil_r.
Qed.

(** C12: The pipeline never hangs: between two wake-ups of the scanner the two tasks make at
    most [pipe_weight] steps, they can always finish, and when they are done every
    request found so far has been executed, unless the executor has ended; once
    shutdown is signalled, both tasks end, a scanner blocked on a full channel
    included. *)
Theorem repair_pipeline_settles (sio : send_io) n s p :
  rtc pipe_step (pipeline_new n s) p ->
  (forall k p', nsteps pipe_work k p p' -> (k <= pipe_weight p)%nat) /\
  (exists p', rtc pipe_work p p' /\ nf pipe_work p') /\
  (forall p', rtc pipe_work p p' -> nf pipe_work p' -> settled p').
Proof.
  intros Hr. pose proof (pipe_run_ok _ p (pipe_new_ok n s) Hr) as Hok. split_and!.
  - clear. intros k p' Hk. induction Hk as [p|k p p1 p' Hw _ IH]; [lia|]. apply work_lighter in Hw. lia.
  - by apply work_settles.
  - intros p' Hw Hn. apply (nf_settled sio); [|done]. eapply pipe_run_ok; [exact Hok|]. eapply rtc_subrel; [|exact Hw]. apply ps_work.
Qed.

(** ** A panic in the executor ends repair for good *)

(** The executor's task dies when the chosen peer's id is no public key; from then on
    the first request of any scan ends the scanner too, although nobody asked
    the node to shut down. *)
Theorem executor_panic_ends_repair p req io draws rng sio r target msg res :
  pl_exec p = ExecRun req ->
  execute_repair (mkRepair (node_store (nd_app (pl_node p))) (nd_rlnc (pl_node p)) (nd_next_request (pl_node p)))
    (node_tracker (nd_app (pl_node p))) (alive_members (ep_swim (nd_ep (pl_node p)))) (nd_id (pl_node p))
    (node_pieces (nd_app (pl_node p))) req io draws rng true = (r, Some (target, msg), res) ->
  public_key_ok target = false -> connections (ep_connections (nd_ep (pl_node p))) !! target = None ->
  (forall ts, is_ok (encode_framed_with_hlc msg ts) = true) ->
  exec_run p io draws rng sio = Some (exec_gone p) /\
  forall p', pl_exec p' = ExecStopped -> (forall req todo, pl_scan p' = ScanSend (req :: todo) -> scan_send p' = Some (scan_at p' ScanStopped (pl_queue p'))) /\
    forall p'', pipe_step p' p'' -> pl_exec p'' = ExecStopped.
Proof.
  intros Hex Her Hkey Hpool Henc. split.
  - unfold exec_run. rewrite Hex. unfold on_repair. rewrite Her. cbn [update_app set_app set_bus set_rlnc set_next_request nd_ep].
    unfold send_message. specialize (Henc (now_next (ep_hlc (nd_ep (pl_node p))) (si_wall sio))).
    destruct (encode_framed_with_hlc _ _); [|done]. unfold conn_to, pool_get. cbn [with_clock ep_connections]. by rewrite Hpool, Hkey.
  - intros p' He. split; [intros rq todo Hs; unfold scan_send; by rewrite Hs, He|].
    intros p'' Hst. destruct Hst as [q q' Hw|q Hq|q|q m Hm]; [|unfold scan_wake; by destruct (scan_cycle _ _)|done|done].
    destruct Hw as [q q' Hw|q q' Hw|q q' Hw|q io' draws' rng' sio' q' _ Hw|q q' Hw].
    + unfold scan_send in Hw. repeat case_match; by simplify_eq.
    + unfold scan_stop in Hw. repeat case_match; by simplify_eq.
    + unfold exec_recv in Hw. by rewrite He in Hw.
    + unfold exec_run in Hw. by rewrite He in Hw.
    + unfold exec_stop in Hw. by rewrite He in Hw.
Qed.

(** ** Repairs are not recorded *)

Lemma repair_same_view n req io draws rng sio n' out :
  on_repair n req io draws rng sio = Returned (n', out) -> node_tracker (nd_app n') = node_tracker (nd_app n) /\ node_pieces (nd_app n') = node_pieces (nd_app n).
Proof.
  unfold on_repair. destruct (execute_repair _ _ _ _ _ _ _ _ _ _) as [[r [[t msg]|]] res]; [|by intros [= <- _]].
  destruct (send_message _ _ _ _) as [[[ep sr] fr]|]; [|done]. by intros [= <- _].
Qed.

Lemma work_same_view p p' :
  rtc pipe_work p p' -> node_tracker (nd_app (pl_node p')) = node_tracker (nd_app (pl_node p)) /\ node_pieces (nd_app (pl_node p')) = node_pieces (nd_app (pl_node p)).
Proof.
  induction 1 as [p|p p1 p' Hw _ [-> ->]]; [done|]. destruct Hw as [p p1 Hw|p p1 Hw|p p1 Hw|p io draws rng sio p1 _ Hw|p p1 Hw].
  - unfold scan_send in Hw. repeat case_match; by simplify_eq.
  - unfold scan_stop in Hw. repeat case_match; by simplify_eq.
  - unfold exec_recv in Hw. repeat case_match; by simplify_eq.
  - unfold exec_run in Hw. destruct (pl_exec p); try done. destruct (on_repair _ _ _ _ _ _) as [[n fr]|] eqn:Er; injection Hw as <-; [|done].
    by apply repair_same_view in Er.
  - unfold exec_stop in Hw. repeat case_match; by simplify_eq.
Qed.

(** All the repairs of a cycle leave the shortages as they were: the repairing node
    records nothing, and the node that is sent a piece gives it to a waiting fetch or
    drops it; it stores, indexes and records nothing.  What was reported short is
    reported short again. *)
Theorem repair_leaves_shortage p p' c (peer : NodeState) from pieces id now io x :
  rtc pipe_work p p' ->
  evaluate_cid (node_tracker (nd_app (pl_node p'))) c = evaluate_cid (node_tracker (nd_app (pl_node p))) c /\
  let '(peer', reply) := node_handle_message peer from (PieceResponse pieces id) now io x in
  reply = None /\ node_store peer' = node_store peer /\ node_pieces peer' = node_pieces peer /\ node_tracker peer' = node_tracker peer /\
  (Forall (fun q => waiters (node_pending peer) !! cid q = None) pieces -> peer' = peer).
Proof.
  intros Hw. destruct (work_same_view p p' Hw) as [-> _]. split; [done|]. cbn. split_and!; try done.
  intros Hf. assert (foldl (fun s q => resolve s (cid q) q) (node_pending peer) pieces = node_pending peer) as ->; [|by destruct peer].
  induction Hf as [|q qs Hq _ IH]; [done|]. cbn. unfold resolve at 2. by rewrite Hq.
Qed.

(** ** What repair sends *)

Section SentPieces.
Context (ps : nat) (Hps : (0 < ps)%nat) (Hfile : forall l, file_ok ps (sql_file l)).

(** A frame for [req]: one piece of the content that passes both integrity checks and
    mixes two pieces of it which the store holds. *)
Definition sent_ok (self : NodeId) (M : gmap Cid (list Z)) (x : RepairRequest * (NodeId * list Z)) : Prop :=
  exists d e q id ts p1 p2, M !! request_cid x.1 = Some d /\ encoder_new d ENCODE_K = Ok e /\
    encode_framed_with_hlc (PieceResponse [q] id) ts = Ok x.2.2 /\ x.2.1 <> self /\
    let X := original_pieces e in
    let n := enc_piece_size e in
    codes_for X n q /\ verify_mac q = true /\ verify_piece_id q = true /\
    held_piece M p1 /\ held_piece M p2 /\ codes_for X n p1 /\ codes_for X n p2 /\ mixes (length X) n q p1 p2.

Lemma held_mono M M' p : M ⊆ M' -> held_piece M p -> held_piece M' p.
Proof. intros Hs (pc & b & Hb & Hp). exists pc, b. split; [by eapply lookup_weaken|done]. Qed.

Lemma sent_mono self M M' x : M ⊆ M' -> sent_ok self M x -> sent_ok self M' x.
Proof.
  intros Hs (d & e & q & id & ts & p1 & p2 & Hd & He & Hf & Ht & Hx & Hm & Hi & Hp1 & Hp2 & Hr).
  exists d, e, q, id, ts, p1, p2. cbv zeta in *. split_and!; try done; [by eapply lookup_weaken|by apply (held_mono M)|by apply (held_mono M)|apply Hr..].
Qed.

Lemma repair_sends n M req io draws rng sio n' target frame :
  node_inv ps n M -> (forall i, draw_ok (draws i)) -> on_repair n req io draws rng sio = Returned (n', Some (target, frame)) ->
  sent_ok (nd_id n) M (req, (target, frame)).
Proof.
  intros Hn Hd Hr. unfold on_repair in Hr. set (r0 := mkRepair _ _ _) in Hr.
  destruct (execute_repair r0 _ _ _ _ req io draws rng true) as [[r out] res] eqn:Ex. destruct out as [[t msg]|]; [|done].
  destruct (send_message _ t msg sio) as [[[ep sr] fr]|] eqn:Esm; [|done]. destruct fr as [[conn bytes]|]; [|done]. injection Hr as _ <- <-.
  assert (exists pcids, piece_cids (node_pieces (nd_app n)) (request_cid req) = Some pcids /\ pcids <> []) as (pcids & Hi & Hne).
  { revert Ex. unfold execute_repair. destruct (_ =? 0); [done|]. destruct (repair_rankings _ _ _ _); [done|]. destruct (negb _); [done|].
    unfold load_local_pieces. destruct (piece_cids (node_pieces (nd_app n)) (request_cid req)) as [[|pc pcs]|]; [done|by eexists|done]. }
  destruct (index_pieces ps n M _ pcids Hn Hi Hne) as (d & e & HMd & Hcid & He & Hall).
  destruct (encoder_new_pieces d ENCODE_K ltac:(unfold ENCODE_K; lia) (ni_bytes ps n M Hn _ d HMd)) as (e' & He' & _ & _ & _ & _ & HX & _).
  assert (e' = e) as -> by congruence.
  destruct (repair_sends_valid_piece r0 (node_tracker (nd_app n)) (alive_members (ep_swim (nd_ep n))) (nd_id n) (node_pieces (nd_app n)) req io draws rng true r t msg res (original_pieces e) (enc_piece_size e) M HX Hd) as (_ & _ & Hts & _ & q & p1 & p2 & -> & Hq).
  - exact (node_ok_store ps _ M (ni_app ps n M Hn)).
  - intros pcids' Hi'. assert (pcids' = pcids) as -> by congruence. eapply Forall_impl; [exact Hall|].
    intros pc (Hwf & b & p & Hb & Hp & Hcirc). split; [done|]. intros b' p' Hb' Hp'. assert (p' = p) as -> by congruence.
    split; [by apply circulates_codes|by apply (circulates_tagged e)].
  - exact Ex.
  - exists d, e, q. cbn [fst snd]. destruct Hq as (Hq & Hm & Hpid & Hp1 & Hp2 & Hc1 & Hc2 & Hmix). unfold send_message in Esm. destruct (encode_framed_with_hlc _ _) as [b|] eqn:Ee; [|done].
    eexists _, _. exists p1, p2. split_and!; try done. rewrite Ee. revert Esm. repeat case_match; intros; by simplify_eq.
Qed.

Lemma step_sent p p' self M :
  pipe_step p p' -> nd_id (pl_node p) = self -> node_inv ps (pl_node p) M -> Forall (sent_ok self M) (pl_sent p) -> Forall (sent_ok self M) (pl_sent p').
Proof.
  intros Hst Hid Hn Hs. destruct Hst as [p p' Hw|p Hp|p|p n Hev]; [|unfold scan_wake; by destruct (scan_cycle _ _)|done|done].
  destruct Hw as [p p' Hw|p p' Hw|p p' Hw|p io draws rng sio p' Hdr Hw|p p' Hw].
  - unfold scan_send in Hw. repeat case_match; by simplify_eq.
  - unfold scan_stop in Hw. repeat case_match; by simplify_eq.
  - unfold exec_recv in Hw. repeat case_match; by simplify_eq.
  - unfold exec_run in Hw. destruct (pl_exec p) as [|req|]; try done.
    destruct (on_repair _ _ _ _ _ _) as [[n [[t f]|]]|] eqn:Er; injection Hw as <-; cbn; rewrite ?app_nil_r; try done.
    apply Forall_app_2; [done|]. apply Forall_singleton. rewrite <- Hid. by apply (repair_sends _ M req io draws rng sio n).
  - unfold exec_stop in Hw. repeat case_match; by simplify_eq.
Qed.


End SentPieces.

End Pipeline.
