(* ===== verification/Boot.v ===== *)
(** * Starting and stopping a node (crates/craftec-node/src/node.rs)

    [CraftecNode::new] step by step over the data directory, the start of
    [CraftecNode::run] and its shutdown sequence.  Wasmtime, libsql and iroh answer
    whether they could be set up; the file system answers each call. *)
From Stdlib Require Import ZArith Lia.
From stdpp Require Import base list list_numbers numbers strings gmap relations.
From S2P Require Import Prelude Gf256 Linear Types Instances External F64 Hommac Encoder Decoder DecoderRank Recoder Engine Hlc Wire Events ObjStore PageIndex Vfs Swim Health Repair Sql Keys Dht Pending Pool Endpoint Gossip Handler Rpc Node NodeInv.

Local Open Scope Z_scope.

Definition NODE_LOCK_FILENAME : string := "node.lock".
Definition NODE_ID_FILE : string := "node.id".

(** What start-up meets, in the order of its steps. *)
Record boot_env : Type := mkBootEnv {
  be_mkdir : bool;
  be_lock : bool;
  be_key : file_io;
  be_entropy : list Z;
  be_obj : bool;
  be_walk : string -> dir_outcome;
  be_sql_dir : bool;
  be_sync : sync_io (IO := obj_io);
  be_wasm : bool;
  be_key_read : bool;
  be_bind : bool;
  be_wall : Z;
  be_id_write : bool;
  be_key2 : file_io;
  be_entropy2 : list Z;
}.

Section Boot.
Context `{B3 : Blake3} `{HX : Hex} `{LRUO : Lru Cid (list Z)} `{LRU : Lru (Cid * Z) (list Z)} `{BF : Bloom Cid}.
Context `{ED : Ed25519} `{ES : Ed25519Signing} `{LS : Libsql} `{IR : Iroh} `{BC : Broadcast Event}.
Context {PC : Postcard CodedPiece} {PW : Postcard SignedWrite} {PM : Postcard WireMessage}.

(** Steps 8 to 12, once the key file has been read again; the loops are not running
    yet. *)
Definition assemble (config : NodeConfig) (database : CraftDatabase (St := ObjStore)) (keypair : NodeKeypair) (wall : Z) : CraftecNode :=
  let database := db_set_event_sender (with_db_store database (set_event_sender (vstore (db_vfs database)))) in
  let ep := endpoint_new (keypair_node_id keypair) (cfg_max_connections config) wall in
  mkCraftecNode (ep_node_id ep) (mkNode tracker_new dht_new pending_new database piece_index_new)
    (with_swim ep (swim_set_event_sender (ep_swim ep))) metrics_default 0 (bus_new EVENT_BUS_CAPACITY) 0 false [].

(** [CraftecNode::new] over the data directory [fs] and the object tree [obj]. *)
Definition node_new (fs : dir) (obj : gmap path (list Z)) (config : NodeConfig) (env : boot_env)
    : outcome (dir * result CraftecNode string) :=
  if negb (be_mkdir env) then Returned (fs, Err "failed to create data directory"%string)
  else if negb (be_lock env) then Returned (fs, Err "failed to write node.lock"%string)
  else
    let fs := <[NODE_LOCK_FILENAME := utf8 "locked"]> fs in
    match keystore_new fs (be_entropy env) (be_key env) with
    | (fs, Err _) => Returned (fs, Err "failed to initialise KeyStore"%string)
    | (fs, Ok keystore) =>
        match store_new obj OBJ_CACHE_CAPACITY (be_obj env) (be_walk env) with
        | Err _ => Returned (fs, Err "failed to initialise ContentAddressedStore"%string)
        | Ok store =>
          match vfs_new store (cfg_page_size config) with
          | Err _ => Returned (fs, Err "failed to initialise CidVfs"%string)
          | Ok vfs =>
              match db_create (keystore_node_id keystore) vfs (be_sql_dir env) (be_sync env) with
              | Err _ => Returned (fs, Err "failed to initialise CraftDatabase"%string)
              | Ok database =>
                  if negb (be_wasm env) then Returned (fs, Err "failed to initialise ComRuntime"%string)
                  else if negb (be_key_read env) then Returned (fs, Err "failed to read node.key"%string)
                  else match fs !! KEY_FILE with
                  | None => Returned (fs, Err "failed to read node.key"%string)
                  | Some bytes =>
                      (* copy_from_slice *)
                      if negb (length bytes =? 32)%nat then Panicked
                      else if negb (be_bind env) then Returned (fs, Err "failed to initialise CraftecEndpoint"%string)
                      else if negb (be_id_write env) then Returned (fs, Err "failed to write node.id"%string)
                      else
                        let node := assemble config database (from_secret_bytes bytes) (be_wall env) in
                        let fs := <[NODE_ID_FILE := utf8 (node_id_to_string (nd_id node))]> fs in
                        match keystore_new fs (be_entropy2 env) (be_key2 env) with
                        | (fs, Err _) => Returned (fs, Err "failed to initialise scheduler KeyStore"%string)
                        | (fs, Ok _) => Returned (fs, Ok node)
                        end
                  end
              end
          end
        end
    end.

(** The start of [run]: the bootstrap, whose result only chooses the log line, and
    the subscription of the dispatch loop. *)
Definition node_start (n : CraftecNode) (config : NodeConfig) (dials : nat -> result Z string * send_io) : outcome CraftecNode :=
  match bootstrap (nd_ep n) (imap (fun i p => (p, (dials i).1, (dials i).2)) (bootstrap_peers config)) with
  | Panicked => Panicked
  | Returned (ep, _, _) =>
      let '(bus, rx) := subscribe (nd_bus n) in
      Returned (mkCraftecNode (nd_id n) (nd_app n) ep (nd_rlnc n) (nd_next_request n) bus rx true (nd_tasks n))
  end.

(** The shutdown sequence; encoding tasks are not among those it waits for. *)
Definition node_shutdown (n : CraftecNode) (fs : dir) (remove_ok : bool) : CraftecNode * dir :=
  let n := set_bus n (publish (nd_bus n) EvShutdownSignal) in
  (stop_dispatching n,
   match fs !! NODE_LOCK_FILENAME with
   | Some _ => if remove_ok then delete NODE_LOCK_FILENAME fs else fs
   | None => fs
   end).

End Boot.

(** ** Facts *)

Section CreateFacts.
Context `{BL : Blake3Laws} `{LL : LruLaws (Cid * Z) (list Z)} `{LS : Libsql}.
Context {St IO : Type} {CS : ContentStore St IO} {CSL : ContentStoreLaws St IO}.

Lemma db_create_safe own (v : CidVfs (St := St)) M dir_ok (x : sync_io (IO := IO)) db :
  vfs_safe v M -> (0 < page_size v)%nat -> (forall l, file_ok (page_size v) (sql_file l)) -> (forall l, sync_order x l ≡ₚ l) ->
  db_create own v dir_ok x = Ok db ->
  owner db = own /\ page_size (db_vfs db) = page_size v /\ exists M', vfs_safe (db_vfs db) M' /\ grows M M'.
Proof.
  intros Hv Hps Hf Hord. unfold db_create. destruct (negb dir_ok); [done|]. destruct sql_open as [l0|]; [|done].
  destruct (run_setup l0 setup_statements) as [l|]; [|done].
  destruct (sync_pages_safe v M (sql_file l) x Hv Hps (Hf l) Hord) as (M' & Hs & Hg).
  assert (page_size (sync_pages_to_vfs (sql_file l) v x).1 = page_size v) as Hsz by apply sync_page_size.
  destruct (sync_pages_to_vfs (sql_file l) v x) as [v' [root|e]]; [|done]. intros [= <-]. cbn in *.
  split_and!; [done|done|by exists M'].
Qed.

End CreateFacts.

Section BootFacts.
Context `{BL : Blake3Laws} `{HXL : HexLaws} `{LLO : LruLaws Cid (list Z)} `{LL : LruLaws (Cid * Z) (list Z)} `{BFL : BloomLaws Cid}.
Context `{EL : Ed25519Laws} `{LS : Libsql} `{IR : Iroh} `{BC : Broadcast Event}.
Context `{PCL : PostcardLaws CodedPiece} {PW : Postcard SignedWrite} {PM : Postcard WireMessage}.

Lemma keystore_new_file fs entropy io fs' ks :
  length entropy = 32%nat -> keystore_new fs entropy io = (fs', Ok ks) ->
  fs' !! KEY_FILE = Some (signing_key (ks_keypair ks)) /\ length (signing_key (ks_keypair ks)) = 32%nat /\
  (fi_stat_ok io = true -> forall b, fs !! KEY_FILE = Some b -> fs' = fs /\ signing_key (ks_keypair ks) = b) /\
  forall name, name <> KEY_FILE -> fs' !! name = fs !! name.
Proof.
  intros He. unfold keystore_new, file_seen. destruct (if fi_stat_ok io then fs !! KEY_FILE else None) as [b|] eqn:E.
  - destruct (fi_stat_ok io); [|done]. destruct (fi_read_ok io); [|done]. destruct (length b =? 32)%nat eqn:Hb; [|done]. bool_to_prop. intros [= <- <-].
    split_and!; [done|done| |done]. intros _ b' Hb'. by rewrite E in Hb'; injection Hb' as <-.
  - destruct (fi_mkdir_ok io); [|done]. destruct (fi_write_ok io); [|done]. intros [= <- <-].
    split_and!; [by rewrite lookup_insert_eq|done|intros Hst b Hb; rewrite Hst in E; congruence|]. intros name Hn. by rewrite lookup_insert_ne.
Qed.

(** The metadata calls of start-up answer: the key file is seen, and so is every shard
    directory. *)
Definition boot_seen (env : boot_env) : Prop :=
  fi_stat_ok (be_key env) = true /\ fi_stat_ok (be_key2 env) = true /\ forall dir, be_walk env dir <> DirUnseen.

(** What a finished start-up leaves: the identity everywhere, the lock, and the
    objects of the tree. *)
Record booted (fs : dir) (ps : nat) (n : CraftecNode) (M : gmap Cid (list Z)) (secret : list Z) : Prop := {
  bt_page_size : (0 < ps)%nat;
  bt_inv : node_inv ps n M;
  bt_secret : fs !! KEY_FILE = Some secret /\ length secret = 32%nat;
  bt_id : nd_id n = ed_public secret;
  bt_owner : owner (node_db (nd_app n)) = nd_id n;
  bt_endpoint : ep_node_id (nd_ep n) = nd_id n;
  bt_id_file : fs !! NODE_ID_FILE = Some (utf8 (node_id_to_string (nd_id n)));
  bt_lock : fs !! NODE_LOCK_FILENAME = Some (utf8 "locked");
  bt_index c : piece_cids (node_pieces (nd_app n)) c = None;
}.

Lemma assemble_booted config (db : CraftDatabase (St := ObjStore)) secret wall M fs :
  (0 < cfg_page_size config)%nat ->
  vfs_safe (db_vfs db) M -> page_size (db_vfs db) = cfg_page_size config -> map_Forall (fun _ => bytes) M ->
  owner db = ed_public secret -> length secret = 32%nat -> fs !! KEY_FILE = Some secret ->
  fs !! NODE_ID_FILE = Some (utf8 (node_id_to_string (ed_public secret))) -> fs !! NODE_LOCK_FILENAME = Some (utf8 "locked") ->
  booted fs (cfg_page_size config) (assemble config db (from_secret_bytes secret) wall) M secret.
Proof.
  intros Hps [Hs Hi Hd] Hsz Hb Ho Hl Hk Hid Hlk. split; try done. split; [|done|done|apply Forall_nil_2].
  split; [|done|done]. split; [|done|done]. destruct Hs. by split.
Qed.

Lemma vfs_new_safe (s : ObjStore) M ps v :
  store_repr s M -> vfs_new s ps = Ok v -> vfs_safe v M /\ page_size v = ps /\ (0 < ps)%nat.
Proof.
  intros Hs. unfold vfs_new. destruct (512 <=? Z.of_nat ps) eqn:E; [|done]. bool_to_prop.
  destruct (_ || _); [done|]. intros [= <-]. split_and!; [|done|lia]. split; [done|by intros ? ?|by intros ? ?].
Qed.

Lemma node_new_booted fs obj config env fs' n M :
  boot_seen env -> length (be_entropy env) = 32%nat -> (forall l, sync_order (be_sync env) l ≡ₚ l) ->
  (forall l, file_ok (cfg_page_size config) (sql_file l)) ->
  store_repr (store_over obj OBJ_CACHE_CAPACITY) M -> map_Forall (fun _ => bytes) M ->
  node_new fs obj config env = Returned (fs', Ok n) ->
  exists M' secret, booted fs' (cfg_page_size config) n M' secret /\ M ⊆ M' /\ (forall b, fs !! KEY_FILE = Some b -> secret = b).
Proof.
  intros (Hst & Hst2 & Hwalk) He Hord Hf Hs Hb. unfold node_new. destruct (be_mkdir env); [|done]. destruct (be_lock env); [|done]. cbn [negb].
  set (fs0 := <[NODE_LOCK_FILENAME := _]> fs).
  destruct (keystore_new fs0 (be_entropy env) (be_key env)) as [fs1 [ks|e]] eqn:Ek; [|done].
  destruct (keystore_new_file fs0 _ _ fs1 ks He Ek) as (Hk & Hl & Hold & Hother).
  destruct (store_new _ _ _ _) as [st|e] eqn:Est; [|done]. apply store_new_over in Est as ->; [|done]. destruct (vfs_new _ _) as [v|e] eqn:Ev; [|done].
  destruct (vfs_new_safe _ M _ v Hs Ev) as (Hv & Hsz & Hps).
  destruct (db_create _ v _ _) as [db|e] eqn:Ed; [|done].
  destruct (db_create_safe _ v M _ _ db Hv ltac:(lia) ltac:(by rewrite Hsz) Hord Ed) as (Ho & Hsz' & M' & Hv' & Hsub & Hg).
  destruct (be_wasm env); [|done]. destruct (be_key_read env); [|done]. cbn [negb]. rewrite Hk, Hl, Nat.eqb_refl. cbn [negb].
  destruct (be_bind env); [|done]. destruct (be_id_write env); [|done]. cbn [negb].
  set (secret := signing_key (ks_keypair ks)) in *. set (node := assemble _ _ _ _). set (fs2 := <[NODE_ID_FILE := _]> fs1).
  assert (fs2 !! KEY_FILE = Some secret) as Hk2 by (unfold fs2; by rewrite lookup_insert_ne by discriminate).
  destruct (keystore_new fs2 _ _) as [fs3 [ks2|e]] eqn:Ek2; [|done]. intros [= <- <-].
  assert (fs3 = fs2) as ->.
  { revert Ek2. unfold keystore_new, file_seen. rewrite Hst2, Hk2. destruct (fi_read_ok _); [|done]. destruct (_ =? 32)%nat; [|done]. by intros [= <- <-]. }
  exists M', secret. split_and!; [|done|].
  - apply assemble_booted; try done; [by rewrite Hsz'|by apply Hg|unfold fs2; by rewrite lookup_insert_eq|].
    unfold fs2. rewrite lookup_insert_ne, Hother by discriminate. unfold fs0. by rewrite lookup_insert_eq.
  - intros b Hb0. apply (Hold Hst b). unfold fs0. by rewrite lookup_insert_ne by discriminate.
Qed.

(** C17: Start-up either fails with an error or leaves a node whose identity is the key
    file's everywhere: the endpoint, the owner of the database and the id file
    agree, the lock is in place, the invariant holds and every object of the tree is
    there.  It does not panic, and an existing key file decides the identity.  The
    metadata calls on the key file and the shard directories are taken to answer. *)
Theorem start_up_consistent fs obj config env M :
  boot_seen env -> length (be_entropy env) = 32%nat -> (forall l, sync_order (be_sync env) l ≡ₚ l) ->
  (forall l, file_ok (cfg_page_size config) (sql_file l)) ->
  store_repr (store_over obj OBJ_CACHE_CAPACITY) M -> map_Forall (fun _ => bytes) M ->
  match node_new fs obj config env with
  | Panicked => False
  | Returned (_, Err _) => True
  | Returned (fs', Ok n) =>
      exists M' secret, booted fs' (cfg_page_size config) n M' secret /\ M ⊆ M' /\
        (forall b, fs !! KEY_FILE = Some b -> secret = b)
  end.
Proof.
  intros Hseen He Hord Hf Hs Hb. destruct (node_new fs obj config env) as [[fs' [n|e]]|] eqn:En; [|done|].
  - by eapply node_new_booted.
  - revert En. unfold node_new. destruct (be_mkdir env); [|done]. destruct (be_lock env); [|done]. cbn [negb].
    set (fs0 := <[NODE_LOCK_FILENAME := _]> fs). destruct (keystore_new fs0 _ _) as [fs1 [ks|e]] eqn:Ek; [|done].
    destruct (keystore_new_file fs0 _ _ fs1 ks He Ek) as (Hk & Hl & _).
    destruct (store_new _ _ _ _); [|done]. destruct (vfs_new _ _); [|done]. destruct (db_create _ _ _ _); [|done].
    destruct (be_wasm env); [|done]. destruct (be_key_read env); [|done]. cbn [negb]. rewrite Hk, Hl. cbn [Nat.eqb negb].
    destruct (be_bind env); [|done]. destruct (be_id_write env); [|done]. cbn [negb]. cbn zeta. match goal with |- context [keystore_new ?a ?b ?c] => destruct (keystore_new a b c) as [? [?|?]] end; intros Hx; discriminate Hx.
Qed.

(** ** Restarts *)

Lemma node_start_inv ps n config dials n' M :
  node_inv ps n M -> node_start n config dials = Returned n' -> node_inv ps n' M /\ nd_id n' = nd_id n.
Proof.
  intros Hn. unfold node_start. destruct (bootstrap _ _) as [[[ep r] fr]|]; [|done]. destruct (subscribe _) as [bus rx].
  intros [= <-]. split; [|done]. by apply (inv_same ps n); [|apply Hn|..].
Qed.

(** A node that ran for any time, was shut down and is started again over its data
    directory, its files being seen, is the same node with all its objects; a clean
    shutdown removes the lock.  The piece index is not persisted: it is empty again. *)
Theorem restart_keeps_objects fs obj config env fs1 n M dials n1 n2 remove_ok env' fs2 n3 :
  boot_seen env -> boot_seen env' -> length (be_entropy env) = 32%nat -> length (be_entropy env') = 32%nat ->
  (forall l, sync_order (be_sync env) l ≡ₚ l) -> (forall l, sync_order (be_sync env') l ≡ₚ l) ->
  (forall l, file_ok (cfg_page_size config) (sql_file l)) ->
  store_repr (store_over obj OBJ_CACHE_CAPACITY) M -> map_Forall (fun _ => bytes) M ->
  node_new fs obj config env = Returned (fs1, Ok n) -> node_start n config dials = Returned n1 -> rtc evolves n1 n2 ->
  let '(_, fs1') := node_shutdown n2 fs1 remove_ok in
  fs1' !! NODE_LOCK_FILENAME = (if remove_ok then None else Some (utf8 "locked")) /\
  (node_new fs1' (files (node_store (nd_app n2))) config env' = Returned (fs2, Ok n3) ->
   nd_id n3 = nd_id n /\
   exists M2 M3, node_inv (cfg_page_size config) n2 M2 /\ M ⊆ M2 /\
     node_inv (cfg_page_size config) n3 M3 /\ M2 ⊆ M3 /\ forall c, piece_cids (node_pieces (nd_app n3)) c = None).
Proof.
  intros Hseen Hseen' He He' Ho Ho' Hf Hs Hb Hnew Hstart Hrun.
  destruct (node_new_booted fs obj config env fs1 n M Hseen He Ho Hf Hs Hb Hnew) as (M1 & secret & Hbt & Hsub & _).
  destruct (node_start_inv _ n config dials n1 M1 (bt_inv _ _ _ _ _ Hbt) Hstart) as [Hn1 Hid1].
  pose proof (bt_page_size _ _ _ _ _ Hbt) as Hps.
  destruct (run_inv (cfg_page_size config) Hps Hf n1 n2 M1 Hn1 Hrun) as (M2 & Hn2 & Hg2).
  unfold node_shutdown. rewrite (bt_lock _ _ _ _ _ Hbt). split; [destruct remove_ok; [by rewrite lookup_delete_eq|apply Hbt]|].
  intros Hnew'.
  assert (store_repr (store_over (files (node_store (nd_app n2))) OBJ_CACHE_CAPACITY) M2) as Hs2.
  { apply restart_repr. exact (node_ok_store _ _ M2 (ni_app _ n2 M2 Hn2)). }
  destruct (node_new_booted _ _ config env' fs2 n3 M2 Hseen' He' Ho' Hf Hs2 (ni_bytes _ n2 M2 Hn2) Hnew') as (M3 & secret' & Hbt3 & Hsub3 & Hk).
  assert (secret' = secret) as ->.
  { apply Hk. destruct (bt_secret _ _ _ _ _ Hbt) as [Hsec _]. destruct remove_ok; [|done]. by rewrite lookup_delete_ne by discriminate. }
  split; [by rewrite (bt_id _ _ _ _ _ Hbt3), (bt_id _ _ _ _ _ Hbt)|].
  exists M2, M3. split_and!; [done|by etransitivity; [|apply Hg2]|apply Hbt3|done|apply Hbt3].
Qed.

(** Content that is already stored when the node starts is never encoded again:
    storing it once more publishes no event, so no task starts and its pieces stay
    out of the index. *)
Theorem stored_content_not_reencoded fs ps n M secret start from data env :
  booted fs ps n M secret -> M !! cid_from_data data = Some data ->
  let '(n', resp) := on_rpc n start from (ReqStorePut data) env in
  resp = RespStorePut (cid_from_data data) /\ nd_bus n' = nd_bus n /\ nd_tasks n' = nd_tasks n /\
  piece_cids (node_pieces (nd_app n')) (cid_from_data data) = None.
Proof.
  intros Hbt HM. pose proof (node_ok_store _ _ M (ni_app _ n M (bt_inv _ _ _ _ _ Hbt))) as Hs.
  unfold on_rpc. cbn [rpc_handle rn_node cs_put obj_content_store]. unfold put.
  assert (is_Some (M !! cid_from_data data)) as HiM by (by eexists).
  assert (probably_contains (obj_bloom (with_metrics (node_store (nd_app n)) count_put)) (cid_from_data data) &&
    file_exists (with_metrics (node_store (nd_app n)) count_put) (shard_path (cid_from_data data)) ReadOk = true) as ->.
  { apply andb_true_iff. split; [exact (sr_bloom _ M Hs _ HiM)|]. unfold file_exists. apply bool_decide_eq_true.
    rewrite (sr_files _ M Hs _ _ HM : files (with_metrics _ _) !! _ = _). by eexists. }
  split; [done|]. cbn [rn_node rn_with nd_bus nd_tasks nd_app update_app set_bus set_app].
  rewrite (app_events_store (nd_app n) (with_metrics (node_store (nd_app n)) count_put) []) by (by rewrite app_nil_r).
  split_and!; [done|done|]. apply (bt_index _ _ _ _ _ Hbt).
Qed.

End BootFacts.
