(* ===== verification/Providers.v ===== *)
(** * Who provides what (crates/craftec-node/src/node.rs, handler.rs, crates/craftec-net/src/dht.rs)

    A network of whole nodes that all run this program.  A node announces what its
    store reports as written and, at start-up, what its store lists; announcements
    travel, are lost, repeated and reordered; nodes stop, are killed and start again
    over what they have on disk.
    Whoever a provider table lists for a content identifier has the content. *)
From Stdlib Require Import ZArith Lia.
From stdpp Require Import base list list_numbers numbers strings gmap relations.
From S2P Require Import Prelude Gf256 Linear Types Instances External F64 Hommac Encoder Decoder DecoderRank Recoder Engine Hlc Wire Events ObjStore PageIndex Vfs Swim Health Repair Sql Keys Dht Pending Pool Endpoint Gossip Handler Rpc Node NodeInv Boot.

Local Open Scope Z_scope.

(** ** What a store has reported as written is stored *)

Section Published.
Context `{BL : Blake3Laws} `{HXL : HexLaws} `{LLO : LruLaws Cid (list Z)} `{LL : LruLaws (Cid * Z) (list Z)} `{BFL : BloomLaws Cid}.
Context `{ED : Ed25519} `{LS : Libsql}.
Context {PC : Postcard CodedPiece} {PW : Postcard SignedWrite}.

Definition stored (M : gmap Cid (list Z)) (c : Cid) : Prop := is_Some (M !! c).

Lemma stored_mono M M' c : M ⊆ M' -> stored M c -> stored M' c.
Proof. intros Hs [d Hd]. exists d. by eapply lookup_weaken. Qed.

(** The contract of the store with a condition [E] on the events it has sent.  The
    operations are those of [obj_content_store], so what was proved of the clients of
    any store holds of them with the stronger contract. *)
Definition logged_store (E : ObjStore -> gmap Cid (list Z) -> Prop) : ContentStore ObjStore obj_io :=
  {| cs_put s d io := put s d ReadOk io.1.1 io.1.2; cs_get s c io := get s c io.2; cs_repr s M := store_repr s M /\ E s M |}.

(** [E] looks at the sender and the events only, survives growth, and admits a CID that
    was stored. *)
Class LogCondition (E : ObjStore -> gmap Cid (list Z) -> Prop) : Prop := {
  lc_same s s' M : has_sender s' = has_sender s -> events s' = events s -> E s M -> E s' M;
  lc_put s M d : E s M -> E s (spec_put M d);
  lc_event s s' M c : has_sender s = true -> has_sender s' = true -> events s' = events s ++ [c] -> stored M c -> E s M -> E s' M;
}.

Lemma put_sender (s : ObjStore) d w r : has_sender (put s d ReadOk w r).1 = has_sender s.
Proof. unfold put. by repeat case_match. Qed.

Lemma get_sender (s : ObjStore) c r : has_sender (get s c r).1 = has_sender s.
Proof. unfold get. by repeat case_match. Qed.

(** An event is sent only with a sender, for a put that succeeds. *)
Lemma put_log (s : ObjStore) d w r :
  events (put s d ReadOk w r).1 = events s \/
  (has_sender s = true /\ (put s d ReadOk w r).2 = Ok (cid_from_data d) /\ events (put s d ReadOk w r).1 = events s ++ [cid_from_data d]).
Proof.
  unfold put. destruct (_ && _); [by left|]. destruct w as [|en lo]; [|destruct lo; by left]. destruct r as [|rm]; [|by left].
  cbn. destruct (has_sender s) eqn:E; [by right|by left].
Qed.

Lemma spec_put_stored M d : stored (spec_put M d) (cid_from_data d).
Proof. unfold stored, spec_put. destruct (M !! cid_from_data d) as [b|] eqn:E; [by exists b|]. exists d. apply lookup_insert_eq. Qed.

Lemma logged_laws E : LogCondition E -> @ContentStoreLaws _ ObjStore obj_io (logged_store E).
Proof.
  intros HE. split; cbn.
  - intros s M d io [Hr HEs] _. pose proof (put_repr s M d io.1.1 io.1.2 Hr) as Hp. pose proof (put_sender s d io.1.1 io.1.2) as Hsd.
    pose proof (put_log s d io.1.1 io.1.2) as Hl. destruct (put s d ReadOk io.1.1 io.1.2) as [s' [c|e]]; cbn [fst snd] in *.
    + destruct Hp as [-> Hp]. split_and!; [done|done|]. apply (lc_put _ _ d) in HEs.
      destruct Hl as [Hl|(Hs & _ & Hl)]; [by eapply lc_same|]. eapply lc_event; [exact Hs|congruence|exact Hl|apply spec_put_stored|done].
    + destruct Hl as [Hl|(_ & Hx & _)]; [|done]. split; [by destruct Hp|by eapply lc_same].
  - intros s M c io [Hr HEs] Hc. pose proof (get_repr s M c io.2 Hr Hc) as Hg. pose proof (get_sender s c io.2) as Hsd.
    pose proof (get_events s c io.2) as Hl. destruct (get s c io.2) as [s' [o|e]]; cbn [fst] in *.
    + destruct Hg as [-> Hg]. split_and!; [done|done|by eapply lc_same].
    + destruct Hg as (_ & _ & Hg). split; [done|by eapply lc_same].
  - intros s M c d [Hr _]. by apply (sr_hash s M).
Qed.

Lemma logged_listing E : @StoreListingLaws ObjStore obj_io (logged_store E) obj_store_listing.
Proof. split. intros s M io l [Hs _] Hl. exact (store_list_repr s M io.2 l Hs Hl). Qed.

(** The store reports what it writes, and everything reported is stored. *)
Definition published (s : ObjStore) (M : gmap Cid (list Z)) : Prop := has_sender s = true /\ Forall (stored M) (events s).

#[local] Instance published_condition : LogCondition published.
Proof.
  split; unfold published.
  - intros s s' M -> -> HE. done.
  - intros s M d [Hs HE]. split; [done|]. eapply Forall_impl; [exact HE|]. intros c. apply stored_mono, spec_put_mono.
  - intros s s' M c _ Hs -> Hc [_ HE]. split; [done|]. apply Forall_app_2; [done|by apply Forall_singleton].
Qed.

Lemma published_mono s M M' : M ⊆ M' -> published s M -> published s M'.
Proof. intros Hs [Hsd HE]. split; [done|]. eapply Forall_impl; [exact HE|]. intros c. by apply stored_mono. Qed.

(** Nothing was reported, and nobody listens. *)
Definition unheard (s : ObjStore) (M : gmap Cid (list Z)) : Prop := has_sender s = false /\ events s = [].

#[local] Instance unheard_condition : LogCondition unheard.
Proof.
  split; unfold unheard.
  - intros s s' M -> -> HE. done.
  - done.
  - intros s s' M c Hs _ _ _ [Hf _]. congruence.
Qed.

(** What a store holds is determined by its files. *)
Lemma repr_unique s M1 M2 : store_repr s M1 -> store_repr s M2 -> M1 = M2.
Proof.
  assert (forall M M' c d, store_repr s M -> store_repr s M' -> M !! c = Some d -> M' !! c = Some d) as Hsub.
  { intros M M' c d Hr1 Hr2 Hc. assert (cid_wf c) as Hwf by (apply (repr_wf s M); [done|by exists d]).
    destruct (sr_only s M' Hr2 _ _ (sr_files s M Hr1 c d Hc)) as [(c' & Hp & Hc')|(c' & Hwf' & Hp)].
    - apply shard_path_inj in Hp as ->; [done|done|]. apply (repr_wf s M'); [done|by exists d].
    - by apply shard_not_tmp in Hp. }
  intros Hr1 Hr2. apply map_eq. intros c. apply option_eq. intros d. split; by apply Hsub.
Qed.

End Published.

(** ** The node *)

Section NodePublished.
Context `{BL : Blake3Laws} `{HXL : HexLaws} `{LLO : LruLaws Cid (list Z)} `{LL : LruLaws (Cid * Z) (list Z)} `{BFL : BloomLaws Cid}.
Context `{ED : Ed25519} `{LS : Libsql} `{IR : Iroh} `{BCL : BroadcastLaws Event}.
Context `{PCL : PostcardLaws CodedPiece} {PW : Postcard SignedWrite} {PM : Postcard WireMessage}.
Context (ps : nat) (Hps : (0 < ps)%nat) (Hfile : forall l, file_ok ps (sql_file l)).

Lemma logged_node E (h : NodeState) M : node_ok (CS := logged_store E) ps h M <-> node_ok ps h M /\ E (node_store h) M.
Proof.
  split.
  - intros [[[Hs He] Hi Hd] Hz Hx]. split; [|done]. split; [by split|done|done].
  - intros [[[Hs Hi Hd] Hz Hx] He]. split; [by split|done|done].
Qed.

Lemma message_published (h : NodeState) M m :
  node_ok ps h M -> published (node_store h) M -> msg_wf (in_msg m) -> (forall l, sync_order (in_sync m) l ≡ₚ l) ->
  exists M', node_ok ps (node_step h m) M' /\ published (node_store (node_step h m)) M'.
Proof.
  intros Hn Hp Hm Hord.
  destruct (handle_message_ok (CS := logged_store published) (CSL := logged_laws published published_condition) ps Hps Hfile h M m) as (M' & Hn' & _);
    [by apply logged_node|done|done|]. exists M'. by apply logged_node in Hn'.
Qed.

Lemma rpc_published (h : RpcNode) from req env M :
  node_ok ps (rn_node h) M -> published (node_store (rn_node h)) M -> req_wf req -> (forall l, sync_order (re_sync env) l ≡ₚ l) ->
  exists M', node_ok ps (rn_node (rpc_handle h from req env).1) M' /\ published (node_store (rn_node (rpc_handle h from req env).1)) M'.
Proof.
  intros Hn Hp Hreq Hord.
  destruct (rpc_handle_ok (CS := logged_store published) (CSL := logged_laws published published_condition) (SLL := logged_listing published)
    ps Hps Hfile h from req env M) as (M' & Hn' & _); [by apply logged_node|done|done|]. exists M'. by apply logged_node in Hn'.
Qed.

(** An event that tells of a stored object. *)
Definition ev_true (M : gmap Cid (list Z)) (ev : Event) : Prop := match ev with EvCidWritten c => stored M c | _ => True end.

(** The running node: besides its invariant, everything its store has reported is
    stored, and so is what the dispatch loop has still to read. *)
Record node_pub (n : CraftecNode) (M : gmap Cid (list Z)) : Prop := {
  np_inv : node_inv ps n M;
  np_log : published (node_store (nd_app n)) M;
  np_bus : exists v, chan_view (nd_bus n) (nd_rx n) = Some v /\ Forall (ev_true M) v.2;
}.

Lemma ev_true_mono M M' ev : M ⊆ M' -> ev_true M ev -> ev_true M' ev.
Proof. intros Hs. destruct ev; try done. by apply stored_mono. Qed.

Lemma push_true M cap ev v : Forall (ev_true M) v.2 -> ev_true M ev -> Forall (ev_true M) (push cap ev v).2.
Proof.
  intros Hv He. unfold push. destruct (_ <? cap)%nat; cbn; (apply Forall_app_2; [|by apply Forall_singleton]); [done|].
  destruct v as [k [|x l]]; [done|]. by apply Forall_cons in Hv as [_ Hv].
Qed.

Lemma publish_true M (bus : chan (A := Event)) rx evs v :
  chan_view bus rx = Some v -> Forall (ev_true M) v.2 -> Forall (ev_true M) evs ->
  exists v', chan_view (publish_all bus evs) rx = Some v' /\ Forall (ev_true M) v'.2.
Proof.
  intros Hv Ht He. rewrite (publish_all_view bus evs rx v Hv). eexists. split; [done|].
  clear Hv. revert v Ht. induction He as [|ev evs Hev _ IH]; intros v Ht; [done|]. cbn. apply IH. by apply push_true.
Qed.

(** Every step but those of the dispatch loop adds to the bus at most. *)
Lemma pub_step n M n' M' evs :
  node_pub n M -> node_inv ps n' M' -> M ⊆ M' -> published (node_store (nd_app n')) M' ->
  nd_rx n' = nd_rx n -> nd_bus n' = publish_all (nd_bus n) evs -> Forall (ev_true M') evs -> node_pub n' M'.
Proof.
  intros [_ _ (v & Hv & Ht)] Hn Hs Hl Hrx Hb He. split; [done|done|]. rewrite Hrx, Hb. apply (publish_true M' _ _ _ v); [done| |done].
  eapply Forall_impl; [exact Ht|]. intros ev. by apply ev_true_mono.
Qed.

Lemma app_events_true (a a' : NodeState) M : published (node_store a') M -> Forall (ev_true M) (app_events a a').
Proof.
  intros [_ Hp]. unfold app_events. apply Forall_app_2.
  - apply Forall_map. rewrite <- (take_drop (length (events (node_store a))) (events (node_store a'))) in Hp. apply Forall_app in Hp as [_ Hp]. done.
  - apply Forall_map, Forall_true. intros e. done.
Qed.

(** A step that changes the application and publishes what that sent. *)
Lemma pub_update n M a M' :
  node_pub n M -> node_inv ps (update_app n a) M' -> M ⊆ M' -> published (node_store a) M' -> node_pub (update_app n a) M'.
Proof. intros Hp Hn Hs Hl. eapply (pub_step n M); [done|done|done|done|done|done|]. by apply app_events_true. Qed.

(** A step that leaves store and bus alone. *)
Lemma pub_same n M n' M' :
  node_pub n M -> node_inv ps n' M' -> M ⊆ M' -> node_store (nd_app n') = node_store (nd_app n) ->
  nd_rx n' = nd_rx n -> nd_bus n' = nd_bus n -> node_pub n' M'.
Proof.
  intros Hp Hn Hs He Hrx Hb. eapply (pub_step n M _ _ []); [done|done|done| |done|done|done].
  rewrite He. eapply published_mono; [done|apply (np_log n M Hp)].
Qed.

Lemma inv_unique n M M' : node_inv ps n M -> node_ok ps (nd_app n) M' -> M' = M.
Proof. intros Hn Hn'. apply (repr_unique (node_store (nd_app n))); [exact (node_ok_store _ _ _ Hn')|exact (node_ok_store _ _ _ (ni_app _ _ _ Hn))]. Qed.

(** Reading an event: what it tells is true, and so is the rest. *)
Lemma recv_true n M bus r :
  node_pub n M -> chan_recv (nd_rx n) (nd_bus n) = (bus, r) ->
  (exists v, chan_view bus (nd_rx n) = Some v /\ Forall (ev_true M) v.2) /\ forall ev, r = RecvOk ev -> ev_true M ev.
Proof.
  intros [_ _ (v & Hv & Ht)] Hr. destruct (recv_pop (nd_bus n) (nd_rx n) v Hv) as [Hv' Hr']. rewrite Hr in Hv', Hr'. cbn in *. subst r.
  destruct v as [[|k] l]; cbn in *; [|split; [by eexists|done]]. destruct l as [|ev l]; cbn in *; [split; [by eexists|done]|].
  apply Forall_cons in Ht as [He Ht]. split; [by eexists|]. by intros ev' [= <-].
Qed.

Lemma dispatch_pub n M env n' : node_pub n M -> dispatch_round n env = Some n' -> node_pub n' M.
Proof.
  intros Hp Hd. pose proof (dispatch_inv ps n M env n' (np_inv n M Hp) Hd) as Hn'. revert Hd. unfold dispatch_round.
  destruct (negb _); [done|]. destruct (chan_recv (nd_rx n) (nd_bus n)) as [bus r] eqn:Er. destruct (recv_true n M bus r Hp Er) as [Hb _].
  assert (forall m, nd_bus m = bus -> nd_rx m = nd_rx n -> node_store (nd_app m) = node_store (nd_app n) -> node_inv ps m M -> node_pub m M) as Hm.
  { intros m Hbm Hrx Hs Hi. split; [done|rewrite Hs; apply (np_log n M Hp)|by rewrite Hbm, Hrx]. }
  destruct r as [ev|k| |]; intros [= <-]; [|by apply Hm|by apply Hm].
  destruct ev as [c| | |id| | |]; cbn [dispatch_event] in *; try (by apply Hm).
  destruct (announce_cid_to_peers _ _ _ _ _ _) as [[ep fr]|]; [|by apply Hm]. destruct (is_piece_cid _ _); by apply Hm.
Qed.

Lemma task_pub n M i t env n' t' :
  node_pub n M -> nd_tasks n !! i = Some t -> task_input_ok n t env -> task_step n t env = (n', t') ->
  forall M', node_inv ps (set_tasks n' (<[i := t']> (nd_tasks n'))) M' -> M ⊆ M' -> node_pub (set_tasks n' (<[i := t']> (nd_tasks n'))) M'.
Proof.
  intros Hp Hi Hin Hst M' Hn' Hs. set (n2 := set_tasks n' _) in *.
  assert (exists a, nd_rx n' = nd_rx n /\ nd_bus n' = publish_all (nd_bus n) (app_events (nd_app n) a) /\
    node_store (nd_app n') = node_store a /\ published (node_store a) M') as (a & Hrx & Hb & Hsa & Hl).
  2: { eapply (pub_step n M); [done|done|done|unfold n2; cbn; by rewrite Hsa|done|done|by apply app_events_true]. }
  assert (forall s, has_sender s = has_sender (node_store (nd_app n)) -> events s = events (node_store (nd_app n)) -> published s M') as Hsame.
  { intros s Hsd He. unfold published. rewrite Hsd, He. eapply published_mono; [exact Hs|apply (np_log n M Hp)]. }
  assert (app_events (nd_app n) (nd_app n) = []) as Hnone by (unfold app_events; by rewrite !drop_all).
  destruct t as [c|c [|p todo] pcids|]; cbn [task_step] in Hst.
  - unfold encode_begin in Hst. pose proof (get_events (node_store (nd_app n)) c (te_io env).2) as Hg. pose proof (get_sender (node_store (nd_app n)) c (te_io env).2) as Hgs. cbn [cs_get obj_content_store] in Hst.
    destruct (get _ c _) as [s r]. exists (with_node_store (nd_app n) s).
    destruct r as [[d|]|e]; [destruct (engine_encode _ _ _ _) as [m [l|e]]|..]; injection Hst as <- <-; (split_and!; [done|done|done|by apply Hsame]).
  - injection Hst as <- <-. exists (nd_app n). rewrite Hnone. split_and!; [done|done|done|by apply Hsame].
  - unfold encode_piece_step in Hst. destruct (to_allocvec p) as [b|]; [|injection Hst as <- <-; exists (nd_app n); rewrite Hnone; split_and!; [done..|by apply Hsame]].
    set (a := with_node_pieces _ _) in Hst. pose proof (put_log (node_store a) b (te_io env).1.1 (te_io env).1.2) as Hg. pose proof (put_sender (node_store a) b (te_io env).1.1 (te_io env).1.2) as Hgs.
    pose proof (put_repr (node_store a) M b (te_io env).1.1 (te_io env).1.2 (node_ok_store _ _ _ (ni_app _ _ _ (np_inv n M Hp)))) as Hr.
    cbn [cs_put obj_content_store] in Hst. destruct (put _ b ReadOk _ _) as [s r]. cbn [fst snd] in *. exists (with_node_store a s).
    assert (node_store (nd_app n') = s) as Hs2 by (destruct r; by injection Hst as <- <-).
    assert (published s M') as Hl.
    { destruct Hg as [Hg|(_ & -> & Hg)]; [by apply Hsame|]. destruct Hr as [_ Hr].
      assert (M' = spec_put M b) as ->. { eapply repr_unique; [|exact Hr]. rewrite <- Hs2. exact (node_ok_store _ _ _ (ni_app _ _ _ Hn')). }
      destruct (Hsame (node_store a) eq_refl eq_refl) as [Hsd HE]. split; [by rewrite Hgs|]. rewrite Hg. apply Forall_app_2; [done|apply Forall_singleton, spec_put_stored]. }
    destruct r; injection Hst as <- <-; (split_and!; [done|done|done|done]).
  - injection Hst as <- <-. exists (nd_app n). rewrite Hnone. split_and!; [done|done|done|by apply Hsame].
Qed.

Lemma repair_log n M req io draws rng sio n' frame :
  node_pub n M -> on_repair n req io draws rng sio = Returned (n', frame) -> node_pub n' M.
Proof.
  intros Hp Hr. pose proof (repair_inv ps n M req io draws rng sio n' frame (np_inv n M Hp) Hr) as Hn'. revert Hr. unfold on_repair.
  set (r0 := mkRepair _ _ _). set (alive := alive_members _).
  pose proof (execute_repair_repr (CS := logged_store published) (CSL := logged_laws published published_condition) r0 (node_tracker (nd_app n)) alive (nd_id n)
    (node_pieces (nd_app n)) req io draws rng true M (conj (node_ok_store _ _ _ (ni_app _ _ _ (np_inv n M Hp))) (np_log n M Hp))
    (no_index ps _ M (ni_app _ n M (np_inv n M Hp)) (request_cid req))) as [_ Hl].
  change (execute_repair (CS := logged_store published)) with (execute_repair (CS := obj_content_store)) in Hl.
  destruct (execute_repair _ _ _ _ _ _ _ _ _ _) as [[r out] res]. cbn [fst] in Hl.
  assert (node_store (with_node_store (nd_app n) (rep_store r)) = rep_store r) as Hst by done.
  intros Hr. eapply (pub_step n M _ _ (app_events (nd_app n) (with_node_store (nd_app n) (rep_store r)))); [done|done|done| | | |by apply app_events_true].
  all: destruct out as [[target msg]|]; [destruct (send_message _ _ _ _) as [[[ep res'] fr]|]; [|done]|]; by injection Hr as <- <-.
Qed.

Lemma swim_true M evs : Forall (ev_true M) (map to_event evs).
Proof. apply Forall_map, Forall_true. by intros []. Qed.

(** Everything that can happen keeps it. *)
Lemma evolves_pub n n' M : node_pub n M -> evolves n n' -> exists M', node_pub n' M' /\ grows M M'.
Proof.
  intros Hp Hst. destruct (evolves_inv ps Hps Hfile n n' M (np_inv n M Hp) Hst) as (M' & Hn' & Hg). exists M'. split; [|done]. destruct Hg as [Hs _].
  destruct Hst as [n m Hm Hord|n start from req env Hreq Hord|n n' Hnet|n env n' Hd|
    n i t env n' t' Hi Hin Hst|n req io draws rng sio n' fr Hr|n now|n now|n io env int n' an Ha].
  - destruct (message_published (nd_app n) M m (ni_app _ _ _ (np_inv n M Hp)) (np_log n M Hp) Hm Hord) as (M2 & Hok & Hl).
    unfold on_message in *. change (node_step (nd_app n) m) with (node_handle_message (nd_app n) (in_from m) (in_msg m) (in_now m) (in_io m) (in_sync m)).1 in *.
    destruct (node_handle_message _ _ _ _ _ _) as [a reply]. cbn [fst] in *. assert (M2 = M') as -> by (apply (inv_unique (update_app n a)); [exact Hn'|exact Hok]).
    by apply (pub_update n M).
  - set (h := mkRpcNode (nd_id n) (nd_app n) (ep_swim (nd_ep n)) start).
    destruct (rpc_published h from req env M (ni_app _ _ _ (np_inv n M Hp)) (np_log n M Hp) Hreq Hord) as (M2 & Hok & Hl).
    unfold on_rpc in *. fold h in Hn' |- *. destruct (rpc_handle h from req env) as [h' resp]. cbn [fst] in *.
    assert (M2 = M') as -> by (apply (inv_unique (update_app n (rn_node h'))); [exact Hn'|exact Hok]). by apply (pub_update n M).
  - apply net_act_shape in Hnet as (ep & evs & ->). eapply (pub_step n M); [done|done|done| |done|done|apply swim_true].
    eapply published_mono; [done|apply (np_log n M Hp)].
  - assert (M' = M) as -> by (apply (inv_unique n'); [by apply (dispatch_inv ps n M env n' (np_inv n M Hp))|exact (ni_app _ _ _ Hn')]). by eapply dispatch_pub.
  - by eapply task_pub.
  - assert (M' = M) as -> by (apply (inv_unique n'); [by apply (repair_inv ps n M req io draws rng sio n' fr (np_inv n M Hp))|exact (ni_app _ _ _ Hn')]). by eapply repair_log.
  - by apply (pub_same n M).
  - by apply (pub_same n M).
  - revert Ha. unfold storage_bootstrap. destruct (sl_list _ _) as [cids|]; [|intros [= <- <-]; by apply (pub_same n M)].
    destruct (announce_batches _ _ _ _ _ _) as [[ep l]|]; [|done]. intros [= <- <-]. by apply (pub_same n M).
Qed.

End NodePublished.

(** ** Start-up *)

Section BootPublished.
Context `{BL : Blake3Laws} `{HXL : HexLaws} `{LLO : LruLaws Cid (list Z)} `{LL : LruLaws (Cid * Z) (list Z)} `{BFL : BloomLaws Cid}.
Context `{EL : Ed25519Laws} `{LS : Libsql} `{IR : Iroh} `{BCL : BroadcastLaws Event}.
Context `{PCL : PostcardLaws CodedPiece} {PW : Postcard SignedWrite} {PM : Postcard WireMessage}.

(** The database is created before anybody listens to the store. *)
Lemma new_node_unheard fs obj config env fs' n M :
  boot_seen env -> (forall l, sync_order (be_sync env) l ≡ₚ l) -> (forall l, file_ok (cfg_page_size config) (sql_file l)) ->
  store_repr (store_over obj OBJ_CACHE_CAPACITY) M -> node_new fs obj config env = Returned (fs', Ok n) ->
  events (node_store (nd_app n)) = [] /\ node_dht (nd_app n) = dht_new /\ has_sender (node_store (nd_app n)) = true.
Proof.
  intros Hseen Hord Hf Hs Hnew.
  assert (exists own v db kp wall, vfs_new (store_over obj OBJ_CACHE_CAPACITY) (cfg_page_size config) = Ok v /\
    db_create own v (be_sql_dir env) (be_sync env) = Ok db /\ n = assemble config db kp wall) as (own & v & db & kp & wall & Hv & Hdb & ->).
  { revert Hnew. unfold node_new. destruct (negb (be_mkdir env)); [done|]. destruct (negb (be_lock env)); [done|].
    destruct (keystore_new _ _ _) as [fs1 [ks|]]; [|done]. destruct (store_new _ _ _ _) as [store|] eqn:En; [|done]. apply store_new_over in En as ->; [|apply Hseen].
    destruct (vfs_new _ _) as [v|] eqn:Ev; [|done]. destruct (db_create _ v _ _) as [db|] eqn:Ed; [|done].
    destruct (negb (be_wasm env)); [done|]. destruct (negb (be_key_read env)); [done|]. destruct (fs1 !! KEY_FILE) as [b|]; [|done].
    destruct (negb _); [done|]. destruct (negb (be_bind env)); [done|]. destruct (negb (be_id_write env)); [done|].
    destruct (keystore_new _ (be_entropy2 env) _) as [fs3 [ks2|]]; [|done]. intros [= _ <-]. eauto 10. }
  destruct (vfs_new_safe _ M _ v Hs Hv) as ([Hvs Hvi Hvd] & Hsz & Hps).
  assert (vstore v = store_over obj OBJ_CACHE_CAPACITY) as Hst by (revert Hv; unfold vfs_new; repeat case_match; by intros [= <-]).
  destruct (db_create_safe (CS := logged_store unheard) (CSL := logged_laws unheard unheard_condition) own v M (be_sql_dir env) (be_sync env) db)
    as (_ & _ & M' & [[_ [_ He]] _ _] & _); [|lia|by rewrite Hsz|done|done|].
  - split; [|done|done]. split; [done|]. by rewrite Hst.
  - split_and!; [exact He|done|done].
Qed.

Lemma boot_pub fs obj config env fs' n0 dials n M :
  boot_seen env -> length (be_entropy env) = 32%nat -> (forall l, sync_order (be_sync env) l ≡ₚ l) ->
  (forall l, file_ok (cfg_page_size config) (sql_file l)) ->
  store_repr (store_over obj OBJ_CACHE_CAPACITY) M -> map_Forall (fun _ => bytes) M ->
  node_new fs obj config env = Returned (fs', Ok n0) -> node_start n0 config dials = Returned n ->
  exists M', node_pub (cfg_page_size config) n M' /\ M ⊆ M' /\ node_dht (nd_app n) = dht_new.
Proof.
  intros Hseen Hent Hord Hf Hs Hb Hnew Hst. destruct (new_node_unheard fs obj config env fs' n0 M Hseen Hord Hf Hs Hnew) as (He & Hd & Hsd).
  destruct (node_new_booted fs obj config env fs' n0 M Hseen Hent Hord Hf Hs Hb Hnew) as (M' & secret & Hbt & Hsub & _).
  destruct (node_start_inv _ n0 config dials n M' (bt_inv _ _ _ _ _ Hbt) Hst) as [Hn _]. exists M'. split_and!; [|done|].
  - revert Hst. unfold node_start. destruct (bootstrap _ _) as [[[ep r] fr]|]; [|done]. unfold subscribe.
    pose proof (view_subscribe (nd_bus n0)) as Hv. destruct (chan_subscribe (nd_bus n0)) as [bus rx]. cbn in Hv. intros [= <-].
    split; [done|split; cbn; [done|by rewrite He]|]. exists (0%nat, []). done.
  - revert Hst. unfold node_start. destruct (bootstrap _ _) as [[[ep r] fr]|]; [|done]. destruct (subscribe _). by intros [= <-].
Qed.

End BootPublished.

(** ** What nodes say *)

Section Says.
Context `{B3 : Blake3} `{HX : Hex} `{LRUO : Lru Cid (list Z)} `{LRU : Lru (Cid * Z) (list Z)} `{BF : Bloom Cid}.
Context `{ED : Ed25519} `{LS : Libsql} `{IR : Iroh} `{BC : Broadcast Event}.
Context {PC : Postcard CodedPiece} {PW : Postcard SignedWrite} {PM : Postcard WireMessage}.

Definition is_announce (msg : WireMessage) : bool := match msg with ProviderAnnounce _ _ => true | _ => false end.

(** What a round of the dispatch loop sends: the announcement of the CID it reads, to
    the peers chosen; when it panics on the way, to some of them. *)
Definition dispatch_sends (n : CraftecNode) (env : loop_env) (out : list (NodeId * WireMessage)) : Prop :=
  match (chan_recv (nd_rx n) (nd_bus n)).2 with
  | RecvOk (EvCidWritten c) =>
      match announce_cid_to_peers (nd_ep n) c (nd_id n) (le_ln_ceil env) (le_choose env) (le_sends env) with
      | Returned (_, sent) => out = map (fun x => (x.1, ProviderAnnounce c (nd_id n))) sent
      | Panicked => Forall (fun x => x.2 = ProviderAnnounce c (nd_id n)) out
      end
  | _ => out = []
  end.

(** What a node does, with the announcements it sends.  Other messages reach it from
    anywhere. *)
Inductive acts : CraftecNode -> CraftecNode -> list (NodeId * WireMessage) -> Prop :=
| act_message n m :
    is_announce (in_msg m) = false -> msg_wf (in_msg m) -> (forall l, sync_order (in_sync m) l ≡ₚ l) -> acts n (on_message n m).1 []
| act_rpc n start from req env :
    req_wf req -> (forall l, sync_order (re_sync env) l ≡ₚ l) -> acts n (on_rpc n start from req env).1 []
| act_net n n' : net_act n n' -> acts n n' []
| act_dispatch n env n' out : dispatch_round n env = Some n' -> dispatch_sends n env out -> acts n n' out
| act_task n i t env n' t' :
    nd_tasks n !! i = Some t -> task_input_ok n t env -> task_step n t env = (n', t') ->
    acts n (set_tasks n' (<[i := t']> (nd_tasks n'))) []
| act_repair n req io draws rng sio n' frame : on_repair n req io draws rng sio = Returned (n', frame) -> acts n n' []
| act_prune_pending n now : acts n (prune_pending n now) []
| act_prune_dht n now : acts n (prune_dht n now) []
| act_storage n io env interrupted n' announced out :
    storage_bootstrap n io env interrupted = Returned (n', announced) ->
    Forall (fun x => exists c, c ∈ announced /\ x.2 = ProviderAnnounce c (nd_id n)) out -> acts n n' out.

(** ** The network *)

Record Fleet : Type := mkFleet {
  fl_nodes : gmap NodeId CraftecNode;
  fl_disks : gmap NodeId (gmap path (list Z));
  fl_air : list (NodeId * NodeId * WireMessage);
}.

Definition fleet_empty : Fleet := mkFleet ∅ ∅ [].

Definition from_node (a : NodeId) (out : list (NodeId * WireMessage)) : list (NodeId * NodeId * WireMessage) := map (fun x => (a, x.1, x.2)) out.

End Says.

Section Network.
Context `{B3 : Blake3} `{HX : Hex} `{LRUO : Lru Cid (list Z)} `{LRU : Lru (Cid * Z) (list Z)} `{BF : Bloom Cid}.
Context `{ED : Ed25519} `{ES : Ed25519Signing} `{LS : Libsql} `{IR : Iroh} `{BC : Broadcast Event}.
Context {PC : Postcard CodedPiece} {PW : Postcard SignedWrite} {PM : Postcard WireMessage}.
Context (ps : nat).

(** A node starts over its own object tree, acts, is sent a message that is on its way
    (and may be sent it again), or stops; stopping leaves its object tree. *)
Inductive fleet_step (Y : Fleet) : Fleet -> Prop :=
| fleet_start a fs config env fs' n0 dials n :
    fl_nodes Y !! a = None -> cfg_page_size config = ps -> boot_seen env -> length (be_entropy env) = 32%nat -> (forall l, sync_order (be_sync env) l ≡ₚ l) ->
    node_new fs (default ∅ (fl_disks Y !! a)) config env = Returned (fs', Ok n0) -> node_start n0 config dials = Returned n -> nd_id n = a ->
    fleet_step Y (mkFleet (<[a := n]> (fl_nodes Y)) (fl_disks Y) (fl_air Y))
| fleet_act a n n' out :
    fl_nodes Y !! a = Some n -> acts n n' out ->
    fleet_step Y (mkFleet (<[a := n']> (fl_nodes Y)) (fl_disks Y) (from_node a out ++ fl_air Y))
| fleet_deliver b n m :
    fl_nodes Y !! b = Some n -> (in_from m, b, in_msg m) ∈ fl_air Y -> msg_wf (in_msg m) -> (forall l, sync_order (in_sync m) l ≡ₚ l) ->
    fleet_step Y (mkFleet (<[b := (on_message n m).1]> (fl_nodes Y)) (fl_disks Y) (fl_air Y))
| fleet_stop a n :
    fl_nodes Y !! a = Some n ->
    fleet_step Y (mkFleet (delete a (fl_nodes Y)) (<[a := files (node_store (nd_app n))]> (fl_disks Y)) (fl_air Y)).

End Network.

(** ** Providers have what they announce *)

Section ProviderFacts.
Context `{BL : Blake3Laws} `{HXL : HexLaws} `{LLO : LruLaws Cid (list Z)} `{LL : LruLaws (Cid * Z) (list Z)} `{BFL : BloomLaws Cid}.
Context `{EL : Ed25519Laws} `{LS : Libsql} `{IR : Iroh} `{BCL : BroadcastLaws Event}.
Context `{PCL : PostcardLaws CodedPiece} {PW : Postcard SignedWrite} {PM : Postcard WireMessage}.
Context (ps : nat) (Hps : (0 < ps)%nat) (Hfile : forall l, file_ok ps (sql_file l)).

Lemma acts_evolves n n' out : acts n n' out -> evolves n n'.
Proof. destruct 1; by econstructor. Qed.

Lemma retain_lists keep d c p : p ∈ get_providers (retain_records keep d) c -> p ∈ get_providers d c.
Proof.
  unfold get_providers, retain_records. rewrite lookup_omap. destruct (d !! c) as [l|]; [|done]. cbn.
  intros Hp. assert (p ∈ map prov_node (List.filter keep l)) as Hin by (by destruct (List.filter keep l)).
  apply list_elem_of_fmap in Hin as (r & -> & Hr). apply list_elem_of_fmap. exists r. split; [done|]. by apply filter_elem in Hr as [? _].
Qed.

Lemma announce_lists d c n now c' p : p ∈ get_providers (announce_provider d c n now) c' -> (c' = c /\ p = n) \/ p ∈ get_providers d c'.
Proof.
  unfold get_providers, announce_provider. destruct (decide (c' = c)) as [->|Hne].
  - destruct (d !! c) as [l|]; rewrite lookup_insert_eq; [|intros Hp%list_elem_of_singleton; by left].
    rewrite refresh_nodes. intros [Hp|Hp]%elem_of_app; [by right|]. case_bool_decide; [by apply not_elem_of_nil in Hp|].
    apply list_elem_of_singleton in Hp as ->. by left.
  - intros Hp. right. destruct (d !! c); by rewrite lookup_insert_ne in Hp.
Qed.

(** Only an announcement adds to the provider table. *)
Lemma message_lists n m c p :
  p ∈ get_providers (node_dht (nd_app (on_message n m).1)) c -> in_msg m = ProviderAnnounce c p \/ p ∈ get_providers (node_dht (nd_app n)) c.
Proof.
  unfold on_message. destruct m as [from msg now io x]. cbn [in_from in_msg in_now in_io in_sync].
  destruct msg as [| |c' idx rid| |c' q|payload sg w v| | | | | | |]; cbn [node_handle_message]; try (by right).
  - unfold handle_piece_request, serve_raw. repeat case_match; simplify_eq; by right.
  - cbn. intros [[-> ->]|Hp]%announce_lists; [by left|by right].
  - destruct (from_bytes payload); by right.
Qed.

Lemma rpc_lists (h : RpcNode) from req (env : rpc_env (IO := obj_io)) : node_dht (rn_node (rpc_handle h from req env).1) = node_dht (rn_node h).
Proof. destruct req; cbn [rpc_handle]; repeat case_match; done. Qed.

Lemma acts_lists n n' out c p : acts n n' out -> p ∈ get_providers (node_dht (nd_app n')) c -> p ∈ get_providers (node_dht (nd_app n)) c.
Proof.
  intros Ha Hp. destruct Ha as [n m Hm _ _|n start from req env _ _|n n' Hnet|n env n' out Hd _|
    n i t env n' t' Hi Hin Hst|n req io draws rng sio n' fr Hr|n now|n now|n io env int n' an out Ha _].
  - apply message_lists in Hp as [Hp|Hp]; [|done]. by rewrite Hp in Hm.
  - revert Hp. unfold on_rpc. set (h := mkRpcNode _ _ _ _). pose proof (rpc_lists h from req env) as Hh. destruct (rpc_handle h from req env) as [h' resp].
    cbn in *. by rewrite Hh.
  - by apply net_act_shape in Hnet as (ep & evs & ->).
  - revert Hd. unfold dispatch_round. destruct (negb _); [done|]. destruct (chan_recv _ _) as [bus [ev|k| |]]; intros [= <-]; try done.
    destruct ev as [c'| | |id| | |]; cbn in Hp; try done; [|by apply retain_lists in Hp].
    destruct (announce_cid_to_peers _ _ _ _ _ _) as [[ep fr]|]; [|done]. by destruct (is_piece_cid _ _).
  - cbn in Hp. revert Hst Hp. destruct t as [c'|c' [|q todo] pcids|]; cbn [task_step].
    + unfold encode_begin. destruct (cs_get _ _ _) as [s [[d|]|e]]; [|by intros [= <- <-]..].
      by destruct (engine_encode _ _ _ _) as [m [l|e]]; intros [= <- <-].
    + by intros [= <- <-].
    + unfold encode_piece_step. destruct (to_allocvec q); [|by intros [= <- <-]]. by destruct (cs_put _ _ _) as [s [x|e]]; intros [= <- <-].
    + by intros [= <- <-].
  - revert Hr. unfold on_repair. destruct (execute_repair _ _ _ _ _ _ _ _ _ _) as [[r [[tg msg]|]] res]; [|by intros [= <- <-]].
    destruct (send_message _ _ _ _) as [[[ep res'] f]|]; [|done]. by intros [= <- <-].
  - done.
  - by apply retain_lists in Hp.
  - revert Ha. unfold storage_bootstrap. destruct (sl_list _ _); [|by intros [= <- <-]].
    destruct (announce_batches _ _ _ _ _ _) as [[ep l]|]; [|done]. by intros [= <- <-].
Qed.

(** A node announces itself, for what it stores. *)
Lemma dispatch_truth n M env out : node_pub ps n M -> dispatch_sends n env out ->
  Forall (fun x => exists c, x.2 = ProviderAnnounce c (nd_id n) /\ stored M c) out.
Proof.
  intros Hp. unfold dispatch_sends. destruct (chan_recv (nd_rx n) (nd_bus n)) as [bus r] eqn:Er. cbn [snd].
  destruct r as [ev|k| |]; try (intros ->; constructor). pose proof (proj2 (recv_true ps n M bus _ Hp Er) ev eq_refl) as Hev.
  destruct ev as [c| | | | | |]; try (intros ->; constructor). destruct (announce_cid_to_peers _ _ _ _ _ _) as [[ep sent]|].
  - intros ->. apply Forall_map, Forall_true. intros x. by exists c.
  - intros Hout. eapply Forall_impl; [exact Hout|]. intros x ->. by exists c.
Qed.

Lemma batches_announced (ep : CraftecEndpoint) me batches env interrupted acc ep' announced :
  announce_batches ep me batches env interrupted acc = Returned (ep', announced) -> announced ⊆ acc ++ concat batches.
Proof.
  revert ep env interrupted acc. induction batches as [|b batches IH]; intros ep env interrupted acc; cbn [announce_batches].
  { intros [= _ <-]. by rewrite app_nil_r. }
  destruct (announce_batch ep me b (env 0%nat)) as [ep1|]; [|done]. destruct batches as [|b2 batches].
  { intros [= _ <-]. cbn. by rewrite app_nil_r. }
  destruct (interrupted 0%nat).
  - intros [= _ <-] c Hc. cbn [concat]. rewrite app_assoc. apply elem_of_app. by left.
  - intros Ha%IH. cbn [concat] in *. by rewrite <- app_assoc in Ha.
Qed.

Lemma acts_truth n M n' out : node_pub ps n M -> acts n n' out ->
  Forall (fun x => exists c, x.2 = ProviderAnnounce c (nd_id n) /\ stored M c) out.
Proof.
  intros Hp Ha. destruct Ha as [| | |n env n' out Hd Hs| | | | |n io env int n' an out Ha Hout]; try constructor.
  - by eapply dispatch_truth.
  - eapply Forall_impl; [exact Hout|]. intros x (c & Hc & Hx). exists c. split; [done|]. revert Ha. unfold storage_bootstrap.
    destruct (sl_list _ _) as [cids|] eqn:El; [|intros [= _ <-]; by apply not_elem_of_nil in Hc].
    destruct (announce_batches _ _ _ _ _ _) as [[ep l]|] eqn:Eb; [|done]. intros [= _ <-].
    apply batches_announced in Eb. apply Eb in Hc. cbn in Hc. rewrite chunks_concat in Hc by (unfold STORAGE_BOOTSTRAP_BATCH_SIZE; lia).
    exact (proj1 (sl_list_spec _ M _ _ (node_ok_store _ _ _ (ni_app _ _ _ (np_inv _ _ _ Hp))) El c) Hc).
Qed.

(** *** The network *)

(** [W] is what every node has stored, as long as it has existed. *)
Definition has (W : gmap NodeId (gmap Cid (list Z))) (p : NodeId) (c : Cid) : Prop := exists M, W !! p = Some M /\ stored M c.

Record fleet_inv (Y : Fleet) (W : gmap NodeId (gmap Cid (list Z))) : Prop := {
  si_running a n : fl_nodes Y !! a = Some n -> nd_id n = a /\ exists M, W !! a = Some M /\ node_pub ps n M;
  si_stopped a : fl_nodes Y !! a = None ->
    match W !! a with
    | Some M => exists t, fl_disks Y !! a = Some t /\ store_repr (store_over t OBJ_CACHE_CAPACITY) M /\ map_Forall (fun _ => bytes) M
    | None => fl_disks Y !! a = None
    end;
  si_air x y c p : (x, y, ProviderAnnounce c p) ∈ fl_air Y -> has W p c;
  si_lists b n c p : fl_nodes Y !! b = Some n -> p ∈ get_providers (node_dht (nd_app n)) c -> has W p c;
}.

Lemma has_mono W a M' p c : (forall M, W !! a = Some M -> M ⊆ M') -> has W p c -> has (<[a := M']> W) p c.
Proof.
  intros Hs (M & HM & Hc). destruct (decide (p = a)) as [->|Hne].
  - exists M'. rewrite lookup_insert_eq. split; [done|]. by eapply stored_mono; [apply Hs|].
  - exists M. by rewrite lookup_insert_ne.
Qed.

(** A node starts or changes. *)
Lemma fleet_update Y W a n' M' air' :
  fleet_inv Y W -> (forall M, W !! a = Some M -> M ⊆ M') -> nd_id n' = a -> node_pub ps n' M' ->
  (forall c p, p ∈ get_providers (node_dht (nd_app n')) c -> has (<[a := M']> W) p c) ->
  (forall x y c p, (x, y, ProviderAnnounce c p) ∈ air' -> has (<[a := M']> W) p c) ->
  fleet_inv (mkFleet (<[a := n']> (fl_nodes Y)) (fl_disks Y) air') (<[a := M']> W).
Proof.
  intros [Hr Hst Ha Hl] Hs Hid Hp Hn Hair. split; cbn.
  - intros b n Hb. destruct (decide (b = a)) as [->|Hne].
    + rewrite lookup_insert_eq in Hb. injection Hb as <-. split; [done|]. exists M'. by rewrite lookup_insert_eq.
    + rewrite lookup_insert_ne in Hb by done. destruct (Hr b n Hb) as (Hnb & M & HM & Hpb). split; [done|]. exists M. by rewrite lookup_insert_ne.
  - intros b Hb. destruct (decide (b = a)) as [->|Hne]; [by rewrite lookup_insert_eq in Hb|]. rewrite lookup_insert_ne in Hb by done. rewrite lookup_insert_ne by done. by apply Hst.
  - done.
  - intros b n c p Hb Hpl. destruct (decide (b = a)) as [->|Hne].
    + rewrite lookup_insert_eq in Hb. injection Hb as <-. by apply Hn.
    + rewrite lookup_insert_ne in Hb by done. apply has_mono; [done|]. by eapply Hl.
Qed.

Lemma fleet_step_inv Y Y' W : fleet_inv Y W -> fleet_step ps Y Y' -> exists W', fleet_inv Y' W'.
Proof.
  intros Hi Hst. pose proof Hi as [Hr Hs Ha Hl].
  destruct Hst as [a fs config env fs' n0 dials n Hnone Hsz Hseen Hent Hord Hnew Hstart Hid|a n n' out Hn Hact|b n m Hn Hm Hwf Hord|a n Hn].
  - assert (exists M, store_repr (store_over (default ∅ (fl_disks Y !! a)) OBJ_CACHE_CAPACITY) M /\ map_Forall (fun _ => bytes) M /\
      forall M0, W !! a = Some M0 -> M0 ⊆ M) as (M & HM & Hb & Hsub).
    { pose proof (Hs a Hnone) as Hx. destruct (W !! a) as [M|].
      - destruct Hx as (t & -> & HM & Hb). exists M. split_and!; [done|done|]. by intros M0 [= <-].
      - rewrite Hx. exists ∅. split_and!; [apply new_repr|done|done]. }
    destruct (boot_pub fs _ config env fs' n0 dials n M Hseen Hent Hord ltac:(by rewrite Hsz) HM Hb Hnew Hstart) as (M' & Hp & Hg & Hd). rewrite Hsz in Hp.
    assert (forall M0, W !! a = Some M0 -> M0 ⊆ M') as Hsub' by (intros M0 HM0; by etransitivity; [apply Hsub|]).
    exists (<[a := M']> W). apply fleet_update; [done|done|done|done| |].
    + intros c p Hp'. rewrite Hd in Hp'. by apply not_elem_of_nil in Hp'.
    + intros x y c p Hx. apply has_mono; [done|]. by eapply Ha.
  - destruct (Hr a n Hn) as (Hid & M & HM & Hp). pose proof (acts_evolves n n' out Hact) as Hev.
    destruct (evolves_pub ps Hps Hfile n n' M Hp Hev) as (M' & Hp' & Hsub & _).
    assert (forall M0, W !! a = Some M0 -> M0 ⊆ M') as Hs' by (intros M0 HM0; by rewrite HM in HM0; injection HM0 as <-).
    exists (<[a := M']> W). apply fleet_update; [done|done| |done| |].
    + rewrite <- Hid. apply evolves_id. by apply rtc_once.
    + intros c p Hpl. apply has_mono; [done|]. eapply Hl; [exact Hn|]. by eapply acts_lists.
    + intros x y c p [Hx|Hx]%elem_of_app; [|apply has_mono; [done|by eapply Ha]].
      apply list_elem_of_fmap in Hx as ([t msg] & [= -> -> <-] & Hin). pose proof (acts_truth n M n' out Hp Hact) as Ht.
      rewrite Forall_forall in Ht. destruct (Ht _ Hin) as (c' & [= -> ->] & Hc'). rewrite Hid. exists M'. rewrite lookup_insert_eq. split; [done|].
      by eapply stored_mono.
  - destruct (Hr b n Hn) as (Hid & M & HM & Hp). pose proof (ev_message n m Hwf Hord) as Hev.
    destruct (evolves_pub ps Hps Hfile n _ M Hp Hev) as (M' & Hp' & Hsub & _).
    assert (forall M0, W !! b = Some M0 -> M0 ⊆ M') as Hs' by (intros M0 HM0; by rewrite HM in HM0; injection HM0 as <-).
    exists (<[b := M']> W). apply fleet_update; [done|done| |done| |].
    + rewrite <- Hid. apply evolves_id. by apply rtc_once.
    + intros c p [Hpl|Hpl]%message_lists; apply has_mono; try done; [|by eapply Hl]. rewrite Hpl in Hm. by eapply Ha.
    + intros x y c p Hx. apply has_mono; [done|]. by eapply Ha.
  - destruct (Hr a n Hn) as (Hid & M & HM & Hp). exists W. split; cbn.
    + intros b nb Hb. apply lookup_delete_Some in Hb as [_ Hb]. by apply Hr.
    + intros b Hb. destruct (decide (b = a)) as [->|Hne].
      * rewrite HM, lookup_insert_eq. eexists. split_and!; [done| |apply (ni_bytes _ _ _ (np_inv _ _ _ Hp))].
        apply restart_repr. exact (node_ok_store _ _ _ (ni_app _ _ _ (np_inv _ _ _ Hp))).
      * rewrite lookup_delete_ne in Hb by done. rewrite lookup_insert_ne by done. by apply Hs.
    + done.
    + intros b nb c p Hb. apply lookup_delete_Some in Hb as [_ Hb]. by eapply Hl.
Qed.

Lemma fleet_reachable_inv Y : rtc (fleet_step ps) fleet_empty Y -> exists W, fleet_inv Y W.
Proof.
  assert (fleet_inv fleet_empty ∅) as Hi0.
  { split; cbn; try done. intros x y c p Hx. by apply not_elem_of_nil in Hx. }
  revert Hi0. generalize (∅ : gmap NodeId (gmap Cid (list Z))) as W. intros W Hi Hr. revert W Hi.
  induction Hr as [Y|Y Y1 Y' Hs _ IH]; intros W Hi; [by exists W|]. destruct (fleet_step_inv Y Y1 W Hi Hs) as [W1 Hi1]. by eapply IH.
Qed.

(** A node whose disk can be read answers a request for what it stores. *)
Lemma raw_served (h : NodeState) M c d rid (io : obj_io) :
  store_repr (node_store h) M -> cid_wf c -> M !! c = Some d -> io.2 = ReadOk -> (serve_raw h c rid io).2 = Some (PieceResponse [identity_piece c d] rid).
Proof.
  intros Hs Hc Hd Hio. unfold serve_raw. cbn [cs_get obj_content_store]. pose proof (get_repr (node_store h) M c io.2 Hs Hc) as Hg.
  destruct (get _ c io.2) as [s [o|e]]; [|destruct Hg as (_ & Hx & _); congruence]. destruct Hg as [-> _]. by rewrite Hd.
Qed.

Lemma request_served n M c d from indices rid now io x :
  node_inv ps n M -> M !! c = Some d -> (forall i, (io i).2 = ReadOk) ->
  exists pieces, (on_message n (mkInbound from (PieceRequest c indices rid) now io x)).2 = Some (PieceResponse pieces rid) /\ pieces <> [].
Proof.
  intros Hn Hd Hio. pose proof (node_ok_store _ _ _ (ni_app _ _ _ Hn)) as Hs.
  assert (cid_wf c) as Hc by (apply (repr_wf (node_store (nd_app n)) M); [exact Hs|by exists d]).
  unfold on_message. cbn [node_handle_message in_from in_msg in_now in_io in_sync]. unfold handle_piece_request.
  destruct (piece_cids (node_pieces (nd_app n)) c) as [pcids|] eqn:Ei.
  - destruct (collect_pieces_spec (node_store (nd_app n)) M io pcids Hs (no_index _ _ _ (ni_app _ _ _ Hn) c pcids Ei)) as [Hs1 _].
    destruct (collect_pieces _ io pcids) as [s [|q qs]]; cbn [fst] in Hs1; [|by exists (q :: qs)].
    pose proof (raw_served (with_node_store (nd_app n) s) M c d rid (io (length pcids)) Hs1 Hc Hd (Hio _)) as Hr.
    destruct (serve_raw _ _ _ _) as [a r]. cbn in *. subst r. by eexists.
  - pose proof (raw_served (nd_app n) M c d rid (io 0%nat) Hs Hc Hd (Hio _)) as Hr.
    destruct (serve_raw _ _ _ _) as [a r]. cbn in *. subst r. by eexists.
Qed.

(** C5: Where every node runs this program and sees all its shard directories when it
    starts, provider records are true, whatever was lost, repeated or delayed and
    however often nodes stopped and started: a node listed
    anywhere as a provider of a content identifier answers a request for it with
    pieces while it runs and its disk can be read, and has the content on its disk
    while it does not. *)
Theorem listed_providers_serve Y b n c p :
  rtc (fleet_step ps) fleet_empty Y -> fl_nodes Y !! b = Some n -> p ∈ get_providers (node_dht (nd_app n)) c ->
  match fl_nodes Y !! p with
  | Some np => forall from indices rid now io x, (forall i, (io i).2 = ReadOk) ->
      exists pieces, (on_message np (mkInbound from (PieceRequest c indices rid) now io x)).2 = Some (PieceResponse pieces rid) /\ pieces <> []
  | None => exists t d, fl_disks Y !! p = Some t /\ t !! shard_path c = Some d /\ cid_from_data d = c
  end.
Proof.
  intros Hr Hb Hp. destruct (fleet_reachable_inv Y Hr) as [W [Hrun Hst _ Hl]]. destruct (Hl b n c p Hb Hp) as (M & HM & d & Hd).
  destruct (fl_nodes Y !! p) as [np|] eqn:Ep.
  - destruct (Hrun p np Ep) as (_ & M' & HM' & Hpub). assert (M' = M) as -> by congruence. intros. by eapply request_served; [apply Hpub|..].
  - specialize (Hst p Ep). rewrite HM in Hst. destruct Hst as (t & Ht & Hs & _). exists t, d. split_and!; [done|exact (sr_files _ _ Hs c d Hd)|exact (sr_hash _ _ Hs c d Hd)].
Qed.

Lemma announce_adds d c n now : n ∈ get_providers (announce_provider d c n now) c.
Proof.
  unfold get_providers, announce_provider. destruct (d !! c) as [l|]; rewrite lookup_insert_eq; [|by left].
  rewrite refresh_nodes. apply elem_of_app. case_bool_decide; [by left|right; by left].
Qed.

(** A node believes any peer about anybody: the announced provider need not be the
    sender. *)
Theorem announcer_not_checked n from c p now io x :
  p ∈ get_providers (node_dht (nd_app (on_message n (mkInbound from (ProviderAnnounce c p) now io x)).1)) c.
Proof. cbn. apply announce_adds. Qed.

End ProviderFacts.
