(* ===== verification/Cli.v ===== *)
(** * Command line client (crates/craftec-node/src/cli.rs)

    [craftec status], [craftec store put] and the other subcommands: the arguments
    are turned into a request, sent to the local node over an RPC stream, and the
    response is printed.  serde's JSON, the network and the process environment are
    parameters; the node at the other end is the model of the running node. *)
From Stdlib Require Import ZArith Lia Ascii.
From stdpp Require Import base list list_numbers numbers strings pretty gmap relations.
From S2P Require Import Prelude Gf256 Linear Types Instances External F64 Hommac Encoder Decoder DecoderRank Recoder Engine Hlc Wire Events ObjStore PageIndex Vfs Swim Health Repair Sql Keys Dht Pending Pool Endpoint Gossip Handler Rpc Node NodeInv Boot.

Local Open Scope Z_scope.

Definition RPC_TIMEOUT : Z := 10000.
Definition MAX_RESPONSE : Z := 4 * 1024 * 1024.

(** ** JSON *)

Inductive json : Type :=
| JNull
| JInt (n : Z)
| JReal (x : f64)
| JString (s : string)
| JArray (l : list json)
| JObject (fields : list (string * json)).

(** [serde_json]: the text of a value, and the [data_dir] string of a document. *)
Class SerdeJson : Type := {
  to_string_pretty : json -> string;
  json_data_dir : list Z -> option string;
}.

(** ** Environment *)

(** The process environment, the files of the working directory, the files of each
    data directory, the standard input, and how far the exchange gets. *)
Record cli_env : Type := mkCliEnv {
  ce_var : string -> option string;
  ce_cwd : dir;
  ce_data : string -> dir;
  ce_stdin : option (list Z);
  ce_endpoint : bool;
  ce_connect : bool;
  ce_open : bool;
  ce_timed_out : bool;
}.

(** What the process leaves: its standard output, its error output and its exit
    code. *)
Record cli_out : Type := mkOut {
  co_stdout : list Z;
  co_stderr : list Z;
  co_code : Z;
}.

Definition println (s : string) : list Z := utf8 s ++ [10].

Section Cli.
Context `{HX : Hex} `{ED : Ed25519} `{ES : Ed25519Signing} `{SJ : SerdeJson} `{IR : Iroh}.
Context `{PQ : Postcard RpcRequest} `{PR : Postcard RpcResponse}.

Definition cli_data_dir (env : cli_env) : string :=
  match ce_var env "CRAFTEC_DATA_DIR" with
  | Some dir => dir
  | None =>
      match ce_cwd env !! CONFIG_FILE with
      | Some contents =>
          if utf8_valid contents then match json_data_dir contents with Some dir => dir | None => "./data" end
          else "./data"
      | None => "./data"
      end
  end.

Definition cli_listen_port (env : cli_env) : Z :=
  match ce_var env "CRAFTEC_LISTEN_PORT" with
  | Some s => match parse_uint 16 s with Some p => p | None => 4433 end
  | None => 4433
  end.

Definition read_node_id (fs : dir) : result (list Z) string :=
  match fs !! NODE_ID_FILE with
  | None => Err "failed to read node.id"%string
  | Some hex_str =>
      if negb (utf8_valid hex_str) then Err "failed to read node.id"%string
      else match hex_decode (of_utf8 (trim hex_str)) with
      | None => Err "invalid hex in node.id"%string
      | Some bytes => if negb (length bytes =? 32)%nat then Err "node.id must contain 32 bytes"%string else Ok bytes
      end
  end.

Definition load_keypair (fs : dir) : result NodeKeypair string :=
  match fs !! KEY_FILE with
  | None => Err "failed to read node.key"%string
  | Some bytes => if negb (length bytes =? 32)%nat then Err "node.key must be 32 bytes"%string else Ok (from_secret_bytes bytes)
  end.

(** The request of [run_cli], from its arguments. *)
Definition cli_request (env : cli_env) (fs : dir) (args : list string) : result RpcRequest string :=
  match args with
  | "status" :: _ => Ok ReqStatus
  | "store" :: "put" :: _ =>
      match ce_stdin env with Some data => Ok (ReqStorePut data) | None => Err "failed to read stdin" end
  | "store" :: "get" :: rest =>
      match rest with
      | [] => Err "usage: craftec store get <cid>"
      | cid_hex :: _ => match cid_from_str cid_hex with Ok c => Ok (ReqStoreGet c) | Err _ => Err "invalid CID" end
      end
  | "store" :: "list" :: _ => Ok ReqStoreList
  | "store" :: _ => Err "usage: craftec store <put|get|list>"
  | "query" :: rest => match rest with [] => Err "usage: craftec query" | sql :: _ => Ok (ReqSqlQuery sql) end
  | "execute" :: rest =>
      match rest with
      | [] => Err "usage: craftec execute"
      | sql :: _ =>
          match load_keypair fs with
          | Err e => Err e
          | Ok keypair => Ok (ReqSqlExecute sql (keypair_node_id keypair) (keypair_sign keypair (utf8 sql)))
          end
      end
  | "peers" :: _ => Ok ReqPeers
  | "pieces" :: rest =>
      match rest with
      | [] => Err "usage: craftec pieces <cid>"
      | cid_hex :: _ => match cid_from_str cid_hex with Ok c => Ok (ReqPieceInfo c) | Err _ => Err "invalid CID" end
      end
  | _ => Err "usage: craftec <status|store|query|execute|peers|pieces>"
  end%string.

(** [send_rpc] to the node [node_id_bytes]; [serve] is what the stream carries back for a request frame. *)
Definition send_rpc (env : cli_env) (node_id_bytes : list Z) (request : RpcRequest) (serve : list Z -> option (list Z))
    : result RpcResponse string :=
  if ce_timed_out env then Err "RPC request timed out"%string
  else if negb (ce_endpoint env) then Err "failed to create RPC client endpoint"%string
  else if negb (public_key_ok node_id_bytes) || negb (ce_connect env) then Err "failed to connect to local node"%string
  else if negb (ce_open env) then Err "failed to open bidi stream"%string
  else match encode_rpc_request request 0 with
  | Err _ => Err "encode"%string
  | Ok req_bytes =>
      match serve req_bytes with
      | None => Err "failed to read RPC response"%string
      | Some resp_bytes =>
          if MAX_RESPONSE <? Z.of_nat (length resp_bytes) then Err "failed to read RPC response"%string
          else match decode_rpc_response resp_bytes with
          | Err _ => Err "decode"%string
          | Ok (resp, _) => Ok resp
          end
      end
  end.

Definition value_json (v : RpcValue) : json :=
  match v with
  | RpcNull => JNull
  | RpcInteger i => JInt i
  | RpcReal x => JReal x
  | RpcText s => JString s
  | RpcBlob b => JString (hex_encode b)
  end.

Definition print_response (resp : RpcResponse) : cli_out :=
  match resp with
  | RespStatus node_id alive_peers store_objects db_root_cid uptime_secs =>
      mkOut (println (to_string_pretty (JObject
        [("node_id", JString (node_id_to_string node_id)); ("alive_peers", JInt (Z.of_nat alive_peers));
         ("store_objects", JInt (Z.of_nat store_objects)); ("db_root_cid", JString (cid_to_string db_root_cid));
         ("uptime_secs", JInt uptime_secs)])%string)) [] 0
  | RespStorePut c => mkOut (println (cid_to_string c)) [] 0
  | RespStoreGet (Some bytes) => mkOut bytes [] 0
  | RespStoreGet None => mkOut [] (println "not found") 1
  | RespStoreList cids => mkOut (concat (map (fun c => println (cid_to_string c)) cids)) [] 0
  | RespSqlQuery rows => mkOut (println (to_string_pretty (JArray (map (fun row => JArray (map value_json row)) rows)))) [] 0
  | RespSqlExecute root_cid => mkOut (println (cid_to_string root_cid)) [] 0
  | RespPeers peers count =>
      mkOut (println (to_string_pretty (JObject
        [("count", JInt (Z.of_nat count)); ("peers", JArray (map (fun p => JString (node_id_to_string p)) peers))])%string)) [] 0
  | RespPieceInfo c available k holders =>
      mkOut (println (to_string_pretty (JObject
        [("cid", JString (cid_to_string c)); ("available", JInt available);
         ("k", match k with Some k => JInt k | None => JNull end);
         ("holders", JArray (map (fun h => JString (node_id_to_string h)) holders))])%string)) [] 0
  | RespError code message => mkOut [] (println ("error " +:+ pretty code +:+ ": " +:+ message)) 1
  end.

(** An error that [main] returns is printed and ends the process with code 1. *)
Definition cli_fail (msg : string) : cli_out := mkOut [] (println ("Error: " +:+ msg)) 1.

Definition run_cli (env : cli_env) (args : list string) (serve : list Z -> option (list Z)) : cli_out :=
  let fs := ce_data env (cli_data_dir env) in
  match read_node_id fs with
  | Err e => cli_fail e
  | Ok node_id_bytes =>
      match cli_request env fs args with
      | Err e => cli_fail e
      | Ok request =>
          match send_rpc env node_id_bytes request serve with
          | Err e => cli_fail e
          | Ok response => print_response response
          end
      end
  end.

End Cli.

(** ** Text *)

Definition visible (b : Z) : Prop := 33 <= b <= 126.

Lemma trim_one_visible s : Forall visible s -> trim_one s = None.
Proof.
  unfold visible. destruct s as [|b s]; [done|]. intros [Hb _]%Forall_cons. cbn [trim_one].
  destruct (((9 <=? b) && (b <=? 13)) || (b =? 32)) eqn:E; bool_to_prop; [lia|].
  replace (b =? 194) with false by (symmetry; apply Z.eqb_neq; lia). replace (b =? 225) with false by (symmetry; apply Z.eqb_neq; lia).
  replace (b =? 226) with false by (symmetry; apply Z.eqb_neq; lia). replace (b =? 227) with false by (symmetry; apply Z.eqb_neq; lia).
  by destruct s as [|b1 [|b2 s]].
Qed.

Lemma trim_start_visible fuel s : Forall visible s -> trim_start_loop fuel s = s.
Proof. intros Hs. destruct fuel; cbn; [done|]. by rewrite trim_one_visible. Qed.

Lemma trim_end_visible s : Forall visible s -> trim_end_loop (length s) s = s.
Proof.
  induction 1 as [|b s Hb Hs IH]; [done|]. cbn [length trim_end_loop]. unfold trimmed_is_empty.
  rewrite trim_start_visible by (by apply Forall_cons). cbn [length Nat.eqb]. unfold char_len, visible in *.
  replace (b <? 128) with true by (symmetry; apply Z.ltb_lt; lia). cbn. rewrite drop_0. by rewrite IH.
Qed.

Lemma trim_visible s : Forall visible s -> trim s = s.
Proof. intros Hs. unfold trim. rewrite trim_start_visible by done. by apply trim_end_visible. Qed.

Lemma utf8_valid_visible s : Forall visible s -> utf8_valid s = true.
Proof.
  induction 1 as [|b s Hb Hs IH]; [done|]. cbn [utf8_valid]. unfold visible in Hb.
  by replace (b <? 128) with true by (symmetry; apply Z.ltb_lt; lia).
Qed.

Lemma of_utf8_utf8 s : of_utf8 (utf8 s) = s.
Proof. induction s as [|c s IH]; [done|]. cbn. by rewrite Nat2Z.id, ascii_nat_embedding, IH. Qed.

Lemma utf8_app a b : utf8 (a +:+ b) = utf8 a ++ utf8 b.
Proof. induction a as [|c a IH]; [done|]. change (utf8 (String c a +:+ b)) with (Z.of_nat (nat_of_ascii c) :: utf8 (a +:+ b)). by rewrite IH. Qed.

Lemma hex_visible `{HexLaws} b : bytes b -> Forall visible (utf8 (hex_encode b)).
Proof.
  induction 1 as [|x b Hx _ IH]; [rewrite hex_encode_nil; apply Forall_nil_2|].
  rewrite hex_encode_cons, utf8_app by done. apply Forall_app_2; [|done]. revert x Hx.
  assert (forallb (fun x => forallb (fun v => (33 <=? v) && (v <=? 126)) (utf8 (fmt_02x x))) (seqZ 0 256) = true) as Hall by by_compute.
  intros x Hx. apply list.Forall_forall. intros v Hv. rewrite forallb_forall in Hall.
  assert (In x (seqZ 0 256)) as Hin by (apply list_elem_of_In, elem_of_seqZ; unfold is_byte in Hx; lia).
  specialize (Hall x Hin). rewrite forallb_forall in Hall. specialize (Hall v ltac:(by apply list_elem_of_In)). unfold visible. bool_to_prop. lia.
Qed.

(** ** The client and the node *)

Section CliFacts.
Context `{BL : Blake3Laws} `{HXL : HexLaws} `{LLO : LruLaws Cid (list Z)} `{LL : LruLaws (Cid * Z) (list Z)} `{BFL : BloomLaws Cid}.
Context `{EL : Ed25519Laws} `{LS : Libsql} `{IR : Iroh} `{BC : Broadcast Event} `{SJ : SerdeJson}.
Context `{PCL : PostcardLaws CodedPiece} {PW : Postcard SignedWrite} {PM : Postcard WireMessage}.
Context `{PQL : PostcardLaws RpcRequest} `{PRL : PostcardLaws RpcResponse}.
Context (ps : nat) (Hps : (0 < ps)%nat) (Hfile : forall l, file_ok ps (sql_file l)).

(** The node as the handler of its RPC streams; the handler was created at [start]. *)
#[local] Instance node_rpc : RpcHandler CraftecNode (Z * rpc_env (IO := obj_io)) :=
  {| handle_request n from req env := on_rpc n env.1 from req env.2 |}.

(** The limit of the server's [read_to_end]. *)
Definition MAX_REQUEST : Z := 4 * 1024 * 1024.

(** What the node's stream task answers to the bytes it is sent; the read fails when
    they are over the limit. *)
Definition node_serves (n : CraftecNode) (remote : NodeId) (hlc wall wall' : Z) (env : Z * rpc_env) (bytes : list Z) : option (list Z) :=
  let read := if MAX_REQUEST <? Z.of_nat (length bytes) then ReadFailed else ReadBytes bytes in
  (rpc_stream remote n hlc (mkStream read wall 0 true true) wall' env).2.

(** A client that reaches the node. *)
Record reaches (env : cli_env) (fs : dir) (id : NodeId) : Prop := {
  rc_dir : ce_data env (cli_data_dir env) = fs;
  rc_id : read_node_id fs = Ok id;
  rc_key : public_key_ok id = true;
  rc_io : ce_timed_out env = false /\ ce_endpoint env = true /\ ce_connect env = true /\ ce_open env = true;
}.

Definition clock_ok (hlc wall : Z) : Prop := fits 64 hlc /\ hlc < 2 ^ 64 - 1 /\ 0 <= wall < 2 ^ 48.

(** The exchange as a whole: the client prints what the node answered, provided the
    frames can be encoded and are within the limits. *)
Lemma run_cli_exchange env fs id args req n remote hlc wall wall' (renv : Z * rpc_env) fq fr :
  reaches env fs id -> cli_request env fs args = Ok req -> clock_ok hlc wall' ->
  encode_rpc_request req 0 = Ok fq -> Z.of_nat (length fq) <= MAX_REQUEST ->
  encode_rpc_response (on_rpc n renv.1 remote req renv.2).2 (now_next hlc wall') = Ok fr -> Z.of_nat (length fr) <= MAX_RESPONSE ->
  run_cli env args (node_serves n remote hlc wall wall' renv) = print_response (on_rpc n renv.1 remote req renv.2).2.
Proof.
  intros [Hd Hid Hkey (Hto & Hep & Hco & Hop)] Hreq (Hfit & Hmax & Hw) Hq Hlq Hr Hlr. unfold run_cli. rewrite Hd, Hid, Hreq.
  unfold send_rpc. rewrite Hto, Hep, Hco, Hop, Hkey. cbn [negb orb]. rewrite Hq. unfold node_serves. cbv zeta.
  destruct (Z.ltb_spec MAX_REQUEST (Z.of_nat (length fq))) as [Hlt|_]; [lia|].
  rewrite (rpc_stream_request remote n hlc _ wall' renv req 0 fq) by (done || (unfold fits, MAX_REQUEST in *; lia)).
  cbn [fst snd handle_request node_rpc st_write]. change (0 >? 0) with false. cbv iota. rewrite Hr.
  destruct (Z.ltb_spec MAX_RESPONSE (Z.of_nat (length fr))) as [Hlt|_]; [lia|].
  destruct (now_next_fits hlc wall' Hfit Hmax Hw) as [Hfit' _].
  by rewrite (decode_encode_response _ _ fr Hfit' Hr) by (unfold MAX_RESPONSE in Hlr; lia).
Qed.

Lemma booted_node_id fs n M secret : booted fs ps n M secret -> read_node_id fs = Ok (nd_id n).
Proof.
  intros Hbt. unfold read_node_id. rewrite (bt_id_file _ _ _ _ _ Hbt), (bt_id _ _ _ _ _ Hbt). unfold node_id_to_string.
  pose proof (hex_visible (ed_public secret) (ed_public_bytes secret)) as Hv.
  rewrite utf8_valid_visible, trim_visible, of_utf8_utf8, hex_decode_encode by (done || apply ed_public_bytes).
  cbn [negb]. by rewrite ed_public_length.
Qed.

(** A client in the node's data directory finds the node and speaks for it: it reads
    the id the node runs under, and a statement it sends is never refused for want of
    authority, whatever has happened to the node since it started. *)
Theorem cli_execute_authorised fs n M secret env sql req n2 start remote renv :
  booted fs ps n M secret -> cli_request env fs ["execute"; sql]%string = Ok req -> rtc evolves n n2 ->
  read_node_id fs = Ok (nd_id n2) /\
  let '(n3, resp) := on_rpc n2 start remote req renv in
  resp = RespSqlExecute (root_cid (node_db (nd_app n3))) \/ resp = RespError 400 "execute failed".
Proof.
  intros Hbt Hreq Hrun. pose proof (evolves_id n n2 Hrun) as Hid. split; [rewrite Hid; by eapply booted_node_id|].
  cbn [cli_request] in Hreq. unfold load_keypair in Hreq. destruct (bt_secret _ _ _ _ _ Hbt) as [Hk Hl]. rewrite Hk, Hl in Hreq.
  cbn [Nat.eqb negb] in Hreq. inversion Hreq; subst req. clear Hreq. unfold on_rpc. cbn [rpc_handle rn_id rn_node].
  assert (keypair_node_id (from_secret_bytes secret) = nd_id n2) as Hw by (by rewrite Hid, (bt_id _ _ _ _ _ Hbt)).
  rewrite bool_decide_true by done. cbn [negb]. rewrite keypair_sign_verifies. cbn [negb].
  destruct (execute _ _ _ _) as [db [[]|e]]; [by left|by right].
Qed.

(** The client looks for the port in the environment only: a port set in the node's
    configuration file is not found. *)
Theorem cli_ignores_configured_port env config :
  ce_var env "CRAFTEC_LISTEN_PORT" = None -> listen_port config <> 4433 ->
  cli_listen_port env <> listen_port (apply_env_overrides (ce_var env) config).
Proof.
  intros He Hp. unfold cli_listen_port. rewrite He. destruct (overrides_spec (ce_var env) config) as (_ & Hport & _).
  rewrite Hport, He. cbn. congruence.
Qed.

(** C25: Storing and retrieving on the command line, over a connection that works, with a
    disk that works and frames within the 4 MiB limits of both sides: [craftec store
    put] prints the CID of the standard input, and whatever happens to the node
    afterwards, [craftec store get] with that text writes exactly the bytes that were
    stored. *)
Theorem cli_put_get n M data env fs id remote hlc wall wall' start renv fq fr n2 env2 remote2 hlc2 wall2 wall2' start2 renv2 fq2 fr2 :
  node_inv ps n M -> bytes data -> no_clash (node_store (nd_app n)) data ->
  reaches env fs id -> reaches env2 fs id -> ce_stdin env = Some data ->
  re_io renv = (WriteOk, RenameOk, ReadOk) -> re_io renv2 = (WriteOk, RenameOk, ReadOk) ->
  clock_ok hlc wall' -> clock_ok hlc2 wall2' ->
  encode_rpc_request (ReqStorePut data) 0 = Ok fq -> Z.of_nat (length fq) <= MAX_REQUEST ->
  encode_rpc_response (RespStorePut (cid_from_data data)) (now_next hlc wall') = Ok fr -> Z.of_nat (length fr) <= MAX_RESPONSE ->
  rtc evolves (on_rpc n start remote (ReqStorePut data) renv).1 n2 ->
  encode_rpc_request (ReqStoreGet (cid_from_data data)) 0 = Ok fq2 -> Z.of_nat (length fq2) <= MAX_REQUEST ->
  encode_rpc_response (RespStoreGet (Some data)) (now_next hlc2 wall2') = Ok fr2 -> Z.of_nat (length fr2) <= MAX_RESPONSE ->
  run_cli env ["store"; "put"]%string (node_serves n remote hlc wall wall' (start, renv)) =
    mkOut (println (cid_to_string (cid_from_data data))) [] 0 /\
  run_cli env2 ["store"; "get"; cid_to_string (cid_from_data data)]%string
    (node_serves n2 remote2 hlc2 wall2 wall2' (start2, renv2)) = mkOut data [] 0.
Proof.
  intros Hn Hb Hcl Hrc Hrc2 Hin Hio Hio2 Hc1 Hc2 Hq Hlq Hr Hlr Hrun Hq2 Hlq2 Hr2 Hlr2.
  pose proof (node_ok_store ps _ M (ni_app ps n M Hn)) as Hs.
  assert ((on_rpc n start remote (ReqStorePut data) renv).2 = RespStorePut (cid_from_data data)) as Hput.
  { unfold on_rpc. cbn [rpc_handle rn_node cs_put obj_content_store]. rewrite Hio. cbn [fst snd].
    pose proof (put_repr (node_store (nd_app n)) M data WriteOk RenameOk Hs) as Hp.
    destruct (put _ data ReadOk _ _) as [s [c|e]]; [by destruct Hp as [-> _]|by destruct Hp as [[] _]]. }
  split.
  - rewrite <- Hput in Hr.
    rewrite (run_cli_exchange env fs id _ (ReqStorePut data) n remote hlc wall wall' (start, renv) fq fr); try done.
    + cbn [fst snd]. by rewrite Hput.
    + cbn. by rewrite Hin.
  - assert ((on_rpc n2 start2 remote2 (ReqStoreGet (cid_from_data data)) renv2).2 = RespStoreGet (Some data)) as Hget.
    { destruct (put_then_get ps Hps Hfile n M start remote data renv n2 start2 remote2 renv2 Hn Hb Hcl Hrun Hput) as [Hg|[_ Hg]]; [done|].
      by rewrite Hio2 in Hg. }
    rewrite <- Hget in Hr2.
    rewrite (run_cli_exchange env2 fs id _ (ReqStoreGet (cid_from_data data)) n2 remote2 hlc2 wall2 wall2' (start2, renv2) fq2 fr2); try done.
    + cbn [fst snd]. by rewrite Hget.
    + cbn [cli_request]. by rewrite cid_string_roundtrip by apply cid_from_data_wf.
Qed.

End CliFacts.
