(* ===== verification/Scheduler.v ===== *)
(** * Program scheduler (crates/craftec-com/src/scheduler.rs)

    Lifecycle of WASM programs: [start_program], [stop_program] and the task loop that
    is spawned, each split into single accesses to the three shared maps, which
    interleave.  A task is aborted by setting its flag, which takes effect where the
    task waits; a panic of the agent's host call ends the task without a trace.
    Wasmtime is a parameter: whether a binary compiles, and how each agent run ends. *)
From Stdlib Require Import ZArith Lia.
From stdpp Require Import base list list_numbers numbers strings pretty gmap relations sorting.
From S2P Require Import Prelude Types Instances ObjStore Health.

Local Open Scope Z_scope.

Definition CRASH_QUARANTINE_THRESHOLD : Z := 10.

Inductive ProgramState : Type :=
| Loaded (wasm_cid : Cid) (loaded_at : Z)
| Running (wasm_cid : Cid) (started_at : Z)
| Stopped (wasm_cid : Cid) (reason : string)
| Quarantined (wasm_cid : Cid) (reason : string).

Definition program_cid (s : ProgramState) : Cid :=
  match s with Loaded c _ | Running c _ | Stopped c _ | Quarantined c _ => c end.

Definition state_is_running (s : ProgramState) : bool :=
  match s with Running _ _ => true | _ => false end.

Definition label (s : ProgramState) : string :=
  match s with
  | Loaded _ _ => "loaded"
  | Running _ _ => "running"
  | Stopped _ _ => "stopped"
  | Quarantined _ _ => "quarantined"
  end.

Inductive ComError : Type :=
| WasmCompilationFailed (msg : string)
| FuelExhausted (consumed limit : Z)
| HostFunctionError (function reason : string)
| ProgramNotFound (c : Cid)
| SchedulerError (msg : string)
| RuntimeConfigError (msg : string)
| EntryPointNotFound (name : string)
| Trap (msg : string)
| ComSqlError (msg : string).

(** A spawned task: where its loop stands, its own crash counter, and whether its handle
    was told to abort it.  [TSpawned] has not been polled yet, [TQuarantine] has counted
    the crash that is one too many, [TSleep] waits, [TCheck] has woken up, and
    [TPanicked] has been unwound. *)
Inductive task_pc : Type :=
| TSpawned
| TExecute
| TQuarantine (error : string)
| TSleep
| TCheck
| TDone
| TPanicked.

Record Task : Type := mkTask {
  task_cid : Cid;
  local_crash_count : Z;
  pc : task_pc;
  aborted : bool;
}.

Definition task_at (t : Task) (n : Z) (pc : task_pc) : Task := mkTask (task_cid t) n pc (aborted t).

(** Tasks are named by their position in [tasks]. *)
Record ProgramScheduler : Type := mkScheduler {
  programs : gmap Cid ProgramState;
  task_handles : gmap Cid nat;
  crash_counts : gmap Cid Z;
  tasks : list Task;
}.

Definition scheduler_new : ProgramScheduler := mkScheduler ∅ ∅ ∅ [].

Definition set_program (s : ProgramScheduler) (c : Cid) (p : ProgramState) : ProgramScheduler :=
  mkScheduler (<[c := p]> (programs s)) (task_handles s) (crash_counts s) (tasks s).
Definition set_handles (s : ProgramScheduler) (h : gmap Cid nat) : ProgramScheduler :=
  mkScheduler (programs s) h (crash_counts s) (tasks s).
Definition set_crashes (s : ProgramScheduler) (c : Cid) (n : Z) : ProgramScheduler :=
  mkScheduler (programs s) (task_handles s) (<[c := n]> (crash_counts s)) (tasks s).
Definition set_task_list (s : ProgramScheduler) (ts : list Task) : ProgramScheduler :=
  mkScheduler (programs s) (task_handles s) (crash_counts s) ts.
Definition set_task (s : ProgramScheduler) (i : nat) (t : Task) : ProgramScheduler := set_task_list s (<[i := t]> (tasks s)).

(** [load_program]; [compiles] is [Module::new]'s verdict. *)
Definition load_program (s : ProgramScheduler) (c : Cid) (compiles : bool) (now : Z)
    : ProgramScheduler * result unit ComError :=
  if negb compiles then (s, Err (WasmCompilationFailed ""))
  else (set_program s c (Loaded c now), Ok tt).

(** ** Starting *)

(** [start_program] up to the read from the object store. *)
Definition start_check (s : ProgramScheduler) (c : Cid) : result unit ComError :=
  match programs s !! c with
  | None => Err (ProgramNotFound c)
  | Some (Running _ _) => Err (SchedulerError "already running")
  | Some (Quarantined _ _) => Err (SchedulerError "quarantined")
  | Some _ => Ok tt
  end.

(** What the object store returned for the binary. *)
Definition binary_of (r : result (option (list Z)) ObjError) : result (list Z) ComError :=
  match r with
  | Err _ => Err (SchedulerError "store error")
  | Ok None => Err (SchedulerError "WASM binary not found in store")
  | Ok (Some b) => Ok b
  end.

Inductive start_pc : Type :=
| StartCheck
| StartLoad
| StartInsert
| StartCount
| StartSpawn
| StartHandle (i : nat)
| StartDone (r : result unit ComError).

(** The next access of [start_program]; [r] is what the store answers, [now] the clock. *)
Definition start_access (s : ProgramScheduler) (c : Cid) (pc : start_pc) (r : result (option (list Z)) ObjError) (now : Z)
    : ProgramScheduler * start_pc :=
  match pc with
  | StartCheck => (s, match start_check s c with Ok _ => StartLoad | Err e => StartDone (Err e) end)
  | StartLoad => (s, match binary_of r with Ok _ => StartInsert | Err e => StartDone (Err e) end)
  | StartInsert => (set_program s c (Running c now), StartCount)
  | StartCount => (set_crashes s c 0, StartSpawn)
  | StartSpawn => (set_task_list s (tasks s ++ [mkTask c 0 TSpawned false]), StartHandle (length (tasks s)))
  | StartHandle i => (set_handles s (<[c := i]> (task_handles s)), StartDone (Ok tt))
  | StartDone r => (s, StartDone r)
  end.

Fixpoint start_run (k : nat) (s : ProgramScheduler) (c : Cid) (pc : start_pc) (r : result (option (list Z)) ObjError) (now : Z)
    : ProgramScheduler * start_pc :=
  match k with
  | O => (s, pc)
  | S k => let '(s, pc) := start_access s c pc r now in start_run k s c pc r now
  end.

(** A call that nothing interrupts. *)
Definition start_program (s : ProgramScheduler) (c : Cid) (r : result (option (list Z)) ObjError) (now : Z)
    : ProgramScheduler * start_pc := start_run 6 s c StartCheck r now.

(** ** Stopping *)

(** [handle.abort()]: the flag is set; the task sees it where it waits. *)
Definition abort_task (ts : list Task) (i : nat) : list Task :=
  match ts !! i with
  | Some t => <[i := mkTask (task_cid t) (local_crash_count t) (pc t) true]> ts
  | None => ts
  end.

Inductive stop_pc : Type :=
| StopCheck
| StopRemove
| StopAbort (i : nat)
| StopInsert
| StopDone (r : result unit ComError).

Definition stop_access (s : ProgramScheduler) (c : Cid) (reason : string) (pc : stop_pc) : ProgramScheduler * stop_pc :=
  match pc with
  | StopCheck => (s, match programs s !! c with None => StopDone (Err (ProgramNotFound c)) | Some _ => StopRemove end)
  | StopRemove =>
      (set_handles s (delete c (task_handles s)), match task_handles s !! c with Some i => StopAbort i | None => StopInsert end)
  | StopAbort i => (set_task_list s (abort_task (tasks s) i), StopInsert)
  | StopInsert => (set_program s c (Stopped c reason), StopDone (Ok tt))
  | StopDone r => (s, StopDone r)
  end.

Fixpoint stop_run (k : nat) (s : ProgramScheduler) (c : Cid) (reason : string) (pc : stop_pc) : ProgramScheduler * stop_pc :=
  match k with
  | O => (s, pc)
  | S k => let '(s, pc) := stop_access s c reason pc in stop_run k s c reason pc
  end.

Definition stop_program (s : ProgramScheduler) (c : Cid) (reason : string) : ProgramScheduler * stop_pc := stop_run 4 s c reason StopCheck.

(** ** The spawned loop *)

(** How an agent run ends: [Ok], [FuelExhausted], another error with its text, or a
    panic in a host call. *)
Inductive agent_result : Type :=
| AgentOk
| AgentOutOfFuel
| AgentCrashed (error : string)
| AgentPanicked.

Definition quarantine_reason (crashes : Z) (error : string) : string :=
  "quarantined after " +:+ pretty crashes +:+ " consecutive crashes: " +:+ error.

(** The back-off before the next run, in seconds. *)
Definition backoff (crashes : Z) : Z := Z.shiftl 1 (Z.min crashes 6).

(** A run of the agent, which touches no map, and the access to the crash counts after
    it. *)
Definition task_execute (s : ProgramScheduler) (i : nat) (t : Task) (r : agent_result) : ProgramScheduler :=
  let c := task_cid t in
  match r with
  | AgentOk => set_task (set_crashes s c 0) i (task_at t 0 TSleep)
  | AgentOutOfFuel => set_task s i (task_at t (local_crash_count t) TSleep)
  | AgentCrashed error =>
      let n := wrap 32 (local_crash_count t + 1) in
      set_task (set_crashes s c n) i (task_at t n (if CRASH_QUARANTINE_THRESHOLD <=? n then TQuarantine error else TSleep))
  | AgentPanicked => set_task s i (task_at t (local_crash_count t) TPanicked)
  end.

Definition is_running (s : ProgramScheduler) (c : Cid) : bool :=
  match programs s !! c with Some p => state_is_running p | None => false end.

(** The next access of a task; [r] is how the agent ends if it runs now. *)
Definition task_access (s : ProgramScheduler) (i : nat) (t : Task) (r : agent_result) : ProgramScheduler :=
  let c := task_cid t in
  let n := local_crash_count t in
  match pc t with
  | TSpawned => set_task s i (task_at t n (if aborted t then TDone else TExecute))
  | TExecute => task_execute s i t r
  | TQuarantine error => set_task (set_program s c (Quarantined c (quarantine_reason n error))) i (task_at t n TDone)
  | TSleep => set_task s i (task_at t n (if aborted t then TDone else TCheck))
  | TCheck => set_task s i (task_at t n (if is_running s c then TExecute else TDone))
  | TDone | TPanicked => s
  end.

Definition program_count (s : ProgramScheduler) : nat := size (programs s).
Definition list_programs (s : ProgramScheduler) : list (Cid * ProgramState) :=
  map (fun c => (c, default (Stopped c "") (programs s !! c))) (merge_sort lex_le (map fst (map_to_list (programs s)))).

(** ** Interleaving: the scheduler with the calls under way *)

Record SchedSystem : Type := mkSys {
  sched : ProgramScheduler;
  starters : list (Cid * start_pc);
  stoppers : list (Cid * string * stop_pc);
}.

Inductive sched_step (s : SchedSystem) : SchedSystem -> Prop :=
| step_load c compiles now : sched_step s (mkSys (load_program (sched s) c compiles now).1 (starters s) (stoppers s))
| step_call_start c : sched_step s (mkSys (sched s) (starters s ++ [(c, StartCheck)]) (stoppers s))
| step_start k c pc r now s' pc' :
    starters s !! k = Some (c, pc) -> start_access (sched s) c pc r now = (s', pc') ->
    sched_step s (mkSys s' (<[k := (c, pc')]> (starters s)) (stoppers s))
| step_call_stop c reason : sched_step s (mkSys (sched s) (starters s) (stoppers s ++ [(c, reason, StopCheck)]))
| step_stop k c reason pc s' pc' :
    stoppers s !! k = Some (c, reason, pc) -> stop_access (sched s) c reason pc = (s', pc') ->
    sched_step s (mkSys s' (starters s) (<[k := (c, reason, pc')]> (stoppers s)))
| step_task i t r : tasks (sched s) !! i = Some t -> sched_step s (mkSys (task_access (sched s) i t r) (starters s) (stoppers s)).

(** ** Invariant *)

(** A task that will run its program again. *)
Definition active (t : Task) : Prop := pc t <> TDone /\ pc t <> TPanicked /\ aborted t = false.

(** Why a program may count as running: one of its tasks goes on; a call has marked it
    running and is about to spawn the task; a call has aborted the task and is about to
    mark the program stopped; or a task of it panicked. *)
Inductive accounted (s : SchedSystem) (c : Cid) : Prop :=
| acc_task i t : tasks (sched s) !! i = Some t -> task_cid t = c -> active t -> accounted s c
| acc_starter k pc : starters s !! k = Some (c, pc) -> pc = StartCount \/ pc = StartSpawn -> accounted s c
| acc_stopper k reason : stoppers s !! k = Some (c, reason, StopInsert) -> accounted s c
| acc_panicked i t : tasks (sched s) !! i = Some t -> task_cid t = c -> pc t = TPanicked -> accounted s c.

Definition count_ok (t : Task) : Prop :=
  match pc t with
  | TDone => 0 <= local_crash_count t <= CRASH_QUARANTINE_THRESHOLD
  | TQuarantine _ => local_crash_count t = CRASH_QUARANTINE_THRESHOLD
  | _ => 0 <= local_crash_count t < CRASH_QUARANTINE_THRESHOLD
  end.

Definition starter_ok (s : ProgramScheduler) (c : Cid) (pc : start_pc) : Prop :=
  match pc with
  | StartCheck | StartDone _ => True
  | StartHandle i => is_Some (programs s !! c) /\ exists t, tasks s !! i = Some t /\ task_cid t = c
  | _ => is_Some (programs s !! c)
  end.

(** The map of handles, or a call that has taken it from there, holds the handle of task
    [i] for program [c]. *)
Definition holds_handle (s : SchedSystem) (c : Cid) (i : nat) : Prop :=
  task_handles (sched s) !! c = Some i \/ exists k reason, stoppers s !! k = Some (c, reason, StopAbort i).

Record sched_inv (s : SchedSystem) : Prop := {
  si_cid c p : programs (sched s) !! c = Some p -> program_cid p = c;
  si_tasks i t : tasks (sched s) !! i = Some t -> count_ok t /\ is_Some (programs (sched s) !! task_cid t);
  si_counts c n : crash_counts (sched s) !! c = Some n -> 0 <= n <= CRASH_QUARANTINE_THRESHOLD;
  si_handles c i : holds_handle s c i -> exists t, tasks (sched s) !! i = Some t /\ task_cid t = c;
  si_starters k c pc : starters s !! k = Some (c, pc) -> starter_ok (sched s) c pc;
  si_running c : is_running (sched s) c = true -> accounted s c;
}.

Lemma is_running_insert s c p c' :
  is_running (set_program s c p) c' = if decide (c = c') then state_is_running p else is_running s c'.
Proof.
  unfold is_running, set_program. cbn. destruct (decide (c = c')) as [->|Hne].
  - by rewrite lookup_insert_eq.
  - by rewrite lookup_insert_ne.
Qed.

(** An account that a step does not touch. *)
Lemma accounted_mono s s' c :
  accounted s c ->
  (forall i t, tasks (sched s) !! i = Some t -> task_cid t = c -> active t -> accounted s' c) ->
  (forall k pc, starters s !! k = Some (c, pc) -> pc = StartCount \/ pc = StartSpawn -> accounted s' c) ->
  (forall k reason, stoppers s !! k = Some (c, reason, StopInsert) -> accounted s' c) ->
  (forall i t, tasks (sched s) !! i = Some t -> task_cid t = c -> pc t = TPanicked -> accounted s' c) ->
  accounted s' c.
Proof. intros [i t Ht Hc Ha|k pc Hk Hp|k reason Hk|i t Ht Hc Hp] H1 H2 H3 H4; eauto. Qed.

Lemma accounted_same s s' c :
  tasks (sched s') = tasks (sched s) -> starters s' = starters s -> stoppers s' = stoppers s -> accounted s c -> accounted s' c.
Proof.
  intros Ht Hs Hp Ha. apply (accounted_mono s); [done|..].
  - intros i t Hi. rewrite <- Ht in Hi. by eapply acc_task.
  - intros k pc Hk. rewrite <- Hs in Hk. by eapply acc_starter.
  - intros k reason Hk. rewrite <- Hp in Hk. by eapply acc_stopper.
  - intros i t Hi. rewrite <- Ht in Hi. by eapply acc_panicked.
Qed.

(** A starter that goes on from a place that accounts for nothing. *)
Lemma accounted_starter s s' k c x y :
  starters s !! k = Some (c, x) -> x <> StartCount -> x <> StartSpawn -> tasks (sched s') = tasks (sched s) ->
  starters s' = <[k := (c, y)]> (starters s) -> stoppers s' = stoppers s -> forall c', accounted s c' -> accounted s' c'.
Proof.
  intros Hk H1 H2 Ht Hs Hp c' Ha. apply (accounted_mono s); [done|..].
  - intros i t Hi. rewrite <- Ht in Hi. by eapply acc_task.
  - intros j pc Hj Hpc. apply (acc_starter s' c' j pc); [|done]. rewrite Hs, list_lookup_insert_ne; [done|]. intros ->. rewrite Hk in Hj. injection Hj as <- <-. by destruct Hpc.
  - intros j reason Hj. rewrite <- Hp in Hj. by eapply acc_stopper.
  - intros i t Hi. rewrite <- Ht in Hi. by eapply acc_panicked.
Qed.

(** Starters and handles survive changes that keep the programs tracked and the tasks
    theirs. *)
Lemma starter_mono s s' c x :
  (forall c', is_Some (programs s !! c') -> is_Some (programs s' !! c')) ->
  (forall i t, tasks s !! i = Some t -> exists t', tasks s' !! i = Some t' /\ task_cid t' = task_cid t) -> starter_ok s c x -> starter_ok s' c x.
Proof.
  intros Hp Ht. destruct x as [| | | | |i|r]; cbn; try done; try apply Hp. intros [Hc (t & Hi & Htc)]. split; [by apply Hp|].
  destruct (Ht i t Hi) as (t' & Hi' & Htc'). exists t'. split; [done|congruence].
Qed.

Lemma insert_some (m : gmap Cid ProgramState) c p c' : is_Some (m !! c') -> is_Some (<[c := p]> m !! c').
Proof. intros H. apply lookup_insert_is_Some'. by right. Qed.

(** Replacing a program's state by one that is not [Running]. *)
Lemma set_program_inv s c p :
  sched_inv s -> program_cid p = c -> state_is_running p = false -> sched_inv (mkSys (set_program (sched s) c p) (starters s) (stoppers s)).
Proof.
  intros [Hc Ht Hn Hh Hst Hr] Hp Hnr. split; cbn; try done.
  - intros c' p' Hp'. apply lookup_insert_Some in Hp' as [[-> ->]|[_ Hp']]; [done|by apply Hc].
  - intros i t Hi. destruct (Ht i t Hi) as [Hb Hs]. split; [done|by apply insert_some].
  - intros k c' pc Hk. eapply starter_mono; [intros c''; apply insert_some|intros i t Hi; by exists t|by eapply Hst].
  - intros c' Hrun. rewrite is_running_insert in Hrun. destruct (decide (c = c')); [congruence|]. by apply (accounted_same s), Hr.
Qed.

Lemma set_crashes_inv s c n : sched_inv s -> 0 <= n <= CRASH_QUARANTINE_THRESHOLD -> sched_inv (mkSys (set_crashes (sched s) c n) (starters s) (stoppers s)).
Proof.
  intros [Hc Ht Hn Hh Hst Hr] Hb. split; cbn; try done.
  - intros c' n' Hn'. apply lookup_insert_Some in Hn' as [[-> <-]|[_ Hn']]; [done|by eapply Hn].
  - intros c' Hrun. by apply (accounted_same s), Hr.
Qed.

(** A task moves on: unless its program no longer counts as running it stays active,
    or panics. *)
Lemma set_task_inv s i t t' :
  sched_inv s -> tasks (sched s) !! i = Some t -> task_cid t' = task_cid t -> count_ok t' -> (pc t = TPanicked -> pc t' = TPanicked) ->
  (active t -> active t' \/ pc t' = TPanicked \/ is_running (sched s) (task_cid t) = false) ->
  sched_inv (mkSys (set_task (sched s) i t') (starters s) (stoppers s)).
Proof.
  intros [Hc Ht Hn Hh Hst Hr] Hi Hcid Hcount Hpan Hact. pose proof (lookup_lt_Some _ _ _ Hi) as Hlt.
  assert (forall j u, tasks (sched s) !! j = Some u -> exists u', tasks (set_task (sched s) i t') !! j = Some u' /\ task_cid u' = task_cid u) as Hkeep.
  { intros j u Hj. cbn. destruct (decide (i = j)) as [<-|Hne]; [exists t'; rewrite list_lookup_insert_eq by done; by simplify_eq|].
    exists u. by rewrite list_lookup_insert_ne. }
  split; cbn [sched starters stoppers set_task set_task_list programs task_handles crash_counts tasks]; try done.
  - intros j u Hj. apply list_lookup_insert_Some in Hj as [(-> & <- & _)|[_ Hj]]; [|by apply (Ht j)]. split; [done|]. rewrite Hcid. by apply (Ht j t).
  - intros c j Hj. destruct (Hh c j Hj) as (u & Hu & Huc). destruct (Hkeep j u Hu) as (u' & Hu' & Hc'). exists u'. split; [done|congruence].
  - intros k c x Hk. apply (starter_mono (sched s) (set_task (sched s) i t')); [done|exact Hkeep|by eapply Hst].
  - intros c Hrun. change (is_running (sched s) c = true) in Hrun. apply (accounted_mono s); [by apply Hr|..].
    + intros j u Hj Hu Ha. destruct (decide (i = j)) as [<-|Hne].
      * assert (u = t) as -> by congruence. assert (<[i := t']> (tasks (sched s)) !! i = Some t') as Hi' by (by apply list_lookup_insert_eq).
        destruct (Hact Ha) as [Ha'|[Ha'|Hoff]]; [apply (acc_task _ c i t')|apply (acc_panicked _ c i t')|congruence]; (done || congruence).
      * apply (acc_task _ c j u); [|done|done]. cbn. by rewrite list_lookup_insert_ne.
    + intros k x Hk. by apply (acc_starter _ c k x).
    + intros k reason Hk. by apply (acc_stopper _ c k reason).
    + intros j u Hj Hu Hp. destruct (decide (i = j)) as [<-|Hne].
      * assert (u = t) as -> by congruence. apply (acc_panicked _ c i t'); [by apply list_lookup_insert_eq|congruence|by apply Hpan].
      * apply (acc_panicked _ c j u); [|done|done]. cbn. by rewrite list_lookup_insert_ne.
Qed.

(** *** Each access *)

Lemma task_access_inv s i t r :
  sched_inv s -> tasks (sched s) !! i = Some t -> sched_inv (mkSys (task_access (sched s) i t r) (starters s) (stoppers s)).
Proof.
  intros HI Hi. destruct (si_tasks s HI i t Hi) as [Hb _]. pose proof (si_tasks s HI i t Hi) as [_ Hsome]. unfold count_ok in Hb.
  unfold task_access, task_execute. destruct (pc t) as [| |error| | | |] eqn:Hpc.
  - apply (set_task_inv s i t); [done|done|done| |by rewrite Hpc|].
    + cbn. destruct (aborted t); cbn; lia.
    + intros (_ & _ & Hab). rewrite Hab. left. by split_and!.
  - destruct r.
    + apply (set_task_inv (mkSys _ _ _) i t); [apply set_crashes_inv; [done|done]|done|done|done|by rewrite Hpc|]. intros (_ & _ & Hab). left. by split_and!.
    + apply (set_task_inv s i t); [done|done|done|done|by rewrite Hpc|]. intros (_ & _ & Hab). left. by split_and!.
    + unfold CRASH_QUARANTINE_THRESHOLD in *. rewrite wrap_id by (unfold fits; lia).
      apply (set_task_inv (mkSys _ _ _) i t); [apply set_crashes_inv; [done|unfold CRASH_QUARANTINE_THRESHOLD; lia]|done|done| |by rewrite Hpc|].
      * unfold count_ok, CRASH_QUARANTINE_THRESHOLD. cbn. destruct (Z.leb_spec 10 (local_crash_count t + 1)); cbn; lia.
      * intros (_ & _ & Hab). left. split_and!; cbn; [by case_match|by case_match|done].
    + apply (set_task_inv s i t); [done|done|done|done|by rewrite Hpc|]. intros _. right. by left.
  - set (q := Quarantined _ _). apply (set_task_inv (mkSys (set_program (sched s) (task_cid t) q) (starters s) (stoppers s)) i t); [by apply set_program_inv|done|done|unfold count_ok, CRASH_QUARANTINE_THRESHOLD in *; cbn; lia|by rewrite Hpc|].
    intros _. right. right. cbn [sched]. rewrite is_running_insert. by rewrite decide_True.
  - apply (set_task_inv s i t); [done|done|done| |by rewrite Hpc|].
    + cbn. destruct (aborted t); cbn; lia.
    + intros (_ & _ & Hab). rewrite Hab. left. by split_and!.
  - apply (set_task_inv s i t); [done|done|done| |by rewrite Hpc|].
    + cbn. destruct (is_running _ _); cbn; lia.
    + intros (_ & _ & Hab). destruct (is_running _ _) eqn:E; [left; by split_and!|]. right. by right.
  - by destruct s.
  - by destruct s.
Qed.

(** A starter that only moves on. *)
Lemma starter_inv s k c x y :
  sched_inv s -> starters s !! k = Some (c, x) -> x <> StartCount -> x <> StartSpawn -> starter_ok (sched s) c y ->
  sched_inv (mkSys (sched s) (<[k := (c, y)]> (starters s)) (stoppers s)).
Proof.
  intros [Hc Ht Hn Hh Hst Hr] Hk H1 H2 Hy. split; cbn; try done.
  - intros j c' z Hj. apply list_lookup_insert_Some in Hj as [(-> & [= <- <-] & _)|[_ Hj]]; [done|by eapply Hst].
  - intros c' Hrun. by eapply (accounted_starter s); [exact Hk|..|apply Hr].
Qed.

Lemma start_access_inv s k c x r now s' x' :
  sched_inv s -> starters s !! k = Some (c, x) -> start_access (sched s) c x r now = (s', x') ->
  sched_inv (mkSys s' (<[k := (c, x')]> (starters s)) (stoppers s)).
Proof.
  intros HI Hk. pose proof (si_starters s HI k c x Hk) as Hx. pose proof (lookup_lt_Some _ _ _ Hk) as Hlt.
  destruct x as [| | | | |i|res]; cbn [start_access]; intros [= <- <-].
  - eapply starter_inv; [done|exact Hk|done|done|]. unfold start_check. destruct (programs (sched s) !! c) as [[]|] eqn:E; cbn; by rewrite ?E.
  - eapply starter_inv; [done|exact Hk|done|done|]. by destruct (binary_of r).
  - destruct HI as [Hc Ht Hn Hh Hst Hr]. split; cbn; try done.
    + intros c' p' Hp'. apply lookup_insert_Some in Hp' as [[-> <-]|[_ Hp']]; [done|by apply Hc].
    + intros i t Hi. destruct (Ht i t Hi) as [Hb Hs]. split; [done|by apply insert_some].
    + intros j c' z Hj. apply list_lookup_insert_Some in Hj as [(-> & [= <- <-] & _)|[_ Hj]]; [by apply insert_some|].
      eapply starter_mono; [intros c''; apply insert_some|intros i t Hi; by exists t|by apply (Hst j)].
    + intros c' Hrun. rewrite is_running_insert in Hrun. destruct (decide (c = c')) as [<-|Hne].
      * apply (acc_starter _ c k StartCount); [by apply list_lookup_insert_eq|by left].
      * by eapply (accounted_starter s); [exact Hk|..|apply Hr].
  - destruct (set_crashes_inv s c 0 HI ltac:(unfold CRASH_QUARANTINE_THRESHOLD; lia)) as [Hc Ht Hn Hh Hst Hr]. cbn in *. split; cbn; try done.
    + intros j c' z Hj. apply list_lookup_insert_Some in Hj as [(-> & [= <- <-] & _)|[_ Hj]]; [done|by apply (Hst j)].
    + intros c' Hrun. apply (accounted_mono s); [by apply (si_running s HI)|..].
      * intros i t Hi. by eapply acc_task.
      * intros j z Hj Hz. destruct (decide (k = j)) as [<-|Hne].
        -- rewrite Hk in Hj. injection Hj as <- <-. apply (acc_starter _ c k StartSpawn); [by apply list_lookup_insert_eq|by right].
        -- apply (acc_starter _ c' j z); [|done]. cbn. by rewrite list_lookup_insert_ne.
      * intros j reason Hj. by eapply acc_stopper.
      * intros i t Hi. by eapply acc_panicked.
  - destruct HI as [Hc Ht Hn Hh Hst Hr].
    assert (forall i t, tasks (sched s) !! i = Some t -> (tasks (sched s) ++ [mkTask c 0 TSpawned false]) !! i = Some t) as Hold by (intros; by apply lookup_app_l_Some).
    assert ((tasks (sched s) ++ [mkTask c 0 TSpawned false]) !! length (tasks (sched s)) = Some (mkTask c 0 TSpawned false)) as Hnew by (by apply list_lookup_middle).
    split; cbn; try done.
    + intros i t Hi. apply lookup_app_Some in Hi as [Hi|[_ Hi]]; [by apply (Ht i)|]. apply list_lookup_singleton_Some in Hi as [_ <-]. done.
    + intros c' i Hi. destruct (Hh c' i Hi) as (t & Hi' & Htc). exists t. split; [by apply Hold|done].
    + intros j c' z Hj. apply list_lookup_insert_Some in Hj as [(-> & [= <- <-] & _)|[_ Hj]]; [split; [done|by eexists]|].
      apply (starter_mono (sched s) (set_task_list (sched s) (tasks (sched s) ++ [mkTask c 0 TSpawned false])));
        [done|intros i t Hi; exists t; split; [by apply Hold|done]|by apply (Hst j)].
    + intros c' Hrun. apply (accounted_mono s); [by apply Hr|..].
      * intros i t Hi. by apply (acc_task _ c' i t), Hold.
      * intros j z Hj Hz. destruct (decide (k = j)) as [<-|Hne].
        -- rewrite Hk in Hj. injection Hj as <- <-. by apply (acc_task _ c (length (tasks (sched s))) (mkTask c 0 TSpawned false)).
        -- apply (acc_starter _ c' j z); [|done]. cbn. by rewrite list_lookup_insert_ne.
      * intros j reason Hj. by eapply acc_stopper.
      * intros i t Hi. by apply (acc_panicked _ c' i t), Hold.
  - destruct Hx as [_ Hx]. destruct (starter_inv s k c (StartHandle i) (StartDone (Ok tt)) HI Hk ltac:(done) ltac:(done) I) as [Hc Ht Hn Hh Hst Hr]. split; cbn; try done.
    + intros c' j [Hj|Hj]; [|by apply Hh; right]. cbn in Hj. apply lookup_insert_Some in Hj as [[-> <-]|[_ Hj]]; [done|by apply Hh; left].
    + intros c' Hrun. by eapply accounted_same; [..|by apply Hr].
  - rewrite list_insert_id by done. by destruct s.
Qed.

(** Aborting sets a flag and nothing else. *)
Lemma abort_lookup ts i j t : abort_task ts i !! j = Some t ->
  exists u, ts !! j = Some u /\ task_cid t = task_cid u /\ local_crash_count t = local_crash_count u /\ pc t = pc u /\ (j <> i -> t = u).
Proof.
  unfold abort_task. destruct (ts !! i) as [v|] eqn:Ei; [|intros Hj; by exists t]. intros Hj.
  apply list_lookup_insert_Some in Hj as [(-> & <- & _)|[_ Hj]]; [by exists v|by exists t].
Qed.

Lemma abort_keeps ts i j u : ts !! j = Some u ->
  exists t, abort_task ts i !! j = Some t /\ task_cid t = task_cid u /\ pc t = pc u /\ (j <> i -> t = u).
Proof.
  intros Hj. unfold abort_task. destruct (ts !! i) as [v|] eqn:Ei; [|by exists u]. destruct (decide (i = j)) as [<-|Hne].
  - assert (v = u) as -> by congruence. eexists. rewrite list_lookup_insert_eq by (by eapply lookup_lt_Some). by split_and!.
  - exists u. by rewrite list_lookup_insert_ne.
Qed.

(** A stopping call moves on: what is held is what was held, or what the call took. *)
Lemma holds_stopper s s' k c reason x x' c' i :
  stoppers s !! k = Some (c, reason, x) -> holds_handle (mkSys s' (starters s) (<[k := (c, reason, x')]> (stoppers s))) c' i ->
  task_handles s' !! c' = Some i \/ (c' = c /\ x' = StopAbort i) \/ exists j rs, stoppers s !! j = Some (c', rs, StopAbort i).
Proof.
  intros Hk [Hi|(j & rs & Hj)]; [by left|right]. cbn in Hj. apply list_lookup_insert_Some in Hj as [(-> & [= -> -> ->] & _)|[_ Hj]]; [by left|right; eauto].
Qed.

(** Its program counts as running for the reasons it did before, unless the call was
    the reason. *)
Lemma accounted_stop s s' k c reason x x' c' :
  stoppers s !! k = Some (c, reason, x) -> x <> StopInsert \/ c <> c' -> tasks s' = tasks (sched s) ->
  accounted s c' -> accounted (mkSys s' (starters s) (<[k := (c, reason, x')]> (stoppers s))) c'.
Proof.
  intros Hk Hor Hts Ha. apply (accounted_mono s); [done|..].
  - intros i t Hi. apply (acc_task _ c' i t). cbn. by rewrite Hts.
  - intros j z Hj. by apply (acc_starter _ c' j z).
  - intros j rs Hj. apply (acc_stopper _ c' j rs). cbn. rewrite list_lookup_insert_ne; [done|]. intros ->. rewrite Hk in Hj. injection Hj as -> -> ->. by destruct Hor.
  - intros i t Hi. apply (acc_panicked _ c' i t). cbn. by rewrite Hts.
Qed.

(** The abort itself. *)
Lemma stop_abort_inv s k c reason i :
  sched_inv s -> stoppers s !! k = Some (c, reason, StopAbort i) ->
  sched_inv (mkSys (set_task_list (sched s) (abort_task (tasks (sched s)) i)) (starters s) (<[k := (c, reason, StopInsert)]> (stoppers s))).
Proof.
  intros [Hc Ht Hn Hh Hst Hr] Hk. pose proof (lookup_lt_Some _ _ _ Hk) as Hlt. destruct (Hh c i ltac:(right; eauto)) as (v & Hv & Hvc).
  split; cbn; try done.
  - intros j t Hj. destruct (abort_lookup _ i j t Hj) as (u & Hu & Htc & Hcnt & Hpc & _). destruct (Ht j u Hu) as [Hb Hs]. unfold count_ok in *. by rewrite Hcnt, Hpc, Htc.
  - intros c' j Hj. assert (holds_handle s c' j) as Hj' by (destruct (holds_stopper s _ k c reason _ _ c' j Hk Hj) as [?|[[_ ?]|?]]; [by left|done|by right]).
    destruct (Hh c' j Hj') as (u & Hu & Huc). destruct (abort_keeps _ i j u Hu) as (t & Hti & Htc & _). exists t. split; [done|congruence].
  - intros j c' z Hj. apply (starter_mono (sched s) (set_task_list (sched s) (abort_task (tasks (sched s)) i))); [done| |by apply (Hst j)].
    intros n u Hu. destruct (abort_keeps _ i n u Hu) as (t & Hti & Htc & _). by exists t.
  - intros c' Hrun. destruct (decide (c = c')) as [<-|Hne]; [apply (acc_stopper _ c k reason); by apply list_lookup_insert_eq|].
    apply (accounted_mono s); [by apply Hr|..].
    + intros n u Hu Huc Ha. destruct (abort_keeps _ i n u Hu) as (t & Hti & Htc & _ & Heq).
      assert (t = u) as -> by (apply Heq; intros ->; congruence). by apply (acc_task _ c' n u).
    + intros j z Hj. by eapply acc_starter.
    + intros j rs Hj. apply (acc_stopper _ c' j rs). cbn. rewrite list_lookup_insert_ne; [done|]. intros ->. congruence.
    + intros n u Hu Huc Hp. destruct (abort_keeps _ i n u Hu) as (t & Hti & Htc & Hpc & _). apply (acc_panicked _ c' n t); [done|congruence|congruence].
Qed.

Lemma stop_access_inv s k c reason x s' x' :
  sched_inv s -> stoppers s !! k = Some (c, reason, x) -> stop_access (sched s) c reason x = (s', x') ->
  sched_inv (mkSys s' (starters s) (<[k := (c, reason, x')]> (stoppers s))).
Proof.
  intros HI Hk. destruct x as [| |i| |res]; cbn [stop_access]; intros [= <- Hx'].
  - destruct HI as [Hc Ht Hn Hh Hst Hr]. split; cbn; try done.
    + intros c' j Hj. apply Hh. destruct (holds_stopper s _ k c reason _ _ c' j Hk Hj) as [?|[[_ ->]|?]]; [by left| |by right]. by destruct (programs _ !! c).
    + intros c' Hrun. eapply accounted_stop; [exact Hk|by left|done|by apply Hr].
  - destruct HI as [Hc Ht Hn Hh Hst Hr]. split; cbn; try done.
    + intros c' j Hj. apply Hh. destruct (holds_stopper s _ k c reason _ _ c' j Hk Hj) as [Hd|[[-> ->]|?]]; [| |by right].
      * cbn in Hd. apply lookup_delete_Some in Hd as [_ Hd]. by left.
      * left. destruct (task_handles (sched s) !! c); by simplify_eq.
    + intros c' Hrun. eapply accounted_stop; [exact Hk|by left|done|by apply Hr].
  - subst x'. by apply stop_abort_inv.
  - subst x'. pose proof (set_program_inv s c (Stopped c reason) HI eq_refl eq_refl) as HI1. destruct HI1 as [Hc Ht Hn Hh Hst Hr]. split; cbn; try done.
    + intros c' j Hj. apply Hh. destruct (holds_stopper s _ k c reason _ _ c' j Hk Hj) as [?|[[_ ?]|?]]; [by left|done|by right].
    + intros c' Hrun. apply (accounted_stop (mkSys (set_program (sched s) c (Stopped c reason)) (starters s) (stoppers s)) _ k c reason StopInsert); [done| |done|by apply Hr].
      right. intros ->. rewrite is_running_insert, decide_True in Hrun; done.
  - subst x'. rewrite list_insert_id by done. by destruct s.
Qed.

Lemma sched_step_inv s s' : sched_inv s -> sched_step s s' -> sched_inv s'.
Proof.
  intros HI Hs. destruct Hs as [c compiles now|c|k c x r now s' x' Hk Ha|c reason|k c reason x s' x' Hk Ha|i t r Hi].
  - unfold load_program. destruct compiles; [by apply set_program_inv|by destruct s].
  - destruct HI as [Hc Ht Hn Hh Hst Hr]. split; cbn; try done.
    + intros k c' x Hk. apply lookup_app_Some in Hk as [Hk|[_ Hk]]; [by eapply Hst|]. by apply list_lookup_singleton_Some in Hk as [_ [= <- <-]].
    + intros c' Hrun. apply (accounted_mono s); [by apply Hr|intros i t Hi; by eapply acc_task| |intros k rs Hk; by eapply acc_stopper|intros i t Hi; by eapply acc_panicked].
      intros k x Hk. apply (acc_starter _ c' k x). by apply lookup_app_l_Some.
  - by eapply start_access_inv.
  - destruct HI as [Hc Ht Hn Hh Hst Hr]. split; cbn; try done.
    + intros c' i [Hi|(k & rs & Hk)]; apply Hh; [by left|]. cbn in Hk. apply lookup_app_Some in Hk as [Hk|[_ Hk]]; [right; eauto|]. by apply list_lookup_singleton_Some in Hk as [_ ?].
    + intros c' Hrun. apply (accounted_mono s); [by apply Hr|intros i t Hi; by eapply acc_task|intros k x Hk; by eapply acc_starter| |intros i t Hi; by eapply acc_panicked].
      intros k rs Hk. apply (acc_stopper _ c' k rs). by apply lookup_app_l_Some.
  - by eapply stop_access_inv.
  - by apply task_access_inv.
Qed.

(** ** One program's loop *)

(** How a series of agent runs leaves the loop: going on after [n] crashes in a row,
    unwound by a panic after [n] crashes, or quarantined with the text of the last
    crash.  A completed run resets the count, running out of fuel does not. *)
Inductive streak : Type :=
| Going (n : Z)
| Unwound (n : Z)
| Given_up (error : string).

Fixpoint crash_streak (n : Z) (rs : list agent_result) : streak :=
  match rs with
  | [] => Going n
  | AgentOk :: rs => crash_streak 0 rs
  | AgentOutOfFuel :: rs => crash_streak n rs
  | AgentCrashed error :: rs => if CRASH_QUARANTINE_THRESHOLD <=? n + 1 then Given_up error else crash_streak (n + 1) rs
  | AgentPanicked :: _ => Unwound n
  end.

(** The accesses of task [i] alone; three of them take the loop round once. *)
Definition task_alone (s : ProgramScheduler) (i : nat) (r : agent_result) : ProgramScheduler :=
  match tasks s !! i with Some t => task_access s i t r | None => s end.
Definition task_round (s : ProgramScheduler) (i : nat) (r : agent_result) : ProgramScheduler :=
  task_alone (task_alone (task_alone s i r) i r) i r.
Definition drive (s : ProgramScheduler) (i : nat) (rs : list agent_result) : ProgramScheduler := foldl (fun s r => task_round s i r) s rs.

Lemma set_task_lookup s i t u : tasks s !! i = Some t -> tasks (set_task s i u) !! i = Some u.
Proof. intros Hi. cbn. apply list_lookup_insert_eq. by eapply lookup_lt_Some. Qed.

Lemma set_task_twice s i t u : set_task (set_task s i t) i u = set_task s i u.
Proof. unfold set_task, set_task_list. cbn. by rewrite list_insert_insert_eq. Qed.

Lemma drive_over s i t rs : tasks s !! i = Some t -> pc t = TDone \/ pc t = TPanicked -> drive s i rs = s.
Proof.
  intros Hi Hp. assert (forall r, task_alone s i r = s) as Ha by (intros r; unfold task_alone, task_access; rewrite Hi; by destruct Hp as [-> | ->]).
  induction rs as [|r rs IH]; [done|]. cbn [drive foldl]. unfold task_round. rewrite !Ha. exact IH.
Qed.

(** What one round does, by the end of the agent run. *)
Lemma round_sleeps s s1 i c n m r :
  tasks s !! i = Some (mkTask c n TExecute false) -> task_access s i (mkTask c n TExecute false) r = set_task s1 i (mkTask c m TSleep false) ->
  tasks s1 = tasks s -> programs s1 = programs s -> is_running s c = true -> task_round s i r = set_task s1 i (mkTask c m TExecute false).
Proof.
  intros Hi Ha Ht Hp Hr. unfold task_round at 1. unfold task_alone at 3. rewrite Hi, Ha.
  assert (tasks s1 !! i = Some (mkTask c n TExecute false)) as Hi1 by (by rewrite Ht).
  unfold task_alone at 2. rewrite (set_task_lookup _ _ _ _ Hi1). unfold task_access, task_at; cbn [pc aborted task_cid local_crash_count]. rewrite set_task_twice.
  unfold task_alone. rewrite (set_task_lookup _ _ _ _ Hi1). unfold task_access, task_at; cbn [pc aborted task_cid local_crash_count].
  assert (is_running (set_task s1 i (mkTask c m TCheck false)) c = true) as -> by (unfold is_running in *; cbn; by rewrite Hp). by rewrite set_task_twice.
Qed.

Lemma drive_streak s i c n rs :
  tasks s !! i = Some (mkTask c n TExecute false) -> is_running s c = true -> crash_counts s !! c = Some n ->
  0 <= n < CRASH_QUARANTINE_THRESHOLD ->
  match crash_streak n rs with
  | Going m => is_running (drive s i rs) c = true /\ crash_counts (drive s i rs) !! c = Some m /\ 0 <= m < CRASH_QUARANTINE_THRESHOLD
  | Unwound m => is_running (drive s i rs) c = true /\ tasks (drive s i rs) !! i = Some (mkTask c m TPanicked false)
  | Given_up error => programs (drive s i rs) !! c = Some (Quarantined c (quarantine_reason CRASH_QUARANTINE_THRESHOLD error))
  end.
Proof.
  revert s n. induction rs as [|r rs IH]; intros s n Hi Hrun Hcc Hn; [done|]. cbn [crash_streak drive foldl].
  change (foldl _ (task_round s i r) rs) with (drive (task_round s i r) i rs).
  assert (forall s1 m, task_access s i (mkTask c n TExecute false) r = set_task s1 i (mkTask c m TSleep false) -> tasks s1 = tasks s ->
    programs s1 = programs s -> crash_counts s1 !! c = Some m -> 0 <= m < CRASH_QUARANTINE_THRESHOLD ->
    match crash_streak m rs with
    | Going m => is_running (drive (task_round s i r) i rs) c = true /\ crash_counts (drive (task_round s i r) i rs) !! c = Some m /\ 0 <= m < CRASH_QUARANTINE_THRESHOLD
    | Unwound m => is_running (drive (task_round s i r) i rs) c = true /\ tasks (drive (task_round s i r) i rs) !! i = Some (mkTask c m TPanicked false)
    | Given_up error => programs (drive (task_round s i r) i rs) !! c = Some (Quarantined c (quarantine_reason CRASH_QUARANTINE_THRESHOLD error))
    end) as Hnext.
  { intros s1 m Ha Ht Hp Hc1 Hm. rewrite (round_sleeps s s1 i c n m r Hi Ha Ht Hp Hrun).
    apply IH; [eapply set_task_lookup; by rewrite Ht|unfold is_running in *; cbn; by rewrite Hp|done|done]. }
  destruct r as [| |error|].
  - apply (Hnext (set_crashes s c 0)); [done|done|done|by apply lookup_insert_eq|done].
  - by apply (Hnext s).
  - unfold CRASH_QUARANTINE_THRESHOLD in *. destruct (Z.leb_spec 10 (n + 1)) as [Hle|Hlt].
    + assert (n + 1 = 10) as Hten by lia. set (s2 := set_task (set_crashes s c 10) i (mkTask c 10 (TQuarantine error) false)).
      assert (task_alone s i (AgentCrashed error) = s2) as H1.
      { unfold task_alone. rewrite Hi. cbn [task_access pc task_execute task_cid local_crash_count]. rewrite wrap_id by (unfold fits; lia). by rewrite Hten. }
      assert (tasks s2 !! i = Some (mkTask c 10 (TQuarantine error) false)) as Hi2 by (by eapply set_task_lookup).
      set (s3 := set_task (set_program s2 c (Quarantined c (quarantine_reason 10 error))) i (mkTask c 10 TDone false)).
      assert (task_alone s2 i (AgentCrashed error) = s3) as H2 by (unfold task_alone; by rewrite Hi2).
      assert (tasks s3 !! i = Some (mkTask c 10 TDone false)) as Hi3 by (by eapply set_task_lookup).
      assert (task_round s i (AgentCrashed error) = s3) as -> by (unfold task_round; rewrite H1, H2; unfold task_alone; by rewrite Hi3).
      rewrite (drive_over s3 i (mkTask c 10 TDone false)); [|done|by left]. cbn. by rewrite lookup_insert_eq.
    + apply (Hnext (set_crashes s c (n + 1))); [|done|done|by apply lookup_insert_eq|lia].
      cbn [task_access pc task_execute task_cid local_crash_count]. rewrite wrap_id by (unfold fits; lia).
      replace (CRASH_QUARANTINE_THRESHOLD <=? n + 1) with false by (symmetry; apply Z.leb_gt; unfold CRASH_QUARANTINE_THRESHOLD; lia). done.
  - set (s1 := set_task s i (mkTask c n TPanicked false)). assert (tasks s1 !! i = Some (mkTask c n TPanicked false)) as Hi1 by (by eapply set_task_lookup).
    assert (task_round s i AgentPanicked = s1) as ->.
    { assert (task_alone s i AgentPanicked = s1) as H1 by (unfold task_alone; by rewrite Hi). assert (task_alone s1 i AgentPanicked = s1) as H2 by (unfold task_alone; by rewrite Hi1).
      unfold task_round. by rewrite H1, !H2. }
    rewrite (drive_over s1 i (mkTask c n TPanicked false)); [|done|by right]. done.
Qed.

(** ** Properties *)

(** C39: However loads, starts, stops and task loops interleave, access by access, and
    however the agents end: a program is filed under its own CID; a program that counts
    as running has a task that goes on, or a start is about to spawn one, or a stop has
    aborted it and is about to say so, or a task of it was unwound by a panic; a handle
    names a task of its program; a task that has not ended belongs to a tracked program
    and has crashed fewer than ten times in a row, or ten times and is about to be
    quarantined; and no recorded crash count exceeds ten. *)
Theorem scheduler_invariant s :
  rtc sched_step (mkSys scheduler_new [] []) s ->
  (forall c p, programs (sched s) !! c = Some p -> program_cid p = c) /\
  (forall c, is_running (sched s) c = true ->
     (exists i t, tasks (sched s) !! i = Some t /\ task_cid t = c /\ active t) \/
     (exists k pc, starters s !! k = Some (c, pc) /\ (pc = StartCount \/ pc = StartSpawn)) \/
     (exists k reason, stoppers s !! k = Some (c, reason, StopInsert)) \/
     (exists i t, tasks (sched s) !! i = Some t /\ task_cid t = c /\ pc t = TPanicked)) /\
  (forall c i, task_handles (sched s) !! c = Some i -> exists t, tasks (sched s) !! i = Some t /\ task_cid t = c) /\
  (forall i t, tasks (sched s) !! i = Some t -> is_Some (programs (sched s) !! task_cid t) /\
     match pc t with
     | TDone => 0 <= local_crash_count t <= 10
     | TQuarantine _ => local_crash_count t = 10
     | _ => 0 <= local_crash_count t < 10
     end) /\
  (forall c n, crash_counts (sched s) !! c = Some n -> 0 <= n <= 10).
Proof.
  intros Hr. assert (sched_inv s) as [Hc Ht Hn Hh _ Hrun].
  { assert (sched_inv (mkSys scheduler_new [] [])) as H0 by (split; try done; by intros c i [?|(k & reason & ?)]).
    revert H0. generalize (mkSys scheduler_new [] []) Hr. clear Hr. intros s0 Hr.
    induction Hr as [|s1 s2 s3 Hs _ IH]; [done|]. intros H1. by eapply IH, sched_step_inv. }
  split_and!; [done| |intros c i Hi; apply Hh; by left|intros i t Hi; destruct (Ht i t Hi) as [Hb Hs]; split; [done|exact Hb]|exact Hn].
  intros c Hc'. destruct (Hrun c Hc') as [i t Hi Htc Ha|k x Hk Hx|k reason Hk|i t Hi Htc Hp]; naive_solver.
Qed.

(** A program started without interference is quarantined exactly by its tenth crash
    without a completed run in between, with that crash in the reason, and then cannot
    be started; until then it keeps running and its recorded count is the current
    streak.  An agent run that panics ends the task; the program counts as running all
    the same, and cannot be started again. *)
Theorem quarantine_after_ten_crashes s c r now rs s' :
  start_program s c r now = (s', StartDone (Ok tt)) ->
  let i := length (tasks s) in
  let s'' := drive (task_alone s' i AgentOk) i rs in
  match crash_streak 0 rs with
  | Going m => is_running s'' c = true /\ crash_counts s'' !! c = Some m /\ 0 <= m < CRASH_QUARANTINE_THRESHOLD
  | Unwound m => is_running s'' c = true /\ tasks s'' !! i = Some (mkTask c m TPanicked false) /\
      forall r now, start_program s'' c r now = (s'', StartDone (Err (SchedulerError "already running")))
  | Given_up error => programs s'' !! c = Some (Quarantined c (quarantine_reason 10 error)) /\
      forall r now, start_program s'' c r now = (s'', StartDone (Err (SchedulerError "quarantined")))
  end.
Proof.
  unfold start_program. cbn [start_run start_access]. destruct (start_check s c) as [[]|e]; cbn [start_run start_access]; [|done].
  destruct (binary_of r); cbn [start_run start_access]; [|done]. intros [= <-]. cbn zeta. set (i := length (tasks s)).
  set (s1 := set_handles _ _). assert (tasks s1 !! i = Some (mkTask c 0 TSpawned false)) as Hi by (by apply list_lookup_middle).
  assert (task_alone s1 i AgentOk = set_task s1 i (mkTask c 0 TExecute false)) as -> by (unfold task_alone; by rewrite Hi).
  pose proof (drive_streak (set_task s1 i (mkTask c 0 TExecute false)) i c 0 rs) as H.
  specialize (H ltac:(by eapply set_task_lookup) ltac:(unfold is_running; cbn; by rewrite lookup_insert_eq)
    ltac:(by apply lookup_insert_eq) ltac:(done)).
  destruct (crash_streak 0 rs) as [m|m|error]; [done| |].
  - destruct H as [Hr Ht]. split_and!; [done|done|]. intros r' now'. cbn [start_run start_access]. unfold start_check, is_running in *.
    destruct (programs _ !! c) as [[]|]; done.
  - change CRASH_QUARANTINE_THRESHOLD with 10 in H. split; [done|]. intros r' now'. cbn [start_run start_access]. unfold start_check. by rewrite H.
Qed.

(** The back-off doubles from two seconds and stays at 64. *)
Theorem backoff_bounds n : 1 <= n -> 2 <= backoff n <= 64 /\ (n <= 6 -> backoff n = 2 ^ n).
Proof.
  intros Hn. unfold backoff. rewrite Z.shiftl_1_l. split.
  - split; [apply (Z.pow_le_mono_r 2 1)|change 64 with (2 ^ 6); apply Z.pow_le_mono_r]; lia.
  - intros. by rewrite Z.min_l.
Qed.

(** ** Concrete runs *)

Definition demo_wasm : Cid := [1].
Definition demo_sched : ProgramScheduler :=
  (start_program (load_program scheduler_new demo_wasm true 0).1 demo_wasm (Ok (Some [0])) 1).1.

(** A call of [start_program] with nothing in between. *)
Lemma start_reached s c r now :
  rtc sched_step s (mkSys (start_program (sched s) c r now).1 (starters s ++ [(c, (start_program (sched s) c r now).2)]) (stoppers s)).
Proof.
  eapply rtc_l; [apply (step_call_start s c)|]. unfold start_program. generalize 6%nat StartCheck. intros k. destruct s as [s l p]. cbn [sched starters stoppers].
  revert s. induction k as [|k IH]; intros s x; [apply rtc_refl|]. cbn [start_run]. destruct (start_access s c x r now) as [s1 x1] eqn:E.
  eapply rtc_l; [eapply (step_start _ (length l) c x r now s1 x1); [cbn; by apply list_lookup_middle|exact E]|].
  cbn [starters stoppers]. rewrite insert_app_r_alt, Nat.sub_diag by lia. apply IH.
Qed.

Lemma scheduler_invariant_witness :
  (exists i t, tasks demo_sched !! i = Some t /\ task_cid t = demo_wasm /\ active t) \/
  (exists (k : nat) pc, [(demo_wasm, StartDone (Ok tt))] !! k = Some (demo_wasm, pc) /\ (pc = StartCount \/ pc = StartSpawn)) \/
  (exists (k : nat) reason, ([] : list (Cid * string * stop_pc)) !! k = Some (demo_wasm, reason, StopInsert)) \/
  (exists i t, tasks demo_sched !! i = Some t /\ task_cid t = demo_wasm /\ pc t = TPanicked).
Proof.
  refine (proj1 (proj2 (scheduler_invariant (mkSys demo_sched [(demo_wasm, StartDone (Ok tt))] []) _)) demo_wasm _); [|reflexivity].
  eapply rtc_l; [apply (step_load _ demo_wasm true 0)|]. exact (start_reached _ demo_wasm (Ok (Some [0])) 1).
Defined.

Lemma quarantine_after_ten_crashes_witness :
  programs (drive (task_alone demo_sched 0 AgentOk) 0 (replicate 5 (AgentCrashed "trap") ++ [AgentOutOfFuel] ++ replicate 5 (AgentCrashed "trap"))) !! demo_wasm =
  Some (Quarantined demo_wasm "quarantined after 10 consecutive crashes: trap").
Proof.
  apply (quarantine_after_ten_crashes (load_program scheduler_new demo_wasm true 0).1 demo_wasm (Ok (Some [0])) 1
    (replicate 5 (AgentCrashed "trap") ++ [AgentOutOfFuel] ++ replicate 5 (AgentCrashed "trap")) demo_sched). reflexivity.
Defined.

Lemma backoff_bounds_witness : backoff 3 = 8.
Proof. apply (backoff_bounds 3); lia. Defined.

(** Loading a running program again marks it [Loaded] while its task goes on, so it
    can be started a second time: two tasks run it, and only the second has a handle
    that [stop_program] can abort. *)
Theorem reload_runs_twice :
  let s := (start_program (load_program demo_sched demo_wasm true 2).1 demo_wasm (Ok (Some [0])) 3).1 in
  tasks s = [mkTask demo_wasm 0 TSpawned false; mkTask demo_wasm 0 TSpawned false] /\ task_handles s !! demo_wasm = Some 1%nat /\
  tasks (stop_program s demo_wasm "stop").1 = [mkTask demo_wasm 0 TSpawned false; mkTask demo_wasm 0 TSpawned true].
Proof. vm_compute. done. Qed.

(** Stopping a quarantined program lifts the quarantine. *)
Theorem stop_lifts_quarantine :
  let q := drive (task_alone demo_sched 0 AgentOk) 0 (replicate 10 (AgentCrashed "trap")) in
  programs q !! demo_wasm = Some (Quarantined demo_wasm "quarantined after 10 consecutive crashes: trap") /\
  (start_program (stop_program q demo_wasm "").1 demo_wasm (Ok (Some [0])) 9).2 = StartDone (Ok tt).
Proof. vm_compute. done. Qed.

(** A stop that falls between the insertion of [Running] and that of the handle aborts
    nothing: the caller is told that the program is stopped, and its task runs the
    agent once before it notices. *)
Theorem stop_misses_new_task :
  let '(s, pc) := start_run 5 (load_program scheduler_new demo_wasm true 0).1 demo_wasm StartCheck (Ok (Some [0])) 1 in
  let '(s, stopped) := stop_program s demo_wasm "stop" in
  let s := task_alone s 0 AgentOk in
  pc = StartHandle 0 /\ stopped = StopDone (Ok tt) /\ is_running s demo_wasm = false /\ tasks s = [mkTask demo_wasm 0 TExecute false].
Proof. vm_compute. done. Qed.
