(* ===== verification/Runtime.v ===== *)
(** * WASM runtime (crates/craftec-com/src/runtime.rs, agent.rs)

    [ComRuntime::execute_agent]: compile, instantiate, resolve the entry point, call
    it with a fuel budget, and report how it ended.  Wasmtime is a parameter: an
    agent is given by what it does next after the host calls it has made and the
    metering points it has passed, and what each stretch of its code costs.  Fuel is
    looked at only where Wasmtime looks at it, at the metering points; between two of
    them the agent goes on whatever is left.  The host calls are those of [Host]. *)
From Stdlib Require Import ZArith Lia.
From stdpp Require Import base list list_numbers numbers strings gmap relations.
From S2P Require Import Prelude Types Instances External ObjStore PageIndex Wire Vfs Health Sql Keys Host Scheduler.

Local Open Scope Z_scope.

Definition DEFAULT_FUEL_LIMIT : Z := 10000000.

(** ** Agents *)

Inductive AgentKind : Type :=
| LocalEviction
| ReputationScoring
| LoadBalancing
| DegradationPolicy
| SchemaMigration
| Custom (c : Cid).

Record Agent : Type := mkAgent {
  wasm_cid : Cid;
  agent_name : string;
  kind : AgentKind;
}.

Section Agents.
Context `{HX : Hex}.

Definition agent_kind_to_string (k : AgentKind) : string :=
  match k with
  | LocalEviction => "LocalEviction"
  | ReputationScoring => "ReputationScoring"
  | LoadBalancing => "LoadBalancing"
  | DegradationPolicy => "DegradationPolicy"
  | SchemaMigration => "SchemaMigration"
  | Custom c => "Custom(" +:+ cid_to_string c +:+ ")"
  end.

Definition local_eviction (c : Cid) : Agent := mkAgent c "LocalEviction" LocalEviction.
Definition reputation_scoring (c : Cid) : Agent := mkAgent c "ReputationScoring" ReputationScoring.
Definition load_balancing (c : Cid) : Agent := mkAgent c "LoadBalancing" LoadBalancing.
Definition degradation_policy (c : Cid) : Agent := mkAgent c "DegradationPolicy" DegradationPolicy.
Definition schema_migration (c : Cid) : Agent := mkAgent c "SchemaMigration" SchemaMigration.

Definition agent_to_string (a : Agent) : string :=
  "Agent(" +:+ agent_name a +:+ ", wasm=" +:+ cid_to_string (wasm_cid a) +:+ ")".

End Agents.

(** ** Wasmtime *)

Section Runtime.
Context `{B3 : Blake3} `{LRU : Lru (Cid * Z) (list Z)} `{LS : Libsql} `{KS : KeyStore}.
Context `{PC : Postcard (list (list ColumnValue))}.
Context {St IO : Type} `{CS : !ContentStore St IO}.

(** What an agent does after a stretch of code that costs [cost] units: it calls the
    host, reaches a metering point (a function entry or a loop head), returns, or traps
    with a text.  A metering point that nothing was spent on since the last one decides
    as that one did, and is left out.  The outcome of a host call's I/O is not the
    agent's choice. *)
Inductive agent_action (V : Type) : Type :=
| ActCall (cost : Z) (call : IO -> host_call (IO := IO))
| ActCheck (cost : Z)
| ActReturn (cost : Z) (results : list V)
| ActTrap (cost : Z) (text : string).
Arguments ActCall {V} cost call.
Arguments ActCheck {V} cost.
Arguments ActReturn {V} cost results.
Arguments ActTrap {V} cost text.

(** What has happened: a host call, with what it returned and left in memory, or a
    metering point passed ([None]). *)
Abbreviation agent_history := (list (option (Z * option (list Z)))).

(** [wm_next] is given the entry point ([None] for the code run at instantiation), the
    arguments and the history; [wm_exhausted] tells whether a metering point stops the
    agent, and [wm_stretch] bounds the host calls between two metering points. *)
Class Wasmtime : Type := {
  wm_val : Type;
  wm_module : Type;
  wm_compile : list Z -> result wm_module string;
  wm_memory : wm_module -> option (list Z);
  wm_next : wm_module -> option string -> list wm_val -> agent_history -> agent_action wm_val;
  wm_stretch : wm_module -> nat;
  wm_exhausted : Z -> bool;
  wm_has_func : wm_module -> string -> bool;
  wm_fuel_text : string;
}.

(** Metering: a call and the way to a metering point cost something, and nothing costs
    less than nothing; an agent that has overdrawn its fuel is stopped at the next
    metering point; and since only loops and calls of functions lead back to code that
    was run before, code of finite size on a stack of bounded depth makes a bounded
    number of host calls before it reaches one. *)
Class WasmtimeLaws `{Wasmtime} : Prop := {
  wm_cost m entry args hist :
    match wm_next m entry args hist with
    | ActCall cost _ | ActCheck cost => 1 <= cost
    | ActReturn cost _ | ActTrap cost _ => 0 <= cost
    end;
  wm_overdrawn fuel : fuel < 0 -> wm_exhausted fuel = true;
  wm_straight m entry args hist (calls : list (Z * option (list Z))) : length calls = wm_stretch m ->
    match wm_next m entry args (hist ++ map Some calls) with ActCall _ _ => False | _ => True end;
}.

Context `{WM : Wasmtime}.

Record ComRuntime : Type := mkRuntime { fuel_limit : Z }.
Definition runtime_new (fuel_limit : Z) : ComRuntime := mkRuntime fuel_limit.
Definition with_default_fuel : ComRuntime := runtime_new DEFAULT_FUEL_LIMIT.

(** How a call into the agent ends. *)
Inductive agent_end : Type :=
| EndReturn (results : list wm_val)
| EndError (text : string)
| EndPanic
| EndSteps.

Record agent_run : Type := mkRun {
  run_caller : Caller (St := St);
  run_fuel : Z;
  run_calls : list (host_call (IO := IO));
  run_end : agent_end;
}.

(** Running the agent with [fuel] units left, which is negative when it is overdrawn;
    [io i] is what the [i]-th host call meets.  [EndSteps] when the bound of the model
    is reached. *)
Fixpoint agent_loop (steps : nat) (checks : bool) (m : wm_module) (entry : option string) (args : list wm_val)
    (hist : agent_history) (cl : Caller (St := St)) (fuel : Z) (io : nat -> IO) : agent_run :=
  match steps with
  | O => mkRun cl fuel [] EndSteps
  | S steps =>
      match wm_next m entry args hist with
      | ActReturn cost results => mkRun cl (fuel - cost) [] (EndReturn results)
      | ActTrap cost text => mkRun cl (fuel - cost) [] (EndError text)
      | ActCheck cost =>
          if wm_exhausted (fuel - cost) then mkRun cl (fuel - cost) [] (EndError wm_fuel_text)
          else agent_loop steps checks m entry args (hist ++ [None]) cl (fuel - cost) io
      | ActCall cost call =>
          let c := call (io 0%nat) in
          match host_exec checks cl c with
          | Panicked => mkRun cl (fuel - cost) [c] EndPanic
          | Returned (cl, v) =>
              let r := agent_loop steps checks m entry args (hist ++ [Some (v, memory cl)]) cl (fuel - cost) (fun i => io (S i)) in
              mkRun (run_caller r) (run_fuel r) (c :: run_calls r) (run_end r)
          end
      end
  end.

(** [Store::get_fuel]: nothing is left once the fuel is overdrawn. *)
Definition get_fuel (fuel : Z) : Z := Z.max 0 fuel.

(** [str::contains] *)
Definition str_contains (needle s : string) : bool :=
  match String.index 0 needle s with Some _ => true | None => false end.

(** How an error of the call is reported. *)
Definition classify (rt : ComRuntime) (text : string) (fuel_left : Z) : ComError :=
  if str_contains "fuel" text || str_contains "Fuel" text
  then FuelExhausted (fuel_limit rt - fuel_left) (fuel_limit rt)
  else Trap text.

(** Host calls and metering points cost a unit at least, and once the fuel is gone only
    a stretch is left, so this bounds the passes of the loop. *)
Definition agent_steps (m : wm_module) (fuel : Z) : nat := S (wm_stretch m + Z.to_nat fuel).

(** An invocation that ended, with the host calls made; a panic unwinds it in the last
    of them, and leaves the host as it was before that one. *)
Inductive invocation : Type :=
| InvDone (h : HostState (St := St)) (calls : list (host_call (IO := IO))) (r : result (list wm_val) ComError)
| InvPanicked (h : HostState (St := St)) (calls : list (host_call (IO := IO))).

(** [execute_agent]; [None] if the bound of the model is reached. *)
Definition execute_agent (rt : ComRuntime) (checks : bool) (wasm_bytes : list Z) (entry_point : string)
    (args : list wm_val) (h : HostState (St := St)) (io io' : nat -> IO) : option invocation :=
  match wm_compile wasm_bytes with
  | Err e => Some (InvDone h [] (Err (WasmCompilationFailed e)))
  | Ok m =>
      let start := agent_loop (agent_steps m (fuel_limit rt)) checks m None [] [] (mkCaller (wm_memory m) h) (fuel_limit rt) io in
      match run_end start with
      | EndSteps => None
      | EndPanic => Some (InvPanicked (host (run_caller start)) (run_calls start))
      | EndError e => Some (InvDone (host (run_caller start)) (run_calls start) (Err (Trap e)))
      | EndReturn _ =>
          if negb (wm_has_func m entry_point) then
            Some (InvDone (host (run_caller start)) (run_calls start) (Err (EntryPointNotFound entry_point)))
          else
            let r := agent_loop (agent_steps m (run_fuel start)) checks m (Some entry_point) args [] (run_caller start) (run_fuel start) io' in
            let calls := run_calls start ++ run_calls r in
            match run_end r with
            | EndSteps => None
            | EndPanic => Some (InvPanicked (host (run_caller r)) calls)
            | EndError e => Some (InvDone (host (run_caller r)) calls (Err (classify rt e (get_fuel (run_fuel r)))))
            | EndReturn results => Some (InvDone (host (run_caller r)) calls (Ok results))
            end
      end
  end.

(** What the scheduler's loop makes of an invocation; [error_text] is the error's
    [Display]. *)
Definition agent_result_of (error_text : ComError -> string) (v : invocation) : agent_result :=
  match v with
  | InvDone _ _ (Ok _) => AgentOk
  | InvDone _ _ (Err (FuelExhausted _ _)) => AgentOutOfFuel
  | InvDone _ _ (Err e) => AgentCrashed (error_text e)
  | InvPanicked _ _ => AgentPanicked
  end.

End Runtime.
Arguments ActCall {IO V} cost call.
Arguments ActCheck {IO V} cost.
Arguments ActReturn {IO V} cost results.
Arguments ActTrap {IO V} cost text.

(** ** Facts *)

Section RuntimeFacts.
Context `{B3 : Blake3} `{LRU : Lru (Cid * Z) (list Z)} `{LS : Libsql} `{KS : KeyStore}.
Context `{PC : Postcard (list (list ColumnValue))}.
Context {St IO : Type} `{CS : !ContentStore St IO} `{WM : !Wasmtime (IO := IO)} {WL : WasmtimeLaws (IO := IO)}.

(** The caller after a sequence of host calls, if none of them panics. *)
Fixpoint host_after (checks : bool) (cl : Caller (St := St)) (calls : list (host_call (IO := IO))) : option Caller :=
  match calls with
  | [] => Some cl
  | c :: calls =>
      match host_exec checks cl c with
      | Panicked => None
      | Returned (cl, _) => host_after checks cl calls
      end
  end.

Lemma host_after_app checks cl calls calls' cl1 :
  host_after checks cl calls = Some cl1 -> host_after checks cl (calls ++ calls') = host_after checks cl1 calls'.
Proof.
  revert cl. induction calls as [|c calls IH]; intros cl; cbn; [by intros [= <-]|].
  destruct (host_exec checks cl c) as [[cl2 v]|]; [|done]. apply IH.
Qed.

(** Where a run that did not reach the bound of the model stands. *)
Definition run_left (checks : bool) (cl : Caller (St := St)) (r : agent_run) : Prop :=
  match run_end r with
  | EndSteps => False
  | EndPanic => exists calls c, run_calls r = calls ++ [c] /\ host_after checks cl calls = Some (run_caller r) /\ host_exec checks (run_caller r) c = Panicked
  | _ => host_after checks cl (run_calls r) = Some (run_caller r)
  end.

(** [recent] are the host calls since the last metering point. *)
Lemma agent_loop_bounded steps checks m entry args hist recent (cl : Caller (St := St)) fuel io :
  (length recent <= wm_stretch m)%nat ->
  Z.max (fuel + Z.of_nat (wm_stretch m)) (Z.of_nat (wm_stretch m - length recent)) < Z.of_nat steps ->
  let r := agent_loop steps checks m entry args (hist ++ map Some recent) cl fuel io in
  run_fuel r + Z.of_nat (length (run_calls r)) <= fuel /\
  Z.of_nat (length (run_calls r)) <= Z.max (fuel + Z.of_nat (wm_stretch m)) (Z.of_nat (wm_stretch m - length recent)) /\
  run_left checks cl r.
Proof.
  cbn zeta. set (K := wm_stretch m). revert hist recent cl fuel io. induction steps as [|steps IH]; intros hist recent cl fuel io Hk Hf; [lia|]. cbn [agent_loop].
  pose proof (wm_cost m entry args (hist ++ map Some recent)) as Hc. pose proof (wm_straight m entry args hist recent) as Hs.
  destruct (wm_next m entry args (hist ++ map Some recent)) as [cost call|cost|cost results|cost text].
  - assert (length recent < K)%nat as Hlt by (destruct (decide (length recent = K)) as [He|]; [by destruct (Hs He)|unfold K in *; lia]).
    destruct (host_exec checks cl (call (io 0%nat))) as [[cl1 v]|] eqn:E.
    + specialize (IH hist (recent ++ [(v, memory cl1)]) cl1 (fuel - cost) (fun i => io (S i))). rewrite length_app, map_app, app_assoc in IH. cbn [length map] in IH.
      destruct IH as (H1 & H2 & H3); [lia|lia|]. cbn [run_end run_fuel run_calls run_caller length]. split_and!; [lia|lia|].
      unfold run_left in *. cbn [run_end run_calls run_caller host_after]. rewrite E. destruct (run_end _) as [res|e| |]; [done|done| |done].
      destruct H3 as (calls & c & -> & Ha & Hp). exists (call (io 0%nat) :: calls), c. split_and!; [done| |done]. cbn. by rewrite E.
    + cbn [run_end run_fuel run_calls run_caller length]. split_and!; [lia|lia|]. by exists [], (call (io 0%nat)).
  - destruct (wm_exhausted (fuel - cost)) eqn:Ex; [cbn [run_end run_fuel run_calls run_caller length]; split_and!; [lia|lia|done]|].
    assert (0 <= fuel - cost) as Hpos by (destruct (Z.lt_ge_cases (fuel - cost) 0) as [Hn|]; [by rewrite (wm_overdrawn _ Hn) in Ex|done]).
    specialize (IH ((hist ++ map Some recent) ++ [None]) [] cl (fuel - cost) io). cbn [length map] in IH. rewrite app_nil_r in IH.
    destruct IH as (H1 & H2 & H3); [lia|lia|]. split_and!; [lia|lia|done].
  - cbn [run_end run_fuel run_calls run_caller length]. split_and!; [lia|lia|done].
  - cbn [run_end run_fuel run_calls run_caller length]. split_and!; [lia|lia|done].
Qed.

(** A call of the agent from its beginning, within the steps it is given. *)
Lemma agent_call_bounded checks m entry args (cl : Caller (St := St)) fuel io :
  let r := agent_loop (agent_steps m fuel) checks m entry args [] cl fuel io in
  run_fuel r + Z.of_nat (length (run_calls r)) <= fuel /\
  Z.of_nat (length (run_calls r)) <= Z.max 0 fuel + Z.of_nat (wm_stretch m) /\ run_left checks cl r.
Proof.
  cbn zeta. destruct (agent_loop_bounded (agent_steps m fuel) checks m entry args [] [] cl fuel io) as (H1 & H2 & H3); [cbn; lia|unfold agent_steps; cbn [length]; lia|].
  cbn [app map length] in *. split_and!; [done|lia|done].
Qed.

(** C33: One invocation is bounded: it always ends, also by a panic, after at most as many
    host calls as the fuel limit, plus twice the number that the module can make
    between two metering points; at most ten of them obtain a signature, counting
    those the host state already granted; the reported consumption is within the
    limit; and the host state it leaves is that of the calls in order, without the last
    one if that one panicked. *)
Theorem agent_invocation_bounded (rt : ComRuntime) checks wasm entry args (h : HostState (St := St)) io io' :
  0 <= fuel_limit rt -> 0 <= sign_count h <= SIGN_RATE_LIMIT ->
  match wm_compile wasm, execute_agent rt checks wasm entry args h io io' with
  | _, None => False
  | Err e, Some v => v = InvDone h [] (Err (WasmCompilationFailed e))
  | Ok m, Some v =>
      let cl := mkCaller (wm_memory m) h in
      let calls := match v with InvDone _ calls _ | InvPanicked _ calls => calls end in
      Z.of_nat (length calls) <= fuel_limit rt + 2 * Z.of_nat (wm_stretch m) /\
      Z.of_nat (length (List.filter signed_call (host_run checks cl calls))) <= SIGN_RATE_LIMIT - sign_count h /\
      match v with
      | InvDone h' _ r =>
          host <$> host_after checks cl calls = Some h' /\
          match r with Err (FuelExhausted consumed limit) => 0 <= consumed <= limit /\ limit = fuel_limit rt | _ => True end
      | InvPanicked h' _ =>
          exists before c cl', calls = before ++ [c] /\ host_after checks cl before = Some cl' /\ h' = host cl' /\ host_exec checks cl' c = Panicked
      end
  end.
Proof.
  intros Hf Hs. unfold execute_agent. destruct (wm_compile wasm) as [m|e]; [|done].
  set (cl := mkCaller (wm_memory m) h). pose proof (fun calls => host_run_signs checks cl calls Hs) as Hsig. cbn [host cl] in Hsig. fold cl in Hsig.
  destruct (agent_call_bounded checks m None [] cl (fuel_limit rt) io) as (Hfu & Hle & Hleft).
  set (st := agent_loop _ _ _ _ _ _ cl _ _) in *. unfold run_left in Hleft. destruct (run_end st) as [res|e| |]; [| | |done].
  - destruct (wm_has_func m entry); cbn [negb]; [|cbn zeta; split_and!; [lia|apply Hsig|by rewrite Hleft|done]].
    destruct (agent_call_bounded checks m (Some entry) args (run_caller st) (run_fuel st) io') as (Hfu2 & Hle2 & Hleft2).
    set (r := agent_loop _ _ _ _ _ _ (run_caller st) _ _) in *. unfold run_left in Hleft2.
    assert (Z.of_nat (length (run_calls st ++ run_calls r)) <= fuel_limit rt + 2 * Z.of_nat (wm_stretch m)) as Hcalls by (rewrite length_app; lia).
    destruct (run_end r) as [res2|e2| |]; [| | |done]; cbn zeta; (split_and!; [done|apply Hsig|..]).
    + by rewrite (host_after_app _ _ _ _ (run_caller st)), Hleft2.
    + done.
    + by rewrite (host_after_app _ _ _ _ (run_caller st)), Hleft2.
    + unfold classify, get_fuel. destruct (_ || _); [|done]. lia.
    + destruct Hleft2 as (calls & c & Hc & Ha & Hp). exists (run_calls st ++ calls), c, (run_caller r).
      rewrite Hc, app_assoc, (host_after_app _ _ _ _ (run_caller st)) by done. done.
  - cbn zeta. split_and!; [lia|apply Hsig|by rewrite Hleft|done].
  - cbn zeta. split_and!; [lia|apply Hsig|]. destruct Hleft as (calls & c & Hc & Ha & Hp). by exists calls, c, (run_caller st).
Qed.

(** Fuel exhaustion is told from other traps by the text of the error: a trap of the
    entry point whose text mentions fuel is reported as exhaustion, whatever was
    left, and the scheduler never counts it as a crash. *)
Theorem trap_mentioning_fuel (rt : ComRuntime) text left (error_text : ComError -> string) (h : HostState (St := St)) (calls : list (host_call (IO := IO))) s i t :
  str_contains "fuel" text = true ->
  classify rt text left = FuelExhausted (fuel_limit rt - left) (fuel_limit rt) /\
  task_execute s i t (agent_result_of error_text (InvDone h calls (Err (classify rt text left)))) =
    set_task s i (task_at t (local_crash_count t) TSleep).
Proof. intros Ht. unfold classify. by rewrite Ht. Qed.

End RuntimeFacts.
