(* ===== verification/Process.v ===== *)
(** * The process (crates/craftec-node/src/main.rs, shutdown.rs)

    [main] from its arguments to its exit: the command line, or the configuration, the
    node, its run until a signal and the shutdown sequence.  A machine keeps the
    files between two processes; a process may also be killed at any moment. *)
From Stdlib Require Import ZArith Lia.
From stdpp Require Import base list list_numbers numbers strings gmap relations functions.
From S2P Require Import Prelude Gf256 Linear Types Instances External F64 Hommac Encoder Decoder DecoderRank Recoder Engine Hlc Wire Events ObjStore PageIndex Vfs Swim Health Repair Sql Keys Dht Pending Pool Endpoint Gossip Handler Rpc Node NodeInv Boot Cli.

Local Open Scope Z_scope.

Abbreviation object_tree := (gmap (string * string) (list Z)).

(** ** Signals *)

Inductive signal : Type := SIGINT | SIGTERM | OtherSignal.

Definition shutdown_signal (s : signal) : bool := match s with SIGINT | SIGTERM => true | OtherSignal => false end.

(** [wait_for_shutdown] on the signals that arrive: the first recognised one ends the
    wait; a handler that cannot be installed panics. *)
Definition wait_for_shutdown (int_ok term_ok : bool) (arriving : list signal) : outcome (option signal) :=
  if negb (int_ok && term_ok) then Panicked else Returned (head (List.filter shutdown_signal arriving)).

(** ** Machines and processes *)

(** The files of the working directory, of every data directory, and the object trees. *)
Record Machine : Type := mkMachine {
  mc_cwd : dir;
  mc_data : string -> dir;
  mc_objects : string -> object_tree;
}.

Record process_env : Type := mkProcEnv {
  pe_args : list string;
  pe_vars : string -> option string;
  pe_config_io : file_io;
  pe_boot : boot_env;
  pe_dials : nat -> result Z string * send_io;
  pe_int_ok : bool;
  pe_term_ok : bool;
  pe_signals : list signal;
  pe_remove_ok : bool;
  pe_cli : cli_env;
  pe_serve : list Z -> option (list Z);
}.

Section Process.
Context `{B3 : Blake3} `{HX : Hex} `{LRUO : Lru Cid (list Z)} `{LRU : Lru (Cid * Z) (list Z)} `{BF : Bloom Cid}.
Context `{ED : Ed25519} `{ES : Ed25519Signing} `{LS : Libsql} `{IR : Iroh} `{BC : Broadcast Event} `{SJ : SerdeJson} `{JC : JsonConfig}.
Context {PC : Postcard CodedPiece} {PW : Postcard SignedWrite} {PM : Postcard WireMessage}.
Context {PQ : Postcard RpcRequest} {PR : Postcard RpcResponse}.

(** How a process ends; a node that ran is named with its last state. *)
Inductive exit : Type :=
| ExitCli (out : cli_out)
| ExitError (msg : string)
| ExitPanic
| ExitOk (n : CraftecNode)
| ExitKilled (n : CraftecNode).

Definition with_cwd (m : Machine) (fs : dir) : Machine := mkMachine fs (mc_data m) (mc_objects m).
Definition with_data (m : Machine) (d : string) (fs : dir) : Machine := mkMachine (mc_cwd m) (<[d := fs]> (mc_data m)) (mc_objects m).
Definition with_objects (m : Machine) (d : string) (t : object_tree) : Machine := mkMachine (mc_cwd m) (mc_data m) (<[d := t]> (mc_objects m)).

(** The configuration a node is started with. *)
Definition process_config (m : Machine) (e : process_env) : dir * result NodeConfig CraftecError :=
  match load_or_create_config (mc_cwd m) (pe_config_io e) with
  | (fs, Ok config) => (fs, Ok (apply_env_overrides (pe_vars e) config))
  | (fs, Err err) => (fs, Err err)
  end.

(** Node mode up to the running node. *)
Definition process_boot (m : Machine) (e : process_env) : Machine * (exit + NodeConfig * CraftecNode) :=
  match process_config m e with
  | (fs, Err _) => (with_cwd m fs, inl (ExitError "configuration"))
  | (fs, Ok config) =>
      let m := with_cwd m fs in
      let d := data_dir config in
      match node_new (mc_data m d) (mc_objects m d) config (pe_boot e) with
      | Panicked => (m, inl ExitPanic)
      | Returned (fs, Err msg) => (with_data m d fs, inl (ExitError msg))
      | Returned (fs, Ok n) =>
          match node_start n config (pe_dials e) with
          | Panicked => (with_data m d fs, inl ExitPanic)
          | Returned n => (with_data m d fs, inr (config, n))
          end
      end
  end.

(** What a node leaves behind that is killed, or shut down. *)
Definition process_killed (m : Machine) (d : string) (n : CraftecNode) : Machine := with_objects m d (files (node_store (nd_app n))).
Definition process_stopped (m : Machine) (d : string) (n : CraftecNode) (remove_ok : bool) : Machine :=
  with_data (process_killed m d n) d (node_shutdown n (mc_data m d) remove_ok).2.

(** [main]; the node's life between its start and its end is any run.  A panic of
    [wait_for_shutdown] unwinds [main] without the shutdown sequence: for the files it is
    a kill. *)
Inductive main_run (m : Machine) (e : process_env) : Machine -> exit -> Prop :=
| main_cli : pe_args e <> [] -> main_run m e m (ExitCli (run_cli (pe_cli e) (pe_args e) (pe_serve e)))
| main_failed m' x : pe_args e = [] -> process_boot m e = (m', inl x) -> main_run m e m' x
| main_shutdown m' config n n' sig : pe_args e = [] -> process_boot m e = (m', inr (config, n)) -> rtc evolves n n' ->
    wait_for_shutdown (pe_int_ok e) (pe_term_ok e) (pe_signals e) = Returned (Some sig) ->
    main_run m e (process_stopped m' (data_dir config) n' (pe_remove_ok e)) (ExitOk n')
| main_unhandled m' config n n' : pe_args e = [] -> process_boot m e = (m', inr (config, n)) -> rtc evolves n n' ->
    wait_for_shutdown (pe_int_ok e) (pe_term_ok e) (pe_signals e) = Panicked ->
    main_run m e (process_killed m' (data_dir config) n') (ExitKilled n')
| main_killed m' config n n' : pe_args e = [] -> process_boot m e = (m', inr (config, n)) -> rtc evolves n n' ->
    main_run m e (process_killed m' (data_dir config) n') (ExitKilled n').

Definition ran (x : exit) (n : CraftecNode) : Prop := x = ExitOk n \/ x = ExitKilled n.

End Process.

(** ** Signals *)

(** The wait ends with a recognised signal, the first of those that arrive. *)
Lemma wait_first int_ok term_ok l s :
  wait_for_shutdown int_ok term_ok l = Returned (Some s) ->
  shutdown_signal s = true /\ exists l1 l2, l = l1 ++ s :: l2 /\ Forall (fun x => shutdown_signal x = false) l1.
Proof.
  unfold wait_for_shutdown. destruct (negb _); [done|]. induction l as [|x l IH]; [done|]. cbn. destruct (shutdown_signal x) eqn:E.
  - intros [= <-]. split; [done|]. exists [], l. done.
  - intros Hs. destruct (IH Hs) as (Hok & l1 & l2 & -> & Hl). split; [done|]. exists (x :: l1), l2. split; [done|by constructor].
Qed.

(** ** Restarts *)

Section ProcessFacts.
Context `{BL : Blake3Laws} `{HXL : HexLaws} `{LLO : LruLaws Cid (list Z)} `{LL : LruLaws (Cid * Z) (list Z)} `{BFL : BloomLaws Cid}.
Context `{EL : Ed25519Laws} `{LS : Libsql} `{IR : Iroh} `{BC : Broadcast Event} `{SJ : SerdeJson} `{JCL : JsonConfigLaws}.
Context `{PCL : PostcardLaws CodedPiece} {PW : Postcard SignedWrite} {PM : Postcard WireMessage}.
Context {PQ : Postcard RpcRequest} {PR : Postcard RpcResponse}.

(** The object tree of [d] holds the objects of [M]. *)
Definition holds (m : Machine) (d : string) (M : gmap Cid (list Z)) : Prop :=
  store_repr (store_over (mc_objects m d) OBJ_CACHE_CAPACITY) M /\ map_Forall (fun _ => bytes) M.

Definition env_ok (e : process_env) : Prop :=
  fi_stat_ok (pe_config_io e) = true /\ boot_seen (pe_boot e) /\ length (be_entropy (pe_boot e)) = 32%nat /\ (forall l, sync_order (be_sync (pe_boot e)) l ≡ₚ l).

(** A configuration that was read once is read again. *)
Lemma config_again fs io fs' cfg io' fs'' cfg' :
  fi_stat_ok io' = true -> load_or_create_config fs io = (fs', Ok cfg) -> load_or_create_config fs' io' = (fs'', Ok cfg') -> cfg' = cfg.
Proof.
  intros Hst Hl1 Hl2. assert (exists b, fs' !! CONFIG_FILE = Some b /\ config_from_json b = Some cfg) as (b & Hb & Hj).
  { unfold load_or_create_config, config_load, file_seen in Hl1. destruct (if fi_stat_ok io then fs !! CONFIG_FILE else None) as [b'|] eqn:E.
    - destruct (fi_stat_ok io); [|done]. rewrite E in Hl1. rename b' into b. destruct (negb (fi_read_ok io)); [done|]. destruct (negb (utf8_valid b)); [done|]. destruct (config_from_json b) eqn:Ej; [|done].
      injection Hl1 as <- <-. by exists b.
    - unfold config_save in Hl1. destruct (negb (fi_mkdir_ok io)); [done|]. destruct (config_to_json config_default) as [json|] eqn:Ej; [|done].
      destruct (negb (fi_write_ok io)); [done|]. injection Hl1 as <- <-. exists json. rewrite lookup_insert_eq. split; [done|by apply config_from_to_json]. }
  unfold load_or_create_config, config_load, file_seen in Hl2. rewrite Hst, Hb in Hl2. repeat case_match; by simplify_eq.
Qed.

(** What a node that ran started from. *)
Lemma boot_spec m e m' config n :
  process_boot m e = (m', inr (config, n)) ->
  exists cwd cfg fs n0, load_or_create_config (mc_cwd m) (pe_config_io e) = (cwd, Ok cfg) /\ config = apply_env_overrides (pe_vars e) cfg /\
    node_new (mc_data m (data_dir config)) (mc_objects m (data_dir config)) config (pe_boot e) = Returned (fs, Ok n0) /\
    node_start n0 config (pe_dials e) = Returned n /\ m' = with_data (with_cwd m cwd) (data_dir config) fs.
Proof.
  unfold process_boot, process_config. destruct (load_or_create_config _ _) as [cwd [cfg|err]]; [|done].
  set (config' := apply_env_overrides _ _). cbn [mc_data mc_objects with_cwd]. destruct (node_new _ _ _ _) as [[fs [n0|msg]]|] eqn:En; [|done|done].
  destruct (node_start n0 config' (pe_dials e)) as [n1|] eqn:Es; [|done]. intros [= <- <- <-]. by exists cwd, cfg, fs, n0.
Qed.

Lemma ran_spec m e m' x n' :
  main_run m e m' x -> ran x n' ->
  exists m1 config n, process_boot m e = (m1, inr (config, n)) /\ rtc evolves n n' /\
    mc_cwd m' = mc_cwd m1 /\ mc_objects m' (data_dir config) = files (node_store (nd_app n')) /\
    mc_data m' (data_dir config) !! KEY_FILE = mc_data m1 (data_dir config) !! KEY_FILE.
Proof.
  assert (forall x0, ran x0 n' -> x0 <> ExitPanic /\ (forall msg, x0 <> ExitError msg)) as Hnot by (by intros x0 [->| ->]).
  intros Hm Hx. destruct Hm as [Ha|m' x Ha Hb|m' config n n2 sig Ha Hb Hr Hw|m' config n n2 Ha Hb Hr Hw|m' config n n2 Ha Hb Hr].
  - by destruct Hx.
  - exfalso. destruct (Hnot x Hx) as [Hp He]. revert Hb. unfold process_boot. destruct (process_config m e) as [fs [cfg|err]].
    + repeat case_match; intros; simplify_eq; try done; by eapply He.
    + intros. simplify_eq. by eapply He.
  - assert (n' = n2) as -> by (by destruct Hx; simplify_eq). exists m', config, n. split_and!; [done|done|done|cbn; by rewrite fn_lookup_insert|].
    cbn. rewrite fn_lookup_insert. unfold node_shutdown. cbn. destruct (mc_data m' (data_dir config) !! NODE_LOCK_FILENAME); [|done].
    destruct (pe_remove_ok e); [|done]. by rewrite lookup_delete_ne by discriminate.
  - assert (n' = n2) as -> by (by destruct Hx; simplify_eq). exists m', config, n. split_and!; [done|done|done|cbn; by rewrite fn_lookup_insert|done].
  - assert (n' = n2) as -> by (by destruct Hx; simplify_eq). exists m', config, n. split_and!; [done|done|done|cbn; by rewrite fn_lookup_insert|done].
Qed.

(** The life of one process: the node it ran satisfies its invariant, holds what the
    data directory held, and what it holds at the end is there for the next one. *)
Lemma process_life m e m' x n' M :
  env_ok e -> main_run m e m' x -> ran x n' ->
  (forall cfg l, (load_or_create_config (mc_cwd m) (pe_config_io e)).2 = Ok cfg -> file_ok (cfg_page_size cfg) (sql_file l)) ->
  (forall cfg, (load_or_create_config (mc_cwd m) (pe_config_io e)).2 = Ok cfg -> holds m (data_dir (apply_env_overrides (pe_vars e) cfg)) M) ->
  exists cfg M' secret, (load_or_create_config (mc_cwd m) (pe_config_io e)) = (mc_cwd m', Ok cfg) /\
    let config := apply_env_overrides (pe_vars e) cfg in
    let d := data_dir config in
    node_inv (cfg_page_size config) n' M' /\ M ⊆ M' /\ holds m' d M' /\ nd_id n' = ed_public secret /\
    mc_data m' d !! KEY_FILE = Some secret /\ forall b, mc_data m d !! KEY_FILE = Some b -> secret = b.
Proof.
  intros (_ & Hseen & Hent & Hord) Hm Hx Hf HM. destruct (ran_spec m e m' x n' Hm Hx) as (m1 & config & n & Hb & Hr & Hcwd & Hobj & Hkey).
  destruct (boot_spec m e m1 config n Hb) as (cwd & cfg & fs & n0 & Hl & Hc & Hnew & Hst & Hm1). subst config. cbn zeta.
  set (config := apply_env_overrides (pe_vars e) cfg) in *. set (d := data_dir config) in *.
  assert (forall l, file_ok (cfg_page_size config) (sql_file l)) as Hf'.
  { intros l. destruct (overrides_spec (pe_vars e) cfg) as (_ & _ & _ & _ & _ & _ & _ & Hp & _). fold config in Hp. rewrite Hp. apply Hf. by rewrite Hl. }
  destruct (HM cfg ltac:(by rewrite Hl)) as [Hs Hby]. fold config d in Hs. destruct (node_new_booted _ _ config (pe_boot e) fs n0 M Hseen Hent Hord Hf' Hs Hby Hnew) as (M1 & secret & Hbt & Hsub & Hsec).
  destruct (node_start_inv _ n0 config (pe_dials e) n M1 (bt_inv _ _ _ _ _ Hbt) Hst) as [Hn1 Hid1].
  destruct (run_inv _ (bt_page_size _ _ _ _ _ Hbt) Hf' n n' M1 Hn1 Hr) as (M2 & Hn2 & Hg2).
  exists cfg, M2, secret. fold config d. split_and!.
  - rewrite Hl, Hcwd, Hm1. done.
  - done.
  - by etransitivity; [|apply Hg2].
  - split; [|exact (ni_bytes _ n' M2 Hn2)]. rewrite Hobj. apply restart_repr. exact (node_ok_store _ _ M2 (ni_app _ n' M2 Hn2)).
  - by rewrite (evolves_id n n' Hr), Hid1, (bt_id _ _ _ _ _ Hbt).
  - rewrite Hkey, Hm1. cbn. rewrite fn_lookup_insert. apply (bt_secret _ _ _ _ _ Hbt).
  - exact Hsec.
Qed.

(** C18: Two processes one after the other on a machine, with the same environment
    variables, both of which get as far as running a node: however the first one
    ended, killed or shut down, the second starts from the same configuration, field
    by field, and runs the node of the same identity with every object the first one
    held when it ended.  The metadata calls on the configuration file, the key file and
    the shard directories are taken to answer. *)
Theorem process_restart m e m1 x1 n1 e' m2 x2 n2 M :
  env_ok e -> env_ok e' -> pe_vars e' = pe_vars e ->
  (forall cfg, (load_or_create_config (mc_cwd m) (pe_config_io e)).2 = Ok cfg ->
    holds m (data_dir (apply_env_overrides (pe_vars e) cfg)) M /\ forall l, file_ok (cfg_page_size cfg) (sql_file l)) ->
  main_run m e m1 x1 -> ran x1 n1 -> main_run m1 e' m2 x2 -> ran x2 n2 ->
  nd_id n2 = nd_id n1 /\ exists config M1 M2,
    (process_config m e).2 = Ok config /\ (process_config m1 e').2 = Ok config /\
    node_inv (cfg_page_size config) n1 M1 /\ node_inv (cfg_page_size config) n2 M2 /\ M ⊆ M1 /\ M1 ⊆ M2.
Proof.
  intros He He' Hv Hm Hr1 Hx1 Hr2 Hx2.
  destruct (process_life m e m1 x1 n1 M He Hr1 Hx1) as (cfg & M1 & secret & Hl & Hn1 & Hs1 & Hh1 & Hid1 & Hk1 & _);
    [intros cfg l Hc; by apply Hm|intros cfg Hc; by apply Hm|]. cbn zeta in *.
  assert (forall cfg', (load_or_create_config (mc_cwd m1) (pe_config_io e')).2 = Ok cfg' -> cfg' = cfg) as Hsame.
  { intros cfg' Hc'. destruct (load_or_create_config (mc_cwd m1) (pe_config_io e')) as [fs r] eqn:E. cbn in Hc'. subst r. exact (config_again _ _ _ _ _ _ _ (proj1 He') Hl E). }
  destruct (process_life m1 e' m2 x2 n2 M1 He' Hr2 Hx2) as (cfg' & M2 & secret' & Hl' & Hn2 & Hs2 & _ & Hid2 & _ & Hsec).
  - intros cfg' l Hc'. rewrite (Hsame cfg' Hc'). apply Hm. by rewrite Hl.
  - intros cfg' Hc'. by rewrite (Hsame cfg' Hc'), Hv.
  - cbn zeta in *. assert (cfg' = cfg) as -> by (apply Hsame; by rewrite Hl'). rewrite Hv in Hn2, Hsec. split.
    + rewrite Hid2, Hid1. by rewrite (Hsec secret Hk1).
    + exists (apply_env_overrides (pe_vars e) cfg), M1, M2. unfold process_config. rewrite Hl, Hl', Hv. done.
Qed.

End ProcessFacts.
