(* ===== verification/Demo.v ===== *)
(** * A concrete node

    Small instances of everything external, a node started on an empty data
    directory, and the theorems about the assembled node, the client, the endpoint
    and the runtime applied to it. *)
From Stdlib Require Import ZArith Lia.
From stdpp Require Import base list list_numbers numbers strings gmap relations countable.
From S2P Require Import Prelude Gf256 Linear Types Instances External F64 Hommac Encoder Decoder DecoderRank Recoder Engine Hlc Wire Events ObjStore PageIndex Vfs Swim Health Repair Sql Keys Dht Pending Pool Endpoint Network Gossip Handler Rpc Node NodeInv Pipeline Boot Providers Cli Process Host Scheduler Runtime.

Local Open Scope Z_scope.

(** ** A codec for pieces *)

Fixpoint pos_bits (p : positive) : list Z :=
  match p with
  | xH => []
  | xO p => 0 :: pos_bits p
  | xI p => 1 :: pos_bits p
  end.

Fixpoint bits_pos (l : list Z) : option positive :=
  match l with
  | [] => Some xH
  | b :: l => match bits_pos l with Some p => if b =? 0 then Some (xO p) else Some (xI p) | None => None end
  end.

Lemma bits_pos_bits p : bits_pos (pos_bits p) = Some p.
Proof. induction p as [p IH|p IH|]; cbn; by rewrite ?IH. Qed.

Lemma pos_bits_bytes p : bytes (pos_bits p).
Proof. induction p as [p IH|p IH|]; cbn; [constructor; [unfold is_byte; lia|done]..|constructor]. Qed.

Definition piece_tuple (p : CodedPiece) : list (list Z) := [piece_id p; cid p; coding_vector p; data p; hommac_tag p].
Definition piece_of_tuple (l : list (list Z)) : option CodedPiece :=
  match l with [a; b; c; d; e] => Some (mkPiece a b c d e) | _ => None end.

#[local] Instance bit_postcard_piece : Postcard CodedPiece := {|
  to_allocvec p := Some (pos_bits (countable.encode (piece_tuple p)));
  from_bytes b := match bits_pos b with Some p => countable.decode p ≫= piece_of_tuple | None => None end;
|}.

#[local] Instance bit_postcard_piece_laws : PostcardLaws CodedPiece.
Proof.
  split.
  - intros m b [= <-]. cbn [from_bytes bit_postcard_piece]. rewrite bits_pos_bits, decode_encode. by destruct m.
  - intros m b [= <-]. apply pos_bits_bytes.
Qed.

(** ** The rest of the environment *)

#[local] Instance demo_req_codec : Postcard RpcRequest := {|
  to_allocvec r := match r with
    | ReqStorePut d => if forallb is_byteb d then Some (1 :: d) else None
    | ReqStoreGet c => if forallb is_byteb c then Some (2 :: c) else None
    | _ => None end;
  from_bytes b := match b with 1 :: d => Some (ReqStorePut d) | 2 :: c => Some (ReqStoreGet c) | _ => None end |}.

#[local] Instance demo_resp_codec : Postcard RpcResponse := {|
  to_allocvec r := match r with
    | RespStorePut c => if forallb is_byteb c then Some (1 :: c) else None
    | RespStoreGet (Some d) => if forallb is_byteb d then Some (2 :: d) else None
    | _ => None end;
  from_bytes b := match b with 1 :: c => Some (RespStorePut c) | 2 :: d => Some (RespStoreGet (Some d)) | _ => None end |}.

Lemma forallb_bytes x d : is_byte x -> forallb is_byteb d = true -> bytes (x :: d).
Proof.
  intros Hx Hd. constructor; [done|]. apply list.Forall_forall. intros b Hb. apply is_byteb_spec.
  rewrite forallb_forall in Hd. by apply Hd, list_elem_of_In.
Qed.

#[local] Instance demo_req_laws : PostcardLaws RpcRequest.
Proof.
  split; intros m b; destruct m; cbn; try done; destruct (forallb _ _) eqn:E; try done; intros [= <-]; try done;
    by apply forallb_bytes; [unfold is_byte; lia|].
Qed.

#[local] Instance demo_resp_laws : PostcardLaws RpcResponse.
Proof.
  split; intros m b; destruct m as [| |[d|]| | | | | |]; cbn; try done; destruct (forallb _ _) eqn:E; try done; intros [= <-]; try done;
    by apply forallb_bytes; [unfold is_byte; lia|].
Qed.

#[local] Instance demo_ed25519 : Ed25519 := {| verifying_key_ok _ := true; ed_verify _ msg sig := bool_decide (msg = sig) |}.
#[local] Instance demo_signing : Ed25519Signing :=
  {| ed_public sk := take 32 (map (wrap 8) sk ++ replicate 32 0); ed_sign _ msg := msg |}.

#[local] Instance demo_ed_laws : Ed25519Laws.
Proof.
  split; try done.
  - intros sk. unfold ed_public, demo_signing. rewrite length_take, length_app, length_replicate. lia.
  - intros sk. unfold ed_public, demo_signing. apply bytes_take, bytes_app. split; [|apply bytes_replicate].
    apply Forall_fmap, list.Forall_forall. intros b _. apply (wrap_fits 8). lia.
  - intros sk msg. by apply bool_decide_eq_true.
Qed.

#[local] Instance demo_libsql : Libsql := {|
  sqldb := unit; sql_open := Some tt; sql_file _ := [83; 81; 76]; sql_execute db _ := (db, None); sql_query db _ := (db, Ok []);
|}.
#[local] Instance demo_iroh : Iroh := {| public_key_ok _ := true; public_key_parse _ := None; public_key_display _ := ""%string |}.
#[local] Instance demo_writes : Postcard SignedWrite := {| to_allocvec _ := None; from_bytes _ := None |}.
#[local] Instance demo_json : SerdeJson := {| to_string_pretty _ := ""%string; json_data_dir _ := None |}.

Lemma demo_file_ok ps l : (1 <= ps)%nat -> file_ok ps (sql_file (Libsql := demo_libsql) l).
Proof. intros Hps. split; [by_compute|]. cbn. lia. Qed.

(** ** Starting the node *)

Abbreviation all_ok := (WriteOk, RenameOk, ReadOk).
Definition demo_sync : sync_io (IO := obj_io) := mkSync true id (fun _ => all_ok).
Definition demo_config : NodeConfig := mkConfig "data" 4433 [] 8 0 300 32 512 "info".
Definition demo_secret : list Z := seqZ 1 32.
Definition demo_boot_env : boot_env :=
  mkBootEnv true true (mkFileIo true true true true) demo_secret true (fun _ => DirOk) true demo_sync true true true 5 true (mkFileIo true true true true) [].

Definition demo_booted := node_new ∅ ∅ demo_config demo_boot_env.

Definition is_booted {A B E} (o : outcome (A * result B E)) : bool :=
  match o with Returned (_, Ok _) => true | _ => false end.
Example demo_boots : is_booted demo_booted = true.
Proof. vm_compute. reflexivity. Qed.

Definition blank_db : CraftDatabase (St := ObjStore) :=
  mkDb [] [] (mkVfs (store_over ∅ 1) ∅ None (pc_with_capacity 1) ∅ None 512) [] tt false [].
Definition boot_node {E} (o : outcome (dir * result CraftecNode E)) : CraftecNode :=
  match o with Returned (_, Ok n) => n | _ => assemble demo_config blank_db (from_secret_bytes []) 0 end.
Definition boot_dir {E} (o : outcome (dir * result CraftecNode E)) : dir := match o with Returned (fs, _) => fs | Panicked => ∅ end.

Lemma boot_returned {E} (o : outcome (dir * result CraftecNode E)) :
  is_booted o = true -> o = Returned (boot_dir o, Ok (boot_node o)).
Proof. by destruct o as [[fs [n|e]]|]. Qed.

Definition run_fs : dir := boot_dir demo_booted.
Definition run_node : CraftecNode := boot_node demo_booted.

Lemma run_boots : node_new ∅ ∅ demo_config demo_boot_env = Returned (run_fs, Ok run_node).
Proof. exact (boot_returned demo_booted demo_boots). Qed.

Lemma empty_bytes : map_Forall (fun _ : Cid => bytes) (∅ : gmap Cid (list Z)).
Proof. intros c d. by rewrite lookup_empty. Qed.

Lemma demo_seen : boot_seen demo_boot_env.
Proof. repeat split. done. Qed.

Lemma start_up_consistent_witness :
  exists M secret, booted run_fs 512 run_node M secret /\ read_node_id run_fs = Ok (nd_id run_node).
Proof.
  pose proof (start_up_consistent ∅ ∅ demo_config demo_boot_env ∅ demo_seen eq_refl (fun l => reflexivity _)
    (fun l => demo_file_ok 512 l ltac:(lia)) (new_repr _) empty_bytes) as Hb.
  rewrite run_boots in Hb. destruct Hb as (M & secret & Hb & _). exists M, secret. split; [exact Hb|vm_compute; reflexivity].
Defined.

(** What the node holds after its start. *)
Lemma run_booted : exists M secret, booted run_fs 512 run_node M secret.
Proof.
  destruct (node_new_booted ∅ ∅ demo_config demo_boot_env run_fs run_node ∅ demo_seen eq_refl (fun l => reflexivity _)
    (fun l => demo_file_ok 512 l ltac:(lia)) (new_repr _) empty_bytes run_boots) as (M & secret & Hb & _). by exists M, secret.
Qed.

Definition run_io : send_io := mkSendIo 5 5 id (Ok 1) (Ok tt) (Ok tt) (Ok tt).
Definition run_started : CraftecNode :=
  match node_start run_node demo_config (fun _ => (Ok 1, run_io)) with Returned n => n | Panicked => run_node end.

Lemma run_starts : node_start run_node demo_config (fun _ => (Ok 1, run_io)) = Returned run_started.
Proof.
  assert (match node_start run_node demo_config (fun _ => (Ok 1, run_io)) with Returned _ => true | Panicked => false end = true) as Hs
    by (vm_compute; reflexivity).
  unfold run_started. destruct (node_start _ _ _); [reflexivity|discriminate].
Qed.

Lemma run_inv0 : exists M, node_inv 512 run_started M.
Proof.
  destruct run_booted as (M & secret & Hb). exists M.
  by apply (node_start_inv 512 run_node demo_config _ run_started M (bt_inv _ _ _ _ _ Hb) run_starts).
Qed.

(** ** Storing an object *)

Definition run_data : list Z := [7; 8].
Definition run_env : rpc_env (IO := obj_io) := mkRpcEnv 9 all_ok demo_sync.
Definition run_put : CraftecNode := (on_rpc run_started 0 [1] (ReqStorePut run_data) run_env).1.

Lemma run_no_clash : no_clash (node_store (nd_app run_started)) run_data.
Proof.
  intros b Hb. assert (files (node_store (nd_app run_started)) !! shard_path (cid_from_data run_data) = None) as Hn
    by (vm_compute; reflexivity). congruence.
Qed.

Lemma run_put_evolves : evolves run_started run_put.
Proof. unfold run_put. generalize run_started as n. intros n. apply (ev_rpc n 0 [1] (ReqStorePut run_data) run_env); [by_compute|reflexivity]. Qed.

Lemma cascade_ends_witness : exists n', rtc internal run_put n' /\ quiet n'.
Proof. apply (cascade_ends run_put). eexists. vm_compute. reflexivity. Defined.

Lemma node_keeps_objects_witness :
  exists M M', node_inv 512 (prune_dht run_put 77) M' /\ M ⊆ M'.
Proof.
  destruct run_inv0 as [M HM]. exists M.
  apply (node_keeps_objects 512 ltac:(lia) (fun l => demo_file_ok 512 l ltac:(lia)) run_started (prune_dht run_put 77) M HM).
  apply (rtc_l _ _ run_put).
  - exact run_put_evolves.
  - apply rtc_once. exact (ev_prune_dht run_put 77).
Defined.


Lemma run_put_ok : (on_rpc run_started 0 [1] (ReqStorePut run_data) run_env).2 = RespStorePut (cid_from_data run_data).
Proof. vm_compute. reflexivity. Qed.

Lemma run_put_inv : exists M, node_inv 512 run_put M /\ M !! cid_from_data run_data = Some run_data.
Proof.
  destruct run_inv0 as [M HM]. exists (spec_put M run_data).
  exact (rpc_put_inv 512 run_started M 0 [1] run_data run_env HM ltac:(by_compute) run_no_clash run_put_ok).
Qed.

(** ** Encoding it *)

Lemma get_files (s : ObjStore) c r : files (get s c r).1 = files s.
Proof. unfold get. repeat case_match; simplify_eq/=; done. Qed.

Lemma put_no_clash (s : ObjStore) b w r : no_clash s b -> no_clash (put s b ReadOk w r).1 b.
Proof.
  intros Hs. assert (shard_path (cid_from_data b) <> tmp_path (shard_path (cid_from_data b))) as Hne
    by (apply shard_not_tmp; apply cid_from_data_wf).
  unfold no_clash, put. intros b'. destruct (_ && _); [apply Hs|]. destruct w as [|e [x|]]; cbn.
  - destruct r as [|[|]]; cbn.
    + rewrite lookup_insert_eq. by intros [= <-].
    + rewrite lookup_delete_ne by done. apply Hs.
    + rewrite lookup_insert_ne by done. apply Hs.
  - rewrite lookup_insert_ne by done. apply Hs.
  - apply Hs.
Qed.

(** A generator that always draws the same coefficients makes the task write one
    piece again and again. *)
Section OnePiece.
Context (c : Cid) (d : list Z) (env : task_env) (e : RlncEncoder) (p0 : CodedPiece) (b0 : list Z) (n : CraftecNode).
Context (Hio : te_io env = all_ok) (Henc : encoder_new d ENCODE_K = Ok e) (Hp0 : forall i, encode_piece e (te_rng env i) = p0).
Context (Hb0 : to_allocvec p0 = Some b0) (Hrng : rng_ok (te_rng env)).
Context (Hget : (get (node_store (nd_app n)) c ReadOk).2 = Ok (Some d)) (Hclean : no_clash (node_store (nd_app n)) b0).

Abbreviation run_task := (task_run n (EncodeStart c) (fun _ => env)).

Definition run_state_ok (nt : CraftecNode * EncodeTask) : Prop :=
  no_clash (node_store (nd_app nt.1)) b0 /\
  match nt.2 with
  | EncodeStart _ => False
  | EncodePieces _ todo _ => Forall (fun p => p = p0) todo
  | EncodeDone => True
  end.

Lemma run_state_step nt : run_state_ok nt -> run_state_ok (task_step nt.1 nt.2 env).
Proof.
  intros [Hc Ht]. destruct nt as [m [c'|c' [|p todo] pcids|]]; cbn [fst snd] in *; cbn [task_step]; [done|by split| |by split].
  apply Forall_cons_iff in Ht as [-> Ht]. unfold encode_piece_step. rewrite Hb0, Hio.
  cbn [cs_put obj_content_store fst snd]. set (a := with_node_pieces _ _).
  pose proof (put_no_clash (node_store a) b0 WriteOk RenameOk Hc) as Hp.
  destruct (put (node_store a) b0 ReadOk WriteOk RenameOk) as [s [x|err]]; by split.
Qed.

Lemma run_state_first : run_state_ok (task_step n (EncodeStart c) env).
Proof.
  cbn [task_step]. unfold encode_begin. rewrite Hio. cbn [cs_get obj_content_store fst snd].
  pose proof (get_files (node_store (nd_app n)) c ReadOk) as Hf. destruct (get _ c ReadOk) as [s r].
  cbn [fst snd] in *. subst r. unfold engine_encode. rewrite Henc.
  split; [intros b'; cbn; rewrite Hf; apply Hclean|]. cbn [snd]. unfold encode_n.
  apply list.Forall_forall. intros p Hp. apply list_elem_of_In, in_map_iff in Hp as (ds & <- & Hds).
  apply in_map_iff in Hds as (i & <- & _). apply Hp0.
Qed.

Lemma run_states i : run_state_ok (run_task (S i)).
Proof.
  induction i as [|i IH]; [exact run_state_first|]. apply run_state_step in IH. revert IH.
  change (run_task (S (S i))) with (let '(m, t) := run_task (S i) in task_step m t env). by destruct (run_task (S i)) as [m t].
Qed.

Lemma run_inputs_ok i : task_input_ok (run_task i).1 (run_task i).2 env.
Proof.
  destruct i as [|i]; [exact Hrng|]. destruct (run_states i) as [Hc Ht].
  destruct (run_task (S i)) as [m [c'|c' [|p todo] pcids|]]; cbn [fst snd] in *; try done.
  apply Forall_cons_iff in Ht as [-> _]. cbn [task_input_ok]. intros b Hb. rewrite Hb0 in Hb. injection Hb as <-. exact Hc.
Qed.

End OnePiece.

Definition run_draws : list (Z * Z) := replicate 32 (1, 1).
Definition run_encoder : RlncEncoder := match encoder_new run_data ENCODE_K with Ok e => e | Err _ => mkEncoder 0 0 [] [] end.
Definition run_piece : CodedPiece := encode_piece run_encoder run_draws.
Definition run_piece_bytes : list Z := default [] (to_allocvec run_piece).
Abbreviation run_cid := (cid_from_data run_data).
Definition run_task_env : task_env := mkTaskEnv all_ok (fun _ => run_draws) 9.

Lemma run_rng_ok : rng_ok (te_rng run_task_env).
Proof. intros i. split; [reflexivity|]. by_compute. Qed.

Lemma run_encodes : encoder_new run_data ENCODE_K = Ok run_encoder.
Proof. vm_compute. reflexivity. Qed.

Lemma piece_serialises (p : CodedPiece) : to_allocvec p = Some (default [] (to_allocvec p)).
Proof. reflexivity. Qed.

Lemma run_serialises : to_allocvec run_piece = Some run_piece_bytes.
Proof. exact (piece_serialises run_piece). Qed.

Lemma run_get : (get (node_store (nd_app run_put)) run_cid ReadOk).2 = Ok (Some run_data).
Proof. vm_compute. reflexivity. Qed.

Lemma run_put_clean : no_clash (node_store (nd_app run_put)) run_piece_bytes.
Proof.
  assert (files (node_store (nd_app run_put)) !! shard_path (cid_from_data run_piece_bytes) = None) as Hn
    by (vm_compute; reflexivity). unfold no_clash. rewrite Hn. discriminate.
Qed.

Lemma run_task_inputs i :
  task_input_ok (task_run run_put (EncodeStart run_cid) (fun _ => run_task_env) i).1
    (task_run run_put (EncodeStart run_cid) (fun _ => run_task_env) i).2 run_task_env.
Proof.
  exact (run_inputs_ok run_cid run_data run_task_env run_encoder run_piece run_piece_bytes run_put
    eq_refl run_encodes (fun _ => eq_refl) run_serialises run_rng_ok run_get run_put_clean i).
Qed.

Lemma run_untracked : get_k (node_tracker (nd_app run_put)) run_cid = None.
Proof. vm_compute. reflexivity. Qed.

Lemma encode_task_completes_witness :
  exists n pcids, piece_cids (node_pieces (nd_app n)) run_cid = Some pcids /\ length pcids = PIECES.
Proof.
  destruct run_put_inv as (M & HM & Hd).
  pose proof (encode_task_completes 512 ltac:(lia) run_put M run_cid run_data (fun _ => run_task_env) HM Hd (fun _ => eq_refl)
    (fun e p _ _ => ex_intro _ _ eq_refl) run_task_inputs run_untracked) as Hr.
  destruct (task_run run_put _ _ _) as [n t]. destruct Hr as (_ & _ & (pcids & Hp & Hl) & _). exists n, pcids. exact (conj Hp Hl).
Defined.

(** One piece of the content, indexed. *)
Definition run_piece_step : CraftecNode * list Cid := encode_piece_step run_put run_cid run_piece [] all_ok.
Definition run_indexed : CraftecNode := encode_finish run_piece_step.1 run_cid run_piece_step.2 9.
Definition run_pcids : list Cid := [cid_from_data run_piece_bytes].

Lemma run_circulates : circulates run_encoder run_piece.
Proof. apply circ_encoded; [vm_compute; reflexivity|by_compute]. Qed.

Lemma run_task_ok M : M !! run_cid = Some run_data -> task_ok M (EncodePieces run_cid [run_piece] []).
Proof.
  intros Hd. split; [|split; constructor]. exists run_data, run_encoder. split_and!; [exact Hd|exact run_encodes|].
  constructor; [exact run_circulates|constructor].
Qed.

Lemma clean_some (s : ObjStore) o b0 : o = Some b0 -> no_clash s b0 -> forall b, o = Some b -> no_clash s b.
Proof. by intros -> Hc b [= <-]. Qed.

Lemma run_piece_clean b : to_allocvec run_piece = Some b -> no_clash (node_store (nd_app run_put)) b.
Proof. exact (clean_some _ (to_allocvec run_piece) run_piece_bytes run_serialises run_put_clean b). Qed.

Lemma run_indexed_inv : exists M, node_inv 512 run_indexed M.
Proof.
  destruct run_put_inv as (M & HM & Hd).
  destruct (piece_inv 512 run_put M run_cid run_piece [] [] all_ok HM (run_task_ok M Hd) run_piece_clean) as (M' & Hn & Ht & _).
  exists M'. exact (finish_inv 512 run_piece_step.1 M' run_cid run_piece_step.2 9 Hn Ht).
Qed.

Lemma run_index : piece_cids (node_pieces (nd_app run_indexed)) run_cid = Some run_pcids.
Proof. vm_compute. reflexivity. Qed.

Lemma indexed_content_served_witness :
  exists qs, (on_message run_indexed (mkInbound [1] (PieceRequest run_cid [] 3) 9 (fun _ => all_ok) demo_sync)).2 = Some (PieceResponse qs 3) /\
    length qs = 1%nat /\ Forall (fun p => cid p = run_cid /\ verify_mac p = true /\ verify_piece_id p = true) qs.
Proof.
  destruct run_indexed_inv as [M HM].
  destruct (indexed_content_served 512 ltac:(lia) run_indexed M run_cid run_pcids [1] [] 3 9 (fun _ => all_ok) demo_sync HM run_index
    ltac:(discriminate) (fun _ => eq_refl)) as (d & e & qs & _ & _ & Hq & Hl & Hf & _).
  exists qs. exact (conj Hq (conj Hl Hf)).
Defined.

(** ** Restarting it *)

Definition run_stopped : dir := (node_shutdown run_put run_fs true).2.
Definition run_rebooted := node_new run_stopped (files (node_store (nd_app run_put))) demo_config demo_boot_env.
Definition run_again : CraftecNode := boot_node run_rebooted.
Definition run_again_fs : dir := boot_dir run_rebooted.

Lemma run_reboot_ok : is_booted run_rebooted = true.
Proof. vm_compute. reflexivity. Qed.

Lemma run_reboots : run_rebooted = Returned (run_again_fs, Ok run_again).
Proof. exact (boot_returned run_rebooted run_reboot_ok). Qed.

Lemma restart_keeps_objects_witness :
  run_stopped !! NODE_LOCK_FILENAME = None /\ nd_id run_again = nd_id run_node.
Proof.
  pose proof (restart_keeps_objects ∅ ∅ demo_config demo_boot_env run_fs run_node ∅ (fun _ => (Ok 1, run_io)) run_started run_put true
    demo_boot_env run_again_fs run_again demo_seen demo_seen eq_refl eq_refl (fun l => reflexivity _) (fun l => reflexivity _)
    (fun l => demo_file_ok 512 l ltac:(lia)) (new_repr _) empty_bytes run_boots run_starts (rtc_once _ _ run_put_evolves)) as Hr.
  destruct (node_shutdown run_put run_fs true) as [m fs'] eqn:Es. destruct Hr as [Hlk Hr].
  assert (run_stopped = fs') as Hf by (unfold run_stopped; rewrite Es; reflexivity). rewrite Hf. split; [exact Hlk|].
  pose proof run_reboots as Hb. unfold run_rebooted in Hb. rewrite Hf in Hb. exact (proj1 (Hr Hb)).
Defined.

(** ** Talking to it from the command line *)

Definition run_cli_env : cli_env :=
  mkCliEnv (fun _ => None) ∅ (fun _ => run_fs) (Some run_data) true true true false.

Lemma run_reads_id : read_node_id run_fs = Ok (nd_id run_node).
Proof. destruct run_booted as (M & secret & Hb). exact (booted_node_id 512 run_fs run_node M secret Hb). Qed.

Lemma run_reaches : reaches run_cli_env run_fs (nd_id run_node).
Proof. split; [reflexivity|exact run_reads_id|reflexivity|repeat split]. Qed.

Definition run_request : RpcRequest :=
  match cli_request run_cli_env run_fs ["execute"; "SELECT 1"]%string with Ok r => r | Err _ => ReqStatus end.

Definition frame_of {E} (r : result (list Z) E) : list Z := match r with Ok b => b | Err _ => [] end.

Lemma cli_execute_authorised_witness :
  exists resp n3, on_rpc run_node 0 [1] run_request run_env = (n3, resp) /\
    (resp = RespSqlExecute (root_cid (node_db (nd_app n3))) \/ resp = RespError 400 "execute failed").
Proof.
  destruct run_booted as (M & secret & Hb).
  assert (cli_request run_cli_env run_fs ["execute"; "SELECT 1"]%string = Ok run_request) as Hq by (vm_compute; reflexivity).
  destruct (cli_execute_authorised 512 run_fs run_node M secret run_cli_env "SELECT 1" run_request run_node 0 [1] run_env
    Hb Hq (rtc_refl _ _)) as [_ Hr].
  destruct (on_rpc run_node 0 [1] run_request run_env) as [n3 resp]. exists resp, n3. exact (conj eq_refl Hr).
Defined.

Lemma run_put_request : encode_rpc_request (ReqStorePut run_data) 0 = Ok (frame_of (encode_rpc_request (ReqStorePut run_data) 0)).
Proof. vm_compute. reflexivity. Qed.

Lemma run_put_response :
  encode_rpc_response (RespStorePut run_cid) (now_next 0 9) = Ok (frame_of (encode_rpc_response (RespStorePut run_cid) (now_next 0 9))).
Proof. vm_compute. reflexivity. Qed.

Lemma run_get_request : encode_rpc_request (ReqStoreGet run_cid) 0 = Ok (frame_of (encode_rpc_request (ReqStoreGet run_cid) 0)).
Proof. vm_compute. reflexivity. Qed.

Lemma run_get_response :
  encode_rpc_response (RespStoreGet (Some run_data)) (now_next 5 9) =
  Ok (frame_of (encode_rpc_response (RespStoreGet (Some run_data)) (now_next 5 9))).
Proof. vm_compute. reflexivity. Qed.

Lemma run_put_same : rtc evolves (on_rpc run_started 0 [1] (ReqStorePut run_data) run_env).1 run_put.
Proof. unfold run_put. apply rtc_refl. Qed.

Lemma run_clock h : 0 <= h < 100 -> clock_ok h 9.
Proof. unfold clock_ok, fits. lia. Qed.

Lemma run_data_bytes : bytes run_data.
Proof. by_compute. Qed.

Lemma cli_put_get_witness :
  run_cli run_cli_env ["store"; "put"]%string (node_serves run_started [1] 0 9 9 (0, run_env)) =
    mkOut (println (cid_to_string run_cid)) [] 0 /\
  run_cli run_cli_env ["store"; "get"; cid_to_string run_cid]%string (node_serves run_put [1] 5 9 9 (0, run_env)) = mkOut run_data [] 0.
Proof.
  destruct run_inv0 as [M HM].
  refine (cli_put_get 512 ltac:(lia) (fun l => demo_file_ok 512 l ltac:(lia)) run_started M run_data run_cli_env run_fs (nd_id run_node) [1] 0 9 9 0
    run_env _ _ run_put run_cli_env [1] 5 9 9 0 run_env _ _ HM run_data_bytes run_no_clash run_reaches run_reaches eq_refl eq_refl eq_refl
    (run_clock 0 ltac:(lia)) (run_clock 5 ltac:(lia)) run_put_request _ run_put_response _ run_put_same run_get_request _ run_get_response _);
    vm_compute; discriminate.
Defined.

(** ** Peers *)

Definition run_peer : CraftecNode :=
  set_ep run_started (with_swim (nd_ep run_started) (set_members (ep_swim (nd_ep run_started)) {[ [9] := Alive 0 ]})).
Definition run_loop_env : loop_env := mkLoopEnv id (fun l n => take n l) (fun _ => run_io).

Lemma dead_peer_purged_witness :
  members (ep_swim (nd_ep (on_swim run_peer (SwimDead [9] 4 [8]) 20).1)) !! [9] = Some (Dead 4) /\
  is_Some (dispatch_round (on_swim run_peer (SwimDead [9] 4 [8]) 20).1 run_loop_env).
Proof.
  destruct (dead_peer_purged run_peer [9] 4 [8] 20 run_loop_env) as [Hm (n2 & Hr & _)].
  - vm_compute. split; [reflexivity|]. split; [reflexivity|lia].
  - vm_compute. reflexivity.
  - vm_compute. discriminate.
  - exists 0. left. vm_compute. reflexivity.
  - split; [exact Hm|]. rewrite Hr. exists n2. reflexivity.
Defined.

Definition peer_ep : CraftecEndpoint := with_swim (endpoint_new [1] 8 5) (set_members (swim_new [1]) {[ [9] := Alive 0; [8] := Dead 3 ]}).

Lemma announce_spec_witness :
  exists ep' sent, announce_cid_to_peers peer_ep run_cid [1] id (fun l n => take n l) (fun _ => run_io) = Returned (ep', sent) /\
    forall t f, (t, f) ∈ sent -> is_alive (ep_swim peer_ep) t = true.
Proof.
  destruct (announce_spec peer_ep run_cid [1] id (fun l n => take n l) (fun _ => run_io)) as (ep' & sent & Ha & Hs & _).
  - intros l n. exists l. split; reflexivity.
  - intros n _. reflexivity.
  - exists ep', sent. split; [exact Ha|]. intros t f Hf. exact (proj1 (Hs t f Hf)).
Defined.

(** A peer that answers pings. *)
#[local] Instance echo_handler : ConnectionHandler unit unit :=
  {| handle_wire h _ msg _ := (h, match msg with Ping n => Some (Pong n) | _ => None end) |}.

Definition sent_ep : CraftecEndpoint :=
  match send_message peer_ep [9] (Ping 7) run_io with Returned (ep, _, _) => ep | Panicked => peer_ep end.
Definition sent_frame : list Z :=
  match send_message peer_ep [9] (Ping 7) run_io with Returned (_, _, Some (_, f)) => f | _ => [] end.
Definition sent_io : stream_io := mkStream (ReadBytes sent_frame) 5 5 true true.

Lemma sent_admitted : exists hlc, hlc_admits 0 (ep_hlc sent_ep) (st_wall sent_io) = Some hlc.
Proof. eexists. vm_compute. reflexivity. Qed.

Lemma message_exchange_witness :
  exists hlc frames, craftec_stream [1] tt (swim_new [9]) 0 sent_io tt = (tt, swim_new [9], hlc, frames, Continue) /\
    forall fr, fr ∈ frames -> Z.of_nat (length fr) <= 2 ^ 32 -> decode_framed_with_hlc fr = Ok (Pong 7, 0).
Proof.
  pose proof (message_exchange peer_ep [9] (Ping 7) run_io sent_ep 1 sent_frame [1] tt (swim_new [9]) 0 sent_io tt
    ltac:(vm_compute; split; [discriminate|reflexivity]) ltac:(vm_compute; reflexivity) ltac:(vm_compute; split; [discriminate|reflexivity])
    ltac:(vm_compute; reflexivity) eq_refl ltac:(vm_compute; discriminate) eq_refl) as [_ Hx].
  destruct sent_admitted as [hlc' Eh]. rewrite Eh in Hx.
  destruct (craftec_stream [1] tt (swim_new [9]) 0 sent_io tt) as [[[[[] s'] hlc] frames] fl].
  destruct Hx as (Hs & Hh & Hf & _ & Hfr). subst s' hlc fl. exists hlc', frames. split; [reflexivity|].
  intros fr Hin Hl. destruct (Hfr fr Hin Hl) as (reply & Hrep & Hd & _). injection Hrep as <-. exact Hd.
Defined.

(** A dead member, a ping and bytes that are no frame. *)
Definition net_evs : list (net_event unit) :=
  [NetOutbound sent_io; NetCraftec [9] sent_io tt; NetSwim (mkStream (ReadBytes [1; 2; 3]) 5 5 true true)].

Lemma endpoint_membership_safe_witness :
  exists j', 3 <= j' /\ members (net_run tt (ep_swim peer_ep) 0 net_evs).1.1.2 !! [8] = Some (Dead j').
Proof.
  pose proof (endpoint_membership_safe (fun _ i => i <= 3) tt (ep_swim peer_ep) 0 net_evs [8] 3
    ltac:(vm_compute; reflexivity) (fun i Hi => Hi)) as Hs.
  destruct (net_run tt (ep_swim peer_ep) 0 net_evs) as [[[h s] hlc] frames]. apply Hs.
  repeat constructor.
Defined.

(** Two peers; the second has accepted a connection of the first and read its ping. *)
Definition net_two : Net unit := mkNet (<[ [9] := (endpoint_new [9] 8 5, tt)]> (<[ [1] := (endpoint_new [1] 8 5, tt)]> ∅)) ∅ ∅ [] [] [].
Definition net_sent_ep : CraftecEndpoint :=
  match send_message (endpoint_new [1] 8 5) [9] (Ping 7) run_io with Returned (ep, _, _) => ep | Panicked => peer_ep end.
Definition net_sent_frame : list Z :=
  match send_message (endpoint_new [1] 8 5) [9] (Ping 7) run_io with Returned (_, _, Some (_, f)) => f | _ => [] end.
Definition net_sent_io : stream_io := mkStream (ReadBytes net_sent_frame) 5 5 true true.
Definition net_link : link := mkLink [1] [9].
Definition net_asked : Net unit := net_put net_two [1] (endpoint_new [1] 8 5) tt [9] (Ping 7) net_sent_ep (Some (1, net_sent_frame)).
Definition net_met : Net unit := net_accept net_asked net_link 1 (endpoint_new [9] 8 5) tt 0 id false.
Definition net_met_ep : CraftecEndpoint := accept_conn (endpoint_new [9] 8 5) ALPN_CRAFTEC [1] 1 0 id false.
Definition net_done : Net unit := read_up net_met net_link 1 [] net_met_ep tt net_sent_io tt.

Definition nt_ep (N : Net unit) (a : NodeId) : CraftecEndpoint := match nt_nodes N !! a with Some (ep, _) => ep | None => peer_ep end.

Lemma net_two_reached : rtc (net_step (Env := unit)) net_empty net_two.
Proof.
  eapply rtc_l; [apply (step_up net_empty [1] 8 5 tt); reflexivity|]. apply rtc_once.
  refine (step_up (mkNet (<[ [1] := (endpoint_new [1] 8 5, tt)]> ∅) ∅ ∅ [] [] []) [9] 8 5 tt _). reflexivity.
Qed.

Lemma net_done_delivered : delivers (Env := unit) net_met (mkFrame 1 true net_sent_frame) net_done.
Proof.
  unfold net_done. refine (deliver_up net_met (mkFrame 1 true net_sent_frame) net_link [] [] net_met_ep tt net_sent_io tt _ _ _ _ _ _);
    try (vm_compute; reflexivity); [by left|split; [reflexivity|vm_compute; discriminate]].
Qed.

Lemma net_done_reached : rtc (net_step (Env := unit)) net_empty net_done.
Proof.
  etransitivity; [exact net_two_reached|].
  eapply rtc_l; [eapply (step_send net_two [1] (endpoint_new [1] 8 5) tt [9] (Ping 7) run_io net_sent_ep (Ok tt) (Some (1, net_sent_frame)))|].
  - reflexivity.
  - split; [discriminate|reflexivity].
  - vm_compute. reflexivity.
  - eapply rtc_l; [apply (step_accept net_asked net_link 1 (endpoint_new [9] 8 5) tt 0 id false)|].
    + vm_compute. reflexivity.
    + apply not_elem_of_empty.
    + vm_compute. reflexivity.
    + apply rtc_once. exact (step_deliver net_met (mkFrame 1 true net_sent_frame) net_done net_done_delivered).
Qed.

Lemma handled_were_sent_witness :
  nt_handled net_done = [([1], [9], Ping 7)] /\ nt_handled net_done ⊆+ nt_sent net_done.
Proof. split; [vm_compute; reflexivity|exact (proj1 (handled_were_sent net_done net_done_reached))]. Defined.


(** The answer of the second peer to the first, over the connection it accepted. *)
Lemma accepted_connection_is_deaf_witness :
  exists ep' bytes, send_message (nt_ep net_done [9]) [1] (Pong 7) run_io = Returned (ep', Ok tt, Some (1, bytes)) /\
    forall N2, rtc (net_step (Env := unit)) (net_put net_done [9] (nt_ep net_done [9]) tt [1] (Pong 7) ep' (Some (1, bytes))) N2 ->
      ([9], [1], Pong 7) :: nt_handled N2 ⊆+ nt_sent N2.
Proof.
  destruct (accepted_connection_is_deaf net_done [9] (nt_ep net_done [9]) tt [1] (mkConn 1 0 0) (Pong 7) run_io net_done_reached)
    as (ep' & bytes & Hs & _ & Hl); try reflexivity; try (vm_compute; reflexivity).
  - eexists. vm_compute. reflexivity.
  - exists ep', bytes. split; [exact Hs|exact Hl].
Defined.

(** ** Requests *)

Lemma rpc_store_refines_map_witness :
  exists M M', M ⊆ M' /\ store_answer M (ReqStorePut run_data) (RespStorePut run_cid) M'.
Proof.
  destruct run_inv0 as [M HM]. exists M.
  pose proof (rpc_store_refines_map 512 ltac:(lia) (fun l => demo_file_ok 512 l ltac:(lia))
    (mkRpcNode (nd_id run_started) (nd_app run_started) (ep_swim (nd_ep run_started)) 0) [1] (ReqStorePut run_data) run_env M
    (ni_app 512 run_started M HM) run_data_bytes (fun l => reflexivity _)) as Hr.
  pose proof run_put_ok as Hok. unfold on_rpc in Hok. destruct (rpc_handle _ _ _ _) as [h resp]. cbn [snd] in Hok. subst resp.
  destruct Hr as (M' & _ & Hsub & Ha). exists M'. exact (conj Hsub Ha).
Defined.

(** ** Agents *)

#[local] Instance demo_keystore : KeyStore := {| ks_sign msg := ed_sign demo_secret msg |}.
#[local] Instance demo_rows : Postcard (list (list ColumnValue)) := {| to_allocvec _ := None; from_bytes _ := None |}.

(** A module that signs the first byte of its memory in a loop. *)
#[local] Instance demo_wasmtime : Wasmtime (IO := obj_io) := {|
  wm_val := Z; wm_module := unit; wm_compile _ := Ok tt; wm_memory _ := Some [1; 2; 3; 4];
  wm_next _ entry _ hist :=
    match entry, list.last hist with
    | Some _, Some (Some _) => ActCheck 1
    | Some _, _ => ActCall 1 (fun _ => HSign 0 1)
    | None, _ => ActReturn 0 []
    end;
  wm_stretch _ := 1%nat; wm_exhausted fuel := fuel <? 0; wm_has_func _ _ := true; wm_fuel_text := "all fuel consumed";
|}.

#[local] Instance demo_wasmtime_laws : WasmtimeLaws.
Proof.
  split.
  - intros m [entry|] args hist; cbn; [|lia]. destruct (list.last hist) as [[]|]; lia.
  - intros fuel. apply Z.ltb_lt.
  - intros m [entry|] args hist [|c [|c' calls]] Hl; try discriminate Hl; [|exact I]. cbn. by rewrite last_snoc.
Qed.

Definition agent_host : HostState (St := ObjStore) := host_new (store_over ∅ 4) None.
Definition agent_outcome :=
  execute_agent (runtime_new 24) false [] "run" [] agent_host (fun _ => all_ok) (fun _ => all_ok).

(** What the run reports: the number of host calls and the error.  The last call is made
    on overdrawn fuel. *)
Definition agent_report : option (nat * option ComError) :=
  match agent_outcome with
  | Some (InvDone _ calls r) => Some (length calls, match r with Ok _ => None | Err e => Some e end)
  | _ => None
  end.

Example agent_runs_out : agent_report = Some (13%nat, Some (FuelExhausted 24 24)).
Proof. vm_compute. reflexivity. Qed.

Lemma agent_invocation_bounded_witness :
  match agent_outcome with
  | Some (InvDone _ calls _) | Some (InvPanicked _ calls) => Z.of_nat (length calls) <= 26
  | None => False
  end.
Proof.
  pose proof (agent_invocation_bounded (runtime_new 24) false [] "run" [] agent_host (fun _ => all_ok) (fun _ => all_ok)
    ltac:(vm_compute; discriminate) ltac:(vm_compute; split; discriminate)) as Hb.
  unfold agent_outcome. revert Hb. generalize (execute_agent (runtime_new 24) false [] "run" [] agent_host (fun _ => all_ok) (fun _ => all_ok)).
  intros [[h' calls r|h' calls]|] Hb; [exact (proj1 Hb)|exact (proj1 Hb)|exact Hb].
Defined.

(** ** Two processes on one machine *)

#[local] Instance config_dec : EqDecision NodeConfig.
Proof. solve_decision. Defined.
#[local] Instance run_json : JsonConfig :=
  {| config_to_json c := if decide (c = demo_config) then Some [49] else None; config_from_json b := if decide (b = [49]) then Some demo_config else None |}.
#[local] Instance run_json_laws : JsonConfigLaws.
Proof. split; intros c b; cbn; (destruct (decide (c = demo_config)) as [->|]; [|done]); intros [= <-]; reflexivity. Qed.

Definition run_machine : Machine := mkMachine {[ CONFIG_FILE := [49] ]} (fun _ => ∅) (fun _ => ∅).
Definition run_proc : process_env :=
  mkProcEnv [] (fun _ => None) (mkFileIo true true true true) demo_boot_env (fun _ => (Ok 1, run_io)) true true [OtherSignal; SIGTERM] true run_cli_env (fun _ => None).

(** The machine and the node after a start that succeeds. *)
Definition is_up (o : Machine * (exit + NodeConfig * CraftecNode)) : bool := match o with (_, inr (c, _)) => bool_decide (c = demo_config) | _ => false end.
Definition up_node (o : Machine * (exit + NodeConfig * CraftecNode)) : CraftecNode := match o with (_, inr (_, n)) => n | _ => run_node end.

Lemma up_booted o : is_up o = true -> o = (o.1, inr (demo_config, up_node o)).
Proof. destruct o as [m [x|[c n]]]; [done|]. cbn. by intros ->%bool_decide_eq_true. Qed.

Definition run_up := process_boot run_machine run_proc.
Definition run_machine1 : Machine := process_stopped run_up.1 "data" (up_node run_up) true.
Definition run_up1 := process_boot run_machine1 run_proc.

Lemma process_stops m : is_up (process_boot m run_proc) = true ->
  main_run m run_proc (process_stopped (process_boot m run_proc).1 "data" (up_node (process_boot m run_proc)) true) (ExitOk (up_node (process_boot m run_proc))).
Proof.
  intros Hup%up_booted. exact (main_shutdown m run_proc _ demo_config _ _ SIGTERM eq_refl Hup (rtc_refl _ _) eq_refl).
Qed.

Lemma run_is_up : is_up run_up = true /\ is_up run_up1 = true.
Proof. split; vm_compute; reflexivity. Qed.

Lemma process_restart_witness : nd_id (up_node run_up1) = nd_id (up_node run_up).
Proof.
  pose proof (process_stops run_machine (proj1 run_is_up)) as Hr1. pose proof (process_stops run_machine1 (proj2 run_is_up)) as Hr2.
  assert (env_ok run_proc) as He by (split; [reflexivity|split; [exact demo_seen|split; [reflexivity|intros l; reflexivity]]]).
  refine (proj1 (process_restart run_machine run_proc run_machine1 (ExitOk (up_node run_up)) (up_node run_up) run_proc _ (ExitOk (up_node run_up1)) (up_node run_up1) ∅
    He He eq_refl _ Hr1 (or_introl eq_refl) Hr2 (or_introl eq_refl))).
  intros cfg Hc. assert (cfg = demo_config) as -> by (vm_compute in Hc; vm_compute; congruence).
  split; [split; [apply new_repr|exact empty_bytes]|intros l; exact (demo_file_ok 512 l ltac:(lia))].
Defined.

(** ** Repairing *)

(** Two stored pieces of the content, and a peer to send to. *)
Definition run_two_steps : CraftecNode * list Cid := encode_piece_step run_piece_step.1 run_cid run_piece run_piece_step.2 all_ok.
Definition run_two : CraftecNode := encode_finish run_two_steps.1 run_cid run_two_steps.2 9.

Lemma run_two_clean b : to_allocvec run_piece = Some b -> no_clash (node_store (nd_app run_piece_step.1)) b.
Proof.
  apply (clean_some _ (to_allocvec run_piece) run_piece_bytes run_serialises).
  assert (files (node_store (nd_app run_piece_step.1)) !! shard_path (cid_from_data run_piece_bytes) = Some run_piece_bytes) as Hn
    by (vm_compute; reflexivity). unfold no_clash. rewrite Hn. congruence.
Qed.

Lemma run_two_inv : exists M, node_inv 512 run_two M.
Proof.
  destruct run_put_inv as (M & HM & Hd).
  assert (task_ok M (EncodePieces run_cid [run_piece; run_piece] [])) as Ht0.
  { split; [|split; constructor]. exists run_data, run_encoder. split_and!; [exact Hd|exact run_encodes|]. constructor; [exact run_circulates|]. constructor; [exact run_circulates|constructor]. }
  destruct (piece_inv 512 run_put M run_cid run_piece [run_piece] [] all_ok HM Ht0 run_piece_clean) as (M1 & Hn1 & Ht1 & _).
  destruct (piece_inv 512 run_piece_step.1 M1 run_cid run_piece [] run_piece_step.2 all_ok Hn1 Ht1 run_two_clean) as (M2 & Hn2 & Ht2 & _).
  exists M2. exact (finish_inv 512 run_two_steps.1 M2 run_cid run_two_steps.2 9 Hn2 Ht2).
Qed.

(** A codec that can at least write every message. *)
#[local] Instance run_wire : Postcard WireMessage := {| to_allocvec _ := Some [0]; from_bytes _ := None |}.

Lemma default_some {A} (d : A) (o : option A) : (match o with Some _ => true | None => false end) = true -> o = Some (default d o).
Proof. by destruct o. Qed.

(** A wake-up that finds one request, and its execution. *)
Lemma pipe_cycle n s m now p1 p2 p3 :
  scan_send (scan_wake (pl_with_node (pipeline_new n s) (on_swim n m now).1)) = Some p1 -> exec_recv p1 = Some p2 ->
  exec_run p2 (fun _ => all_ok) demo_draws 0 run_io = Some p3 -> rtc pipe_step (pipeline_new n s) p3.
Proof.
  intros Hp1 Hp2 Hp3. eapply rtc_l; [apply ps_other, ev_net, (na_swim n m now)|]. eapply rtc_l; [by apply ps_wake|].
  eapply rtc_l; [by apply ps_work, pw_send|]. eapply rtc_l; [by apply ps_work, pw_recv|].
  apply rtc_once, ps_work. eapply pw_run; [exact demo_draws_ok|exact Hp3].
Qed.

Definition run_scanner : HealthScanner := scanner_new 300 (nd_id run_two).
Definition run_pipe : Pipeline := pipeline_new run_two run_scanner.
Definition run_pipe_sent : Pipeline := default run_pipe (scan_send (scan_wake (pl_with_node (pipeline_new run_two run_scanner) (on_swim run_two (SwimAlive [9] 0) 20).1))).
Definition run_pipe_recv : Pipeline := default run_pipe (exec_recv run_pipe_sent).
Definition run_pipe_done : Pipeline := default run_pipe (exec_run run_pipe_recv (fun _ => all_ok) demo_draws 0 run_io).

Lemma run_pipe_reached : rtc pipe_step (pipeline_new run_two run_scanner) run_pipe_done.
Proof.
  refine (pipe_cycle run_two run_scanner (SwimAlive [9] 0) 20 run_pipe_sent run_pipe_recv run_pipe_done
    (default_some run_pipe _ _) (default_some run_pipe _ _) (default_some run_pipe _ _)); vm_compute; reflexivity.
Qed.

Lemma run_pipe_sends : length (pl_sent run_pipe_done) = 1%nat.
Proof. vm_compute. reflexivity. Qed.

Lemma repair_requests_in_order_witness : pl_done run_pipe_done `prefix_of` pl_found run_pipe_done.
Proof. exact (proj1 (proj2 (repair_requests_in_order run_two run_scanner run_pipe_done run_pipe_reached))). Defined.

Lemma repair_pipeline_settles_witness : exists p', rtc pipe_work run_pipe_done p' /\ nf pipe_work p' /\ settled p'.
Proof.
  destruct (repair_pipeline_settles run_io run_two run_scanner run_pipe_done run_pipe_reached) as (_ & (p' & Hr & Hn) & Hs).
  exists p'. split; [exact Hr|]. split; [exact Hn|exact (Hs p' Hr Hn)].
Defined.


(** ** A network of two nodes *)

Definition is_returned {A} (o : outcome A) : bool := match o with Returned _ => true | Panicked => false end.
Definition returned {A} (d : A) (o : outcome A) : A := match o with Returned x => x | Panicked => d end.
Lemma returned_eq {A} (d : A) (o : outcome A) : is_returned o = true -> o = Returned (returned d o).
Proof. by destruct o. Qed.

(** Nodes that differ in their keys. *)
Definition two_env (k : Z) : boot_env :=
  mkBootEnv true true (mkFileIo true true true true) (seqZ k 32) true (fun _ => DirOk) true demo_sync true true true 5 true (mkFileIo true true true true) [].
Abbreviation two_booted k := (node_new ∅ ∅ demo_config (two_env k)).
Abbreviation two_dials := (fun _ : nat => (Ok 1, run_io)).
Definition two_node (k : Z) : CraftecNode := returned run_node (node_start (boot_node (two_booted k)) demo_config two_dials).

Lemma two_start k Y :
  is_booted (two_booted k) = true -> is_returned (node_start (boot_node (two_booted k)) demo_config two_dials) = true ->
  fl_nodes Y !! nd_id (two_node k) = None -> fl_disks Y !! nd_id (two_node k) = None ->
  fleet_step 512 Y (mkFleet (<[nd_id (two_node k) := two_node k]> (fl_nodes Y)) (fl_disks Y) (fl_air Y)).
Proof.
  intros Hb%boot_returned Hs%(returned_eq run_node) Hn Hd. eapply (fleet_start 512 Y _ ∅ demo_config (two_env k)); [done|done|repeat split; done|done|done|by rewrite Hd|exact Hs|done].
Qed.

Abbreviation id_a := (nd_id (two_node 1)).
Abbreviation id_b := (nd_id (two_node 2)).

Definition fleet_one : Fleet := mkFleet (<[id_a := two_node 1]> ∅) ∅ [].
Definition fleet_two : Fleet := mkFleet (<[id_b := two_node 2]> (<[id_a := two_node 1]> ∅)) ∅ [].

Lemma ids_differ : id_a <> id_b.
Proof. vm_compute. discriminate. Qed.

Lemma fleet_one_reached : rtc (fleet_step 512) fleet_empty fleet_one.
Proof. apply rtc_once. apply (two_start 1 fleet_empty); [vm_compute; reflexivity|vm_compute; reflexivity|apply lookup_empty|apply lookup_empty]. Qed.

Lemma fleet_two_reached : rtc (fleet_step 512) fleet_empty fleet_two.
Proof.
  eapply rtc_r; [exact fleet_one_reached|]. apply (two_start 2 fleet_one); [vm_compute; reflexivity|vm_compute; reflexivity| |apply lookup_empty].
  unfold fleet_one. cbn [fl_nodes]. rewrite lookup_insert_ne by exact ids_differ. apply lookup_empty.
Qed.

(** The first node announces at start-up what its database has stored; the second
    hears it. *)
Abbreviation two_storage := (storage_bootstrap (two_node 1) all_ok (fun _ _ => run_loop_env) (fun _ => false)).
Definition two_announced : CraftecNode * list Cid := returned (run_node, []) two_storage.
Definition two_cid : Cid := hd [] two_announced.2.
Definition two_heard : CraftecNode := (on_message (two_node 2) (mkInbound id_a (ProviderAnnounce two_cid id_a) 9 (fun _ => all_ok) demo_sync)).1.

Lemma two_announces : two_storage = Returned two_announced.
Proof. apply returned_eq. vm_compute. reflexivity. Qed.

Lemma two_cid_announced : two_cid ∈ two_announced.2.
Proof. assert (exists l, two_announced.2 = two_cid :: l) as [l ->]; [eexists; vm_compute; reflexivity|]. by left. Qed.

Lemma two_cid_wf : msg_wf (ProviderAnnounce two_cid id_a).
Proof. vm_compute. repeat constructor. Qed.

Definition fleet_heard : Fleet :=
  mkFleet (<[id_b := two_heard]> (<[id_a := two_announced.1]> (fl_nodes fleet_two))) ∅ (from_node id_a [(id_b, ProviderAnnounce two_cid id_a)] ++ []).

Lemma fleet_heard_reached : rtc (fleet_step 512) fleet_empty fleet_heard.
Proof.
  etransitivity; [exact fleet_two_reached|]. eapply rtc_l.
  - refine (fleet_act 512 fleet_two id_a (two_node 1) two_announced.1 [(id_b, ProviderAnnounce two_cid id_a)] _ _).
    + unfold fleet_two. cbn [fl_nodes]. rewrite lookup_insert_ne by (intros He; exact (ids_differ (eq_sym He))). apply lookup_insert_eq.
    + eapply (act_storage _ all_ok (fun _ _ => run_loop_env) (fun _ => false) _ two_announced.2); [rewrite two_announces; by destruct two_announced|].
      apply Forall_singleton. exists two_cid. split; [exact two_cid_announced|reflexivity].
  - apply rtc_once. refine (fleet_deliver 512 _ id_b (two_node 2) (mkInbound id_a (ProviderAnnounce two_cid id_a) 9 (fun _ => all_ok) demo_sync) _ _ _ (fun l => reflexivity _)).
    + cbn [fl_nodes]. rewrite lookup_insert_ne by exact ids_differ. apply lookup_insert_eq.
    + cbn [fl_air from_node map app in_from in_msg]. by left.
    + exact two_cid_wf.
Qed.

Lemma listed_providers_serve_witness :
  exists np pieces, fl_nodes fleet_heard !! id_a = Some np /\ pieces <> [] /\
    (on_message np (mkInbound id_b (PieceRequest two_cid [] 3) 9 (fun _ => all_ok) demo_sync)).2 = Some (PieceResponse pieces 3).
Proof.
  pose proof (listed_providers_serve 512 ltac:(lia) (fun l => demo_file_ok 512 l ltac:(lia)) fleet_heard id_b two_heard two_cid id_a fleet_heard_reached
    (lookup_insert_eq _ _ _) (announce_adds _ _ _ _)) as Hs.
  assert (fl_nodes fleet_heard !! id_a = Some two_announced.1) as Ha.
  { unfold fleet_heard. cbn [fl_nodes]. rewrite lookup_insert_ne by (intros He; exact (ids_differ (eq_sym He))). apply lookup_insert_eq. }
  rewrite Ha in Hs. destruct (Hs id_b [] 3 9 (fun _ => all_ok) demo_sync (fun _ => eq_refl)) as (pieces & Hp & Hne).
  exists two_announced.1, pieces. exact (conj Ha (conj Hne Hp)).
Defined.
